(* ===== verification/_CoqProject ===== *)
-Q . S2P
Prelude.v
Effects.v
LinkedQueue.v
RespQueue.v
Config.v
AddrQueue.v
Quic.v
Engine.v
Socket.v
Lifecycle.v
Body.v
Stream.v
Session.v
SessionInv.v
SessionSafe.v
Request.v
Frame.v
Toy.v
Drain.v
Heads.v
Hooks.v
Registration.v
Workers.v
Service.v
System.v
Complete.v
Flow.v
Wire.v
Feed.v
Responses.v
Io.v
EventLoop.v
Shutdown.v
Wakeup.v
