(* ===== verification/Prelude.v ===== *)
(** * mod_http3: a verification of the HTTP/3 module for the Apache HTTP server

    The program is the C code under src/mod_http3: an httpd module that listens for QUIC
    on a UDP socket, drives one HTTP/3 session per connection, and runs each request in
    httpd's request processing on a worker thread.  OpenSSL (QUIC and TLS), nghttp3
    (HTTP/3 framing), APR and httpd are not part of the repository.

    ** The parts of the program and how they interact

    - Configuration (src/h3_config.c) fills one [h3_server_conf] per server; after the
      post-config hook the first server with certificate and key is the listener's.
    - Each child process (src/h3_server.c) opens the socket (src/h3_socket.c) and starts
      the listener (src/h3_io.c), which owns a QUIC engine (src/quic/h3q.c), a pool of
      worker threads and the event thread (src/h3_threads.c).
    - The event thread pumps the engine, accepts connections, waits for their handshakes,
      makes a session of each (src/h3_session.c), and then gives every session turns:
      accept the streams the peer opened, drain QUIC into nghttp3 (src/h3_stream.c), which
      calls back (src/h3_callbacks.c), flush nghttp3 to QUIC, dispatch complete requests.
    - A worker (src/h3_request.c) builds a request from the stream, lets httpd process it,
      and, through the output filter (src/h3_filter.c), queues the response on the stream's
      bounded queue, which the event thread empties.  Worker and event thread share the
      session under its lock and the counter [active_tasks].
    - Hooks (src/h3_hooks.c) mark HTTP/3 requests and advertise the listener.

    ** The files

    - [Prelude]: machine integers with their wrap-around, byte strings, status codes, the
      hint databases.  [Effects]: the state monad of code that can fault or run out of
      fuel, its verification conditions, and threads as sequences of atomic steps.
    - [LinkedQueue]: the linked FIFO both queues of the program are built from, on an
      explicit heap of nodes.  [RespQueue]: the response queue of a stream, with an
      abstract bounded byte queue ([aqueue], [aq_step]) that it refines.
    - [Config]: directives, merging, resolution.
    - [AddrQueue], [Quic], [Engine]: src/quic.  The queue of datagrams that recovers peer
      addresses; stream and connection wrappers over the class [OpenSSL], which implement
      the interfaces [QuicStreams] and [QuicConns] that the session code is written
      against; creation, pumping and destruction of the engine.
    - [Socket], [Lifecycle]: descriptors, the wakeup pair, the poll, starting and stopping
      a child.
    - [Body], [Stream]: request and response body buffers; a stream with the callbacks'
      effect on it.
    - [Session]: the session's state and every function that runs under its lock, over the
      class [Nghttp3]; a call of nghttp3 is a tree of callbacks that run on the same state.
      [SessionInv]: the invariant and [Nghttp3Spec].  [SessionSafe]: each function keeps it.
    - [Request]: workers and filters, over the class [Httpd].  [Frame]: the updates that
      code under [drain_ready_streams] is made of, and that it keeps every relation which
      allows them.  [Toy]: concrete instances of the classes, which the witnesses evaluate.
      [Drain]: the budgets and the fairness of a pass over the streams.  [Heads]: request
      and response heads.  [Hooks]: the hooks, the connection made for a session and the
      copy of it that a worker gets.  [Registration]: src/mod_http3.c, the module's record
      with its configuration functions, directives, hooks and filters, and what a
      configuration file makes of them.
    - [Workers]: each step of a worker keeps the invariant.  [Service]: dispatching, a
      session's turn, and [sys_step], all interleavings of turns and workers.  [System]:
      what holds in every reachable state of a session with its workers.  [Responses]:
      what a worker queues on its stream, over any interleaving.  [Complete]: the requests
      that a pass over the streams hands on to be dispatched, and the streams it reclaims.
    - [Flow]: bytes between nghttp3 and QUIC in either direction: what code that moves none
      keeps ([calm]), and from the functions that do move them to all executions
      ([flow_run]).  [Wire]: the direction from nghttp3 to QUIC.  [Feed]: the direction from
      QUIC to nghttp3.  What is observed of the two are classes of their own.
    - [Io]: accepting, handshakes, spawning and retiring; [io_step] performs them, and the
      turns of the sessions, in any order, and the listener's invariants are shown of it.
      [EventLoop]: [loop_step], the event thread's loop in the code's order, with its wait
      and its back-off; each of its executions is one of [io_step].
    - [Shutdown]: the end of a session: the deadline, the workers of an aborted session and
      the turn that destroys it.  [Wakeup]: the loop as one session sees it, with the
      datagrams at the wakeup socket.

    Definitions have the names of the C functions; helpers name the part of the function
    they stand for.  C pointers to streams and chunks are locations in finite maps, QUIC
    objects are handles that are never reused; null, dangling and freed ones make a
    computation abort, and so does the use of a stream's pool after its destruction by a
    worker or a session function; a callback that uses one is noted in [ss_stale].  Sizes are
    [Z] with the wrap-around of their C type written out.
    Outcomes of calls into the operating system, APR and OpenSSL are arguments.

    ** What the theorems show

    - Sessions ([System]): no interleaving of the event thread with the workers faults,
      and a callback uses the pool of a stream after its destruction only if nghttp3 had
      asked to stop the stream; no QUIC object has two owners; [active_tasks] is the number
      of running workers, so a session is destroyed after the last of them; every stream's
      buffers are well formed and within the configured limits; what the destruction of a
      session frees and what it does not.
    - The listener ([Io], [EventLoop]): at every point of the loop each connection is in
      its handshake, in one session, or freed once, and the connection limit holds; the
      handshake pass examines every handshake; a round gives every session a turn; when
      the thread ends every connection has been freed.
    - A pass over the streams ([Drain]) stays within its read and byte budgets and is a
      round robin from the stored cursor: the next pass begins with the streams the last
      one left out.
    - Responses ([Responses]): a worker queues exactly the bytes that httpd produced, after
      the head, and completes the response.
    - What is sent and received ([Wire], [Feed]): between nghttp3 and QUIC no byte is lost,
      repeated, reordered or given to another stream, in either direction, in any
      interleaving, however QUIC cuts the writes short and whatever the reads return.
    - Dispatching ([Complete]): a pass over the streams returns and hands on only complete
      requests, each once; a stream the client has reset counts as complete; after the pass
      exactly the closed requests whose worker has returned are gone from the table.
    - The end ([Shutdown]): the grace period is set once and a turn after it aborts the
      session; the workers of an aborted session take finitely many steps under every
      schedule, have finished when none can go on, and the next turn that finds the
      connection shut down destroys the session.
    - Wakeups ([Wakeup]): the event thread never waits, with nothing to wake it, while a
      response has something new that the session's last turn may not have seen.
    - Response data ([RespQueue], [Quic]): the queue refines its specification, keeps the
      bytes in order under any interleaving, never announces the end early, can always be
      drained, and leaks nothing; a stream write queues exactly the prefix it reports.
    - Request data ([Body], [Stream], [Heads]): bodies within the limit are delivered to
      the handler as they were sent; header blocks and response heads are exact.
    - Datagrams and the engine ([AddrQueue], [Engine], [Socket]): datagrams are delivered
      in order with their own address, and which are dropped; the pump returns when OpenSSL
      reads, failures leak nothing, waits are bounded.
    - Configuration, hooks, processes ([Config], [Hooks], [Registration], [Lifecycle]):
      whatever the configuration file says, a child starts with a configuration in which
      every limit is set and in range (the [conf_ready] of the other theorems); requests of
      other protocols are left alone but for Alt-Svc, whichever hooks run, and the status
      page is written on a GET for it; Alt-Svc, the requests of a worker's connection, and
      the descriptors over the life of a child, whichever of its steps fail, with those
      that are closed twice.

    ** Assumptions

    [OpenSSLSpec] and [OpenSSLQueue]: a write reports at most what it was given and queues
    that prefix, a read returns at most what was asked for.  [Nghttp3Spec]: nghttp3 passes
    back the stream pointers it was given, each for the stream it was given for, forgets the
    pointer of a stream when it has reported its close, acknowledges only bytes it was
    handed, and binds and submits without touching other streams.  [pc_ok] and [hc_ok]: the
    pools of new streams can be created; if one cannot, the [CHECK] in [track_stream] ends
    the process.  [call_within]: the BIO under the address filter reports lengths within the
    buffers it was given.  [HttpdSpec]: the documented behaviour of APR's tables and of
    case-insensitive comparison.  [Nghttp3Out]: nghttp3 adds what it
    makes at the end of a stream's output, offers the first bytes of it and drops as many as
    it is told were taken.  [OpenSSLWire]: no other call changes what a stream has been
    given.  [Nghttp3In]: the bytes nghttp3 was given are those of the calls that give it
    bytes, in their order.  [OpenSSLReads]: a read that returns 1 takes the bytes it stores
    from its stream, and no other call takes any. A send on the wakeup pair fails only when
    the pair's buffer is full ([send_ok]). Each class has an instance in [Toy], [Quic],
    [Wire] or [Feed].

    ** Bounds and fuel

    Loops that the data bounds recurse on it: the response append on the bytes left (each
    round takes one at least), acknowledgements on the queue's chunks, the drain on its
    read budget, the handshake pass on the number of handshakes, buffer doubling on the 64
    bits of a size.  The loops that only the environment bounds, flushing nghttp3 and
    accepting streams, take fuel and end in [OutOfFuel] with the state reached; safety
    statements hold for every amount of fuel, so they cover every prefix of those loops.
    A session's turn is shown to end unless one of these loops goes on, whatever the
    workers do.  The pump takes the list of rounds that happen and is shown to return before
    their end if enough of them read what is queued.  The
    event loop runs as long as the listener does: its statements are about every finite
    prefix of a run, and those about a round about every round that has ended.

    ** What is not modelled

    Platform macros and log messages.  nghttp3 is handed the bytes of response chunks by
    value, so the lifetime of chunk memory that its vectors still refer to is not observed.
    What OpenSSL owns and frees with an object (the BIO chain of a listener) follows its
    documentation.  Fields the C code reads or writes
    without the lock ([aborted], [dispatched] of a reserved stream) are single steps, so
    torn accesses are not considered.  The examples and tests of the repository are not
    part of the module.

    This file: integers, bytes, status codes, hint databases and shared lemmas. *)

From Stdlib Require Strings.Byte.
From stdpp Require Export prelude gmap strings list pretty.

(** ** Machine integers

    [size_t], [uint64_t] and [apr_uint32_t] values are kept as [Z]; the operators
    below are the C operators of the corresponding unsigned type, wrap-around
    included. *)

Declare Scope h3_scope.
Delimit Scope h3_scope with h3.
#[global] Open Scope Z_scope.

Definition SIZE_MAX : Z := 2 ^ 64 - 1.
Definition UINT32_MAX : Z := 2 ^ 32 - 1.
Definition wrap64 (z : Z) : Z := z mod 2 ^ 64.
Definition wrap32 (z : Z) : Z := z mod 2 ^ 32.

Notation "a +64 b" := (wrap64 (a + b)) (at level 50, left associativity) : h3_scope.
Notation "a -64 b" := (wrap64 (a - b)) (at level 50, left associativity) : h3_scope.
Notation "a *64 b" := (wrap64 (a * b)) (at level 40, left associativity) : h3_scope.
#[global] Open Scope h3_scope.

Lemma wrap64_small z : 0 <= z <= SIZE_MAX -> wrap64 z = z.
Proof. unfold wrap64, SIZE_MAX. intros. apply Z.mod_small. lia. Qed.

Lemma wrap64_range z : 0 <= wrap64 z <= SIZE_MAX.
Proof. unfold wrap64, SIZE_MAX. pose proof (Z.mod_pos_bound z (2 ^ 64)). lia. Qed.

Lemma wrap32_small z : 0 <= z <= UINT32_MAX -> wrap32 z = z.
Proof. unfold wrap32, UINT32_MAX. intros. apply Z.mod_small. lia. Qed.

(** ** Bytes *)

Abbreviation byte := Byte.byte.
Abbreviation bytes := (list Byte.byte).

#[export] Instance byte_eq_dec : EqDecision Byte.byte := Byte.byte_eq_dec.

(** The length of a byte buffer as a [size_t]. *)
Definition blen (l : bytes) : Z := Z.of_nat (length l).

(** The first [n] bytes of a buffer, and what is left after them. *)
Definition btake (n : Z) (l : bytes) : bytes := take (Z.to_nat n) l.
Definition bdrop (n : Z) (l : bytes) : bytes := drop (Z.to_nat n) l.

Lemma blen_nonneg l : 0 <= blen l.
Proof. unfold blen. lia. Qed.

Lemma blen_nil : blen [] = 0.
Proof. done. Qed.

Lemma blen_app l1 l2 : blen (l1 ++ l2) = blen l1 + blen l2.
Proof. unfold blen. rewrite length_app. lia. Qed.

Lemma blen_btake n l : 0 <= n <= blen l -> blen (btake n l) = n.
Proof. unfold blen, btake. intros. rewrite length_take. lia. Qed.

Lemma blen_bdrop n l : 0 <= n <= blen l -> blen (bdrop n l) = blen l - n.
Proof. unfold blen, bdrop. intros. rewrite length_drop. lia. Qed.

Lemma btake_bdrop n l : btake n l ++ bdrop n l = l.
Proof. apply take_drop. Qed.

Lemma btake_app_bdrop n m l :
  0 <= n -> 0 <= m -> btake n l ++ btake m (bdrop n l) = btake (n + m) l.
Proof.
  unfold btake, bdrop. intros. rewrite take_take_drop. f_equal. lia.
Qed.

Lemma btake_all n l : blen l <= n -> btake n l = l.
Proof. unfold btake, blen. intros. apply take_ge. lia. Qed.

Lemma btake_0 l : btake 0 l = [].
Proof. done. Qed.

Lemma bdrop_0 l : bdrop 0 l = l.
Proof. done. Qed.

Lemma bdrop_bdrop m n l : 0 <= m -> 0 <= n -> bdrop m (bdrop n l) = bdrop (n + m) l.
Proof. unfold bdrop. intros. rewrite drop_drop. f_equal. lia. Qed.

Lemma bdrop_all n l : blen l <= n -> bdrop n l = [].
Proof. unfold bdrop, blen. intros. apply drop_ge. lia. Qed.

Lemma bdrop_app_le n l1 l2 : n <= blen l1 -> bdrop n (l1 ++ l2) = bdrop n l1 ++ l2.
Proof. unfold bdrop, blen. intros. apply drop_app_le. lia. Qed.

Lemma bdrop_app_ge n l1 l2 :
  blen l1 <= n -> bdrop n (l1 ++ l2) = bdrop (n - blen l1) l2.
Proof.
  unfold bdrop, blen. intros. rewrite drop_app_ge by lia. f_equal. lia.
Qed.

Lemma blen_concat_snoc ls l : blen (concat (ls ++ [l])) = blen (concat ls) + blen l.
Proof. rewrite concat_app. simpl. rewrite app_nil_r. apply blen_app. Qed.

(** ** Sub-multisets *)

Lemma NoDup_sub {A} (l k : list A) : l ⊆+ k -> NoDup k -> NoDup l.
Proof. intros [k' ->]%submseteq_Permutation. by intros (? & _ & _)%NoDup_app. Qed.

Lemma Forall_sub {A} (P : A -> Prop) (l k : list A) : l ⊆+ k -> Forall P k -> Forall P l.
Proof. intros [k' ->]%submseteq_Permutation. by intros [? _]%Forall_app. Qed.

(** ** The APR status codes the sources return or test *)

Inductive apr_status :=
  | APR_SUCCESS
  | APR_EINVAL
  | APR_ENOMEM
  | APR_EAGAIN
  | APR_ERANGE
  | APR_EOF
  | APR_TIMEUP
  | APR_ECONNABORTED
  | APR_EGENERAL
  | APR_EOTHER (code : Z).

#[export] Instance apr_status_eq_dec : EqDecision apr_status.
Proof. solve_decision. Defined.

(** What an httpd hook or handler returns. *)
Inductive hook_rv :=
  | OK
  | DECLINED
  | HTTP_STATUS (code : Z).

Definition HTTP_BAD_REQUEST : hook_rv := HTTP_STATUS 400.
Definition HTTP_REQUEST_ENTITY_TOO_LARGE : hook_rv := HTTP_STATUS 413.
Definition HTTP_INTERNAL_SERVER_ERROR : hook_rv := HTTP_STATUS 500.

(** The outcome of code run against a schedule of what its environment does: it ran, the
    schedule is not one that can happen or is too short for the code to return, or the
    code followed a dangling or null pointer. *)
Inductive sched (A : Type) := Ran (a : A) | Unscheduled | Fault.
Arguments Ran {A}.
Arguments Unscheduled {A}.
Arguments Fault {A}.

(** The decimal text of an unsigned number, as [%u] and [%lu] print it. *)
Definition fmt_u (z : Z) : string := pretty (Z.to_N z).

(** ** Automation *)

Create HintDb h3.
Create Rewrite HintDb h3.
#[export] Hint Resolve blen_nonneg : h3.
#[export] Hint Rewrite blen_app blen_nil : h3.

(** Destructs every [if] and [match] scrutinee in hypothesis [H], discarding the
    branches it contradicts. *)
Ltac invert_code H :=
  repeat (simplify_eq/=; case_match; try done; simplify_eq/=).
