(* ===== verification/Effects.v ===== *)
(** * Stateful code

    The functions that work on the session's shared state are written in a state monad:
    a computation returns a value with the new state, aborts (a failed [CHECK], a null or
    dangling pointer, a call on a freed object), or stops because the fuel of a loop that
    nothing in the code bounds is used up; in that case the state reached is kept, so that
    a safety statement covers every prefix of the loop.

    [wp] is the verification condition of a computation from a state with respect to an
    invariant and a preorder of states that every step must respect. *)

From S2P Require Import Prelude.

Inductive outcome (S A : Type) := Ret (a : A) (s : S) | Abort | OutOfFuel (s : S).
Arguments Ret {S A}.
Arguments Abort {S A}.
Arguments OutOfFuel {S A}.

Definition M (S A : Type) : Type := S -> outcome S A.

#[export] Instance M_ret S : MRet (M S) := fun A a s => Ret a s.
#[export] Instance M_bind S : MBind (M S) := fun A B f m s =>
  match m s with Ret a s' => f a s' | Abort => Abort | OutOfFuel s' => OutOfFuel s' end.

Section Operations.
Context {S : Type}.

Definition gets {A} (f : S -> A) : M S A := fun s => Ret (f s) s.
Definition modify (f : S -> S) : M S unit := fun s => Ret tt (f s).
Definition abort {A} : M S A := fun _ => Abort.
Definition out_of_fuel {A} : M S A := fun s => OutOfFuel s.

(** [CHECK(e)]. *)
Definition CHECK (b : bool) : M S unit := if b then mret tt else abort.

(** A pointer that must not be NULL. *)
Definition nonnull {A} (o : option A) : M S A :=
  match o with Some a => mret a | None => abort end.

Definition when (b : bool) (m : M S unit) : M S unit := if b then m else mret tt.

Fixpoint for_each {A} (f : A -> M S unit) (l : list A) : M S unit :=
  match l with [] => mret tt | x :: l' => f x ;; for_each f l' end.

End Operations.

Section Wp.
Context {S : Type} (I : S -> Prop) (R : relation S) `{HR : !PreOrder R}.

Definition wp {A} (s : S) (m : M S A) (Q : A -> S -> Prop) : Prop :=
  match m s with
  | Ret a s' => I s' /\ R s s' /\ Q a s'
  | Abort => False
  | OutOfFuel s' => I s' /\ R s s'
  end.

Lemma wp_ret {A} s (a : A) (Q : A -> S -> Prop) : I s -> Q a s -> wp s (mret a) Q.
Proof. intros. unfold wp. simpl. by split_and!. Qed.

Lemma wp_mono {A} s (m : M S A) (Q Q' : A -> S -> Prop) :
  wp s m Q -> (forall a s', I s' -> R s s' -> Q a s' -> Q' a s') -> wp s m Q'.
Proof. unfold wp. destruct (m s); naive_solver. Qed.

Lemma wp_bind {A B} s (m : M S A) (f : A -> M S B) (Q : B -> S -> Prop) :
  wp s m (fun a s' => wp s' (f a) Q) -> wp s (m ≫= f) Q.
Proof.
  unfold wp, mbind, M_bind. destruct (m s) as [a s'| |s']; [|done|done].
  intros (_ & H1 & H2). destruct (f a s') as [b s''| |s'']; [|done|].
  - destruct H2 as (? & H3 & ?). split_and!; [done|by etrans|done].
  - destruct H2 as [? H3]. split; [done|by etrans].
Qed.

Lemma wp_gets {A} s (f : S -> A) (Q : A -> S -> Prop) : I s -> Q (f s) s -> wp s (gets f) Q.
Proof. intros. unfold wp. simpl. by split_and!. Qed.

Lemma wp_modify s f (Q : unit -> S -> Prop) :
  I (f s) -> R s (f s) -> Q tt (f s) -> wp s (modify f) Q.
Proof. intros. unfold wp. simpl. by split_and!. Qed.

Lemma wp_nonnull {A} s (o : option A) a (Q : A -> S -> Prop) :
  o = Some a -> I s -> Q a s -> wp s (nonnull o) Q.
Proof. intros ->. apply wp_ret. Qed.

Lemma wp_when s b (m : M S unit) (Q : unit -> S -> Prop) :
  I s -> (b = true -> wp s m Q) -> (b = false -> Q tt s) -> wp s (when b m) Q.
Proof. intros. destruct b; simpl; [auto|by apply wp_ret; auto]. Qed.

Lemma wp_check s b (Q : unit -> S -> Prop) : b = true -> I s -> Q tt s -> wp s (CHECK b) Q.
Proof. intros ->. apply wp_ret. Qed.

Lemma wp_out_of_fuel {A} s (Q : A -> S -> Prop) : I s -> wp s out_of_fuel Q.
Proof. intros. unfold wp. simpl. by split. Qed.

(** A loop whose body keeps [J] from every later state. *)
Lemma wp_for_each {A} s (f : A -> M S unit) l (J : S -> Prop) :
  I s -> J s ->
  (forall x s', x ∈ l -> I s' -> R s s' -> J s' -> wp s' (f x) (fun _ s'' => J s'')) ->
  wp s (for_each f l) (fun _ s' => J s').
Proof.
  intros Hs HJ Hf. revert s Hs HJ Hf. induction l as [|x l IH]; intros s Hs HJ Hf; simpl.
  { by apply wp_ret. }
  apply wp_bind. eapply wp_mono; [apply Hf; [left|done|done|done]|].
  intros [] s' Hs' HR' HJ'. apply IH; [done|done|].
  intros y s'' Hy Hs'' HR'' HJ''. apply Hf; [by right|done|by etrans|done].
Qed.

End Wp.

Lemma wp_weaken {S A} (I I' : S -> Prop) (R : relation S) s (m : M S A) (Q : A -> S -> Prop) :
  (forall x, I x -> I' x) -> wp I R s m Q -> wp I' R s m (fun a s' => I s' /\ Q a s').
Proof. intros H. unfold wp. destruct (m s); naive_solver. Qed.

#[global] Arguments wp {S} I R {A} s m Q : simpl never.

(** ** Code without unbounded loops never runs out of fuel *)

Definition fuel_free {S A} (m : M S A) : Prop := forall s s', m s <> OutOfFuel s'.

Lemma fuel_free_bind {S A B} (m : M S A) (f : A -> M S B) :
  fuel_free m -> (forall a, fuel_free (f a)) -> fuel_free (m ≫= f).
Proof.
  intros Hm Hf s s'. unfold mbind, M_bind. destruct (m s) as [a s1| |s1] eqn:Em; [apply Hf|done|].
  by destruct (Hm s s1).
Qed.

Lemma fuel_free_ret {S A} (a : A) : fuel_free (mret a : M S A).
Proof. done. Qed.

Lemma fuel_free_gets {S A} (f : S -> A) : fuel_free (gets f).
Proof. done. Qed.

Lemma fuel_free_modify {S} (f : S -> S) : fuel_free (modify f).
Proof. done. Qed.

Lemma fuel_free_nonnull {S A} (o : option A) : fuel_free (nonnull o : M S A).
Proof. by destruct o. Qed.

Lemma fuel_free_check {S} (b : bool) : fuel_free (CHECK b : M S unit).
Proof. by destruct b. Qed.

Lemma fuel_free_for_each {S A} (f : A -> M S unit) l :
  (forall x, fuel_free (f x)) -> fuel_free (for_each f l).
Proof. intros Hf. induction l as [|x l IH]; [done|]. by apply fuel_free_bind. Qed.

Ltac fuel_free := repeat first
  [ apply fuel_free_ret | apply fuel_free_gets | apply fuel_free_modify | apply fuel_free_nonnull
  | apply fuel_free_check | apply fuel_free_bind; [|intros ?] | apply fuel_free_for_each; intros ?
  | case_match ].

(** What a computation that returned has run. *)
Lemma bind_inv {S A B} (m : M S A) (f : A -> M S B) s b s' :
  (m ≫= f) s = Ret b s' -> exists a s1, m s = Ret a s1 /\ f a s1 = Ret b s'.
Proof. unfold mbind, M_bind. destruct (m s) as [a s1| |]; [|done|done]. by exists a, s1. Qed.

Ltac binv H a s1 H1 := apply bind_inv in H as (a & s1 & H1 & H).

(** ** Relations that code preserves

    [preserves R m]: when [m] returns, [R] holds between the states before and after. *)

Definition preserves {S A} (R : relation S) (m : M S A) : Prop :=
  forall s a s', m s = Ret a s' -> R s s'.

Section Preserves.
Context {S : Type} (R : relation S) `{!PreOrder R}.

Lemma preserves_bind {A B} (m : M S A) (f : A -> M S B) :
  preserves R m -> (forall a, preserves R (f a)) -> preserves R (m ≫= f).
Proof.
  intros Hm Hf s b s'. unfold mbind, M_bind. destruct (m s) as [a s1| |] eqn:Em; [|done|done].
  intros Hs. etrans; [by eapply Hm|by eapply Hf].
Qed.

Lemma preserves_ret {A} (a : A) : preserves R (mret a : M S A).
Proof. by intros s b s' [= _ <-]. Qed.

Lemma preserves_gets {A} (f : S -> A) : preserves R (gets f).
Proof. by intros s b s' [= _ <-]. Qed.

Lemma preserves_modify f : (forall s, R s (f s)) -> preserves R (modify f).
Proof. intros Hf s b s' [= _ <-]. apply Hf. Qed.

Lemma preserves_nonnull {A} (o : option A) : preserves R (nonnull o : M S A).
Proof. destruct o; [apply preserves_ret|by intros s b s']. Qed.

Lemma preserves_check b : preserves R (CHECK b : M S unit).
Proof. destruct b; [apply preserves_ret|by intros s a s']. Qed.

Lemma preserves_abort {A} : preserves R (abort : M S A).
Proof. by intros s a s'. Qed.

Lemma preserves_for_each {A} (f : A -> M S unit) l :
  (forall x, preserves R (f x)) -> preserves R (for_each f l).
Proof. intros Hf. induction l as [|x l IH]; [apply preserves_ret|]. by apply preserves_bind. Qed.

End Preserves.

(** [tac] shows that an update preserves the relation. *)
Ltac preserves tac := repeat first
  [ apply preserves_ret; apply _ | apply preserves_gets; apply _ | apply preserves_nonnull; apply _
  | apply preserves_check; apply _ | apply preserves_abort
  | apply preserves_modify; intros ?; solve [tac]
  | apply preserves_bind; [apply _| |intros ?] | apply preserves_for_each; [apply _|intros ?] | case_match ].

(** The same by the structure of the code, without unfolding: [leaf] is for updates, [look]
    for the functions that are called. *)
Ltac solve_preserves leaf look :=
  repeat lazymatch goal with
  | |- preserves _ (mret _) => apply preserves_ret; apply _
  | |- preserves _ (gets _) => apply preserves_gets; apply _
  | |- preserves _ (nonnull _) => apply preserves_nonnull; apply _
  | |- preserves _ (CHECK _) => apply preserves_check; apply _
  | |- preserves _ abort => apply preserves_abort
  | |- preserves _ out_of_fuel => intros ? ? ? [=]
  | |- preserves _ (modify _) => apply preserves_modify; intros ?; leaf
  | |- preserves _ (mbind _ _) => apply preserves_bind; [apply _| |intros ?]
  | |- preserves _ (for_each _ _) => apply preserves_for_each; [apply _|intros ?]
  | |- preserves _ (when _ _) => unfold when
  | |- preserves _ (if ?b then _ else _) => destruct b
  | |- preserves _ (match ?x with _ => _ end) => destruct x
  | |- preserves _ _ => look
  end.

(** ** Threads

    A thread that has finished, or whose next atomic step gives the rest of it; a step
    that gives nothing leaves the thread where it is, waiting to take the step again.
    Other threads can run between any two steps. *)

Inductive thread (S : Type) := Finished | Atomic (m : S -> outcome S (option (thread S))).
Arguments Finished {S}.
Arguments Atomic {S}.

(** A computation of a thread, in continuation style. *)
Definition T (S A : Type) : Type := (A -> thread S) -> thread S.

#[export] Instance T_ret S : MRet (T S) := fun A a k => k a.
#[export] Instance T_bind S : MBind (T S) := fun A B f m k => m (fun a => f a k).

Definition atomic {S A} (m : M S A) : T S A := fun k => Atomic (a ← m; mret (Some (k a))).

(** A step that waits while it has no result. *)
Definition await {S A} (m : M S (option A)) : T S A := fun k => Atomic (o ← m; mret (k <$> o)).

Definition exit_thread {S A} (m : M S unit) : T S A := fun _ => Atomic (m ;; mret (Some Finished)).

(** Every step of the thread, whatever the others did before, satisfies [P]. *)
Inductive all_steps {S} (P : M S (option (thread S)) -> Prop) : thread S -> Prop :=
  | all_done : all_steps P Finished
  | all_step m :
      P m -> (forall s t s', m s = Ret (Some t) s' -> all_steps P t) -> all_steps P (Atomic m).

(** A part of a thread whose steps satisfy [P]. *)
Definition each {S A} (P : M S (option (thread S)) -> Prop) (m : T S A) : Prop :=
  forall k, (forall a, all_steps P (k a)) -> all_steps P (m k).

Section Each.
Context {S : Type} (P : M S (option (thread S)) -> Prop).

Lemma each_ret {A} (a : A) : each P (mret a).
Proof. intros k Hk. apply Hk. Qed.

Lemma each_bind {A B} (m : T S A) (f : A -> T S B) : each P m -> (forall a, each P (f a)) -> each P (m ≫= f).
Proof. intros Hm Hf k Hk. apply Hm. intros a. by apply Hf. Qed.

Lemma each_atomic {A} (m : M S A) : (forall k : A -> thread S, P (a ← m; mret (Some (k a)))) -> each P (atomic m).
Proof.
  intros HP k Hk. apply all_step; [apply HP|]. intros s t s'. unfold mbind, M_bind.
  destruct (m s); intros [=]; subst; auto.
Qed.

Lemma each_await {A} (m : M S (option A)) :
  (forall k : A -> thread S, P (o ← m; mret (k <$> o))) -> each P (await m).
Proof.
  intros HP k Hk. apply all_step; [apply HP|]. intros s t s'. unfold mbind, M_bind.
  destruct (m s) as [[a|] s1| |]; intros [=]; subst; auto.
Qed.

Lemma each_exit {A} (m : M S unit) : P (m ;; mret (Some Finished)) -> each P (exit_thread (A := A) m).
Proof.
  intros HP k _. apply all_step; [apply HP|]. intros s t s'. unfold mbind, M_bind.
  destruct (m s); intros [=]; subst. constructor.
Qed.

End Each.

(** Goes through a part of a thread and leaves its steps to [tac]. *)
Ltac solve_each tac :=
  repeat lazymatch goal with
  | |- each _ (mret _) => apply each_ret
  | |- each _ (atomic _) => apply each_atomic; intros ?; tac
  | |- each _ (await _) => apply each_await; intros ?; tac
  | |- each _ (exit_thread _) => apply each_exit; tac
  | |- each _ (mbind _ _) => apply each_bind; [|intros ?]
  | |- each _ (if ?b then _ else _) => destruct b
  | |- each _ (match ?x with _ => _ end) => destruct x
  | |- each _ _ => assumption || match goal with IH : forall _, _ |- _ => apply IH end
  end.

(** A thread that never waits: each of its steps, if it returns, gives the rest of it. *)
Definition moves {S} (m : M S (option (thread S))) : Prop := forall s s', m s <> Ret None s'.
Abbreviation no_wait := (all_steps moves).

Lemma moves_some {S A} (m : M S A) (k : A -> thread S) : moves (a ← m; mret (Some (k a))).
Proof. intros s s'. unfold mbind, M_bind. by destruct (m s). Qed.

(** *** Threads end

    [next t' t]: a step of [t] has left [t']. *)

Definition next {S} (t' t : thread S) : Prop := exists m s s', t = Atomic m /\ m s = Ret (Some t') s'.

Lemma all_steps_acc {S} (P : M S (option (thread S)) -> Prop) t : all_steps P t -> Acc next t.
Proof.
  induction 1 as [|m _ _ IH]; constructor; intros t' (m' & s & s' & Ht & Hm); [done|].
  injection Ht as <-. by eapply IH.
Qed.

(** One thread of several takes a step. *)
Definition next_of {S} (l' l : list (thread S)) : Prop :=
  exists l1 t t' l2, l = l1 ++ t :: l2 /\ l' = l1 ++ t' :: l2 /\ next t' t.

Lemma next_of_cons {S} (t : thread S) l l' :
  next_of l' (t :: l) -> (exists t', l' = t' :: l /\ next t' t) \/ (exists k, l' = t :: k /\ next_of k l).
Proof.
  intros (l1 & t0 & t' & l2 & Hl & -> & Hn). destruct l1 as [|t1 l1]; simplify_eq/=.
  - left. by exists t'.
  - right. exists (l1 ++ t' :: l2). split; [done|]. by exists l1, t0, t', l2.
Qed.

Lemma next_of_acc {S} (l : list (thread S)) : Forall (Acc next) l -> Acc next_of l.
Proof.
  induction 1 as [|t l Ht _ IH].
  { constructor. intros l' (l1 & t & t' & l2 & Hl & _). by destruct l1. }
  revert l IH. induction Ht as [t _ IHt]. intros l Hl. induction Hl as [l Hl' IHl].
  constructor. intros l' [(t' & -> & Hn)|(k & -> & Hn)]%next_of_cons; [|by apply IHl].
  apply IHt; [done|]. by constructor.
Qed.
