(* ===== verification/LinkedQueue.v ===== *)
(** * Singly linked FIFO queues with head and tail pointers

    mod_http3 has two of them: the response chunks of a stream
    ([h3_stream::response_head]/[response_tail], src/mod_http3/src/h3_session.c) and the
    datagrams the peer-address BIO holds back
    ([h3q_engine::peer_rx_head]/[peer_rx_tail], src/mod_http3/src/quic/detail/h3q_addr.c).
    Both link a [malloc]ed node behind the tail, free the head node, and free the whole
    list with the same C statements.  The node heap is a finite map from locations to
    nodes; a location that is not in the map is not allocated, so reading through it has
    no result ([None]).  [chain] and [lq_rep] relate a queue to the list it stands for;
    [lq_rep] also says that the heap holds the nodes of the queue and nothing else, so
    that every operation that keeps it neither leaks nor frees twice. *)

From S2P Require Import Prelude.

Abbreviation loc := positive.

Record node (A : Type) := Node { nd_next : option loc; nd_val : A }.
Arguments Node {A}.
Arguments nd_next {A}.
Arguments nd_val {A}.

Record lqueue (A : Type) := LQueue {
  lq_heap : gmap loc (node A);
  lq_fresh : loc;              (** the next location [malloc] returns *)
  lq_head : option loc;
  lq_tail : option loc }.
Arguments LQueue {A}.
Arguments lq_heap {A}.
Arguments lq_fresh {A}.
Arguments lq_head {A}.
Arguments lq_tail {A}.

Section Operations.
Context {A : Type}.
Implicit Types (q : lqueue A) (h : gmap loc (node A)) (v : A) (l : list (loc * A)).

Definition lq_empty : lqueue A := LQueue ∅ 1%positive None None.

(** [x = malloc(..); x->next = NULL; if (tail) tail->next = x; else head = x; tail = x;] *)
Definition lq_push q v : option (lqueue A * loc) :=
  let x := lq_fresh q in
  let h := <[x := Node None v]> (lq_heap q) in
  match lq_tail q with
  | Some t =>
      match h !! t with
      | Some n => Some (LQueue (<[t := Node (Some x) (nd_val n)]> h) (Pos.succ x)
                               (lq_head q) (Some x), x)
      | None => None
      end
  | None => Some (LQueue h (Pos.succ x) (Some x) (Some x), x)
  end.

(** [item = head; head = item->next; if (!head) tail = NULL; free(item);] *)
Definition lq_drop_head q : option (lqueue A) :=
  match lq_head q with
  | Some x =>
      match lq_heap q !! x with
      | Some n =>
          Some (LQueue (delete x (lq_heap q)) (lq_fresh q) (nd_next n)
                       (match nd_next n with Some _ => lq_tail q | None => None end))
      | None => None
      end
  | None => None
  end.

(** The head node's contents. *)
Definition lq_peek q : option A :=
  match lq_head q with
  | Some x => nd_val <$> lq_heap q !! x
  | None => None
  end.

(** A store to the head node: [head->... = ...]. *)
Definition lq_set_head q v : option (lqueue A) :=
  match lq_head q with
  | Some x =>
      match lq_heap q !! x with
      | Some n => Some (LQueue (<[x := Node (nd_next n) v]> (lq_heap q)) (lq_fresh q)
                               (lq_head q) (lq_tail q))
      | None => None
      end
  | None => None
  end.

(** [while (item) { next = item->next; free(item); item = next; }]: [fuel] bounds the
    number of nodes the walk may visit. *)
Fixpoint lq_free_from (fuel : nat) h (p : option loc) : option (gmap loc (node A)) :=
  match p with
  | None => Some h
  | Some x =>
      match fuel with
      | O => None
      | S fuel' =>
          match h !! x with
          | Some n => lq_free_from fuel' (delete x h) (nd_next n)
          | None => None
          end
      end
  end.

(** The clearing loop, then [head = NULL; tail = NULL;]. *)
Definition lq_clear q : option (lqueue A) :=
  match lq_free_from (size (lq_heap q)) (lq_heap q) (lq_head q) with
  | Some h => Some (LQueue h (lq_fresh q) None None)
  | None => None
  end.

(** ** Representation *)

(** Following [next] from [p] visits exactly the locations and contents of [l]. *)
Fixpoint chain h (p : option loc) l : Prop :=
  match l with
  | [] => p = None
  | (x, v) :: l' => p = Some x /\ exists nxt, h !! x = Some (Node nxt v) /\ chain h nxt l'
  end.

Record lq_rep q l : Prop := {
  rep_chain : chain (lq_heap q) (lq_head q) l;
  rep_tail : lq_tail q = fst <$> last l;
  rep_nodup : NoDup l.*1;
  rep_dom : dom (lq_heap q) = list_to_set l.*1;
  rep_fresh : forall x, x ∈ l.*1 -> (x < lq_fresh q)%positive }.

End Operations.

Section Lemmas.
Context {A : Type}.
Implicit Types (q : lqueue A) (h : gmap loc (node A)) (v : A) (l : list (loc * A)).

Lemma lq_empty_rep : lq_rep (@lq_empty A) [].
Proof. split; simpl; try done. apply NoDup_nil_2. intros x Hx. set_solver. Qed.

(** A chain only depends on the nodes it visits. *)
Lemma chain_frame h h' p l :
  (forall x, x ∈ l.*1 -> h' !! x = h !! x) -> chain h p l -> chain h' p l.
Proof.
  revert p. induction l as [|[x v] l IH]; intros p Hx Hc; [done|].
  destruct Hc as (-> & nxt & Hl & Hc). split; [done|].
  exists nxt. split; [rewrite Hx; [done|set_solver]|].
  apply IH; [|done]. intros y Hy. apply Hx. simpl. set_solver.
Qed.

Lemma chain_lookup h p l i x v :
  chain h p l -> l !! i = Some (x, v) ->
  h !! x = Some (Node (fst <$> l !! S i) v).
Proof.
  revert p i. induction l as [|[y w] l IH]; intros p i Hc Hi; [done|].
  destruct Hc as (-> & nxt & Hl & Hc). destruct i as [|i]; simplify_eq/=.
  - destruct l as [|[z u] l]; simpl in *; [by subst|]. by destruct Hc as [-> _].
  - by eapply IH.
Qed.

Lemma chain_head h p l : chain h p l -> p = fst <$> head l.
Proof. destruct l as [|[x v] l]; simpl; [done|]. by intros [-> _]. Qed.

(** Extending the last node's [next] field extends the chain. *)
Lemma chain_snoc h p l t w x v :
  chain h p (l ++ [(t, w)]) -> x ∉ (l ++ [(t, w)]).*1 -> NoDup (l ++ [(t, w)]).*1 ->
  chain (<[t := Node (Some x) w]> (<[x := Node None v]> h)) p (l ++ [(t, w); (x, v)]).
Proof.
  revert p. induction l as [|[y u] l IH]; intros p Hc Hx Hnd; simpl in *.
  - destruct Hc as (-> & nxt & Hl & ->). split; [done|].
    exists (Some x). rewrite lookup_insert_eq. split; [done|]. split; [done|].
    exists None. rewrite lookup_insert_ne by set_solver. by rewrite lookup_insert_eq.
  - destruct Hc as (-> & nxt & Hl & Hc). apply NoDup_cons in Hnd as [Hy Hnd].
    split; [done|]. exists nxt. split.
    + rewrite !lookup_insert_ne; [done| |]; intros ->.
      * apply Hx. left.
      * apply Hy. rewrite fmap_app. set_solver.
    + apply IH; [done| |done]. intros Hin. apply Hx. by right.
Qed.

Lemma lq_push_rep q l v :
  lq_rep q l ->
  exists q', lq_push q v = Some (q', lq_fresh q) /\ lq_rep q' (l ++ [(lq_fresh q, v)])
             /\ lq_fresh q ∉ l.*1.
Proof.
  intros [Hc Ht Hnd Hdom Hfr].
  assert (Hx : lq_fresh q ∉ l.*1) by (intros H; apply Hfr in H; lia).
  unfold lq_push. destruct (last l) as [[t w]|] eqn:El; simpl in Ht; rewrite Ht.
  - apply last_Some in El as [l0 ->].
    assert (Hl : lq_heap q !! t = Some (Node None w)).
    { rewrite (chain_lookup _ _ _ (length l0) t w Hc).
      - by rewrite (lookup_ge_None_2 (l0 ++ _)) by (rewrite length_app; simpl; lia).
      - by rewrite lookup_app_r, Nat.sub_diag by lia. }
    rewrite lookup_insert_ne by (intros Heq; apply Hx; rewrite Heq, fmap_app; set_solver).
    rewrite Hl. eexists. split; [done|]. split; [|done]. split; simpl.
    + rewrite <- app_assoc. by apply chain_snoc.
    + by rewrite last_snoc.
    + rewrite fmap_app. apply NoDup_app. split_and!; [done|set_solver|apply NoDup_singleton].
    + rewrite !dom_insert_L, Hdom, !fmap_app, !list_to_set_app_L. set_solver.
    + intros x. rewrite fmap_app, elem_of_app. intros [H|H]; [apply Hfr in H; lia|].
      apply list_elem_of_singleton in H. simpl in H. lia.
  - apply last_None in El as ->. simpl in *. eexists. split; [done|]. split; [|done].
    split; simpl.
    + split; [done|]. exists None. by rewrite lookup_insert_eq.
    + done.
    + apply NoDup_singleton.
    + rewrite dom_insert_L, Hdom. set_solver.
    + intros x Hin. apply list_elem_of_singleton in Hin. lia.
Qed.

Lemma lq_drop_head_rep q x v l :
  lq_rep q ((x, v) :: l) -> exists q', lq_drop_head q = Some q' /\ lq_rep q' l
    /\ lq_fresh q' = lq_fresh q.
Proof.
  intros [(Hh & nxt & Hl & Hc) Ht Hnd Hdom Hfr]. unfold lq_drop_head. simpl in *.
  rewrite Hh, Hl. eexists. split; [done|]. split; [|done].
  apply NoDup_cons in Hnd as [Hx Hnd]. split; simpl.
  - eapply chain_frame; [|done]. intros y Hy. rewrite lookup_delete_ne; [done|].
    intros ->. done.
  - destruct l as [|[y w] l]; simpl in *; [by subst|]. destruct Hc as [-> _]. done.
  - done.
  - rewrite dom_delete_L, Hdom. set_solver.
  - intros y Hy. apply Hfr. set_solver.
Qed.

Lemma lq_peek_rep q x v l : lq_rep q ((x, v) :: l) -> lq_peek q = Some v.
Proof.
  intros [(Hh & nxt & Hl & Hc) _ _ _ _]. unfold lq_peek. by rewrite Hh, Hl.
Qed.

Lemma lq_set_head_rep q x v w l :
  lq_rep q ((x, v) :: l) -> exists q', lq_set_head q w = Some q' /\ lq_rep q' ((x, w) :: l)
    /\ lq_fresh q' = lq_fresh q.
Proof.
  intros [(Hh & nxt & Hl & Hc) Ht Hnd Hdom Hfr]. unfold lq_set_head. simpl in *.
  rewrite Hh, Hl. eexists. split; [done|]. split; [|done].
  split; simpl.
  - split; [done|]. exists nxt. rewrite lookup_insert_eq. split; [done|].
    eapply chain_frame; [|done]. intros y Hy. apply NoDup_cons in Hnd as [Hx _].
    rewrite lookup_insert_ne; [done|]. intros ->. done.
  - rewrite Ht. destruct l as [|]; done.
  - done.
  - rewrite dom_insert_L, Hdom. set_solver.
  - done.
Qed.

Lemma lq_free_from_chain fuel h p l :
  chain h p l -> NoDup l.*1 -> (length l <= fuel)%nat ->
  exists h', lq_free_from fuel h p = Some h' /\ dom h' = dom h ∖ list_to_set l.*1.
Proof.
  revert h p l. induction fuel as [|fuel IH]; intros h p [|[x v] l] Hc Hnd Hle;
    simpl in *; try lia.
  1,2: subst p; exists h; split; [done|set_solver].
  destruct Hc as (-> & nxt & Hl & Hc). apply NoDup_cons in Hnd as [Hx Hnd].
  rewrite Hl. simpl. destruct (IH (delete x h) nxt l) as (h' & -> & Hd); [|done|lia|].
  - eapply chain_frame; [|done]. intros y Hy. rewrite lookup_delete_ne; [done|].
    intros ->. done.
  - exists h'. split; [done|]. rewrite Hd, dom_delete_L. set_solver.
Qed.

(** Clearing a well-formed queue frees every node, each once. *)
Lemma lq_clear_rep q l : lq_rep q l -> exists q', lq_clear q = Some q' /\ lq_rep q' []
    /\ lq_fresh q' = lq_fresh q.
Proof.
  intros [Hc Ht Hnd Hdom Hfr]. unfold lq_clear.
  destruct (lq_free_from_chain (size (lq_heap q)) _ _ _ Hc Hnd) as (h' & -> & Hd).
  { rewrite <- size_dom, Hdom, size_list_to_set, length_fmap by done. lia. }
  eexists. split; [done|]. split; [|done]. split; simpl; try done.
  - apply NoDup_nil_2.
  - rewrite Hd, Hdom. set_solver.
  - intros x Hx. set_solver.
Qed.

Lemma lq_rep_head q l : lq_rep q l -> lq_head q = fst <$> head l.
Proof. intros [Hc _ _ _ _]. by apply chain_head in Hc. Qed.

Lemma lq_rep_lookup q l i x v :
  lq_rep q l -> l !! i = Some (x, v) ->
  lq_heap q !! x = Some (Node (fst <$> l !! S i) v).
Proof. intros [Hc _ _ _ _]. by eapply chain_lookup. Qed.

End Lemmas.
