(* ===== verification/RespQueue.v ===== *)
(** * The bounded response queue of a stream (h3_session.c)

    An Apache request worker appends response bytes, the QUIC event thread hands them to
    nghttp3 through [h3_session_read_data] and releases them when nghttp3 acknowledges
    them.  The queue is the linked list of [h3_response_chunk]s of
    src/mod_http3/src/h3_session.c together with the response fields of [h3_stream]
    (src/mod_http3/include/h3_session.h); reading a freed chunk has no result ([None]).

    [rq_inv] is the representation invariant; [aqueue] and [aq_step] are the abstract
    specification, two byte sequences (handed out and not yet acknowledged, and still to
    be handed out); the simulation lemmas show that every operation implements it. *)

From S2P Require Import Prelude LinkedQueue.

Definition STREAM_CHUNK_BYTES : Z := 4 * 1024.

(** [struct h3_response_chunk]; [next] is the node's link field. *)
Record h3_response_chunk := Chunk { ck_len : Z; ck_acked : Z; ck_data : bytes }.

(** The response fields of [struct h3_stream]. *)
Record resp_queue := RespQueue {
  rq_q : lqueue h3_response_chunk;   (** [response_head], [response_tail] and the chunks *)
  rq_submit_chunk : option loc;
  rq_submit_offset : Z;
  rq_buffered : Z;
  rq_len : Z;
  rq_limit : Z;
  rq_submitted : bool;
  rq_complete : bool;
  rq_cancelled : bool }.

(** The fields of [h3_session] the producer tests. *)
Record sess_flags := SessFlags { sf_aborted : bool; sf_ngh3_dead : bool; sf_ngh3 : bool }.

(** A zeroed stream's queue, with [response_buffer_limit] set by [track_stream]. *)
Definition rq_new (limit : Z) : resp_queue :=
  RespQueue lq_empty None 0 0 0 limit false false false.

Definition h3_stream_response_cancel_locked (q : resp_queue) : resp_queue :=
  RespQueue (rq_q q) (rq_submit_chunk q) (rq_submit_offset q) (rq_buffered q) (rq_len q)
            (rq_limit q) (rq_submitted q) true true.

Definition rq_set_complete (q : resp_queue) : resp_queue :=
  RespQueue (rq_q q) (rq_submit_chunk q) (rq_submit_offset q) (rq_buffered q) (rq_len q)
            (rq_limit q) (rq_submitted q) true (rq_cancelled q).

Definition rq_set_submitted (q : resp_queue) : resp_queue :=
  RespQueue (rq_q q) (rq_submit_chunk q) (rq_submit_offset q) (rq_buffered q) (rq_len q)
            (rq_limit q) true (rq_complete q) (rq_cancelled q).

(** ** Producer *)

Inductive append_result :=
  | AppendBlocked                              (** waits on [response_cond] *)
  | AppendFailed (rv : apr_status)
  | AppendQueued (chunk_len : Z) (resume : bool).

(** The condition of the wait loop. *)
Definition append_must_wait (fl : sess_flags) (q : resp_queue) : bool :=
  (rq_limit q <=? rq_buffered q) && negb (rq_cancelled q) && negb (sf_aborted fl)
    && negb (sf_ngh3_dead fl).

(** Linking [chunk] behind the tail and accounting for it. *)
Definition append_link (q : resp_queue) (chunk_len : Z) (piece : bytes) : option resp_queue :=
  match lq_push (rq_q q) (Chunk chunk_len 0 piece) with
  | Some (l, x) =>
      let '(sub, off) := match rq_submit_chunk q with
                         | Some y => (Some y, rq_submit_offset q)
                         | None => (Some x, 0)
                         end in
      Some (RespQueue l sub off (rq_buffered q +64 chunk_len) (rq_len q +64 chunk_len)
                      (rq_limit q) (rq_submitted q) (rq_complete q) (rq_cancelled q))
  | None => None
  end.

(** The next chunk's length: what is left of the data, the room in the queue, and
    [STREAM_CHUNK_BYTES], whichever is smallest. *)
Definition append_chunk_len (q : resp_queue) (len offset : Z) : Z :=
  let room := rq_limit q -64 rq_buffered q in
  let chunk_len := len -64 offset in
  let chunk_len := if room <? chunk_len then room else chunk_len in
  if STREAM_CHUNK_BYTES <? chunk_len then STREAM_CHUNK_BYTES else chunk_len.

(** One round of the [while (offset < len)] loop, from taking the session lock to
    releasing it. [malloc_ok] says whether the chunk allocation succeeds. *)
Definition response_append_locked (fl : sess_flags) (malloc_ok : bool) (q : resp_queue)
    (data : bytes) (offset : Z) : option (resp_queue * append_result) :=
  if append_must_wait fl q then Some (q, AppendBlocked)
  else if rq_cancelled q || sf_aborted fl || sf_ngh3_dead fl || negb (sf_ngh3 fl)
  then Some (q, AppendFailed APR_ECONNABORTED)
  else
    let chunk_len := append_chunk_len q (blen data) offset in
    if (chunk_len =? 0) || (SIZE_MAX - chunk_len <? rq_len q)
    then Some (h3_stream_response_cancel_locked q, AppendFailed APR_EGENERAL)
    else if negb malloc_ok
    then Some (h3_stream_response_cancel_locked q, AppendFailed APR_ENOMEM)
    else match append_link q chunk_len (btake chunk_len (bdrop offset data)) with
         | Some q' => Some (q', AppendQueued chunk_len (rq_submitted q))
         | None => None
         end.

(** ** Consumer *)

(** [nghttp3_vec]: where it points, and the bytes there when it was filled. *)
Record h3_vec := H3Vec { vec_chunk : loc; vec_off : Z; vec_len : Z; vec_data : bytes }.

Inductive read_reply :=
  | ReadCallbackFailure
  | ReadWouldBlock
  | ReadCount (vecs : list h3_vec) (eof : bool).

Definition rq_set_submit (q : resp_queue) (p : option loc) : resp_queue :=
  RespQueue (rq_q q) p 0 (rq_buffered q) (rq_len q) (rq_limit q) (rq_submitted q)
            (rq_complete q) (rq_cancelled q).

(** [while (stream->response_submit_chunk && count < veccnt)]. *)
Fixpoint read_data_loop (veccnt : nat) (q : resp_queue) : option (resp_queue * list h3_vec) :=
  match veccnt, rq_submit_chunk q with
  | S n, Some x =>
      match lq_heap (rq_q q) !! x with
      | Some nd =>
          let chunk := nd_val nd in
          let remaining := ck_len chunk -64 rq_submit_offset q in
          let v := H3Vec x (rq_submit_offset q) remaining
                         (btake remaining (bdrop (rq_submit_offset q) (ck_data chunk))) in
          match read_data_loop n (rq_set_submit q (nd_next nd)) with
          | Some (q', vs) => Some (q', v :: vs)
          | None => None
          end
      | None => None
      end
  | _, _ => Some (q, [])
  end.

Definition h3_session_read_data (q : resp_queue) (veccnt : nat)
    : option (resp_queue * read_reply) :=
  match veccnt with
  | O => Some (q, ReadCallbackFailure)
  | S _ =>
      if rq_cancelled q then Some (q, ReadCount [] true)
      else
        match read_data_loop veccnt q with
        | Some (q', v :: vs) =>
            let eof := match rq_submit_chunk q' with Some _ => false | None => true end
                       && rq_complete q' in
            Some (q', ReadCount (v :: vs) eof)
        | Some (q', []) =>
            if rq_complete q' then Some (q', ReadCount [] true)
            else Some (q', ReadWouldBlock)
        | None => None
        end
  end.

(** [while (datalen > 0 && stream->response_head)]; the second component is [released]. *)
Fixpoint ack_loop (fuel : nat) (q : resp_queue) (datalen : Z) (released : bool)
    : option (resp_queue * bool) :=
  match lq_head (rq_q q) with
  | None => Some (q, released)
  | Some _ =>
      if datalen <=? 0 then Some (q, released)
      else
        match fuel, lq_peek (rq_q q) with
        | S fuel', Some chunk =>
            let available := ck_len chunk -64 ck_acked chunk in
            let consumed := if datalen <? available then datalen else available in
            let acked := ck_acked chunk +64 consumed in
            match lq_set_head (rq_q q) (Chunk (ck_len chunk) acked (ck_data chunk)) with
            | Some l =>
                match (if acked =? ck_len chunk then lq_drop_head l else Some l) with
                | Some l' =>
                    ack_loop fuel'
                      (RespQueue l' (rq_submit_chunk q) (rq_submit_offset q)
                         (rq_buffered q -64 consumed) (rq_len q) (rq_limit q)
                         (rq_submitted q) (rq_complete q) (rq_cancelled q))
                      (datalen -64 consumed) true
                | None => None
                end
            | None => None
            end
        | _, _ => None
        end
  end.

(** The loop drops the head or ends, so one round more than the number of chunks is
    enough. The boolean says whether [response_cond] is broadcast. *)
Definition h3_stream_response_ack_locked (q : resp_queue) (datalen : Z)
    : option (resp_queue * bool) :=
  ack_loop (S (size (lq_heap (rq_q q)))) q datalen false.

Definition h3_stream_response_cleanup_locked (q : resp_queue) : option resp_queue :=
  match lq_clear (rq_q q) with
  | Some l => Some (RespQueue l None 0 0 (rq_len q) (rq_limit q) (rq_submitted q)
                              (rq_complete q) (rq_cancelled q))
  | None => None
  end.

(** ** Interleaving of the producer and the consumer

    The producer releases the lock between rounds and while it waits, so any sequence of
    consumer operations can run there. [qsys] is the queue with what has happened to it:
    all bytes queued, all bytes handed to nghttp3, and how many of those nghttp3 has
    acknowledged. nghttp3 acknowledges only bytes it was given: a schedule that asks for
    more is [Unscheduled]. [Fault] is an access to a freed chunk. *)

Record qsys := QSys {
  qs_queue : resp_queue;
  qs_put : bytes;
  qs_handed : bytes;
  qs_acked : Z }.

Inductive consumer_op :=
  | CReadData (veccnt : nat)
  | CAck (datalen : Z)
  | CCancel.

Definition reply_bytes (r : read_reply) : bytes :=
  match r with ReadCount vs _ => concat (vec_data <$> vs) | _ => [] end.

Definition consumer_exec (s : qsys) (op : consumer_op) : sched qsys :=
  match op with
  | CReadData n =>
      match h3_session_read_data (qs_queue s) n with
      | Some (q', r) => Ran (QSys q' (qs_put s) (qs_handed s ++ reply_bytes r) (qs_acked s))
      | None => Fault
      end
  | CAck n =>
      if (0 <=? n) && (n <=? blen (qs_handed s) - qs_acked s) then
        match h3_stream_response_ack_locked (qs_queue s) n with
        | Some (q', _) => Ran (QSys q' (qs_put s) (qs_handed s) (qs_acked s + n))
        | None => Fault
        end
      else Unscheduled
  | CCancel => Ran (QSys (h3_stream_response_cancel_locked (qs_queue s)) (qs_put s)
                         (qs_handed s) (qs_acked s))
  end.

Fixpoint consumer_run (s : qsys) (ops : list consumer_op) : sched qsys :=
  match ops with
  | [] => Ran s
  | op :: ops' =>
      match consumer_exec s op with
      | Ran s1 => consumer_run s1 ops'
      | Unscheduled => Unscheduled
      | Fault => Fault
      end
  end.

(** What one round of the producer meets: the consumer operations that run before it gets
    the lock, the session's flags, the outcome of the allocation and of the timed wait. *)
Record turn := Turn {
  tn_consumer : list consumer_op;
  tn_flags : sess_flags;
  tn_malloc : bool;
  tn_wait : apr_status }.

(** How far an append got: its status once it has returned, the offset it reached, and
    how many of its rounds had to wait. *)
Record append_state := AppendState {
  as_sys : qsys;
  as_offset : Z;
  as_blocked : nat;
  as_status : option apr_status }.

(** [rv == APR_SUCCESS || APR_STATUS_IS_TIMEUP(rv)]: the wait may be repeated. *)
Definition wait_ok (rv : apr_status) : bool :=
  match rv with APR_SUCCESS | APR_TIMEUP => true | _ => false end.

(** The loop of [h3_stream_response_append], one turn per round; without a [status] the
    append is still running when the turns are used up. *)
Fixpoint append_run (turns : list turn) (s : qsys) (data : bytes) (offset : Z) (blocked : nat)
    : sched append_state :=
  if offset <? blen data then
    match turns with
    | [] => Ran (AppendState s offset blocked None)
    | t :: ts =>
        match consumer_run s (tn_consumer t) with
        | Ran s1 =>
            let s2 q put := QSys q put (qs_handed s1) (qs_acked s1) in
            match response_append_locked (tn_flags t) (tn_malloc t) (qs_queue s1) data offset with
            | Some (q, AppendBlocked) =>
                if wait_ok (tn_wait t) then append_run ts s1 data offset (S blocked)
                else Ran (AppendState s1 offset (S blocked) (Some (tn_wait t)))
            | Some (q, AppendFailed rv) =>
                Ran (AppendState (s2 q (qs_put s1)) offset blocked (Some rv))
            | Some (q, AppendQueued n _) =>
                append_run ts (s2 q (qs_put s1 ++ btake n (bdrop offset data))) data
                           (offset +64 n) blocked
            | None => Fault
            end
        | Unscheduled => Unscheduled
        | Fault => Fault
        end
    end
  else Ran (AppendState s offset blocked (Some APR_SUCCESS)).

(** [h3_stream_response_append]; [data] NULL is [None]. *)
Definition h3_stream_response_append (turns : list turn) (s : qsys)
    (data : option bytes) (len : Z) : sched append_state :=
  match data with
  | None =>
      Ran (AppendState s 0 0 (Some (if len =? 0 then APR_SUCCESS else APR_EINVAL)))
  | Some d => append_run turns s (btake len d) 0 0
  end.

(** [h3_stream_response_complete]: the boolean says whether nghttp3 is resumed. *)
Definition h3_stream_response_complete (fl : sess_flags) (q : resp_queue) : resp_queue * bool :=
  (rq_set_complete q, rq_submitted q && sf_ngh3 fl && negb (sf_ngh3_dead fl)).

(** ** Representation invariant *)

Definition chunk_wf (c : h3_response_chunk) : Prop :=
  ck_len c = blen (ck_data c) /\ 0 <= ck_acked c < ck_len c /\ ck_len c <= STREAM_CHUNK_BYTES.

(** The bytes of a chunk nghttp3 has not acknowledged. *)
Definition unacked (c : h3_response_chunk) : bytes := bdrop (ck_acked c) (ck_data c).

Definition queue_bytes (l : list (loc * h3_response_chunk)) : bytes :=
  concat ((fun xc => unacked (snd xc)) <$> l).

(** [sub] are the chunks handed to nghttp3, [pend] the ones still to be handed out. *)
Record rq_inv (q : resp_queue) (sub pend : list (loc * h3_response_chunk)) : Prop := {
  inv_rep : lq_rep (rq_q q) (sub ++ pend);
  inv_submit : rq_submit_chunk q = fst <$> head pend;
  inv_offset : rq_submit_offset q = 0;
  inv_wf : Forall (fun xc => chunk_wf (snd xc)) (sub ++ pend);
  inv_pend : Forall (fun xc => ck_acked (snd xc) = 0) pend;
  inv_buffered : rq_buffered q = blen (queue_bytes (sub ++ pend));
  inv_bound : rq_buffered q <= rq_limit q;
  inv_limit : 0 < rq_limit q <= SIZE_MAX;
  inv_len : 0 <= rq_len q <= SIZE_MAX }.

(** ** Abstract specification *)

(** What the queue stands for: the bytes handed to nghttp3 and not acknowledged, the
    bytes still to be handed out, the bound, and the two flags the reader tests. *)
Record aqueue := AQueue {
  aq_inflight : bytes;
  aq_pending : bytes;
  aq_limit : Z;
  aq_complete : bool;
  aq_cancelled : bool }.

Inductive aq_label :=
  | LAppend (d : bytes)
  | LRead (d : bytes) (eof : bool)
  | LAck (n : Z)
  | LCancel
  | LComplete.

(** Bytes enter behind [aq_pending], leave it in order when they are handed out, and are
    released from the front of [aq_inflight]; the sum never exceeds the bound. *)
Inductive aq_step : aqueue -> aq_label -> aqueue -> Prop :=
  | aq_append i p lim c d :
      blen i + blen p + blen d <= lim ->
      aq_step (AQueue i p lim c false) (LAppend d) (AQueue i (p ++ d) lim c false)
  | aq_read i d p lim c :
      aq_step (AQueue i (d ++ p) lim c false) (LRead d (c && bool_decide (p = [])))
              (AQueue (i ++ d) p lim c false)
  | aq_read_cancelled i p lim c :
      aq_step (AQueue i p lim c true) (LRead [] true) (AQueue i p lim c true)
  | aq_ack i p lim c x n :
      0 <= n <= blen i ->
      aq_step (AQueue i p lim c x) (LAck n) (AQueue (bdrop n i) p lim c x)
  | aq_cancel i p lim c x :
      aq_step (AQueue i p lim c x) LCancel (AQueue i p lim true true)
  | aq_complete_step i p lim c x :
      aq_step (AQueue i p lim c x) LComplete (AQueue i p lim true x).

(** The refinement relation between the code's queue and the specification. *)
Definition rq_refines (q : resp_queue) (a : aqueue) : Prop :=
  exists sub pend, rq_inv q sub pend /\
    a = AQueue (queue_bytes sub) (queue_bytes pend) (rq_limit q) (rq_complete q)
               (rq_cancelled q).

(** ** Lemmas on the invariant *)

Section QueueLemmas.
Implicit Types (q : resp_queue) (sub pend l : list (loc * h3_response_chunk)).

Lemma queue_bytes_app l1 l2 : queue_bytes (l1 ++ l2) = queue_bytes l1 ++ queue_bytes l2.
Proof. unfold queue_bytes. by rewrite fmap_app, concat_app. Qed.

Lemma queue_bytes_cons x c l : queue_bytes ((x, c) :: l) = unacked c ++ queue_bytes l.
Proof. done. Qed.

Lemma unacked_len c : chunk_wf c -> blen (unacked c) = ck_len c - ck_acked c.
Proof. intros (Hl & Ha & _). unfold unacked. rewrite blen_bdrop; lia. Qed.

Lemma unacked_fresh c : ck_acked c = 0 -> unacked c = ck_data c.
Proof. unfold unacked. by intros ->. Qed.

Lemma chunk_wf_size c : chunk_wf c -> 0 <= ck_len c <= SIZE_MAX /\ 0 <= ck_acked c <= SIZE_MAX.
Proof. unfold chunk_wf, STREAM_CHUNK_BYTES, SIZE_MAX. lia. Qed.

(** In a well-formed list, no chunk left means no byte left and conversely. *)
Lemma queue_bytes_nil l :
  Forall (fun xc => chunk_wf (snd xc)) l -> queue_bytes l = [] -> l = [].
Proof.
  destruct l as [|[x c] l]; [done|]. intros Hw Hq. exfalso.
  apply Forall_cons in Hw as [Hc _]. simpl in Hc. pose proof (unacked_len _ Hc) as Hu.
  rewrite queue_bytes_cons in Hq. apply app_eq_nil in Hq as [Hq _].
  rewrite Hq, blen_nil in Hu. destruct Hc as (_ & Ha & _). lia.
Qed.

Lemma rq_new_inv limit : 0 < limit <= SIZE_MAX -> rq_inv (rq_new limit) [] [].
Proof.
  intros Hl. unfold SIZE_MAX in *.
  split; simpl; unfold SIZE_MAX; auto using lq_empty_rep; try lia.
Qed.

Lemma rq_inv_cancel q sub pend :
  rq_inv q sub pend -> rq_inv (h3_stream_response_cancel_locked q) sub pend.
Proof. intros []. by split. Qed.

Lemma rq_inv_complete q sub pend : rq_inv q sub pend -> rq_inv (rq_set_complete q) sub pend.
Proof. intros []. by split. Qed.

Lemma rq_inv_submitted q sub pend : rq_inv q sub pend -> rq_inv (rq_set_submitted q) sub pend.
Proof. intros []. by split. Qed.

Lemma append_link_inv q sub pend n piece :
  rq_inv q sub pend -> 0 < n <= STREAM_CHUNK_BYTES -> n <= rq_limit q - rq_buffered q ->
  blen piece = n -> rq_len q <= SIZE_MAX - n ->
  exists q' x, append_link q n piece = Some q'
    /\ rq_inv q' sub (pend ++ [(x, Chunk n 0 piece)])
    /\ rq_limit q' = rq_limit q /\ rq_complete q' = rq_complete q
    /\ rq_cancelled q' = rq_cancelled q /\ rq_len q' = rq_len q + n.
Proof.
  intros [Hrep Hsub Hoff Hwf Hp Hbuf Hbd Hlim Hlen] Hn Hroom Hpc Hl.
  destruct (lq_push_rep _ _ (Chunk n 0 piece) Hrep) as (l' & Hpush & Hrep' & _).
  pose proof (blen_nonneg (queue_bytes (sub ++ pend))).
  unfold append_link. rewrite Hpush.
  set (c := Chunk n 0 piece) in *. set (x := lq_fresh (rq_q q)) in *.
  assert (Hrep2 : lq_rep l' (sub ++ pend ++ [(x, c)])) by by rewrite app_assoc.
  assert (Hwf' : Forall (fun xc => chunk_wf (snd xc)) (sub ++ pend ++ [(x, c)])).
  { rewrite app_assoc. apply Forall_app. split; [done|].
    apply Forall_singleton. unfold chunk_wf. simpl. lia. }
  assert (Hp' : Forall (fun xc => ck_acked (snd xc) = 0) (pend ++ [(x, c)])).
  { apply Forall_app. split; [done|]. by apply Forall_singleton. }
  assert (Hb' : rq_buffered q + n = blen (queue_bytes (sub ++ pend ++ [(x, c)]))).
  { rewrite app_assoc, queue_bytes_app, blen_app, Hbuf. unfold c.
    rewrite queue_bytes_cons, app_nil_r, unacked_fresh by done. simpl. lia. }
  destruct pend as [|[y d] pend]; simpl in Hsub; rewrite Hsub;
    eexists _, x; (split; [done|]); (split; [|simpl; rewrite wrap64_small by lia; done]);
    split; simpl; rewrite ?wrap64_small by lia; try done; lia.
Qed.

(** Reading moves chunks from [pend] to [sub], in order, and hands out their bytes. *)
Lemma read_data_loop_inv n q sub pend :
  rq_inv q sub pend ->
  exists q' vs, read_data_loop n q = Some (q', vs)
    /\ rq_inv q' (sub ++ take n pend) (drop n pend)
    /\ concat (vec_data <$> vs) = queue_bytes (take n pend)
    /\ length vs = length (take n pend)
    /\ rq_limit q' = rq_limit q /\ rq_complete q' = rq_complete q
    /\ rq_cancelled q' = rq_cancelled q.
Proof.
  revert q sub pend. induction n as [|n IH]; intros q sub pend Hinv.
  - exists q, []. simpl. rewrite app_nil_r. done.
  - pose proof Hinv as [Hrep Hsub Hoff Hwf Hp Hbuf Hbd Hlim Hlen]. simpl. rewrite Hsub.
    destruct pend as [|[x c] pend]; simpl.
    { exists q, []. rewrite app_nil_r. done. }
    rewrite (lq_rep_lookup _ _ (length sub) x c Hrep)
      by (rewrite lookup_app_r, Nat.sub_diag by lia; done).
    apply Forall_app in Hwf as [Hws Hwp]. apply Forall_cons in Hwp as [Hc Hwp].
    apply Forall_cons in Hp as [Hca Hp]. simpl in Hc, Hca.
    set (q1 := rq_set_submit q (fst <$> (sub ++ (x, c) :: pend) !! S (length sub))).
    assert (Hq1 : rq_inv q1 (sub ++ [(x, c)]) pend).
    { split; simpl; try done.
      - by rewrite <- app_assoc.
      - rewrite lookup_app_r, Nat.sub_succ_l, Nat.sub_diag by lia. simpl.
        by destruct pend.
      - rewrite <- app_assoc. apply Forall_app. split; [done|]. by apply Forall_cons.
      - by rewrite <- app_assoc. }
    destruct (IH q1 _ _ Hq1) as (q' & vs & Hl & Hi & Hv & Hlen' & Hr). simpl.
    fold q1. rewrite Hl. rewrite <- app_assoc in Hi. simpl in Hi. do 2 eexists.
    split; [done|]. split; [done|]. split.
    + rewrite fmap_cons. cbn [concat vec_data]. rewrite Hv, queue_bytes_cons, unacked_fresh by done. f_equal.
      pose proof (chunk_wf_size _ Hc) as Hs. destruct Hc as (Hcl & _).
      rewrite Hoff, bdrop_0, Z.sub_0_r, wrap64_small, Hcl by lia.
      unfold btake, blen. by rewrite Nat2Z.id, take_ge by lia.
    + simpl. split; [by rewrite Hlen'|]. done.
Qed.

(** What one round of the acknowledgement loop leaves behind when it acknowledges part
    of the first chunk, and when it acknowledges all of it. *)
Lemma ack_partial_inv q x c sub pend n (l : lqueue h3_response_chunk) :
  rq_inv q ((x, c) :: sub) pend -> 0 < n < ck_len c - ck_acked c ->
  lq_rep l ((x, Chunk (ck_len c) (ck_acked c + n) (ck_data c)) :: sub ++ pend) ->
  rq_inv (RespQueue l (rq_submit_chunk q) (rq_submit_offset q) (rq_buffered q - n)
            (rq_len q) (rq_limit q) (rq_submitted q) (rq_complete q) (rq_cancelled q))
         ((x, Chunk (ck_len c) (ck_acked c + n) (ck_data c)) :: sub) pend
  /\ unacked (Chunk (ck_len c) (ck_acked c + n) (ck_data c)) = bdrop n (unacked c).
Proof.
  intros [Hrep Hsub Hoff Hwf Hp Hbuf Hbd Hlim Hlen] Hn Hl.
  apply Forall_cons in Hwf as [Hc Hwf]. simpl in Hc. pose proof Hc as (Hcl & Ha & Hmax).
  set (c' := Chunk _ _ _) in *.
  assert (Hc' : chunk_wf c') by (unfold chunk_wf; simpl; lia).
  split.
  - split; simpl; try done; try lia.
    + by apply Forall_cons.
    + change (((x, c) :: sub) ++ pend) with ((x, c) :: (sub ++ pend)) in Hbuf.
      rewrite queue_bytes_cons, blen_app, unacked_len in * by done. simpl. lia.
  - unfold unacked. simpl. rewrite bdrop_bdrop by lia. done.
Qed.

Lemma ack_whole_inv q x c sub pend (l : lqueue h3_response_chunk) :
  rq_inv q ((x, c) :: sub) pend -> lq_rep l (sub ++ pend) ->
  rq_inv (RespQueue l (rq_submit_chunk q) (rq_submit_offset q)
            (rq_buffered q - (ck_len c - ck_acked c))
            (rq_len q) (rq_limit q) (rq_submitted q) (rq_complete q) (rq_cancelled q)) sub pend.
Proof.
  intros [Hrep Hsub Hoff Hwf Hp Hbuf Hbd Hlim Hlen] Hl.
  apply Forall_cons in Hwf as [Hc Hwf]. simpl in Hc. pose proof Hc as (Hcl & Ha & Hmax).
  split; simpl; try done; try lia.
  change (((x, c) :: sub) ++ pend) with ((x, c) :: (sub ++ pend)) in Hbuf.
  rewrite queue_bytes_cons, blen_app, unacked_len in Hbuf by done. lia.
Qed.

Lemma ack_loop_0 fuel q rel : ack_loop fuel q 0 rel = Some (q, rel).
Proof. destruct fuel; simpl; by destruct (lq_head (rq_q q)). Qed.

Lemma ack_loop_inv fuel q sub pend n rel :
  rq_inv q sub pend -> 0 <= n <= blen (queue_bytes sub) -> (length sub < fuel)%nat ->
  n <= SIZE_MAX ->
  exists q' sub', ack_loop fuel q n rel = Some (q', rel || (0 <? n))
    /\ rq_inv q' sub' pend /\ queue_bytes sub' = bdrop n (queue_bytes sub)
    /\ rq_limit q' = rq_limit q /\ rq_complete q' = rq_complete q
    /\ rq_cancelled q' = rq_cancelled q /\ rq_len q' = rq_len q.
Proof.
  revert q sub n rel. induction fuel as [|fuel IH]; intros q sub n rel Hinv Hn Hf Hmax; [lia|].
  pose proof (lq_rep_head _ _ (inv_rep _ _ _ Hinv)) as Hhd. simpl. rewrite Hhd.
  destruct (decide (n = 0)) as [->|Hn0].
  { exists q, sub. rewrite orb_false_r. by destruct (fst <$> _). }
  destruct sub as [|[x c] sub]; [change (blen (queue_bytes [])) with 0 in Hn; lia|]. simpl.
  destruct (Z.leb_spec n 0); [lia|].
  pose proof (inv_rep _ _ _ Hinv) as Hrep. rewrite (lq_peek_rep _ x c _ Hrep).
  pose proof (inv_wf _ _ _ Hinv) as Hwf. apply Forall_cons in Hwf as [Hc _]. simpl in Hc.
  pose proof (chunk_wf_size _ Hc) as Hs. pose proof (unacked_len _ Hc) as Hu.
  pose proof Hc as (Hcl & Ha & _). rewrite (wrap64_small (ck_len c - ck_acked c)) by lia.
  assert (Hbuf : ck_len c - ck_acked c <= rq_buffered q <= SIZE_MAX).
  { destruct Hinv as [_ _ _ _ _ Hb Hbd Hlim _]. rewrite Hb in *.
    change (((x, c) :: sub) ++ pend) with ((x, c) :: (sub ++ pend)) in *.
    rewrite queue_bytes_cons, blen_app in *. pose proof (blen_nonneg (queue_bytes (sub ++ pend))).
    lia. }
  rewrite queue_bytes_cons, blen_app in Hn.
  destruct (Z.ltb_spec n (ck_len c - ck_acked c)) as [Hlt|Hge].
  - rewrite (wrap64_small (ck_acked c + n)), (wrap64_small (n - n)),
      (wrap64_small (rq_buffered q - n)) by lia.
    set (c' := Chunk _ _ _).
    destruct (lq_set_head_rep _ _ _ c' _ Hrep) as (l & -> & Hl & _).
    destruct (Z.eqb_spec (ck_acked c + n) (ck_len c)); [lia|].
    destruct (ack_partial_inv _ _ _ _ _ n l Hinv) as [Hi Hb]; [lia|done|].
    rewrite Z.sub_diag, ack_loop_0. do 2 eexists.
    split; [by destruct rel, (Z.ltb_spec 0 n); try lia|]. split; [exact Hi|].
    split; [|done]. rewrite !queue_bytes_cons, Hb, bdrop_app_le by lia. done.
  - rewrite (wrap64_small (ck_acked c + (ck_len c - ck_acked c))),
      (wrap64_small (n - (ck_len c - ck_acked c))),
      (wrap64_small (rq_buffered q - (ck_len c - ck_acked c))) by lia.
    destruct (lq_set_head_rep _ _ _ (Chunk (ck_len c) (ck_acked c + (ck_len c - ck_acked c))
      (ck_data c)) _ Hrep) as (l & -> & Hl & _).
    destruct (Z.eqb_spec (ck_acked c + (ck_len c - ck_acked c)) (ck_len c)); [|lia].
    destruct (lq_drop_head_rep _ _ _ _ Hl) as (l2 & -> & Hl2 & _).
    pose proof (ack_whole_inv _ _ _ _ _ l2 Hinv Hl2) as Hi.
    destruct (IH _ _ (n - (ck_len c - ck_acked c)) true Hi)
      as (q' & sub' & He & Hi' & Hb' & Hr); [lia|simpl in *; lia|lia|].
    exists q', sub'. rewrite He. split; [by destruct rel, (Z.ltb_spec 0 n); try lia|].
    split; [done|]. split; [|done]. rewrite Hb', queue_bytes_cons, bdrop_app_ge, Hu by lia.
    done.
Qed.

End QueueLemmas.

(** ** Simulation of the abstract queue *)

Section Simulation.
Implicit Types (q : resp_queue) (a : aqueue).

Lemma refines_bound q a : rq_refines q a -> blen (aq_inflight a) + blen (aq_pending a) <= aq_limit a.
Proof.
  intros (sub & pend & [_ _ _ _ _ Hb Hbd _ _] & ->). simpl.
  rewrite Hb, queue_bytes_app, blen_app in Hbd. lia.
Qed.

(** The reader's end-of-data test is the specification's. *)
Lemma submit_none_iff q sub pend :
  rq_inv q sub pend ->
  (match rq_submit_chunk q with Some _ => false | None => true end && rq_complete q)
  = rq_complete q && bool_decide (queue_bytes pend = []).
Proof.
  intros [_ -> _ Hwf _ _ _ _ _]. apply Forall_app in Hwf as [_ Hwf].
  destruct pend as [|[x c] pend]; simpl; [by rewrite andb_true_r|].
  rewrite bool_decide_eq_false_2; [by rewrite andb_false_r|].
  intros Hq. by apply queue_bytes_nil in Hq.
Qed.

Lemma read_data_refines q a n :
  rq_refines q a -> n <> O ->
  exists q' r, h3_session_read_data q n = Some (q', r) /\
    match r with
    | ReadCallbackFailure => False
    | ReadWouldBlock => q' = q /\ aq_pending a = [] /\ aq_complete a = false
    | ReadCount _ eof => exists a', aq_step a (LRead (reply_bytes r) eof) a' /\ rq_refines q' a'
    end.
Proof.
  intros (sub & pend & Hinv & ->) Hn. destruct n as [|n]; [done|].
  unfold h3_session_read_data. destruct (rq_cancelled q) eqn:Ec.
  { do 2 eexists. split; [done|]. eexists. split; [constructor|]. exists sub, pend.
    by rewrite Ec. }
  destruct pend as [|xc pend].
  { pose proof (inv_submit _ _ _ Hinv) as Hs. simpl in *. rewrite Hs.
    destruct (rq_complete q) eqn:Eco; do 2 eexists; (split; [done|]); [|done].
    exists (AQueue (queue_bytes sub ++ []) [] (rq_limit q) true false).
    split; [apply (aq_read _ [] [])|]. exists sub, []. by rewrite app_nil_r, Eco, Ec. }
  destruct (read_data_loop_inv (S n) q sub (xc :: pend) Hinv)
    as (q' & vs & -> & Hi & Hv & Hlen & Hlm & Hcm & Hcn).
  destruct vs as [|v vs]; [by simpl in Hlen|]. do 2 eexists. split; [done|].
  exists (AQueue (queue_bytes sub ++ queue_bytes (take (S n) (xc :: pend)))
            (queue_bytes (drop (S n) (xc :: pend))) (rq_limit q) (rq_complete q) false).
  split; [|eexists _, _; split; [exact Hi|]; by rewrite queue_bytes_app, Hlm, Hcm, Hcn, Ec].
  cbn [reply_bytes]. rewrite Hv, (submit_none_iff _ _ _ Hi), Hcm.
  rewrite <- (take_drop (S n) (xc :: pend)) at 1. rewrite queue_bytes_app. constructor.
Qed.

Lemma ack_refines q a n :
  rq_refines q a -> 0 <= n <= blen (aq_inflight a) ->
  exists q' b a', h3_stream_response_ack_locked q n = Some (q', b) /\ (b = true <-> 0 < n)
    /\ aq_step a (LAck n) a' /\ rq_refines q' a'.
Proof.
  intros (sub & pend & Hinv & ->) Hn. simpl in Hn.
  assert (n <= SIZE_MAX).
  { destruct Hinv as [_ _ _ _ _ Hb Hbd Hl _]. rewrite Hb, queue_bytes_app, blen_app in Hbd.
    pose proof (blen_nonneg (queue_bytes pend)). lia. }
  assert (Hsz : (length sub < S (size (lq_heap (rq_q q))))%nat).
  { destruct Hinv as [[_ _ Hnd Hdom _] _ _ _ _ _ _ _ _].
    rewrite <- size_dom, Hdom, size_list_to_set, length_fmap, length_app by done. lia. }
  destruct (ack_loop_inv _ q sub pend n false Hinv Hn Hsz) as (q' & sub' & He & Hi & Hb & Hr);
    [done|]. destruct Hr as (Hlm & Hcm & Hcn & _).
  exists q', (0 <? n). eexists. split; [exact He|]. split; [apply Z.ltb_lt|].
  split; [by constructor|]. exists sub', pend. by rewrite Hb, Hlm, Hcm, Hcn.
Qed.

Lemma cancel_refines q a :
  rq_refines q a -> exists a', aq_step a LCancel a'
    /\ rq_refines (h3_stream_response_cancel_locked q) a'.
Proof.
  intros (sub & pend & Hinv & ->). eexists. split; [constructor|].
  exists sub, pend. split; [by apply rq_inv_cancel|done].
Qed.

Lemma complete_refines q a :
  rq_refines q a -> exists a', aq_step a LComplete a' /\ rq_refines (rq_set_complete q) a'.
Proof.
  intros (sub & pend & Hinv & ->). eexists. split; [constructor|].
  exists sub, pend. split; [by apply rq_inv_complete|done].
Qed.

Lemma append_chunk_len_bounds q len offset :
  0 <= rq_buffered q < rq_limit q -> rq_limit q <= SIZE_MAX -> 0 <= offset < len -> len <= SIZE_MAX ->
  0 < append_chunk_len q len offset <= STREAM_CHUNK_BYTES
  /\ append_chunk_len q len offset <= rq_limit q - rq_buffered q
  /\ append_chunk_len q len offset <= len - offset.
Proof.
  intros. unfold append_chunk_len. rewrite !wrap64_small by lia.
  unfold STREAM_CHUNK_BYTES. repeat case_match; lia.
Qed.

(** The rounds that return [APR_ECONNABORTED] leave the queue alone. *)
Ltac append_gone := do 2 eexists; split; [done|]; split; [done|]; by left.

Lemma append_refines fl m q a data offset :
  rq_refines q a -> 0 <= offset < blen data -> blen data <= SIZE_MAX ->
  exists q' r, response_append_locked fl m q data offset = Some (q', r) /\
    match r with
    | AppendBlocked => q' = q /\ blen (aq_inflight a) + blen (aq_pending a) = aq_limit a
    | AppendFailed rv =>
        rv <> APR_SUCCESS /\ (q' = q \/ exists a', aq_step a LCancel a' /\ rq_refines q' a')
    | AppendQueued n _ =>
        0 < n <= STREAM_CHUNK_BYTES /\ n <= blen data - offset /\
        exists a', aq_step a (LAppend (btake n (bdrop offset data))) a' /\ rq_refines q' a'
    end.
Proof.
  intros Href Hoff Hmax. pose proof (refines_bound _ _ Href) as Hbnd.
  pose proof Href as (sub & pend & Hinv & ->). simpl in Hbnd.
  pose proof Hinv as [_ _ _ _ _ Hb Hbd Hlim Hlen].
  rewrite queue_bytes_app, blen_app in Hb. pose proof (blen_nonneg (queue_bytes sub)).
  pose proof (blen_nonneg (queue_bytes pend)).
  unfold response_append_locked, append_must_wait.
  destruct (Z.leb_spec (rq_limit q) (rq_buffered q)) as [Hfull|Hroom]; simpl;
    destruct (rq_cancelled q) eqn:Ec; simpl; try append_gone;
    destruct (sf_aborted fl); simpl; try append_gone;
    destruct (sf_ngh3_dead fl); simpl; try append_gone.
  { do 2 eexists. split; [done|]. simpl. split; [done|]. lia. }
  destruct (sf_ngh3 fl); simpl; try append_gone.
  destruct (append_chunk_len_bounds q (blen data) offset) as (Hn1 & Hn2 & Hn3); try lia.
  set (n := append_chunk_len q (blen data) offset) in *.
  destruct (Z.eqb_spec n 0); [lia|]. simpl.
  destruct (Z.ltb_spec (SIZE_MAX - n) (rq_len q)); [|destruct m; simpl].
  1,3: do 2 eexists; (split; [done|]); (split; [done|]); right; by apply cancel_refines.
  destruct (append_link_inv q sub pend n (btake n (bdrop offset data)) Hinv)
    as (q' & x & -> & Hi & Hlm & Hcm & Hcn & _); [lia|lia| |lia|].
  { rewrite blen_btake; [done|]. rewrite blen_bdrop; lia. }
  do 2 eexists. split; [done|]. do 2 (split; [lia|]).
  eexists. split.
  - constructor. rewrite blen_btake by (rewrite blen_bdrop; lia). lia.
  - exists sub, (pend ++ [(x, Chunk n 0 (btake n (bdrop offset data)))]). split; [done|].
    rewrite Hlm, Hcm, Hcn, Ec, queue_bytes_app, queue_bytes_cons, unacked_fresh by done.
    simpl. change (queue_bytes []) with (@nil byte). by rewrite app_nil_r.
Qed.

End Simulation.

(** ** The producer and the consumer together *)

(** What was handed out and not acknowledged is what the queue holds as such, and what
    was queued is what was handed out followed by what is still to be handed out. *)
Definition qs_inv (s : qsys) : Prop :=
  exists a, rq_refines (qs_queue s) a /\ 0 <= qs_acked s <= blen (qs_handed s)
    /\ bdrop (qs_acked s) (qs_handed s) = aq_inflight a
    /\ qs_put s = qs_handed s ++ aq_pending a.

Section Interleaving.
Implicit Types (s : qsys) (ops : list consumer_op) (turns : list turn).

Lemma qs_new_inv limit : 0 < limit <= SIZE_MAX -> qs_inv (QSys (rq_new limit) [] [] 0).
Proof.
  intros Hl. exists (AQueue [] [] limit false false). split_and!; try done.
  exists [], []. split; [by apply rq_new_inv|done].
Qed.

Lemma consumer_exec_inv s op :
  qs_inv s ->
  match consumer_exec s op with
  | Ran s' => qs_inv s' /\ qs_put s' = qs_put s
  | Unscheduled => True
  | Fault => False
  end.
Proof.
  intros (a & Href & Hack & Hinf & Hput). destruct op as [n|n|]; simpl.
  - destruct n as [|n].
    { simpl. rewrite app_nil_r. split; [|done]. by exists a. }
    destruct (read_data_refines _ _ (S n) Href) as (q' & r & -> & Hr); [done|].
    split; [|done]. destruct r as [| |vs eof]; [done| |].
    + destruct Hr as (-> & Hp & _). exists a. cbn [reply_bytes qs_queue qs_acked qs_handed qs_put].
      by rewrite app_nil_r.
    + destruct Hr as (a' & Hstep & Href'). exists a'.
      cbn [reply_bytes qs_queue qs_acked qs_handed qs_put] in *. split; [done|].
      inversion Hstep; subst; simpl in *; autorewrite with h3.
      * split; [pose proof (blen_nonneg (concat (vec_data <$> vs))); lia|].
        rewrite bdrop_app_le by lia. rewrite Hinf. split; [done|].
        by rewrite <- app_assoc.
      * rewrite app_nil_r. split_and!; try done; lia.
  - destruct (Z.leb_spec 0 n), (Z.leb_spec n (blen (qs_handed s) - qs_acked s)); simpl; try done.
    destruct (ack_refines _ _ n Href) as (q' & b & a' & -> & _ & Hstep & Href').
    { rewrite <- Hinf, blen_bdrop by lia. lia. }
    split; [|done]. exists a'. cbn [qs_queue qs_acked qs_handed qs_put]. split; [done|].
    split; [lia|]. inversion Hstep; subst; simpl in *.
    rewrite <- Hinf, bdrop_bdrop by lia. done.
  - split; [|done]. destruct (cancel_refines _ _ Href) as (a' & Hstep & Href').
    exists a'. simpl. inversion Hstep; subst; simpl in *. done.
Qed.

Lemma consumer_run_inv s ops :
  qs_inv s ->
  match consumer_run s ops with
  | Ran s' => qs_inv s' /\ qs_put s' = qs_put s
  | Unscheduled => True
  | Fault => False
  end.
Proof.
  revert s. induction ops as [|op ops IH]; intros s Hs; simpl; [done|].
  pose proof (consumer_exec_inv s op Hs) as He. destruct (consumer_exec s op) as [s1| |]; try done.
  destruct He as [Hs1 Hp]. specialize (IH s1 Hs1). destruct (consumer_run s1 ops); try done.
  by rewrite <- Hp.
Qed.

(** What an append that reached [offset'] has done, from [s] at [offset] with [k] turns. *)
Definition append_post s data offset (k : nat) (blocked : nat) (r : append_state) : Prop :=
  qs_inv (as_sys r) /\ offset <= as_offset r <= blen data
  /\ qs_put (as_sys r) = qs_put s ++ btake (as_offset r - offset) (bdrop offset data)
  /\ (as_status r = Some APR_SUCCESS -> as_offset r = blen data)
  /\ (as_status r = None ->
       Z.of_nat k + Z.of_nat blocked <= Z.of_nat (as_blocked r) + (as_offset r - offset)).

Lemma append_post_stop s s' data offset k blocked b st :
  qs_inv s' -> qs_put s' = qs_put s -> offset <= blen data -> st <> APR_SUCCESS ->
  append_post s data offset k blocked (AppendState s' offset b (Some st)).
Proof.
  intros. unfold append_post. simpl. rewrite Z.sub_diag, btake_0, app_nil_r.
  split_and!; try done; try lia. intros. by simplify_eq.
Qed.

Lemma append_run_spec turns s data offset blocked :
  qs_inv s -> 0 <= offset <= blen data -> blen data <= SIZE_MAX ->
  match append_run turns s data offset blocked with
  | Ran r => append_post s data offset (length turns) blocked r
  | Unscheduled => True
  | Fault => False
  end.
Proof.
  revert s offset blocked. induction turns as [|t turns IH]; intros s offset blocked Hs Hoff Hmax;
    simpl; destruct (Z.ltb_spec offset (blen data)) as [Hlt|Hge].
  1,2,4: unfold append_post; simpl; rewrite Z.sub_diag, btake_0, app_nil_r;
    split_and!; try done; lia.
  pose proof (consumer_run_inv s (tn_consumer t) Hs) as Hc.
  destruct (consumer_run s (tn_consumer t)) as [s1| |]; try done. destruct Hc as [Hs1 Hp1].
  pose proof Hs1 as (a & Href & Hack & Hinf & Hput).
  destruct (append_refines (tn_flags t) (tn_malloc t) _ a data offset Href) as (q & r & -> & Hr);
    [lia|lia|]. destruct r as [|rv|n resume].
  - destruct (wait_ok (tn_wait t)) eqn:Ew.
    + specialize (IH s1 offset (S blocked) Hs1 ltac:(lia) Hmax).
      destruct (append_run turns s1 data offset (S blocked)) as [r| |]; try done.
      destruct IH as (Hi & Ho & Hpt & Hok & Hrun). unfold append_post. simpl length.
      rewrite <- Hp1. split_and!; try done; try lia.
      intros Hnone. specialize (Hrun Hnone). lia.
    + apply append_post_stop; [done|done|lia|]. intros Heq. by rewrite Heq in Ew.
  - destruct Hr as [Hrv Hr]. apply append_post_stop; [|done|lia|done].
    destruct Hr as [->|(a' & Hstep & Href')]; [by destruct s1|].
    exists a'. by inversion Hstep; subst.
  - destruct Hr as (Hn1 & Hn2 & a' & Hstep & Href').
    rewrite wrap64_small by lia.
    set (s2 := QSys q (qs_put s1 ++ btake n (bdrop offset data)) (qs_handed s1) (qs_acked s1)).
    assert (Hs2 : qs_inv s2).
    { exists a'. inversion Hstep; subst; simpl in *. rewrite Hput, app_assoc. done. }
    specialize (IH s2 (offset + n) blocked Hs2 ltac:(lia) Hmax).
    destruct (append_run turns s2 data (offset + n) blocked) as [r| |]; try done.
    destruct IH as (Hi & Ho & Hpt & Hok & Hrun). unfold append_post. simpl length.
    split_and!; try done; try lia.
    + rewrite Hpt. simpl. rewrite <- app_assoc, <- Hp1. f_equal.
      rewrite <- (bdrop_bdrop n offset), btake_app_bdrop by lia. f_equal. lia.
    + intros Hnone. specialize (Hrun Hnone). lia.
Qed.
End Interleaving.

(** ** Properties *)

(** C6 (refinement): every operation of the response queue implements the abstract
    bounded byte queue, for any state that represents one: a round of the producer blocks
    only when the queue is full, fails without queueing, or appends the next bytes of the
    data behind the pending ones; the reader hands out a prefix of the pending bytes and
    reports the end of the data exactly as specified; an acknowledgement of at most the
    bytes in flight releases them from the front; cancelling and completing set the flags.
    In particular no operation touches a freed chunk. *)
Theorem response_queue_refines (q : resp_queue) (a : aqueue) :
  rq_refines q a ->
  (forall fl m data offset, 0 <= offset < blen data -> blen data <= SIZE_MAX ->
     exists q' r, response_append_locked fl m q data offset = Some (q', r) /\
       match r with
       | AppendBlocked => q' = q /\ blen (aq_inflight a) + blen (aq_pending a) = aq_limit a
       | AppendFailed rv =>
           rv <> APR_SUCCESS /\ (q' = q \/ exists a', aq_step a LCancel a' /\ rq_refines q' a')
       | AppendQueued n _ =>
           0 < n <= STREAM_CHUNK_BYTES /\ n <= blen data - offset /\
           exists a', aq_step a (LAppend (btake n (bdrop offset data))) a' /\ rq_refines q' a'
       end) /\
  (forall n, n <> O ->
     exists q' r, h3_session_read_data q n = Some (q', r) /\
       match r with
       | ReadCallbackFailure => False
       | ReadWouldBlock => q' = q /\ aq_pending a = [] /\ aq_complete a = false
       | ReadCount _ eof => exists a', aq_step a (LRead (reply_bytes r) eof) a' /\ rq_refines q' a'
       end) /\
  (forall n, 0 <= n <= blen (aq_inflight a) ->
     exists q' b a', h3_stream_response_ack_locked q n = Some (q', b) /\ (b = true <-> 0 < n)
       /\ aq_step a (LAck n) a' /\ rq_refines q' a') /\
  (exists a', aq_step a LCancel a' /\ rq_refines (h3_stream_response_cancel_locked q) a') /\
  (forall fl, exists a', aq_step a LComplete a'
     /\ rq_refines (fst (h3_stream_response_complete fl q)) a').
Proof.
  intros Href. split_and!.
  - intros. by apply append_refines.
  - intros. by apply read_data_refines.
  - intros. by apply ack_refines.
  - by apply cancel_refines.
  - intros. by apply complete_refines.
Qed.

(** Three bytes, two of them handed out. *)
Definition sample_queue : resp_queue :=
  match append_link (rq_new 4) 2 [Byte.x61; Byte.x62] with
  | Some q =>
      match read_data_loop 1 q with
      | Some (q1, _) =>
          match append_link q1 1 [Byte.x63] with Some q2 => q2 | None => rq_new 4 end
      | None => rq_new 4
      end
  | None => rq_new 4
  end.

Lemma sample_queue_refines :
  rq_refines sample_queue (AQueue [Byte.x61; Byte.x62] [Byte.x63] 4 false false).
Proof.
  exists [(1%positive, Chunk 2 0 [Byte.x61; Byte.x62])], [(2%positive, Chunk 1 0 [Byte.x63])].
  split; [|done]. split; try done.
  - split; try done.
    + split; [done|]. eexists. split; [vm_compute; done|]. split; [done|].
      eexists. split; [vm_compute; done|done].
    + apply NoDup_cons. split; [set_solver|apply NoDup_singleton].
    + intros x Hx. vm_compute in Hx |- *.
      apply list_elem_of_In in Hx. simpl in Hx. by destruct Hx as [<-|[<-|[]]].
  - repeat constructor; done.
  - by repeat constructor.
Qed.

Lemma response_queue_refines_witness :
  exists q' b a', h3_stream_response_ack_locked sample_queue 1 = Some (q', b)
    /\ (b = true <-> 0 < 1)
    /\ aq_step (AQueue [Byte.x61; Byte.x62] [Byte.x63] 4 false false) (LAck 1) a'
    /\ rq_refines q' a'.
Proof.
  apply (response_queue_refines _ _ sample_queue_refines). vm_compute. split; discriminate.
Defined.

(** C7 (FIFO): whatever the consumer does between the rounds of an append, and whatever
    the flags, the allocations and the waits do, no freed chunk is accessed, the bytes
    queued are the ones queued before followed by a prefix of the data, all of the data
    when the append returns [APR_SUCCESS], and what nghttp3 was handed is always a prefix
    of what was queued. *)
Theorem response_append_fifo (turns : list turn) (s : qsys) (d : bytes) :
  qs_inv s -> blen d <= SIZE_MAX ->
  match h3_stream_response_append turns s (Some d) (blen d) with
  | Ran r =>
      qs_inv (as_sys r)
      /\ qs_put (as_sys r) = qs_put s ++ btake (as_offset r) d
      /\ qs_handed (as_sys r) `prefix_of` qs_put (as_sys r)
      /\ (as_status r = Some APR_SUCCESS -> qs_put (as_sys r) = qs_put s ++ d)
  | Unscheduled => True
  | Fault => False
  end.
Proof.
  intros Hs Hd. unfold h3_stream_response_append. rewrite btake_all by lia.
  pose proof (append_run_spec turns s d 0 0 Hs) as H. pose proof (blen_nonneg d).
  specialize (H ltac:(lia) Hd). destruct (append_run turns s d 0 0) as [r| |]; try done.
  destruct H as (Hi & Ho & Hp & Hok & _). rewrite bdrop_0, Z.sub_0_r in Hp.
  split_and!; try done.
  - destruct Hi as (a & _ & _ & _ & ->). by exists (aq_pending a).
  - intros Hst. rewrite Hp, (Hok Hst), btake_all by lia. done.
Qed.

(** Five bytes through a queue of three: the second round waits, then nghttp3 takes and
    acknowledges what is there. *)
Definition sample_turns : list turn :=
  let fl := SessFlags false false true in
  [ Turn [] fl true APR_SUCCESS; Turn [] fl true APR_TIMEUP;
    Turn [CReadData 16; CAck 3] fl true APR_SUCCESS ].

Definition sample_data : bytes := [Byte.x68; Byte.x65; Byte.x6c; Byte.x6c; Byte.x6f].

Lemma response_append_fifo_witness :
  match h3_stream_response_append sample_turns (QSys (rq_new 3) [] [] 0)
          (Some sample_data) (blen sample_data) with
  | Ran r => as_status r = Some APR_SUCCESS /\ as_blocked r = 1%nat
      /\ qs_put (as_sys r) = sample_data /\ qs_handed (as_sys r) `prefix_of` sample_data
  | _ => False
  end.
Proof.
  pose proof (response_append_fifo sample_turns (QSys (rq_new 3) [] [] 0) sample_data
    ltac:(apply qs_new_inv; vm_compute; split; congruence) ltac:(vm_compute; congruence)) as H.
  revert H. destruct (h3_stream_response_append _ _ _ _) as [r| |] eqn:E;
    [|vm_compute in E; discriminate E|done].
  intros (_ & _ & Hpre & Hok).
  assert (Hst : as_status r = Some APR_SUCCESS /\ as_blocked r = 1%nat).
  { vm_compute in E. injection E as <-. done. }
  destruct Hst as [Hst Hbl]. specialize (Hok Hst). simpl in Hok. rewrite Hok in Hpre.
  done.
Defined.

(** An append that has not returned after [length turns] rounds has spent
    each of them either waiting for room or queueing at least one byte; so it returns
    after at most [blen d] rounds that find room, and never spins. *)
Theorem response_append_progress (turns : list turn) (s : qsys) (d : bytes) (r : append_state) :
  qs_inv s -> blen d <= SIZE_MAX ->
  h3_stream_response_append turns s (Some d) (blen d) = Ran r ->
  Z.of_nat (length turns) > Z.of_nat (as_blocked r) + blen d ->
  exists st, as_status r = Some st.
Proof.
  intros Hs Hd Hrun Hlen. unfold h3_stream_response_append in Hrun.
  rewrite btake_all in Hrun by lia. pose proof (append_run_spec turns s d 0 0 Hs) as H.
  pose proof (blen_nonneg d). specialize (H ltac:(lia) Hd). rewrite Hrun in H.
  destruct H as (_ & Ho & _ & _ & Hnone).
  destruct (as_status r) as [st|]; [by exists st|]. specialize (Hnone eq_refl). lia.
Qed.

Lemma response_append_progress_witness :
  exists r, h3_stream_response_append (sample_turns ++ sample_turns ++ sample_turns)
      (QSys (rq_new 9) [] [] 0) (Some sample_data) (blen sample_data) = Ran r
    /\ exists st, as_status r = Some st.
Proof.
  eexists. split; [vm_compute; reflexivity|].
  eapply (response_append_progress (sample_turns ++ sample_turns ++ sample_turns)
            (QSys (rq_new 9) [] [] 0) sample_data);
    [apply qs_new_inv; vm_compute; split; congruence|vm_compute; congruence
    |vm_compute; reflexivity|vm_compute; reflexivity].
Defined.

(** C19 (end of data): when the reader reports the end of a response that was not
    cancelled, the producer had finished and nghttp3 has been handed every byte ever
    queued; the end of data is never announced early. *)
Theorem response_eof_complete (s : qsys) (n : nat) (q' : resp_queue) (vs : list h3_vec) :
  qs_inv s -> rq_cancelled (qs_queue s) = false ->
  h3_session_read_data (qs_queue s) n = Some (q', ReadCount vs true) ->
  qs_handed s ++ concat (vec_data <$> vs) = qs_put s /\ rq_complete (qs_queue s) = true.
Proof.
  intros (a & Href & _ & _ & Hput) Hc Hread. destruct n as [|n]; [by simplify_eq/=|].
  destruct (read_data_refines _ _ (S n) Href) as (q1 & r & Hr & Hspec); [done|].
  rewrite Hread in Hr. simplify_eq. destruct Hspec as (a' & Hstep & _).
  destruct Href as (sub & pend & _ & ->). cbn [aq_pending reply_bytes] in *.
  rewrite Hc in Hstep. inversion Hstep; subst.
  match goal with H : _ && _ = true |- _ => apply andb_true_iff in H as [Hcomp Hnil] end.
  apply bool_decide_eq_true in Hnil as ->.
  match goal with H : _ ++ [] = queue_bytes pend |- _ => rewrite Hput, <- H, app_nil_r end.
  split; [done|]. by rewrite Hcomp.
Qed.

Definition sample_complete : qsys :=
  QSys (rq_set_complete sample_queue) [Byte.x61; Byte.x62; Byte.x63] [Byte.x61; Byte.x62] 0.

Lemma response_eof_complete_witness :
  exists q' vs, h3_session_read_data (qs_queue sample_complete) 16 = Some (q', ReadCount vs true)
    /\ qs_handed sample_complete ++ concat (vec_data <$> vs) = qs_put sample_complete.
Proof.
  eexists _, _. split; [vm_compute; reflexivity|].
  eapply (response_eof_complete sample_complete 16); [|reflexivity|vm_compute; reflexivity].
  destruct (complete_refines _ _ sample_queue_refines) as (a' & Hstep & Href).
  exists a'. inversion Hstep; subst. split; [exact Href|]. split; [vm_compute; split; congruence|].
  split; reflexivity.
Defined.

(** C32 (no deadlock): a queue that is not cancelled can always be emptied: handing out the
    pending chunks and acknowledging everything handed out leaves no byte buffered, so a
    producer that waits for room is woken with room. *)
Theorem response_queue_drains (s : qsys) :
  qs_inv s -> rq_cancelled (qs_queue s) = false ->
  exists n ack s', consumer_run s [CReadData n; CAck ack] = Ran s'
    /\ rq_buffered (qs_queue s') = 0 /\ qs_handed s' = qs_put s.
Proof.
  intros (a & (sub & pend & Hinv & ->) & Hack & Hinf & Hput) Hc. simpl in *.
  set (n := S (length pend)).
  destruct (read_data_refines (qs_queue s) _ n (ex_intro _ sub (ex_intro _ pend (conj Hinv eq_refl))))
    as (q1 & r & Hread & _); [done|].
  assert (Hpend : reply_bytes r = queue_bytes pend /\ rq_inv q1 (sub ++ pend) []).
  { unfold h3_session_read_data, n in Hread. rewrite Hc in Hread.
    destruct (read_data_loop_inv (S (length pend)) _ sub pend Hinv)
      as (q2 & vs & Hl & Hi & Hv & _). rewrite Hl in Hread.
    rewrite take_ge, drop_ge in * by (simpl; lia).
    destruct vs as [|v vs]; [destruct (rq_complete q2)|]; simplify_eq; done. }
  destruct Hpend as [Hb Hi1].
  destruct (ack_refines q1 _ (blen (queue_bytes (sub ++ pend)))
              (ex_intro _ _ (ex_intro _ _ (conj Hi1 eq_refl))))
    as (q2 & b & a2 & Hk & _ & Hstep & (sub2 & pend2 & Hi2 & ->));
    [simpl; pose proof (blen_nonneg (queue_bytes (sub ++ pend))); lia|].
  assert (Hfit : blen (queue_bytes (sub ++ pend)) = blen (qs_put s) - qs_acked s).
  { rewrite Hput, queue_bytes_app, !blen_app, <- Hinf, blen_bdrop by lia. lia. }
  exists n, (blen (queue_bytes (sub ++ pend))).
  cbn [consumer_run consumer_exec]. rewrite Hread.
  cbn [qs_handed qs_acked qs_queue qs_put]. rewrite Hb, <- Hput.
  rewrite (proj2 (Z.leb_le _ _)) by apply blen_nonneg.
  rewrite (proj2 (Z.leb_le _ _)) by lia. cbn [andb]. rewrite Hk. eexists. split; [done|].
  split; [|done]. simpl. inversion Hstep as [| | |? ? ? ? ? ? ? Hx Hl| |]; subst.
  destruct Hi2 as [_ _ _ _ _ Hbuf _ _ _]. rewrite Hbuf, queue_bytes_app, blen_app.
  match goal with H : _ = queue_bytes sub2 |- _ => rewrite <- H end.
  match goal with H : _ = queue_bytes pend2 |- _ => rewrite <- H end.
  rewrite bdrop_all by lia. done.
Qed.

Lemma response_queue_drains_witness :
  exists n ack s', consumer_run sample_complete [CReadData n; CAck ack] = Ran s'
    /\ rq_buffered (qs_queue s') = 0 /\ qs_handed s' = qs_put sample_complete.
Proof.
  apply (response_queue_drains sample_complete); [|reflexivity].
  destruct (complete_refines _ _ sample_queue_refines) as (a' & Hstep & Href).
  exists a'. inversion Hstep; subst. split; [exact Href|]. split; [vm_compute; split; congruence|].
  split; reflexivity.
Defined.

(** In every state of the queue the allocated chunks are exactly the ones
    reachable from [response_head], and [h3_stream_response_cleanup_locked] frees each of
    them once and leaves an empty queue. *)
Theorem response_cleanup_frees_all (q : resp_queue) (sub pend : list (loc * h3_response_chunk)) :
  rq_inv q sub pend ->
  dom (lq_heap (rq_q q)) = list_to_set (sub ++ pend).*1 /\
  exists q', h3_stream_response_cleanup_locked q = Some q'
    /\ lq_heap (rq_q q') = ∅ /\ rq_inv q' [] [].
Proof.
  intros [Hrep Hsub Hoff Hwf Hp Hbuf Hbd Hlim Hlen]. split; [by destruct Hrep|].
  unfold h3_stream_response_cleanup_locked.
  destruct (lq_clear_rep _ _ Hrep) as (l & -> & Hl & _). eexists. split; [done|].
  split; [apply dom_empty_inv_L; by destruct Hl|]. split; simpl; try done; lia.
Qed.

Lemma response_cleanup_frees_all_witness :
  exists q', h3_stream_response_cleanup_locked (rq_new 7) = Some q'
    /\ lq_heap (rq_q q') = ∅ /\ rq_inv q' [] [].
Proof.
  apply (response_cleanup_frees_all (rq_new 7) [] []).
  apply rq_new_inv. vm_compute. split; congruence.
Defined.
