(* ===== verification/Config.v ===== *)
(** * Configuration (h3_config.c, h3_config.h, h3.h)

    The per-server configuration of mod_http3: its record, the directive handlers of
    [h3_cmds], inheritance between servers ([h3_merge_server_config]) and the resolution
    of defaults by [h3_post_config].  A configuration is built by directives, then merged
    into the virtual hosts, then resolved; [conf_wf] holds after the first two and
    [conf_ready] after the third. The number parsers of APR, the httpd start-up state and
    the file system are parameters. *)

From S2P Require Import Prelude.

(** ** Limits (h3.h) *)

Definition H3_MAX_CONCURRENT_STREAMS_DEFAULT : Z := 100.
Definition H3_MAX_CONNECTIONS_DEFAULT : Z := 256.
Definition H3_MAX_CONNECTIONS_MAX : Z := 10000.
Definition H3_STREAM_BUFFER_SIZE_DEFAULT : Z := 64 * 1024.
Definition H3_STREAM_BUFFER_SIZE_MAX : Z := 1024 * 1024.
Definition H3_MAX_REQUEST_BODY_SIZE_DEFAULT : Z := 10 * 1024 * 1024.
Definition H3_MAX_REQUEST_BODY_SIZE_MAX : Z := 1024 * 1024 * 1024.
Definition H3_MAX_RESPONSE_BODY_SIZE_DEFAULT : Z := wrap64 (-1).
Definition H3_MAX_RESPONSE_BODY_SIZE_MAX : Z := 2 * 1024 * 1024 * 1024.
Definition H3_ALT_SVC_MAX_AGE_DEFAULT : Z := 86400.
Definition H3_ALT_SVC_MAX_AGE_MAX : Z := 7 * 24 * 3600.
Definition H3_HANDSHAKE_TIMEOUT_DEFAULT : Z := 10.
Definition H3_HANDSHAKE_TIMEOUT_MAX : Z := 600.
Definition H3_IDLE_TIMEOUT_DEFAULT : Z := 300.
Definition H3_IDLE_TIMEOUT_MAX : Z := 86400.
Definition UINT16_MAX : Z := 65535.

(** ** The configuration record *)

Inductive h3_tri_flag := H3_FLAG_UNSET | H3_FLAG_ON | H3_FLAG_OFF.

#[export] Instance h3_tri_flag_eq_dec : EqDecision h3_tri_flag.
Proof. solve_decision. Defined.

Record h3_server_conf := ServerConf {
  host_port : Z;
  h3_cert_path : option string;
  h3_key_path : option string;
  h3_port : Z;
  h3_max_concurrent_streams : Z;
  h3_max_connections : Z;
  h3_stream_buffer_size : Z;
  h3_max_request_body_size : Z;
  h3_max_response_body_size : Z;
  h3_alt_svc : h3_tri_flag;
  h3_address_validation : h3_tri_flag;
  h3_alt_svc_max_age : Z;
  h3_handshake_timeout : Z;
  h3_idle_timeout : Z }.

#[export] Instance h3_server_conf_eq_dec : EqDecision h3_server_conf.
Proof. solve_decision. Defined.

(** The part of httpd's [server_rec] the module uses: the ports of its address list and
    this module's configuration. *)
Record server_rec := ServerRec { sv_addrs : list Z; sv_conf : h3_server_conf }.

(** ** Creation and inheritance *)

Fixpoint get_server_port (addrs : list Z) : Z :=
  match addrs with
  | [] => 0
  | port :: addrs' => if negb (port =? 0) then port else get_server_port addrs'
  end.

Definition h3_create_server_config : h3_server_conf :=
  ServerConf 0 None None 0 0 0 0 0 0 H3_FLAG_UNSET H3_FLAG_UNSET 0 0 0.

(** [new ? new : base], for a number, a pointer and a flag. *)
Definition or_num (new base : Z) : Z := if negb (new =? 0) then new else base.
Definition or_ptr {A} (new base : option A) : option A :=
  match new with Some _ => new | None => base end.
Definition or_flag (new base : h3_tri_flag) : h3_tri_flag :=
  match new with H3_FLAG_UNSET => base | _ => new end.

Definition h3_merge_server_config (base new : h3_server_conf) : h3_server_conf :=
  ServerConf 0
    (or_ptr (h3_cert_path new) (h3_cert_path base))
    (or_ptr (h3_key_path new) (h3_key_path base))
    (or_num (h3_port new) (h3_port base))
    (or_num (h3_max_concurrent_streams new) (h3_max_concurrent_streams base))
    (or_num (h3_max_connections new) (h3_max_connections base))
    (or_num (h3_stream_buffer_size new) (h3_stream_buffer_size base))
    (or_num (h3_max_request_body_size new) (h3_max_request_body_size base))
    (or_num (h3_max_response_body_size new) (h3_max_response_body_size base))
    (or_flag (h3_alt_svc new) (h3_alt_svc base))
    (or_flag (h3_address_validation new) (h3_address_validation base))
    (or_num (h3_alt_svc_max_age new) (h3_alt_svc_max_age base))
    (or_num (h3_handshake_timeout new) (h3_handshake_timeout base))
    (or_num (h3_idle_timeout new) (h3_idle_timeout base)).

(** ** Directives *)

(** A handler returns NULL, or the message httpd reports, and the new configuration. *)
Definition cmd_result : Type := option string * h3_server_conf.

Definition err_empty (d : string) : string := d +:+ ": empty value".
Definition err_not_a_number (d arg : string) : string := d +:+ ": '" +:+ arg +:+ "' is not a number".
Definition err_not_representable (d arg : string) : string :=
  d +:+ ": '" +:+ arg +:+ "' is out of representable range".
Definition err_range (d arg : string) (max : Z) : string :=
  d +:+ ": '" +:+ arg +:+ "' is out of allowed range (1-" +:+ fmt_u max +:+ ")".

(** Stores to one field. *)
Definition upd_cert_path (v : option string) (c : h3_server_conf) : h3_server_conf :=
  ServerConf (host_port c) v (h3_key_path c) (h3_port c) (h3_max_concurrent_streams c)
    (h3_max_connections c) (h3_stream_buffer_size c) (h3_max_request_body_size c)
    (h3_max_response_body_size c) (h3_alt_svc c) (h3_address_validation c)
    (h3_alt_svc_max_age c) (h3_handshake_timeout c) (h3_idle_timeout c).
Definition upd_key_path (v : option string) (c : h3_server_conf) : h3_server_conf :=
  ServerConf (host_port c) (h3_cert_path c) v (h3_port c) (h3_max_concurrent_streams c)
    (h3_max_connections c) (h3_stream_buffer_size c) (h3_max_request_body_size c)
    (h3_max_response_body_size c) (h3_alt_svc c) (h3_address_validation c)
    (h3_alt_svc_max_age c) (h3_handshake_timeout c) (h3_idle_timeout c).
Definition upd_port (v : Z) (c : h3_server_conf) : h3_server_conf :=
  ServerConf (host_port c) (h3_cert_path c) (h3_key_path c) v (h3_max_concurrent_streams c)
    (h3_max_connections c) (h3_stream_buffer_size c) (h3_max_request_body_size c)
    (h3_max_response_body_size c) (h3_alt_svc c) (h3_address_validation c)
    (h3_alt_svc_max_age c) (h3_handshake_timeout c) (h3_idle_timeout c).
Definition upd_max_concurrent_streams (v : Z) (c : h3_server_conf) : h3_server_conf :=
  ServerConf (host_port c) (h3_cert_path c) (h3_key_path c) (h3_port c) v
    (h3_max_connections c) (h3_stream_buffer_size c) (h3_max_request_body_size c)
    (h3_max_response_body_size c) (h3_alt_svc c) (h3_address_validation c)
    (h3_alt_svc_max_age c) (h3_handshake_timeout c) (h3_idle_timeout c).
Definition upd_max_connections (v : Z) (c : h3_server_conf) : h3_server_conf :=
  ServerConf (host_port c) (h3_cert_path c) (h3_key_path c) (h3_port c)
    (h3_max_concurrent_streams c) v (h3_stream_buffer_size c) (h3_max_request_body_size c)
    (h3_max_response_body_size c) (h3_alt_svc c) (h3_address_validation c)
    (h3_alt_svc_max_age c) (h3_handshake_timeout c) (h3_idle_timeout c).
Definition upd_stream_buffer_size (v : Z) (c : h3_server_conf) : h3_server_conf :=
  ServerConf (host_port c) (h3_cert_path c) (h3_key_path c) (h3_port c)
    (h3_max_concurrent_streams c) (h3_max_connections c) v (h3_max_request_body_size c)
    (h3_max_response_body_size c) (h3_alt_svc c) (h3_address_validation c)
    (h3_alt_svc_max_age c) (h3_handshake_timeout c) (h3_idle_timeout c).
Definition upd_max_request_body_size (v : Z) (c : h3_server_conf) : h3_server_conf :=
  ServerConf (host_port c) (h3_cert_path c) (h3_key_path c) (h3_port c)
    (h3_max_concurrent_streams c) (h3_max_connections c) (h3_stream_buffer_size c) v
    (h3_max_response_body_size c) (h3_alt_svc c) (h3_address_validation c)
    (h3_alt_svc_max_age c) (h3_handshake_timeout c) (h3_idle_timeout c).
Definition upd_max_response_body_size (v : Z) (c : h3_server_conf) : h3_server_conf :=
  ServerConf (host_port c) (h3_cert_path c) (h3_key_path c) (h3_port c)
    (h3_max_concurrent_streams c) (h3_max_connections c) (h3_stream_buffer_size c)
    (h3_max_request_body_size c) v (h3_alt_svc c) (h3_address_validation c)
    (h3_alt_svc_max_age c) (h3_handshake_timeout c) (h3_idle_timeout c).
Definition upd_alt_svc (v : h3_tri_flag) (c : h3_server_conf) : h3_server_conf :=
  ServerConf (host_port c) (h3_cert_path c) (h3_key_path c) (h3_port c)
    (h3_max_concurrent_streams c) (h3_max_connections c) (h3_stream_buffer_size c)
    (h3_max_request_body_size c) (h3_max_response_body_size c) v (h3_address_validation c)
    (h3_alt_svc_max_age c) (h3_handshake_timeout c) (h3_idle_timeout c).
Definition upd_address_validation (v : h3_tri_flag) (c : h3_server_conf) : h3_server_conf :=
  ServerConf (host_port c) (h3_cert_path c) (h3_key_path c) (h3_port c)
    (h3_max_concurrent_streams c) (h3_max_connections c) (h3_stream_buffer_size c)
    (h3_max_request_body_size c) (h3_max_response_body_size c) (h3_alt_svc c) v
    (h3_alt_svc_max_age c) (h3_handshake_timeout c) (h3_idle_timeout c).
Definition upd_alt_svc_max_age (v : Z) (c : h3_server_conf) : h3_server_conf :=
  ServerConf (host_port c) (h3_cert_path c) (h3_key_path c) (h3_port c)
    (h3_max_concurrent_streams c) (h3_max_connections c) (h3_stream_buffer_size c)
    (h3_max_request_body_size c) (h3_max_response_body_size c) (h3_alt_svc c)
    (h3_address_validation c) v (h3_handshake_timeout c) (h3_idle_timeout c).
Definition upd_handshake_timeout (v : Z) (c : h3_server_conf) : h3_server_conf :=
  ServerConf (host_port c) (h3_cert_path c) (h3_key_path c) (h3_port c)
    (h3_max_concurrent_streams c) (h3_max_connections c) (h3_stream_buffer_size c)
    (h3_max_request_body_size c) (h3_max_response_body_size c) (h3_alt_svc c)
    (h3_address_validation c) (h3_alt_svc_max_age c) v (h3_idle_timeout c).
Definition upd_idle_timeout (v : Z) (c : h3_server_conf) : h3_server_conf :=
  ServerConf (host_port c) (h3_cert_path c) (h3_key_path c) (h3_port c)
    (h3_max_concurrent_streams c) (h3_max_connections c) (h3_stream_buffer_size c)
    (h3_max_request_body_size c) (h3_max_response_body_size c) (h3_alt_svc c)
    (h3_address_validation c) (h3_alt_svc_max_age c) (h3_handshake_timeout c) v.

Section Directives.
(** APR's decimal parsers: the status, and the number stored through the out parameter. *)
Context (apr_cstr_atoi64 apr_cstr_atoui64 : string -> apr_status * Z).

(** [set_string]: [conf] NULL is [None]. *)
Definition set_string (store : option string -> h3_server_conf -> h3_server_conf)
    (conf : option h3_server_conf) (arg : string) : option string * option h3_server_conf :=
  match conf with
  | None => (Some "mod_http3: internal error: no server config", None)
  | Some c => (None, Some (store (Some arg) c))
  end.

Definition set_h3_cert_path := set_string upd_cert_path.
Definition set_h3_key_path := set_string upd_key_path.

Definition set_h3_port (arg : option string) (conf : h3_server_conf) : cmd_result :=
  match arg with
  | None | Some "" => (Some "H3Port: empty port number", conf)
  | Some a =>
      let '(rv, port) := apr_cstr_atoi64 a in
      match rv with
      | APR_EINVAL => (Some (err_not_a_number "H3Port" a), conf)
      | APR_ERANGE => (Some (err_not_representable "H3Port" a), conf)
      | _ =>
          if (port <? 1) || (65535 <? port)
          then (Some (err_range "H3Port" a 65535), conf)
          else (None, upd_port (port mod 2 ^ 16) conf)
      end
  end.

(** The text shared by the eight handlers of an unsigned number: [d] is the directive's
    name, [max] the largest value it accepts, [store] the assignment of the field. *)
Definition set_unsigned (d : string) (max : Z) (store : Z -> h3_server_conf -> h3_server_conf)
    (arg : option string) (conf : h3_server_conf) : cmd_result :=
  match arg with
  | None | Some "" => (Some (err_empty d), conf)
  | Some a =>
      let '(rv, v) := apr_cstr_atoui64 a in
      let val := wrap64 v in
      match rv with
      | APR_EINVAL => (Some (err_not_a_number d a), conf)
      | APR_ERANGE => (Some (err_not_representable d a), conf)
      | _ =>
          if (val =? 0) || (max <? val) then (Some (err_range d a max), conf)
          else (None, store val conf)
      end
  end.

Definition set_h3_max_concurrent_streams :=
  set_unsigned "H3MaxConcurrentStreams" UINT16_MAX
    (fun val => upd_max_concurrent_streams (wrap32 val)).
Definition set_h3_max_connections :=
  set_unsigned "H3MaxConnections" H3_MAX_CONNECTIONS_MAX
    (fun val => upd_max_connections (wrap32 val)).
Definition set_h3_stream_buffer_size :=
  set_unsigned "H3StreamBufferSize" H3_STREAM_BUFFER_SIZE_MAX upd_stream_buffer_size.
Definition set_h3_max_request_body_size :=
  set_unsigned "H3MaxRequestBodySize" H3_MAX_REQUEST_BODY_SIZE_MAX upd_max_request_body_size.
Definition set_h3_max_response_body_size :=
  set_unsigned "H3MaxResponseBodySize" H3_MAX_RESPONSE_BODY_SIZE_MAX upd_max_response_body_size.
Definition set_h3_handshake_timeout :=
  set_unsigned "H3HandshakeTimeout" H3_HANDSHAKE_TIMEOUT_MAX
    (fun val => upd_handshake_timeout (wrap32 val)).
Definition set_h3_idle_timeout :=
  set_unsigned "H3IdleTimeout" H3_IDLE_TIMEOUT_MAX (fun val => upd_idle_timeout (wrap32 val)).
Definition set_h3_alt_svc_max_age :=
  set_unsigned "H3AltSvcMaxAge" H3_ALT_SVC_MAX_AGE_MAX
    (fun val => upd_alt_svc_max_age (wrap32 val)).

Definition set_h3_alt_svc (flag : bool) (conf : h3_server_conf) : cmd_result :=
  (None, upd_alt_svc (if flag then H3_FLAG_ON else H3_FLAG_OFF) conf).

Definition set_h3_address_validation (flag : bool) (conf : h3_server_conf) : cmd_result :=
  (None, upd_address_validation (if flag then H3_FLAG_ON else H3_FLAG_OFF) conf).

(** [AP_INIT_TAKE1] and [AP_INIT_FLAG] entries of the command table. *)
Inductive cmd_func :=
  | TAKE1 (f : option string -> h3_server_conf -> cmd_result)
  | FLAG (f : bool -> h3_server_conf -> cmd_result).

(** [set_string] on a server that has a configuration. *)
Definition take_string (f : option h3_server_conf -> string -> option string * option h3_server_conf)
    (arg : option string) (conf : h3_server_conf) : cmd_result :=
  match f (Some conf) (default "" arg) with (e, c) => (e, default conf c) end.

Definition h3_cmds : list (string * cmd_func) :=
  [ ("H3CertificatePath", TAKE1 (take_string set_h3_cert_path));
    ("H3CertificateKeyPath", TAKE1 (take_string set_h3_key_path));
    ("H3Port", TAKE1 set_h3_port);
    ("H3MaxConcurrentStreams", TAKE1 set_h3_max_concurrent_streams);
    ("H3MaxConnections", TAKE1 set_h3_max_connections);
    ("H3StreamBufferSize", TAKE1 set_h3_stream_buffer_size);
    ("H3MaxRequestBodySize", TAKE1 set_h3_max_request_body_size);
    ("H3AltSvc", FLAG set_h3_alt_svc);
    ("H3AltSvcMaxAge", TAKE1 set_h3_alt_svc_max_age);
    ("H3HandshakeTimeout", TAKE1 set_h3_handshake_timeout);
    ("H3IdleTimeout", TAKE1 set_h3_idle_timeout);
    ("H3MaxResponseBodySize", TAKE1 set_h3_max_response_body_size);
    ("H3AddressValidation", FLAG set_h3_address_validation) ].

(** The argument httpd passes: the text, and its reading as on/off for a flag. *)
Record directive := Directive { dr_name : string; dr_arg : option string; dr_flag : bool }.

(** One directive, looked up in [h3_cmds]; [None] when the module does not own it. *)
Definition run_directive (d : directive) (conf : h3_server_conf) : option cmd_result :=
  match list_find (fun nf => fst nf = dr_name d) h3_cmds with
  | Some (_, (_, TAKE1 f)) => Some (f (dr_arg d) conf)
  | Some (_, (_, FLAG f)) => Some (f (dr_flag d) conf)
  | None => None
  end.

(** httpd stops at the first directive that reports an error. *)
Fixpoint run_directives (ds : list directive) (conf : h3_server_conf) : option h3_server_conf :=
  match ds with
  | [] => Some conf
  | d :: ds' =>
      match run_directive d conf with
      | Some (None, conf') => run_directives ds' conf'
      | _ => None
      end
  end.
End Directives.

(** ** Resolution of defaults *)

Definition has_cert_and_key (c : h3_server_conf) : bool :=
  match h3_cert_path c, h3_key_path c with Some _, Some _ => true | _, _ => false end.

(** What an MPM query answers, or -1. *)
Definition mpm_query (answer : option Z) : Z := default (-1) answer.

(** The assignments of [h3_post_config] to the listening server's configuration. *)
Definition resolve_defaults (addrs : list Z) (vc : h3_server_conf) : h3_server_conf :=
  let port := get_server_port addrs in
  ServerConf port (h3_cert_path vc) (h3_key_path vc)
    (or_num (h3_port vc) port)
    (or_num (h3_max_concurrent_streams vc) H3_MAX_CONCURRENT_STREAMS_DEFAULT)
    (or_num (h3_max_connections vc) H3_MAX_CONNECTIONS_DEFAULT)
    (or_num (h3_stream_buffer_size vc) H3_STREAM_BUFFER_SIZE_DEFAULT)
    (or_num (h3_max_request_body_size vc) H3_MAX_REQUEST_BODY_SIZE_DEFAULT)
    (or_num (h3_max_response_body_size vc) H3_MAX_RESPONSE_BODY_SIZE_DEFAULT)
    (or_flag (h3_alt_svc vc) H3_FLAG_ON)
    (or_flag (h3_address_validation vc) H3_FLAG_ON)
    (or_num (h3_alt_svc_max_age vc) H3_ALT_SVC_MAX_AGE_DEFAULT)
    (or_num (h3_handshake_timeout vc) H3_HANDSHAKE_TIMEOUT_DEFAULT)
    (or_num (h3_idle_timeout vc) H3_IDLE_TIMEOUT_DEFAULT).

(** The loop over the server list: the first server with both paths is resolved and the
    loop stops; the second component is [conf] after the loop. *)
Fixpoint resolve_listener (servers : list server_rec) : list server_rec * option h3_server_conf :=
  match servers with
  | [] => ([], None)
  | vs :: rest =>
      if has_cert_and_key (sv_conf vs) then
        let vc := resolve_defaults (sv_addrs vs) (sv_conf vs) in
        (ServerRec (sv_addrs vs) vc :: rest, Some vc)
      else
        let '(rest', conf) := resolve_listener rest in (vs :: rest', conf)
  end.

(** [pre_config] is [ap_state_query(AP_SQ_MAIN_STATE) == AP_SQ_MS_CREATE_PRE_CONFIG] and
    [readable] whether [apr_file_open] succeeds on a path. *)
Definition h3_post_config (pre_config : bool) (readable : string -> bool)
    (servers : list server_rec) : hook_rv * list server_rec :=
  if pre_config then (OK, servers)
  else
    let '(servers', conf) := resolve_listener servers in
    match conf with
    | Some vc =>
        match h3_cert_path vc, h3_key_path vc with
        | Some cert, Some key =>
            if negb (readable cert) then (HTTP_INTERNAL_SERVER_ERROR, servers')
            else if negb (readable key) then (HTTP_INTERNAL_SERVER_ERROR, servers')
            else (OK, servers')
        | _, _ => (HTTP_INTERNAL_SERVER_ERROR, servers')
        end
    | None => (HTTP_INTERNAL_SERVER_ERROR, servers')
    end.

(** Per-directory configuration: an opaque byte, merged to the base. *)
Definition h3_create_dir_config : Z := 0.
Definition h3_merge_dir_config (base add : Z) : Z := base.

(** ** Well-formed and resolved configurations *)

(** A field that is unset, or within the range its directive accepts. *)
Definition opt_range (max v : Z) : Prop := 0 <= v <= max.

Record conf_wf (c : h3_server_conf) : Prop := {
  wf_port : opt_range 65535 (h3_port c);
  wf_streams : opt_range UINT16_MAX (h3_max_concurrent_streams c);
  wf_conns : opt_range H3_MAX_CONNECTIONS_MAX (h3_max_connections c);
  wf_buffer : opt_range H3_STREAM_BUFFER_SIZE_MAX (h3_stream_buffer_size c);
  wf_req : opt_range H3_MAX_REQUEST_BODY_SIZE_MAX (h3_max_request_body_size c);
  wf_resp : opt_range H3_MAX_RESPONSE_BODY_SIZE_MAX (h3_max_response_body_size c);
  wf_age : opt_range H3_ALT_SVC_MAX_AGE_MAX (h3_alt_svc_max_age c);
  wf_handshake : opt_range H3_HANDSHAKE_TIMEOUT_MAX (h3_handshake_timeout c);
  wf_idle : opt_range H3_IDLE_TIMEOUT_MAX (h3_idle_timeout c) }.

(** What the rest of the module relies on: every limit is set and in range, and the
    response limit is finite and in range or the streaming marker. *)
Record conf_ready (c : h3_server_conf) : Prop := {
  rd_cert : is_Some (h3_cert_path c);
  rd_key : is_Some (h3_key_path c);
  rd_streams : 1 <= h3_max_concurrent_streams c <= UINT16_MAX;
  rd_conns : 1 <= h3_max_connections c <= H3_MAX_CONNECTIONS_MAX;
  rd_buffer : 1 <= h3_stream_buffer_size c <= H3_STREAM_BUFFER_SIZE_MAX;
  rd_req : 1 <= h3_max_request_body_size c <= H3_MAX_REQUEST_BODY_SIZE_MAX;
  rd_resp : 1 <= h3_max_response_body_size c <= H3_MAX_RESPONSE_BODY_SIZE_MAX
            \/ h3_max_response_body_size c = H3_MAX_RESPONSE_BODY_SIZE_DEFAULT;
  rd_alt_svc : h3_alt_svc c <> H3_FLAG_UNSET;
  rd_validation : h3_address_validation c <> H3_FLAG_UNSET;
  rd_age : 1 <= h3_alt_svc_max_age c <= H3_ALT_SVC_MAX_AGE_MAX;
  rd_handshake : 1 <= h3_handshake_timeout c <= H3_HANDSHAKE_TIMEOUT_MAX;
  rd_idle : 1 <= h3_idle_timeout c <= H3_IDLE_TIMEOUT_MAX }.

(** ** Lemmas *)

Ltac conf_consts :=
  unfold UINT16_MAX, H3_MAX_CONNECTIONS_MAX, H3_STREAM_BUFFER_SIZE_MAX,
    H3_MAX_REQUEST_BODY_SIZE_MAX, H3_MAX_RESPONSE_BODY_SIZE_MAX, H3_ALT_SVC_MAX_AGE_MAX,
    H3_HANDSHAKE_TIMEOUT_MAX, H3_IDLE_TIMEOUT_MAX, opt_range in *.

Lemma or_num_range max new base : opt_range max new -> opt_range max base ->
  opt_range max (or_num new base).
Proof. unfold or_num. by destruct (new =? 0). Qed.

Lemma or_num_set max new base : opt_range max new -> 1 <= base <= max ->
  1 <= or_num new base <= max.
Proof. unfold or_num, opt_range. destruct (Z.eqb_spec new 0); simpl; lia. Qed.

Lemma or_num_assoc a b c : or_num a (or_num b c) = or_num (or_num a b) c.
Proof. unfold or_num. by destruct (a =? 0) eqn:Ea; simpl; rewrite ?Ea. Qed.

Lemma or_num_0_l a : or_num 0 a = a.
Proof. done. Qed.

Lemma or_num_0_r a : or_num a 0 = a.
Proof. unfold or_num. by destruct (Z.eqb_spec a 0) as [->|]. Qed.

Lemma or_ptr_assoc {A} (a b c : option A) : or_ptr a (or_ptr b c) = or_ptr (or_ptr a b) c.
Proof. by destruct a, b. Qed.

Lemma or_ptr_None_r {A} (a : option A) : or_ptr a None = a.
Proof. by destruct a. Qed.

Lemma or_flag_assoc a b c : or_flag a (or_flag b c) = or_flag (or_flag a b) c.
Proof. by destruct a, b. Qed.

Lemma or_flag_UNSET_r a : or_flag a H3_FLAG_UNSET = a.
Proof. by destruct a. Qed.

Lemma create_wf : conf_wf h3_create_server_config.
Proof. split; conf_consts; simpl; lia. Qed.

#[export] Hint Resolve or_num_range create_wf : h3.

Lemma merge_wf base new : conf_wf base -> conf_wf new -> conf_wf (h3_merge_server_config base new).
Proof. intros [] []. split; simpl; auto with h3. Qed.

(** A number handler either leaves the configuration alone and reports an error, or
    stores a value of its range. *)
Lemma set_unsigned_cases atoui64 d max store arg conf :
  (exists e, set_unsigned atoui64 d max store arg conf = (Some e, conf))
  \/ (exists v, 1 <= v <= max /\ set_unsigned atoui64 d max store arg conf = (None, store v conf)).
Proof.
  unfold set_unsigned. destruct arg as [[|ch a]|]; [by left; eexists| |by left; eexists].
  destruct (atoui64 (String ch a)) as [rv v]. pose proof (wrap64_range v).
  destruct rv; try (by left; eexists);
    (destruct (Z.eqb_spec (wrap64 v) 0); [by left; eexists|];
     destruct (Z.ltb_spec max (wrap64 v)); [by left; eexists|];
     right; eexists; split; [|done]; lia).
Qed.

Lemma set_h3_port_cases atoi64 arg conf :
  (exists e, set_h3_port atoi64 arg conf = (Some e, conf))
  \/ (exists v, 1 <= v <= 65535 /\ set_h3_port atoi64 arg conf = (None, upd_port v conf)).
Proof.
  unfold set_h3_port. destruct arg as [[|ch a]|]; [by left; eexists| |by left; eexists].
  destruct (atoi64 (String ch a)) as [rv v].
  destruct rv; try (by left; eexists);
    (destruct (Z.ltb_spec v 1); [by left; eexists|];
     destruct (Z.ltb_spec 65535 v); [by left; eexists|];
     right; exists v; split; [lia|]; simpl; by rewrite Z.mod_small by lia).
Qed.

(** A directive handler keeps the configuration well-formed, and unchanged when it
    reports an error. *)
Definition cmd_ok (f : h3_server_conf -> cmd_result) : Prop :=
  forall c, conf_wf c -> conf_wf (snd (f c)) /\ (is_Some (fst (f c)) -> snd (f c) = c).

Lemma set_unsigned_ok atoui64 d max store arg :
  (forall v c, conf_wf c -> 1 <= v <= max -> conf_wf (store v c)) ->
  cmd_ok (set_unsigned atoui64 d max store arg).
Proof.
  intros Hs c Hc.
  destruct (set_unsigned_cases atoui64 d max store arg c) as [[e ->]|(v & Hv & ->)]; simpl; [done|].
  split; [by apply Hs|]. by intros [].
Qed.

Lemma set_h3_port_ok atoi64 arg : cmd_ok (set_h3_port atoi64 arg).
Proof.
  intros c Hc. destruct (set_h3_port_cases atoi64 arg c) as [[e ->]|(v & Hv & ->)]; simpl; [done|].
  split; [|by intros []]. destruct Hc. split; simpl; try done. conf_consts. lia.
Qed.

(** Every entry of the command table is such a handler. *)
Lemma h3_cmds_ok atoi64 atoui64 :
  Forall (fun nf => match snd nf with
                    | TAKE1 f => forall arg, cmd_ok (f arg)
                    | FLAG f => forall b, cmd_ok (f b)
                    end) (h3_cmds atoi64 atoui64).
Proof.
  repeat (apply Forall_cons; split); [..|apply Forall_nil; done]; simpl; intros arg.
  3: apply set_h3_port_ok.
  all: try (intros c []; simpl; split; [by split|by intros []]).
  all: apply set_unsigned_ok; intros v c [] Hv; split; simpl; conf_consts; try done; try lia;
    rewrite wrap32_small by (unfold UINT32_MAX; lia); lia.
Qed.

Lemma run_directive_ok atoi64 atoui64 d c r :
  conf_wf c -> run_directive atoi64 atoui64 d c = Some r ->
  conf_wf (snd r) /\ (is_Some (fst r) -> snd r = c).
Proof.
  intros Hc Hrun. unfold run_directive in Hrun.
  destruct (list_find _ _) as [[i [n f]]|] eqn:Ef; [|done].
  apply list_find_Some in Ef as (Hi & _ & _).
  pose proof (Forall_lookup_1 _ _ _ _ (h3_cmds_ok atoi64 atoui64) Hi) as Hok. simpl in Hok.
  destruct f; simplify_eq; by apply Hok.
Qed.

Lemma run_directives_wf atoi64 atoui64 ds c c' :
  conf_wf c -> run_directives atoi64 atoui64 ds c = Some c' -> conf_wf c'.
Proof.
  revert c. induction ds as [|d ds IH]; intros c Hc Hrun; simpl in Hrun; [by simplify_eq|].
  destruct (run_directive _ _ d c) as [[[e|] c1]|] eqn:E; try done.
  apply run_directive_ok in E as [Hc1 _]; [|done]. by eapply IH.
Qed.

Lemma resolve_defaults_ready addrs c :
  conf_wf c -> has_cert_and_key c = true -> conf_ready (resolve_defaults addrs c).
Proof.
  intros [] Hk. unfold has_cert_and_key in Hk.
  destruct (h3_cert_path c) as [cert|] eqn:Ec, (h3_key_path c) as [key|] eqn:Ek; try done.
  split; simpl; rewrite ?Ec, ?Ek; try (by eexists);
    try (apply or_num_set; [done|vm_compute; split; congruence]).
  - unfold or_num. destruct (Z.eqb_spec (h3_max_response_body_size c) 0); simpl; [by right|].
    left. conf_consts. lia.
  - by destruct (h3_alt_svc c).
  - by destruct (h3_address_validation c).
Qed.

(** The loop resolves the first server with both paths and nothing else. *)
Lemma resolve_listener_spec servers :
  match snd (resolve_listener servers) with
  | Some vc =>
      exists pre vs post, servers = pre ++ vs :: post
        /\ Forall (fun v => has_cert_and_key (sv_conf v) = false) pre
        /\ has_cert_and_key (sv_conf vs) = true
        /\ vc = resolve_defaults (sv_addrs vs) (sv_conf vs)
        /\ fst (resolve_listener servers) = pre ++ ServerRec (sv_addrs vs) vc :: post
  | None => Forall (fun v => has_cert_and_key (sv_conf v) = false) servers
            /\ fst (resolve_listener servers) = servers
  end.
Proof.
  induction servers as [|v servers IH]; simpl; [done|].
  destruct (has_cert_and_key (sv_conf v)) eqn:Ev; simpl.
  - exists [], v, servers. done.
  - destruct (resolve_listener servers) as [rest [vc|]]; simpl in *.
    + destruct IH as (pre & vs & post & -> & Hpre & Hvs & -> & ->).
      exists (v :: pre), vs, post. split_and!; try done. by apply Forall_cons.
    + destruct IH as [Hall ->]. split; [by apply Forall_cons|done].
Qed.

Lemma resolve_listener_split pre vs post :
  Forall (fun v => has_cert_and_key (sv_conf v) = false) pre ->
  has_cert_and_key (sv_conf vs) = true ->
  resolve_listener (pre ++ vs :: post)
  = (pre ++ ServerRec (sv_addrs vs) (resolve_defaults (sv_addrs vs) (sv_conf vs)) :: post,
     Some (resolve_defaults (sv_addrs vs) (sv_conf vs))).
Proof.
  intros Hpre Hvs. induction Hpre as [|v pre Hv Hpre IH]; simpl; [by rewrite Hvs|].
  by rewrite Hv, IH.
Qed.

Lemma has_cert_and_key_spec c :
  has_cert_and_key c = true <->
  exists cert key, h3_cert_path c = Some cert /\ h3_key_path c = Some key.
Proof.
  unfold has_cert_and_key. destruct (h3_cert_path c), (h3_key_path c); naive_solver.
Qed.

(** ** Properties *)

(** Whatever directives a configuration file gives, in any order and with
    any arguments, every accepted configuration has each limit unset or within its
    documented range; and a directive that is rejected changes nothing. *)
Theorem directives_keep_ranges atoi64 atoui64 (ds : list directive) (c : h3_server_conf) :
  run_directives atoi64 atoui64 ds h3_create_server_config = Some c ->
  conf_wf c /\
  forall d e c', run_directive atoi64 atoui64 d c = Some (Some e, c') -> c' = c.
Proof.
  intros Hrun. pose proof (run_directives_wf _ _ _ _ _ create_wf Hrun) as Hc.
  split; [done|]. intros d e c' Hd. apply run_directive_ok in Hd as [_ Hd]; [|done].
  apply Hd. by eexists.
Qed.

(** A decimal parser for one digit, enough to run the table. *)
Definition sample_atoui64 (s : string) : apr_status * Z :=
  match s with
  | String ch "" =>
      let n := Z.of_N (Ascii.N_of_ascii ch) - 48 in
      if (0 <=? n) && (n <=? 9) then (APR_SUCCESS, n) else (APR_EINVAL, 0)
  | _ => (APR_EINVAL, 0)
  end.

Definition sample_directives : list directive :=
  [ Directive "H3CertificatePath" (Some "c.pem") false;
    Directive "H3CertificateKeyPath" (Some "k.pem") false;
    Directive "H3MaxConnections" (Some "7") false;
    Directive "H3AltSvc" None false ].

Lemma directives_keep_ranges_witness :
  exists c, run_directives sample_atoui64 sample_atoui64 sample_directives
              h3_create_server_config = Some c
    /\ h3_max_connections c = 7 /\ conf_wf c.
Proof.
  eexists. split; [vm_compute; reflexivity|]. split; [reflexivity|].
  apply (directives_keep_ranges sample_atoui64 sample_atoui64 sample_directives).
  vm_compute. reflexivity.
Defined.

(** Merging server configurations is associative and has the freshly
    created configuration as its unit on both sides, so the value a virtual host ends up
    with does not depend on how httpd groups the merges; [host_port], which the merge
    resets, is excluded by asking for configurations that have not been resolved. *)
Theorem merge_is_monoid (a b c : h3_server_conf) :
  h3_merge_server_config (h3_merge_server_config a b) c
  = h3_merge_server_config a (h3_merge_server_config b c)
  /\ (host_port a = 0 ->
      h3_merge_server_config a h3_create_server_config = a
      /\ h3_merge_server_config h3_create_server_config a = a).
Proof.
  unfold h3_merge_server_config. split; simpl.
  - f_equal; auto using or_num_assoc, or_flag_assoc, or_ptr_assoc, eq_sym.
  - intros H0. destruct a; simpl in *; subst.
    by rewrite !or_num_0_r, !or_ptr_None_r, !or_flag_UNSET_r.
Qed.

Definition sample_conf : h3_server_conf :=
  upd_port 4433 (upd_key_path (Some "k.pem") (upd_cert_path (Some "c.pem") h3_create_server_config)).

Lemma merge_is_monoid_witness :
  h3_merge_server_config sample_conf h3_create_server_config = sample_conf.
Proof. apply (merge_is_monoid sample_conf sample_conf sample_conf). reflexivity. Defined.

(** Outside the pre-configuration phase [h3_post_config] accepts exactly
    when some server has both a certificate and a key path and both files of the first
    such server are readable; it resolves that server and leaves every other one as it
    was; and if the configurations are well-formed the resolved one is ready for the
    listener. *)
Theorem post_config_selects_first (readable : string -> bool) (servers : list server_rec) :
  let '(rv, servers') := h3_post_config false readable servers in
  (rv = OK <-> exists pre vs post cert key,
     servers = pre ++ vs :: post
     /\ Forall (fun v => has_cert_and_key (sv_conf v) = false) pre
     /\ h3_cert_path (sv_conf vs) = Some cert /\ h3_key_path (sv_conf vs) = Some key
     /\ readable cert = true /\ readable key = true
     /\ servers' = pre ++ ServerRec (sv_addrs vs)
                            (resolve_defaults (sv_addrs vs) (sv_conf vs)) :: post)
  /\ (rv = OK -> Forall (fun v => conf_wf (sv_conf v)) servers ->
      exists vs, vs ∈ servers' /\ conf_ready (sv_conf vs)).
Proof.
  unfold h3_post_config. pose proof (resolve_listener_spec servers) as Hspec.
  destruct (resolve_listener servers) as [servers' [vc|]] eqn:E; simpl in Hspec.
  - destruct Hspec as (pre & vs & post & -> & Hpre & Hvs & -> & ->).
    pose proof Hvs as (cert & key & Hc & Hk)%has_cert_and_key_spec. simpl. rewrite Hc, Hk.
    assert (Huniq : forall pre' vs' post', pre ++ vs :: post = pre' ++ vs' :: post' ->
      Forall (fun v => has_cert_and_key (sv_conf v) = false) pre' ->
      has_cert_and_key (sv_conf vs') = true ->
      resolve_defaults (sv_addrs vs) (sv_conf vs) = resolve_defaults (sv_addrs vs') (sv_conf vs')).
    { intros pre' vs' post' Heq Hp' Hv'. rewrite Heq, resolve_listener_split in E by done.
      apply (f_equal snd) in E. cbn [snd] in E. by apply (inj Some) in E. }
    assert (Hready : Forall (fun v => conf_wf (sv_conf v)) (pre ++ vs :: post) ->
      exists v, v ∈ pre ++ ServerRec (sv_addrs vs)
                  (resolve_defaults (sv_addrs vs) (sv_conf vs)) :: post
        /\ conf_ready (sv_conf v)).
    { intros [_ [Hwf _]%Forall_cons]%Forall_app. eexists. split.
      - apply elem_of_app. right. left.
      - by apply resolve_defaults_ready. }
    destruct (readable cert) eqn:Rc, (readable key) eqn:Rk; simpl;
      (split; [|intros ?; first [exact Hready|done]]);
      (split; [try done; intros _; by exists pre, vs, post, cert, key|]); try done;
      intros (pre' & vs' & post' & cert' & key' & Heq & Hp' & Hc' & Hk' & Rc' & Rk' & _);
      specialize (Huniq _ _ _ Heq Hp' ltac:(apply has_cert_and_key_spec; eauto));
      apply (f_equal h3_cert_path) in Huniq as Hu1; apply (f_equal h3_key_path) in Huniq as Hu2;
      simpl in Hu1, Hu2; congruence.
  - destruct Hspec as [Hall ->]. split; [|done]. split; [done|].
    intros (pre & vs & post & cert & key & -> & _ & Hc & Hk & _).
    apply Forall_app in Hall as [_ [Hno _]%Forall_cons]. exfalso.
    enough (has_cert_and_key (sv_conf vs) = true) by congruence.
    apply has_cert_and_key_spec; eauto.
Qed.

Lemma post_config_selects_first_witness :
  exists servers', h3_post_config false (fun _ => true)
      [ServerRec [0; 8443] (upd_port 0 sample_conf); ServerRec [80] sample_conf] = (OK, servers')
    /\ exists vs, vs ∈ servers' /\ conf_ready (sv_conf vs).
Proof.
  eexists. split; [vm_compute; reflexivity|].
  pose proof (post_config_selects_first (fun _ => true)
    [ServerRec [0; 8443] (upd_port 0 sample_conf); ServerRec [80] sample_conf]) as [_ H].
  apply H; [reflexivity|].
  repeat (apply Forall_cons; split); [..|by apply Forall_nil];
    (split; vm_compute; split; congruence).
Defined.
