(* ===== verification/AddrQueue.v ===== *)
(** * Peer-address recovery (quic/detail/h3q_addr.c)

    OpenSSL does not say which address a new QUIC connection came from.  The filter BIO of
    h3q_addr.c receives datagrams in batches, holds them in a linked queue and lets OpenSSL
    see them one at a time, remembering the address of the datagram being processed in
    [current_peer_addr]; the pending-connection callback copies it onto the connection.

    The queue is a [lqueue] of [h3q_datagram]s.  The underlying datagram BIO and the
    allocator are inputs of the operations.  The theorem gives the fate of every datagram:
    those that are delivered are delivered once, in order and with their own peer address,
    and the others are accounted for. *)

From S2P Require Import Prelude LinkedQueue.

(** An OpenSSL [BIO_ADDR]: family, raw address and raw port; cleared is [AF_UNSPEC]. *)
Inductive addr_family := AF_UNSPEC | AF_INET | AF_INET6 | AF_OTHER.

#[export] Instance addr_family_eq_dec : EqDecision addr_family.
Proof. solve_decision. Defined.

Record bio_addr := BioAddr { ba_family : addr_family; ba_raw : bytes; ba_port : Z }.

#[export] Instance bio_addr_eq_dec : EqDecision bio_addr.
Proof. solve_decision. Defined.

Definition addr_clear : bio_addr := BioAddr AF_UNSPEC [] 0.

(** [struct h3q_datagram]. *)
Record h3q_datagram := Datagram {
  dg_data : bytes;
  dg_len : Z;
  dg_peer : option bio_addr;
  dg_local : option bio_addr }.

(** [BIO_MSG]: [m_data] is the buffer ([None] for NULL), [m_data_len] its capacity before
    a receive and the datagram's length after it. *)
Record bio_msg := BioMsg {
  m_data : option bytes;
  m_data_len : Z;
  m_peer : option bio_addr;
  m_local : option bio_addr }.

(** The fields of [struct h3q_engine] this file works on. *)
Record addr_state := AddrState {
  eng_rx : lqueue h3q_datagram;      (** [peer_rx_head], [peer_rx_tail], the datagrams *)
  eng_current : bio_addr;            (** [current_peer_addr] *)
  eng_ex_index : Z }.                (** [peer_addr_ex_index] *)

Definition with_rx (e : addr_state) (q : lqueue h3q_datagram) : addr_state :=
  AddrState q (eng_current e) (eng_ex_index e).
Definition with_current (e : addr_state) (a : bio_addr) : addr_state :=
  AddrState (eng_rx e) a (eng_ex_index e).

(** Which of the allocations for one datagram succeed: the item, the copy of the data and
    the copies of the two addresses. *)
Record fill_alloc := FillAlloc {
  fa_item : bool; fa_data : bool; fa_peer : bool; fa_local : bool }.

Definition h3q_queue_drop_head (e : addr_state) : option addr_state :=
  with_rx e <$> lq_drop_head (eng_rx e).

Definition h3q_peer_addr_queue_clear (e : addr_state) : option addr_state :=
  with_rx e <$> lq_clear (eng_rx e).

(** [BIO_ADDR_dup] of an address that may be NULL. *)
Definition addr_dup (ok : bool) (a : option bio_addr) : option bio_addr :=
  if ok then a else None.

(** [(source->peer && !item->peer)]: a copy that was needed and failed. *)
Definition dup_failed (src copy : option bio_addr) : bool :=
  match src, copy with Some _, None => true | _, _ => false end.

(** The loop of [h3q_queue_fill] over the received messages, each with the outcome of its
    allocations; the boolean is the returned [int]. *)
Fixpoint h3q_queue_fill (e : addr_state) (msgs : list (bio_msg * fill_alloc))
    : option (addr_state * bool) :=
  match msgs with
  | [] => Some (e, true)
  | (source, al) :: rest =>
      match m_data source with
      | Some data =>
          if negb (fa_item al) || (m_data_len source =? 0)
          then (fun e' => (e', false)) <$> h3q_peer_addr_queue_clear e
          else
            let peer := addr_dup (fa_peer al) (m_peer source) in
            let local := addr_dup (fa_local al) (m_local source) in
            if negb (fa_data al) || dup_failed (m_peer source) peer
               || dup_failed (m_local source) local
            then (fun e' => (e', false)) <$> h3q_peer_addr_queue_clear e
            else
              let item := Datagram (btake (m_data_len source) data) (m_data_len source)
                                   peer local in
              match lq_push (eng_rx e) item with
              | Some (q, _) => h3q_queue_fill (with_rx e q) rest
              | None => None
              end
      | None => (fun e' => (e', false)) <$> h3q_peer_addr_queue_clear e
      end
  end.

(** [BIO_ADDR_copy] into an address slot of the message, when both sides are present. *)
Definition copy_addr (dst src : option bio_addr) : option bio_addr :=
  match dst, src with Some _, Some a => Some a | _, _ => dst end.

Definition h3q_queue_pop (e : addr_state) (msg : bio_msg)
    : option (addr_state * bio_msg * bool) :=
  match lq_head (eng_rx e), m_data msg with
  | Some _, Some buf =>
      match lq_peek (eng_rx e) with
      | Some item =>
          if m_data_len msg <? dg_len item then
            (* Drop it, or the queue head never clears and the pump spins. *)
            (fun e' => (e', msg, false)) <$> h3q_queue_drop_head e
          else
            let msg' := BioMsg (Some (btake (dg_len item) (dg_data item)
                                        ++ bdrop (dg_len item) buf))
                               (dg_len item)
                               (copy_addr (m_peer msg) (dg_peer item))
                               (copy_addr (m_local msg) (dg_local item)) in
            (fun e' => (e', msg', true)) <$> h3q_queue_drop_head e
      | None => None
      end
  | _, _ => Some (e, msg, false)
  end.

(** What a call of [h3q_peer_addr_bio_recvmmsg] leaves behind. *)
Record recv_result := RecvResult {
  rr_state : addr_state;
  rr_msg : bio_msg;               (** [msg[0]] *)
  rr_processed : Z;               (** [*msgs_processed] *)
  rr_rv : bool }.

(** [*msgs_processed = 1; if (msg->peer) BIO_ADDR_copy(current_peer_addr, msg->peer)]. *)
Definition deliver (e : addr_state) (msg : bio_msg) (rv : bool) : recv_result :=
  RecvResult (match m_peer msg with Some a => with_current e a | None => e end) msg 1 rv.

(** [next_ok] says whether there is a BIO below; [recv] is what its [BIO_recvmmsg] returns
    when it is called: its status and the messages it filled, each with the allocations
    [h3q_queue_fill] will make for it. [processed] is the caller's [*msgs_processed]. *)
Definition h3q_peer_addr_bio_recvmmsg (e : addr_state) (next_ok : bool)
    (recv : bool * list (bio_msg * fill_alloc)) (msg : bio_msg) (num_msg processed : Z)
    : option recv_result :=
  if negb next_ok || (num_msg =? 0) then Some (RecvResult e msg processed false)
  else
    let e := with_current e addr_clear in
    match lq_head (eng_rx e) with
    | Some _ =>
        match h3q_queue_pop e msg with
        | Some (e', msg', true) => Some (deliver e' msg' true)
        | Some (e', msg', false) => Some (RecvResult e' msg' 0 false)
        | None => None
        end
    | None =>
        let '(rv, received) := recv in
        match received with
        | (first, _) :: _ =>
            if rv then
              match h3q_queue_fill e received with
              | Some (e1, true) =>
                  match h3q_queue_pop e1 first with
                  | Some (e2, msg', true) => Some (deliver e2 msg' rv)
                  | Some (e2, msg', false) => Some (RecvResult e2 msg' 0 false)
                  | None => None
                  end
              | Some (e1, false) => Some (RecvResult e1 first 0 false)
              | None => None
              end
            else Some (RecvResult e first (Z.of_nat (length received)) rv)
        | [] => Some (RecvResult e msg 0 rv)
        end
    end.

(** The destroy handler of the BIO drops what is still queued. *)
Definition h3q_peer_addr_bio_destroy (e : addr_state) : option addr_state :=
  h3q_peer_addr_queue_clear e.

(** The control and send handlers forward to the BIO below, if there is one. *)
Definition h3q_peer_addr_bio_ctrl (next : option (Z -> Z -> Z)) (cmd num : Z) : Z :=
  match next with Some ctrl => ctrl cmd num | None => 0 end.

Definition h3q_peer_addr_bio_sendmmsg (next : option (list bio_msg -> Z -> bool * Z))
    (msgs : list bio_msg) (flags : Z) : bool * option Z :=
  match next with
  | Some send => let '(rv, n) := send msgs flags in (rv, Some n)
  | None => (false, None)
  end.

(** [h3q_new_pending_conn_cb]: whether the connection is kept, and the address recorded on
    it. [dup_ok] and [set_ok] are the outcomes of [BIO_ADDR_dup] and [SSL_set_ex_data]. *)
Definition h3q_new_pending_conn_cb (e : addr_state) (dup_ok set_ok : bool)
    : bool * option bio_addr :=
  if (eng_ex_index e <? 0) || bool_decide (ba_family (eng_current e) = AF_UNSPEC)
  then (true, None)
  else if negb dup_ok || negb set_ok then (false, None)
  else (true, Some (eng_current e)).

(** ** What the queue stands for *)

Definition rx_rep (e : addr_state) (ds : list h3q_datagram) : Prop :=
  exists l, lq_rep (eng_rx e) l /\ l.*2 = ds.

(** The datagram [h3q_queue_fill] makes of a received message. *)
Definition datagram_of (m : bio_msg) : h3q_datagram :=
  Datagram (btake (m_data_len m) (default [] (m_data m))) (m_data_len m) (m_peer m) (m_local m).

(** A message that [h3q_queue_fill] can store: it has data, and what is allocated for it can
    be allocated.  An address that is not there needs no copy. *)
Definition storable (ma : bio_msg * fill_alloc) : bool :=
  let '(m, al) := ma in
  match m_data m with Some _ => true | None => false end && fa_item al && negb (m_data_len m =? 0) && fa_data al
  && match m_peer m with Some _ => fa_peer al | None => true end
  && match m_local m with Some _ => fa_local al | None => true end.

(** The engine as it is created: nothing queued, no current address. *)
Definition addr_init (ex_index : Z) : addr_state := AddrState lq_empty addr_clear ex_index.

Section QueueFacts.
Implicit Types (e : addr_state) (ds : list h3q_datagram) (msg : bio_msg).

Lemma addr_init_rep i : rx_rep (addr_init i) [].
Proof. exists []. split; [apply lq_empty_rep|done]. Qed.

Lemma rx_rep_head e ds : rx_rep e ds -> lq_head (eng_rx e) = None <-> ds = [].
Proof.
  intros (l & Hl & <-). rewrite (lq_rep_head _ _ Hl). by destruct l.
Qed.

Lemma queue_clear_rep e ds :
  rx_rep e ds -> exists e', h3q_peer_addr_queue_clear e = Some e' /\ rx_rep e' []
    /\ lq_heap (eng_rx e') = ∅ /\ eng_current e' = eng_current e /\ eng_ex_index e' = eng_ex_index e.
Proof.
  intros (l & Hl & _). destruct (lq_clear_rep _ _ Hl) as (q & Hq & Hrep & _).
  exists (with_rx e q). unfold h3q_peer_addr_queue_clear. rewrite Hq. split; [done|].
  split; [by exists []|]. split; [|done]. apply dom_empty_inv_L. by destruct Hrep.
Qed.

Lemma queue_drop_head_rep e d ds :
  rx_rep e (d :: ds) -> exists e', h3q_queue_drop_head e = Some e' /\ rx_rep e' ds
    /\ eng_current e' = eng_current e /\ eng_ex_index e' = eng_ex_index e
    /\ lq_peek (eng_rx e) = Some d /\ is_Some (lq_head (eng_rx e)).
Proof.
  intros ([|[x v] l] & Hl & Heq); simplify_eq/=.
  destruct (lq_drop_head_rep _ _ _ _ Hl) as (q & Hq & Hrep & _).
  exists (with_rx e q). unfold h3q_queue_drop_head. rewrite Hq. split; [done|].
  split; [by exists l|]. split; [done|]. split; [done|]. split; [by eapply lq_peek_rep|].
  rewrite (lq_rep_head _ _ Hl). by eexists.
Qed.

Lemma queue_push_rep e ds d :
  rx_rep e ds -> exists q x, lq_push (eng_rx e) d = Some (q, x) /\ rx_rep (with_rx e q) (ds ++ [d]).
Proof.
  intros (l & Hl & <-). destruct (lq_push_rep _ _ d Hl) as (q & Hq & Hrep & _).
  exists q, (lq_fresh (eng_rx e)). split; [done|]. eexists. split; [exact Hrep|].
  by rewrite fmap_app.
Qed.

(** Filling appends all the messages, or empties the queue if one of them cannot be
    stored. *)
Lemma queue_fill_rep e ds msgs :
  rx_rep e ds ->
  exists e', h3q_queue_fill e msgs = Some (e', forallb storable msgs) /\ eng_current e' = eng_current e
    /\ eng_ex_index e' = eng_ex_index e
    /\ rx_rep e' (if forallb storable msgs then ds ++ (datagram_of <$> msgs.*1) else []).
Proof.
  revert e ds. induction msgs as [|[m al] msgs IH]; intros e ds He; cbn [h3q_queue_fill forallb fmap list_fmap].
  { exists e. by rewrite app_nil_r. }
  destruct (queue_clear_rep _ _ He) as (e0 & Hclr & Hr0 & _ & Hc0 & Hi0). rewrite Hclr. unfold storable at 1 2. simpl.
  destruct (m_data m) as [data|] eqn:Ed; [|by exists e0].
  destruct (fa_item al), (m_data_len m =? 0); simpl; try by exists e0.
  destruct (fa_data al); simpl; [|by exists e0].
  destruct (m_peer m) as [p|] eqn:Ep, (fa_peer al) eqn:Efp; simpl; try by exists e0.
  all: destruct (m_local m) as [lc|] eqn:El, (fa_local al) eqn:Efl; simpl; try by exists e0.
  all: match goal with |- context [lq_push _ ?d] => destruct (queue_push_rep e ds d He) as (q & x & -> & Hq) end.
  all: destruct (IH _ _ Hq) as (e' & -> & Hcur & Hidx & Hb); exists e'; (split; [done|]); (split; [done|]).
  all: (split; [done|]); destruct (forallb storable msgs); [|done]; rewrite <- app_assoc in Hb; simpl in Hb.
  all: unfold datagram_of at 1; by rewrite Ed, Ep, El.
Qed.

(** Popping delivers the first datagram, or drops it when the buffer is too small. *)
Lemma queue_pop_rep e d ds msg buf :
  rx_rep e (d :: ds) -> m_data msg = Some buf ->
  exists e', rx_rep e' ds /\ eng_current e' = eng_current e /\ eng_ex_index e' = eng_ex_index e /\
    h3q_queue_pop e msg =
    Some (if m_data_len msg <? dg_len d then (e', msg, false)
          else (e', BioMsg (Some (btake (dg_len d) (dg_data d) ++ bdrop (dg_len d) buf)) (dg_len d)
                           (copy_addr (m_peer msg) (dg_peer d))
                           (copy_addr (m_local msg) (dg_local d)), true)).
Proof.
  intros He Hbuf. destruct (queue_drop_head_rep _ _ _ He) as (e' & Hdrop & Hr & Hc & Hi & Hpk & [x Hx]).
  exists e'. split; [done|]. split; [done|]. split; [done|]. unfold h3q_queue_pop. rewrite Hx, Hbuf, Hpk, Hdrop.
  by destruct (m_data_len msg <? dg_len d).
Qed.

End QueueFacts.

(** ** A sequence of receive calls *)

(** One call by OpenSSL: what the BIO below would return, and the first message. *)
Record recv_call := RecvCall { rc_recv : bool * list (bio_msg * fill_alloc); rc_msg : bio_msg }.

(** Whether the call reports a datagram. *)
Definition reports (r : recv_result) : bool := rr_rv r && (rr_processed r =? 1).

(** What OpenSSL gets to see: the datagram's bytes and the current peer address. *)
Definition delivered (r : recv_result) : list (bytes * bio_addr) :=
  if reports r
  then [(btake (m_data_len (rr_msg r)) (default [] (m_data (rr_msg r))), eng_current (rr_state r))]
  else [].

(** What a call takes from the network: the BIO below is only asked when nothing is
    queued. *)
Definition received (e : addr_state) (c : recv_call) : list h3q_datagram :=
  match lq_head (eng_rx e) with
  | Some _ => []
  | None => if fst (rc_recv c) then datagram_of <$> (snd (rc_recv c)).*1 else []
  end.

(** The calls in sequence: the final state, everything delivered, everything received. *)
Fixpoint recv_run (e : addr_state) (calls : list recv_call)
    : option (addr_state * list (bytes * bio_addr) * list h3q_datagram) :=
  match calls with
  | [] => Some (e, [], [])
  | c :: cs =>
      match h3q_peer_addr_bio_recvmmsg e true (rc_recv c) (rc_msg c) 1 0 with
      | Some r =>
          match recv_run (rr_state r) cs with
          | Some (e', dv, rc) => Some (e', delivered r ++ dv, received e c ++ rc)
          | None => None
          end
      | None => None
      end
  end.

(** ** What a call does, on the datagrams alone *)

(** What becomes of a datagram: OpenSSL sees it with this peer address, it is dropped since
    it does not fit the buffer it is to be copied to, or it is discarded with the batch it
    came in. *)
Inductive fate := Delivered (peer : bio_addr) | Oversized | Discarded.

(** OpenSSL is told the datagram's own address, if it has one, provided there is a slot for
    it; a slot that is not overwritten keeps what it held. *)
Definition fate_in (msg : bio_msg) (d : h3q_datagram) : fate :=
  if m_data_len msg <? dg_len d then Oversized
  else Delivered (match m_peer msg with Some old => default old (dg_peer d) | None => addr_clear end).

(** The datagrams that are left, those that are done with, with their fates, and those that
    were received.  Nothing is received while some are queued, and only the first is taken;
    a batch that cannot be stored is discarded. *)
Definition recv_abs (queued : list h3q_datagram) (c : recv_call)
    : list h3q_datagram * list (h3q_datagram * fate) * list h3q_datagram :=
  match queued with
  | d :: ds =>
      match m_data (rc_msg c) with
      | Some _ => (ds, [(d, fate_in (rc_msg c) d)], [])
      | None => (queued, [], [])
      end
  | [] =>
      match rc_recv c with
      | (true, (first, al) :: rest) =>
          let ds := datagram_of <$> rest.*1 in
          if forallb storable ((first, al) :: rest)
          then (ds, [(datagram_of first, fate_in first (datagram_of first))], datagram_of first :: ds)
          else ([], (fun d => (d, Discarded)) <$> (datagram_of first :: ds), datagram_of first :: ds)
      | _ => ([], [], [])
      end
  end.

Fixpoint recv_abs_run (queued : list h3q_datagram) (calls : list recv_call)
    : list h3q_datagram * list (h3q_datagram * fate) * list h3q_datagram :=
  match calls with
  | [] => (queued, [], [])
  | c :: cs =>
      let '(q1, fates, got) := recv_abs queued c in
      let '(q2, fates', got') := recv_abs_run q1 cs in
      (q2, fates ++ fates', got ++ got')
  end.

(** What OpenSSL sees of a datagram. *)
Definition seen (df : h3q_datagram * fate) : option (bytes * bio_addr) :=
  match df with (d, Delivered a) => Some (dg_data d, a) | _ => None end.

(** The length is that of the data. *)
Definition datagram_ok (d : h3q_datagram) : Prop := dg_len d = blen (dg_data d).

Definition seen_ok (df : h3q_datagram * fate) : Prop := is_Some (seen df) -> datagram_ok (fst df).

(** The BIO below reports lengths within the buffers it was given. *)
Definition call_within (c : recv_call) : Prop :=
  Forall (fun ma => forall b, m_data (fst ma) = Some b -> 0 <= m_data_len (fst ma) <= blen b) (snd (rc_recv c)).

Section Delivery.
Implicit Types (e : addr_state) (ds : list h3q_datagram).

Lemma rx_rep_with_current e ds addr : rx_rep e ds -> rx_rep (with_current e addr) ds.
Proof. intros (l & ? & ?). by exists l. Qed.

Lemma datagram_of_ok ma :
  (forall b, m_data (fst ma) = Some b -> 0 <= m_data_len (fst ma) <= blen b) -> storable ma = true ->
  datagram_ok (datagram_of (fst ma)).
Proof.
  destruct ma as [m al]. unfold storable, datagram_ok, datagram_of. simpl. destruct (m_data m) as [b|]; [|done].
  intros Hw _. simpl. specialize (Hw b eq_refl). by rewrite blen_btake by lia.
Qed.

Lemma seen_discarded ds : omap seen ((fun d => (d, Discarded)) <$> ds) = [].
Proof. by induction ds. Qed.

(** What a call leaves behind, for a list of fates: the address of the datagram that was
    delivered, and the datagram in the message. *)
Definition leaves (r : recv_result) (fates : list (h3q_datagram * fate)) : Prop :=
  match omap seen fates with
  | [] => eng_current (rr_state r) = addr_clear /\ reports r = false
  | (_, a) :: _ => eng_current (rr_state r) = a /\ reports r = true
  end
  /\ (Forall seen_ok fates -> delivered r = omap seen fates).

(** Taking the first queued datagram. *)
Lemma pop_abs e d ds msg buf :
  rx_rep e (d :: ds) -> m_data msg = Some buf -> eng_current e = addr_clear ->
  exists e' msg' b, h3q_queue_pop e msg = Some (e', msg', b)
    /\ let r := if (b : bool) then deliver e' msg' true else RecvResult e' msg' 0 false in
       rx_rep (rr_state r) ds /\ eng_ex_index (rr_state r) = eng_ex_index e /\ leaves r [(d, fate_in msg d)].
Proof.
  intros He Hbuf Hcur. destruct (queue_pop_rep e d ds msg buf He Hbuf) as (e' & Hr & Hc & Hi & ->).
  unfold fate_in, leaves. destruct (Z.ltb_spec (m_data_len msg) (dg_len d)) as [Hlt|Hge].
  { exists e', msg, false. cbn. rewrite Hc. by split_and!. }
  do 3 eexists. split; [done|]. cbn [rr_state deliver m_peer omap list_omap seen].
  rewrite Hcur in Hc. split_and!.
  - case_match; [by apply rx_rep_with_current|done].
  - by case_match.
  - by destruct (m_peer msg) as [mp|], (dg_peer d) as [p|].
  - done.
  - intros [Hok _]%Forall_cons. specialize (Hok ltac:(by eexists)). unfold delivered, reports. cbn [rr_rv rr_processed rr_msg rr_state deliver m_data m_data_len].
    rewrite Z.eqb_refl. cbn [andb default]. f_equal. f_equal.
    + unfold datagram_ok in Hok. simpl in Hok. rewrite Hok, (btake_all (blen (dg_data d)) (dg_data d)) by lia.
      unfold id, btake, blen. by rewrite Nat2Z.id, take_app_length.
    + by destruct (m_peer msg) as [mp|], (dg_peer d) as [p|].
Qed.

(** Every call does that. *)
Lemma recvmmsg_abs e ds c num_msg processed :
  rx_rep e ds -> num_msg <> 0 -> let '(ds', fates, got) := recv_abs ds c in
  exists r, h3q_peer_addr_bio_recvmmsg e true (rc_recv c) (rc_msg c) num_msg processed = Some r
    /\ rx_rep (rr_state r) ds' /\ eng_ex_index (rr_state r) = eng_ex_index e /\ received e c = got /\ leaves r fates.
Proof.
  intros He Hnum. apply (rx_rep_with_current _ _ addr_clear) in He as He'.
  unfold h3q_peer_addr_bio_recvmmsg, received, recv_abs. rewrite (proj2 (Z.eqb_neq _ _) Hnum). cbn [negb orb].
  destruct ds as [|d ds].
  - change (eng_rx (with_current e addr_clear)) with (eng_rx e).
    rewrite (proj2 (rx_rep_head e [] He) eq_refl). destruct (rc_recv c) as [rv ms].
    destruct ms as [|[first al] ms]; [destruct rv; by eexists|].
    destruct rv; [|eexists; split; [done|]; by split_and!].
    destruct (queue_fill_rep _ _ ((first, al) :: ms) He') as (e1 & -> & Hc1 & Hi1 & Hrep).
    destruct (forallb storable _) eqn:Es.
    + simpl in Es. destruct (m_data first) as [b|] eqn:Eb; [|done].
      destruct (pop_abs e1 _ _ first b Hrep Eb Hc1) as (e2 & msg' & ok & -> & Hr & Hi & Hl).
      destruct ok; eexists; (split; [done|]); (split; [exact Hr|]); by split_and!; [rewrite Hi, Hi1|done|exact Hl].
    + eexists. split; [done|]. cbn [rr_state]. split_and!; try done.
      unfold leaves. by rewrite seen_discarded.
  - destruct (queue_drop_head_rep _ _ _ He) as (_ & _ & _ & _ & _ & _ & [x Hx]).
    change (eng_rx (with_current e addr_clear)) with (eng_rx e). rewrite Hx.
    destruct (m_data (rc_msg c)) as [buf|] eqn:Eb.
    + destruct (pop_abs _ d ds (rc_msg c) buf He' Eb eq_refl) as (e1 & msg' & ok & -> & Hr & Hi & Hl).
      destruct ok; eexists; (split; [done|]); (split; [exact Hr|]); by split_and!.
    + unfold h3q_queue_pop. rewrite Eb. change (eng_rx (with_current e addr_clear)) with (eng_rx e). rewrite Hx.
      eexists. split; [done|]. by split_and!.
Qed.

(** The datagrams are accounted for: those that are done with come before the others. *)
Lemma recv_abs_accounts ds c :
  let '(ds', fates, got) := recv_abs ds c in ds ++ got = fates.*1 ++ ds'.
Proof.
  unfold recv_abs. destruct ds as [|d ds]; [|by destruct (m_data (rc_msg c)); rewrite app_nil_r].
  destruct (rc_recv c) as [[] [|[first al] rest]]; try done. destruct (forallb _ _); [done|].
  rewrite <- (list_fmap_compose _ fst), app_nil_r. symmetry. apply list_fmap_id.
Qed.

Lemma recv_abs_ok ds c :
  Forall datagram_ok ds -> call_within c ->
  let '(ds', fates, got) := recv_abs ds c in Forall datagram_ok ds' /\ Forall seen_ok fates.
Proof.
  intros Hds Hw. unfold recv_abs. destruct ds as [|d ds].
  2:{ destruct (m_data (rc_msg c)); [|by split]. apply Forall_cons in Hds as [Hd Hds].
      split; [done|]. apply Forall_singleton. by intros _. }
  unfold call_within in Hw. destruct (rc_recv c) as [[] [|[first al] rest]]; try by split.
  destruct (forallb storable _) eqn:Es.
  2:{ split; [done|]. apply Forall_fmap, Forall_true. intros d [? [=]]. }
  apply Is_true_true, forallb_True, Forall_cons in Es as [Hs Hss]. apply Forall_cons in Hw as [Hw Hws]. split.
  - rewrite !Forall_fmap. apply (Forall_impl _ _ _ (proj2 (Forall_and _ _) (conj Hws Hss))).
    intros ma [? ?%Is_true_true]. by apply datagram_of_ok.
  - apply Forall_singleton. intros _. apply (datagram_of_ok (first, al)); [exact Hw|by apply Is_true_true].
Qed.

(** Why a datagram fared as it did. *)
Definition justified (calls : list recv_call) (df : h3q_datagram * fate) : Prop :=
  match df with
  | (d, Delivered a) =>
      (forall p, dg_peer d = Some p -> a = p) \/ Exists (fun c => m_peer (rc_msg c) = None) calls
  | (d, Oversized) => Exists (fun c => m_data_len (rc_msg c) < dg_len d) calls
  | (d, Discarded) =>
      Exists (fun c => d ∈ (datagram_of <$> (snd (rc_recv c)).*1)
                       /\ Exists (fun ma => storable ma = false) (snd (rc_recv c))) calls
  end.

Lemma justified_mono calls calls' df : calls ⊆ calls' -> justified calls df -> justified calls' df.
Proof.
  intros Hs. destruct df as [d []]; simpl; rewrite !Exists_exists; set_solver.
Qed.

Lemma forallb_false_Exists msgs :
  forallb storable msgs = false -> Exists (fun ma => storable ma = false) msgs.
Proof.
  induction msgs as [|ma msgs IH]; simpl; [done|].
  intros [?|?]%andb_false_iff; [by apply Exists_cons_hd|apply Exists_cons_tl; auto].
Qed.

Lemma recv_abs_justified ds c :
  let '(_, fates, _) := recv_abs ds c in Forall (justified [c]) fates.
Proof.
  unfold recv_abs. destruct ds as [|d ds].
  - destruct (rc_recv c) as [[] [|[first al] rest]] eqn:Er; try done. destruct (forallb storable _) eqn:Es.
    + apply Forall_singleton. unfold fate_in. cbn [datagram_of dg_len]. rewrite Z.ltb_irrefl. left.
      cbn [dg_peer datagram_of]. by intros p ->.
    + apply Forall_fmap, Forall_forall. intros d Hd. simpl. apply Exists_cons_hd. rewrite Er. split; [done|].
      by apply forallb_false_Exists.
  - destruct (m_data (rc_msg c)); [|done]. apply Forall_singleton. unfold fate_in.
    destruct (Z.ltb_spec (m_data_len (rc_msg c)) (dg_len d)); simpl; [by apply Exists_cons_hd|].
    destruct (m_peer (rc_msg c)) as [mp|] eqn:Ep; [left; by intros p ->|right; by apply Exists_cons_hd].
Qed.

Lemma recv_abs_run_justified ds calls :
  let '(_, fates, _) := recv_abs_run ds calls in Forall (justified calls) fates.
Proof.
  revert ds. induction calls as [|c calls IH]; intros ds; cbn [recv_abs_run]; [done|].
  pose proof (recv_abs_justified ds c) as Hone. destruct (recv_abs ds c) as [[ds1 fates] got].
  specialize (IH ds1). destruct (recv_abs_run ds1 calls) as [[ds2 fates'] got'].
  apply Forall_app. split; (eapply Forall_impl; [eassumption|]); intros df; apply justified_mono; set_solver.
Qed.

(** Every sequence of calls. *)
Lemma recv_run_abs e ds calls :
  rx_rep e ds -> Forall datagram_ok ds -> Forall call_within calls ->
  let '(ds', fates, got) := recv_abs_run ds calls in
  exists e', recv_run e calls = Some (e', omap seen fates, got) /\ rx_rep e' ds' /\ ds ++ got = fates.*1 ++ ds'.
Proof.
  revert e ds. induction calls as [|c calls IH]; intros e ds He Hds Hc; cbn [recv_abs_run recv_run].
  { exists e. by rewrite app_nil_r. }
  apply Forall_cons in Hc as [Hc Hcs]. pose proof (recvmmsg_abs e ds c 1 0 He ltac:(lia)) as Hone.
  pose proof (recv_abs_accounts ds c) as Hacc. pose proof (recv_abs_ok ds c Hds Hc) as Hok.
  destruct (recv_abs ds c) as [[ds1 fates] got]. destruct Hone as (r & -> & Hr & _ & -> & _ & Hdv).
  destruct Hok as [Hds1 Hok]. rewrite (Hdv Hok). pose proof (IH _ _ Hr Hds1 Hcs) as Hrest.
  destruct (recv_abs_run ds1 calls) as [[ds2 fates'] got']. destruct Hrest as (e' & -> & Hr' & Hacc').
  exists e'. split_and!; [|done|by rewrite fmap_app, app_assoc, Hacc, <- !app_assoc, Hacc'].
  by rewrite omap_app.
Qed.

End Delivery.

(** ** Properties *)

(** C18 (refinement): whatever buffers and address slots OpenSSL gives it, whatever the
    network brings and whichever allocations fail, provided the BIO below reports lengths
    within its buffers, the filter never reads a freed datagram and does what the
    description on lists does: the datagrams received are, in order, those done with and
    those still queued; what OpenSSL sees is those delivered, in order, each once and with
    its own data and peer address, if a slot was given for that; and a datagram that is
    done with and was not delivered was longer than a buffer it was to be copied to, or was
    discarded with a batch in which some message was empty or could not be copied. *)
Theorem recv_delivers_in_order (ex_index : Z) (calls : list recv_call) :
  Forall call_within calls ->
  let '(queued, fates, rc) := recv_abs_run [] calls in
  (exists e', recv_run (addr_init ex_index) calls = Some (e', omap seen fates, rc) /\ rx_rep e' queued)
  /\ rc = fates.*1 ++ queued
  /\ Forall (justified calls) fates.
Proof.
  intros Hc. pose proof (recv_run_abs _ [] calls (addr_init_rep ex_index) ltac:(done) Hc) as Hrun.
  pose proof (recv_abs_run_justified [] calls) as Hj.
  destruct (recv_abs_run [] calls) as [[queued fates] rc]. destruct Hrun as (e' & ? & ? & ?). by eauto.
Qed.

Definition sample_addr (n : Z) : bio_addr := BioAddr AF_INET [Byte.x7f; Byte.x00; Byte.x00; Byte.x01] n.

Definition sample_msg (b : byte) (port : Z) : bio_msg * fill_alloc :=
  (BioMsg (Some [b; b; Byte.x00; Byte.x00]) 2 (Some (sample_addr port)) None,
   FillAlloc true true true true).

Definition sample_slot : bio_msg :=
  BioMsg (Some [Byte.x00; Byte.x00; Byte.x00; Byte.x00]) 4 (Some addr_clear) None.

Definition small_slot : bio_msg := BioMsg (Some [Byte.x00]) 1 (Some addr_clear) None.

Definition empty_msg : bio_msg * fill_alloc :=
  (BioMsg (Some []) 0 (Some (sample_addr 5)) None, FillAlloc true true true true).

(** A batch of three, of which the third finds too small a buffer, and a batch that an
    empty datagram discards. *)
Definition sample_calls : list recv_call :=
  [ RecvCall (true, [sample_msg Byte.x61 1; sample_msg Byte.x62 2; sample_msg Byte.x63 3]) sample_slot;
    RecvCall (false, []) sample_slot; RecvCall (false, []) small_slot;
    RecvCall (true, [sample_msg Byte.x64 4; empty_msg]) sample_slot ].

Lemma recv_delivers_in_order_witness :
  exists e' rc,
    recv_run (addr_init 3) sample_calls
    = Some (e', [([Byte.x61; Byte.x61], sample_addr 1); ([Byte.x62; Byte.x62], sample_addr 2)], rc)
    /\ (dg_len <$> rc) = [2; 2; 2; 2; 0] /\ rx_rep e' [].
Proof.
  assert (Hg : Forall call_within sample_calls).
  { apply Forall_forall. intros c Hc. apply Forall_forall. intros ma Hma b Hb.
    assert (Hall : Forall (fun c => Forall (fun ma => 0 <= m_data_len (fst ma) <= blen (default [] (m_data (fst ma))))
      (snd (rc_recv c))) sample_calls) by (repeat constructor; vm_compute; congruence).
    rewrite Forall_forall in Hall. specialize (Hall c Hc). rewrite Forall_forall in Hall.
    specialize (Hall ma Hma). by rewrite Hb in Hall. }
  destruct (recv_delivers_in_order 3 sample_calls Hg) as ((e' & Hrun & Hrep) & _ & _).
  eexists e', _. split; [exact Hrun|]. split; [by vm_compute|exact Hrep].
Defined.

Definition sample_queued : addr_state :=
  match h3q_queue_fill (addr_init 3) [sample_msg Byte.x61 1] with
  | Some (e, _) => e
  | None => addr_init 3
  end.
