(* ===== verification/Quic.v ===== *)
(** * The QUIC layer: streams and connections (quic/h3q_stream.c, quic/h3q_conn.c)

    The [h3q_] functions wrap OpenSSL's QUIC calls; everything above this layer uses only
    them.  OpenSSL is the class [OpenSSL]: a library state and the calls the wrapper makes
    on it, with the documented facts the wrapper relies on in [OpenSSLSpec].  An [SSL *]
    is a [handle]; objects OpenSSL creates get a handle that was never used before, so a
    handle names one object for ever and freeing it twice can be told.

    What the layer promises to the session code is the interface [QuicStreams] with its
    laws [QuicStreamsSpec]; [h3q_streams] and [h3q_streams_spec] discharge it from the
    wrapper's definitions. *)

From S2P Require Import Prelude.

Abbreviation handle := positive.

Inductive ssl_error :=
  | SSL_ERROR_WANT_READ | SSL_ERROR_WANT_WRITE | SSL_ERROR_ZERO_RETURN | SSL_ERROR_OTHER.

#[export] Instance ssl_error_eq_dec : EqDecision ssl_error.
Proof. solve_decision. Defined.

Inductive ssl_stream_state :=
  | SSL_STREAM_STATE_OK | SSL_STREAM_STATE_WRONG_DIR | SSL_STREAM_STATE_FINISHED
  | SSL_STREAM_STATE_RESET_LOCAL | SSL_STREAM_STATE_RESET_REMOTE
  | SSL_STREAM_STATE_CONN_CLOSED | SSL_STREAM_STATE_NONE.

#[export] Instance ssl_stream_state_eq_dec : EqDecision ssl_stream_state.
Proof. solve_decision. Defined.

(** ** OpenSSL *)

Class OpenSSL := {
  ossl : Type;
  SSL_write_ex : ossl -> handle -> bytes -> ossl * (Z * Z);
  SSL_read_ex : ossl -> handle -> Z -> ossl * (Z * bytes);
  SSL_get_error : ossl -> handle -> Z -> ssl_error;
  SSL_stream_conclude : ossl -> handle -> ossl;
  SSL_stream_write_buf_avail : ossl -> handle -> option Z;
  SSL_get_stream_read_state : ossl -> handle -> ssl_stream_state;
  SSL_get_stream_write_state : ossl -> handle -> ssl_stream_state;
  SSL_stream_reset : ossl -> handle -> Z -> ossl;
  SSL_get_stream_id : ossl -> handle -> Z;
  SSL_free : ossl -> handle -> ossl;
  SSL_set_blocking_mode : ossl -> handle -> ossl * bool;
  SSL_set_default_stream_mode_none : ossl -> handle -> ossl;
  SSL_set_incoming_stream_policy_accept : ossl -> handle -> ossl;
  SSL_set_quic_idle_timeout : ossl -> handle -> Z -> ossl;
  SSL_new_stream_uni : ossl -> handle -> handle -> ossl * bool;
  SSL_accept_stream : ossl -> handle -> handle -> ossl * bool;
  SSL_is_init_finished : ossl -> handle -> bool;
  SSL_get_shutdown : ossl -> handle -> Z;
  SSL_shutdown : ossl -> handle -> ossl * Z;
  SSL_shutdown_ex : ossl -> handle -> bool -> Z -> option string -> ossl * Z }.

(** A write reports at most the bytes it was given; a read fills at most the buffer. *)
Class OpenSSLSpec `(O : OpenSSL) := {
  SSL_write_ex_bound e h b e' rv w :
    SSL_write_ex e h b = (e', (rv, w)) -> 0 <= w <= blen b;
  SSL_read_ex_bound e h n e' rv b :
    SSL_read_ex e h n = (e', (rv, b)) -> 0 <= n -> blen b <= n }.

(** ** The interface of the layer *)

(** [h3q_write_result]. *)
Record h3q_write_result := WriteResult { wr_accepted : Z; wr_blocked : bool; wr_broken : bool }.

(** What a read reports: the returned [int], the bytes, and [*fin]. *)
Record h3q_read_result := ReadResult { rd_ok : bool; rd_bytes : bytes; rd_fin : bool }.

Definition vecs_len (vs : list bytes) : Z := blen (concat vs).

(** The stream operations the session code calls, on a transport state [E]. *)
Class QuicStreams (E : Type) := {
  qs_write : E -> handle -> list bytes -> bool -> E * h3q_write_result;
  qs_is_write_blocked : E -> handle -> bool;
  qs_read : E -> handle -> Z -> E * h3q_read_result;
  qs_read_finished : E -> handle -> bool * bool;
  qs_reset : E -> handle -> Z -> E;
  qs_free : E -> handle -> E }.

(** The connection operations; [fresh] is the handle of an object they may create. *)
Class QuicConns (E : Type) := {
  qc_prepare : E -> handle -> Z -> E * bool;
  qc_open_uni : E -> handle -> handle -> E * option (handle * Z);
  qc_accept_stream : E -> handle -> handle -> E * option handle;
  qc_stream_id : E -> handle -> Z;
  qc_is_handshake_done : E -> handle -> bool;
  qc_is_closed : E -> handle -> bool;
  qc_shutdown : E -> handle -> bool -> Z -> option string -> E * bool;
  qc_free : E -> handle -> E }.

(** A created object is the fresh one. *)
Class QuicConnsSpec (E : Type) `(Q : QuicConns E) := {
  qc_open_uni_fresh e c f e' h id : qc_open_uni e c f = (e', Some (h, id)) -> h = f;
  qc_accept_fresh e c f e' h : qc_accept_stream e c f = (e', Some h) -> h = f }.

(** What the session code relies on. *)
Class QuicStreamsSpec (E : Type) `(Q : QuicStreams E) := {
  qs_write_accepted e h vs fin e' r :
    qs_write e h vs fin = (e', r) -> vecs_len vs <= SIZE_MAX ->
    0 <= wr_accepted r <= vecs_len vs;
  qs_write_complete e h vs fin e' r :
    qs_write e h vs fin = (e', r) -> vecs_len vs <= SIZE_MAX ->
    wr_blocked r = false -> wr_broken r = false -> wr_accepted r = vecs_len vs;
  qs_write_exclusive e h vs fin e' r :
    qs_write e h vs fin = (e', r) -> wr_blocked r = true -> wr_broken r = false;
  qs_read_bound e h n e' r :
    qs_read e h n = (e', r) -> 0 <= n -> blen (rd_bytes r) <= n;
  qs_read_ok e h n e' r :
    qs_read e h n = (e', r) -> rd_ok r = true -> 0 < blen (rd_bytes r) /\ rd_fin r = false }.

Section Streams.
Context `{O : OpenSSL}.
Implicit Types (e : ossl) (st : handle).

(** The write loop of [h3q_stream_write]: [acc] is [res.accepted] so far. *)
Fixpoint write_loop e st (vs : list bytes) (acc : Z) : ossl * h3q_write_result :=
  match vs with
  | [] => (e, WriteResult acc false false)
  | v :: vs' =>
      let '(e1, (wrv, w)) := SSL_write_ex e st v in
      if wrv <=? 0 then
        if bool_decide (SSL_get_error e1 st wrv = SSL_ERROR_WANT_WRITE)
        then (e1, WriteResult acc true false)
        else (e1, WriteResult acc false true)
      else
        let acc' := acc +64 w in
        if w <? blen v then (e1, WriteResult acc' true false)
        else write_loop e1 st vs' acc'
  end.

Definition h3q_stream_write e st (vs : list bytes) (fin : bool) : ossl * h3q_write_result :=
  let expected := wrap64 (vecs_len vs) in
  let '(e1, res) := write_loop e st vs 0 in
  if fin && negb (wr_blocked res) && negb (wr_broken res) && (wr_accepted res =? expected)
  then (SSL_stream_conclude e1 st, res)
  else (e1, res).

Definition h3q_stream_is_write_blocked e (st : option handle) : bool :=
  match st with
  | Some h =>
      match SSL_stream_write_buf_avail e h with
      | Some avail => avail =? 0
      | None => false
      end
  | None => false
  end.

Definition h3q_stream_read e st (read_size : Z) : ossl * h3q_read_result :=
  let '(e1, (rv, b)) := SSL_read_ex e st read_size in
  if (rv =? 1) && (0 <? blen b) then (e1, ReadResult true b false)
  else if (rv =? 1) || bool_decide (SSL_get_error e1 st rv = SSL_ERROR_ZERO_RETURN)
  then (e1, ReadResult false b true)
  else (e1, ReadResult false b false).

(** [*read_finished] and [*write_finished]. *)
Definition h3q_stream_is_read_finished e st : bool * bool :=
  let rstate := SSL_get_stream_read_state e st in
  let read_finished := bool_decide (rstate = SSL_STREAM_STATE_FINISHED)
                       || bool_decide (rstate = SSL_STREAM_STATE_RESET_REMOTE)
                       || bool_decide (rstate = SSL_STREAM_STATE_CONN_CLOSED) in
  let wstate := if negb (bool_decide (rstate = SSL_STREAM_STATE_CONN_CLOSED))
                   && negb (bool_decide (rstate = SSL_STREAM_STATE_RESET_REMOTE))
                then SSL_get_stream_write_state e st
                else SSL_STREAM_STATE_FINISHED in
  (read_finished, bool_decide (wstate = SSL_STREAM_STATE_FINISHED)
                  || bool_decide (wstate = SSL_STREAM_STATE_RESET_LOCAL)).

(** [NULL] is [None] for the three functions that test it. *)
Definition h3q_stream_reset e (st : option handle) (err : Z) : ossl :=
  match st with Some h => SSL_stream_reset e h err | None => e end.

Definition h3q_stream_free e (st : option handle) : ossl :=
  match st with Some h => SSL_free e h | None => e end.

(** The cast to [int64_t] of the [uint64_t] id. *)
Definition to_int64 (z : Z) : Z :=
  let u := wrap64 z in if u <? 2 ^ 63 then u else u - 2 ^ 64.

Definition h3q_stream_id e (st : option handle) : Z :=
  match st with Some h => to_int64 (SSL_get_stream_id e h) | None => -1 end.

(** ** Connections *)

Definition h3q_conn_prepare e (conn : option handle) (idle_timeout_secs : Z) : ossl * bool :=
  match conn with
  | None => (e, false)
  | Some c =>
      let '(e1, ok) := SSL_set_blocking_mode e c in
      if negb ok then (e1, false)
      else
        let e2 := SSL_set_default_stream_mode_none e1 c in
        let e3 := SSL_set_incoming_stream_policy_accept e2 c in
        (SSL_set_quic_idle_timeout e3 c (idle_timeout_secs *64 1000), true)
  end.

(** [fresh] is the handle of the object OpenSSL creates; the result is the stream and the
    id stored through [out_id]. *)
Definition h3q_conn_open_uni_stream e (conn fresh : handle) : ossl * option (handle * Z) :=
  let '(e1, ok) := SSL_new_stream_uni e conn fresh in
  if ok then (e1, Some (fresh, to_int64 (SSL_get_stream_id e1 fresh))) else (e1, None).

Definition h3q_conn_accept_stream e (conn : option handle) (fresh : handle)
    : ossl * option handle :=
  match conn with
  | None => (e, None)
  | Some c =>
      let '(e1, ok) := SSL_accept_stream e c fresh in
      if ok then (e1, Some fresh) else (e1, None)
  end.

Definition h3q_conn_is_handshake_done e (conn : option handle) : bool :=
  match conn with Some c => SSL_is_init_finished e c | None => false end.

Definition h3q_conn_is_closed e (conn : option handle) : bool :=
  match conn with Some c => negb (SSL_get_shutdown e c =? 0) | None => true end.

(** [reason] NULL is [None]; the boolean is the returned [int]. *)
Definition h3q_conn_shutdown e (conn : option handle) (is_rapid : bool) (app_error : Z)
    (reason : option string) : ossl * bool :=
  match conn with
  | None => (e, true)
  | Some c =>
      let '(e1, ret) :=
        match reason with
        | Some r => SSL_shutdown_ex e c is_rapid app_error (Some r)
        | None => if is_rapid then SSL_shutdown_ex e c true 0 None else SSL_shutdown e c
        end in
      if ret =? 1 then (e1, true)
      else if ret <? 0 then
        match SSL_get_error e1 c ret with
        | SSL_ERROR_WANT_READ | SSL_ERROR_WANT_WRITE => (e1, false)
        | _ => (e1, true)
        end
      else (e1, false)
  end.

Definition h3q_conn_free e (conn : option handle) : ossl :=
  match conn with Some c => SSL_free e c | None => e end.

(** *** Why a connection was closed *)

(** [SSL_CONN_CLOSE_INFO]. *)
Record close_info := CloseInfo {
  ci_local : bool;
  ci_transport : bool;
  ci_error_code : Z;
  ci_frame_type : Z;
  ci_reason : option bytes;
  ci_reason_len : Z }.

(** [%llx] of a 64-bit value. *)
Fixpoint hex_digits (fuel : nat) (n : Z) (acc : bytes) : bytes :=
  match fuel with
  | 0%nat => acc
  | S k =>
      let d := Byte.of_N (Z.to_N (if n mod 16 <? 10 then 48 + n mod 16 else 87 + n mod 16)) in
      let acc := match d with Some b => b :: acc | None => acc end in
      if n / 16 =? 0 then acc else hex_digits k (n / 16) acc
  end.

Definition fmt_llx (n : Z) : bytes := hex_digits 16 n [].

(** The bytes of a C string, up to its terminator. *)
Fixpoint cstr (b : bytes) : bytes :=
  match b with [] => [] | Byte.x00 :: _ => [] | c :: b' => c :: cstr b' end.

(** [%.*s] with the precision [(int)len]: a negative one counts as none. *)
Definition fmt_prec (len : Z) (b : bytes) : bytes :=
  let prec := (len + 2 ^ 31) mod 2 ^ 32 - 2 ^ 31 in
  if prec <? 0 then cstr b else cstr (btake prec b).

(** [snprintf] into a buffer of [len] bytes, terminator included. *)
Definition snprintf (len : Z) (b : bytes) : bytes := btake (len - 1) b.

(** What the buffer [buf] of [buflen] bytes holds then; [errbuf] is the text of the last
    error, [info] what [SSL_get_conn_close_info] reports. *)
Definition h3q_conn_close_reason (conn : option handle) (info : handle -> option close_info) (errbuf : bytes)
    (buf : option bytes) (buflen : Z) : option bytes :=
  match buf with
  | None => None
  | Some old =>
      if buflen =? 0 then Some old
      else
        Some (match conn ≫= info with
              | Some cci =>
                  let origin := if ci_local cci then "local" else "remote" in
                  let layer := if ci_transport cci then "transport" else "app" in
                  let s := String.list_byte_of_string in
                  snprintf buflen (s origin ++ s " " ++ s layer ++ s " err=0x" ++ fmt_llx (ci_error_code cci)
                    ++ s " frame=0x" ++ fmt_llx (ci_frame_type cci) ++ s " reason=" ++ [Byte.x22]
                    ++ fmt_prec (ci_reason_len cci) (default [] (ci_reason cci)) ++ [Byte.x22]
                    ++ s " (" ++ errbuf ++ s ")")
              | None => snprintf buflen errbuf
              end)
  end.

(** The text and its terminator fit the buffer. *)
Lemma close_reason_fits conn info errbuf old buflen text :
  0 < buflen -> h3q_conn_close_reason conn info errbuf (Some old) buflen = Some text ->
  blen text < buflen.
Proof.
  intros Hl. unfold h3q_conn_close_reason. destruct (Z.eqb_spec buflen 0); [lia|]. intros [= <-].
  assert (Hs : forall b, blen (snprintf buflen b) < buflen).
  { intros b. unfold snprintf, btake, blen. rewrite length_take. lia. }
  by destruct (conn ≫= info).
Qed.

Example close_reason_text :
  h3q_conn_close_reason (Some 1%positive) (fun _ => Some (CloseInfo true false 266 6 (Some [Byte.x6e; Byte.x6f]) 2))
    [Byte.x65] (Some []) 256
  = Some (String.list_byte_of_string "local app err=0x10a frame=0x6 reason=" ++ [Byte.x22; Byte.x6e; Byte.x6f; Byte.x22]
            ++ String.list_byte_of_string " (e)").
Proof. reflexivity. Qed.

End Streams.

(** ** The wrapper implements the interface *)

#[export] Instance h3q_streams `{O : OpenSSL} : QuicStreams ossl := {
  qs_write := h3q_stream_write;
  qs_is_write_blocked e h := h3q_stream_is_write_blocked e (Some h);
  qs_read := h3q_stream_read;
  qs_read_finished := h3q_stream_is_read_finished;
  qs_reset e h err := h3q_stream_reset e (Some h) err;
  qs_free e h := h3q_stream_free e (Some h) }.

#[export] Instance h3q_conns `{O : OpenSSL} : QuicConns ossl := {
  qc_prepare e c t := h3q_conn_prepare e (Some c) t;
  qc_open_uni := h3q_conn_open_uni_stream;
  qc_accept_stream e c f := h3q_conn_accept_stream e (Some c) f;
  qc_stream_id e h := h3q_stream_id e (Some h);
  qc_is_handshake_done e c := h3q_conn_is_handshake_done e (Some c);
  qc_is_closed e c := h3q_conn_is_closed e (Some c);
  qc_shutdown e c rapid err reason := h3q_conn_shutdown e (Some c) rapid err reason;
  qc_free e c := h3q_conn_free e (Some c) }.

#[export] Instance h3q_conns_spec `{O : OpenSSL} : QuicConnsSpec ossl h3q_conns.
Proof.
  split; simpl; intros *; [unfold h3q_conn_open_uni_stream|]; destruct (_ _ _ _) as [e1 []];
    intros; by simplify_eq.
Qed.

Section Implements.
Context `{S : OpenSSLSpec}.
Implicit Types (e : ossl) (st : handle).

Lemma vecs_len_cons v vs : vecs_len (v :: vs) = blen v + vecs_len vs.
Proof. unfold vecs_len. simpl. apply blen_app. Qed.

Lemma vecs_len_nonneg vs : 0 <= vecs_len vs.
Proof. apply blen_nonneg. Qed.

Lemma write_loop_spec e st vs acc e' r :
  write_loop e st vs acc = (e', r) -> 0 <= acc -> acc + vecs_len vs <= SIZE_MAX ->
  acc <= wr_accepted r <= acc + vecs_len vs
  /\ (wr_blocked r = false -> wr_broken r = false -> wr_accepted r = acc + vecs_len vs)
  /\ (wr_blocked r = true -> wr_broken r = false).
Proof.
  revert e acc. induction vs as [|v vs IH]; intros e acc Hw Ha Hmax; simpl in Hw.
  { simplify_eq. change (vecs_len []) with 0. simpl. split_and!; try done; lia. }
  rewrite vecs_len_cons in *. pose proof (vecs_len_nonneg vs).
  destruct (SSL_write_ex e st v) as [e1 [wrv w]] eqn:Ew. apply SSL_write_ex_bound in Ew.
  destruct (wrv <=? 0).
  { case_bool_decide; simplify_eq/=; split_and!; try done; lia. }
  rewrite wrap64_small in Hw by lia. destruct (Z.ltb_spec w (blen v)).
  { simplify_eq/=. split_and!; try done; lia. }
  apply IH in Hw as (H1 & H2 & H3); [|lia|lia]. split_and!; [lia|lia| |done].
  intros. rewrite H2 by done. lia.
Qed.

Lemma h3q_stream_write_loop e st vs fin e' r :
  h3q_stream_write e st vs fin = (e', r) -> exists e1, write_loop e st vs 0 = (e1, r).
Proof.
  unfold h3q_stream_write. destruct (write_loop e st vs 0) as [e1 res]. intros H.
  exists e1. by case_match; simplify_eq.
Qed.

Lemma h3q_stream_read_spec e st n e' r :
  h3q_stream_read e st n = (e', r) -> 0 <= n ->
  blen (rd_bytes r) <= n /\ (rd_ok r = true -> 0 < blen (rd_bytes r) /\ rd_fin r = false).
Proof.
  unfold h3q_stream_read. destruct (SSL_read_ex e st n) as [e1 [rv b]] eqn:Er.
  intros H Hn. apply SSL_read_ex_bound in Er; [|done].
  destruct (Z.eqb_spec rv 1), (Z.ltb_spec 0 (blen b)); simpl in H;
    repeat case_match; simplify_eq/=; split; try done; lia.
Qed.

#[export] Instance h3q_streams_spec : QuicStreamsSpec ossl h3q_streams.
Proof.
  split; simpl.
  - intros e h vs fin e' r Hw Hm. apply h3q_stream_write_loop in Hw as [e1 Hw].
    apply write_loop_spec in Hw as (H & _ & _); lia.
  - intros e h vs fin e' r Hw Hm Hb Hk. apply h3q_stream_write_loop in Hw as [e1 Hw].
    apply write_loop_spec in Hw as (_ & H & _); [|lia|lia]. rewrite H by done. lia.
  - intros e h vs fin e' r Hw. apply h3q_stream_write_loop in Hw as [e1 Hw].
    revert Hw. generalize 0. generalize e. clear.
    induction vs as [|v vs IH]; intros e acc Hw; simpl in Hw; [by simplify_eq|].
    destruct (SSL_write_ex e h v) as [e2 [wrv w]].
    repeat case_match; simplify_eq/=; try done. by eapply IH.
  - intros e h n e' r Hr Hn. by apply h3q_stream_read_spec in Hr as [H _].
  - intros e h n e' r Hr Hok. unfold h3q_stream_read in Hr.
    destruct (SSL_read_ex e h n) as [e1 [rv b]].
    destruct (Z.ltb_spec 0 (blen b)), (rv =? 1); simpl in Hr;
      repeat case_match; simplify_eq/=; done.
Qed.

End Implements.

(** ** What reaches the transport

    The bytes OpenSSL has queued on a stream and whether the stream was concluded are
    observations of its state; the laws are what the manual pages of [SSL_write_ex] and
    [SSL_stream_conclude] say of them. *)
Class OpenSSLQueue `(O : OpenSSL) := {
  SSL_sent : ossl -> handle -> bytes;
  SSL_concluded : ossl -> handle -> bool;
  SSL_write_ex_sent e h b e' rv w :
    SSL_write_ex e h b = (e', (rv, w)) ->
    SSL_sent e' h = (if rv <=? 0 then SSL_sent e h else SSL_sent e h ++ btake w b)
    /\ SSL_concluded e' h = SSL_concluded e h;
  SSL_stream_conclude_sent e h :
    SSL_sent (SSL_stream_conclude e h) h = SSL_sent e h
    /\ SSL_concluded (SSL_stream_conclude e h) h = true }.

Section Transport.
Context {L : OpenSSL} {S : OpenSSLSpec L} {Qu : OpenSSLQueue L}.
Implicit Types (e : ossl) (st : handle).

Lemma write_loop_sent e st vs acc e' r :
  write_loop e st vs acc = (e', r) -> 0 <= acc -> acc + vecs_len vs <= SIZE_MAX ->
  SSL_sent e' st = SSL_sent e st ++ btake (wr_accepted r - acc) (concat vs)
  /\ SSL_concluded e' st = SSL_concluded e st.
Proof.
  revert e acc. induction vs as [|v vs IH]; intros e acc Hw Ha Hmax; simpl in Hw.
  { simplify_eq. simpl. unfold btake. rewrite take_nil, app_nil_r. done. }
  rewrite vecs_len_cons in *. pose proof (vecs_len_nonneg vs).
  destruct (SSL_write_ex e st v) as [e1 [wrv w]] eqn:Ew.
  pose proof (SSL_write_ex_sent _ _ _ _ _ _ Ew) as [Hs Hc]. apply SSL_write_ex_bound in Ew.
  destruct (wrv <=? 0).
  { case_bool_decide; simplify_eq/=; rewrite Z.sub_diag, btake_0, app_nil_r; done. }
  rewrite wrap64_small in Hw by lia. destruct (Z.ltb_spec w (blen v)).
  { simplify_eq/=. rewrite Hs, Hc. split; [|done]. f_equal. unfold btake, blen in *.
    rewrite take_app_le by lia. f_equal. lia. }
  pose proof (write_loop_spec _ _ _ _ _ _ Hw) as ((Hlo & _) & _); [lia|lia|].
  apply IH in Hw as [Hw1 Hw2]; [|lia|lia]. rewrite Hw1, Hw2, Hs, Hc. split; [|done].
  rewrite <-app_assoc. f_equal. simpl. assert (w = blen v) as -> by lia.
  unfold btake, blen in *. rewrite take_app_ge by lia. rewrite take_ge by lia.
  do 2 f_equal. lia.
Qed.

(** A stream write queues exactly the reported prefix of the gathered
    vectors on the stream, in order, after what was queued before; and the stream's send
    side is concluded by it only for a final write whose every byte was accepted, so a
    FIN is never sent ahead of data that is still to be retried. *)
Theorem stream_write_prefix e st (vs : list bytes) (fin : bool) e' (r : h3q_write_result) :
  h3q_stream_write e st vs fin = (e', r) -> vecs_len vs <= SIZE_MAX ->
  SSL_sent e' st = SSL_sent e st ++ btake (wr_accepted r) (concat vs)
  /\ 0 <= wr_accepted r <= vecs_len vs
  /\ (SSL_concluded e st = false ->
      SSL_concluded e' st = fin && negb (wr_blocked r) && negb (wr_broken r))
  /\ (wr_blocked r = false -> wr_broken r = false ->
      SSL_sent e' st = SSL_sent e st ++ concat vs).
Proof.
  intros Hw Hm. unfold h3q_stream_write in Hw.
  destruct (write_loop e st vs 0) as [e1 res] eqn:Hl.
  pose proof (write_loop_spec _ _ _ _ _ _ Hl) as (Hb & Hall & _); [lia|lia|].
  apply write_loop_sent in Hl as [Hs Hc]; [|lia|lia]. rewrite Z.sub_0_r in Hs.
  rewrite wrap64_small in Hw by (pose proof (vecs_len_nonneg vs); lia).
  pose proof (SSL_stream_conclude_sent e1 st) as [Hcs Hcc].
  assert (r = res) as -> by (case_match; by simplify_eq).
  assert (SSL_sent e' st = SSL_sent e1 st) as He by (case_match; simplify_eq; done).
  split_and!; [by rewrite He|lia|lia| |].
  - intros Hf. destruct fin, (wr_blocked res), (wr_broken res); simpl in *;
      try (simplify_eq; congruence).
    rewrite (Hall eq_refl eq_refl) in Hw.
    rewrite (proj2 (Z.eqb_eq _ _)) in Hw by lia. by simplify_eq.
  - intros H1 H2. rewrite He, Hs, (Hall H1 H2). simpl. f_equal. by apply btake_all.
Qed.

End Transport.

(** *** An instance: one connection whose streams share a send window and what is read; with a
    window below zero the peer has reset them *)

Record toy_ssl := ToySSL {
  toy_window : Z;
  toy_out : list (handle * bytes);
  toy_fin : list handle;
  toy_in : bytes;
  toy_incoming : nat;
  toy_got : list (handle * bytes) }.

Definition toy_sent (e : toy_ssl) (h : handle) : bytes :=
  concat (map snd (filter (fun x => fst x = h) (toy_out e))).

Definition toy_taken (e : toy_ssl) (h : handle) : bytes :=
  concat (map snd (filter (fun x => fst x = h) (toy_got e))).

Definition toy_write (e : toy_ssl) (h : handle) (b : bytes) : toy_ssl * (Z * Z) :=
  let w := Z.max 0 (Z.min (toy_window e) (blen b)) in
  if w <=? 0 then (e, (0, 0))
  else (ToySSL (toy_window e - w) (toy_out e ++ [(h, btake w b)]) (toy_fin e) (toy_in e)
                (toy_incoming e) (toy_got e), (1, w)).

#[export] Instance toy_openssl : OpenSSL := {
  ossl := toy_ssl;
  SSL_write_ex := toy_write;
  SSL_read_ex e h n :=
    (ToySSL (toy_window e) (toy_out e) (toy_fin e) (bdrop n (toy_in e)) (toy_incoming e)
       (toy_got e ++ [(h, btake n (toy_in e))]), (1, btake n (toy_in e)));
  SSL_get_error _ _ _ := SSL_ERROR_WANT_WRITE;
  SSL_stream_conclude e h :=
    ToySSL (toy_window e) (toy_out e) (h :: toy_fin e) (toy_in e) (toy_incoming e) (toy_got e);
  SSL_stream_write_buf_avail e _ := Some (toy_window e);
  SSL_get_stream_read_state e _ := if toy_window e <=? 0 then SSL_STREAM_STATE_RESET_REMOTE else SSL_STREAM_STATE_OK;
  SSL_get_stream_write_state _ _ := SSL_STREAM_STATE_OK;
  SSL_stream_reset e _ _ := e;
  SSL_get_stream_id _ h := if (h <? 8)%positive then 4 * Zpos h + 3 else 4 * Zpos h;
  SSL_free e _ := e;
  SSL_set_blocking_mode e _ := (e, true);
  SSL_set_default_stream_mode_none e _ := e;
  SSL_set_incoming_stream_policy_accept e _ := e;
  SSL_set_quic_idle_timeout e _ _ := e;
  SSL_new_stream_uni e _ _ := (e, true);
  SSL_accept_stream e _ _ :=
    match toy_incoming e with
    | O => (e, false)
    | S k => (ToySSL (toy_window e) (toy_out e) (toy_fin e) (toy_in e) k (toy_got e), true)
    end;
  SSL_is_init_finished _ _ := true;
  SSL_get_shutdown _ _ := 0;
  SSL_shutdown e _ := (e, 1);
  SSL_shutdown_ex e _ _ _ _ := (e, 1) }.

#[export] Instance toy_openssl_spec : OpenSSLSpec toy_openssl.
Proof.
  split; simpl.
  - unfold toy_write. intros e h b e' rv w H. pose proof (blen_nonneg b).
    case_match; simplify_eq; lia.
  - intros e h n e' rv b H Hn. simplify_eq. unfold btake, blen.
    pose proof (firstn_le_length (Z.to_nat n) (toy_in e)). lia.
Qed.

#[export] Instance toy_openssl_queue : OpenSSLQueue toy_openssl.
Proof.
  refine {| SSL_sent := toy_sent; SSL_concluded e h := bool_decide (h ∈ toy_fin e) |}.
  - simpl. unfold toy_write. intros e h b e' rv w H.
    case_match; simplify_eq; simpl; [done|]. split; [|done].
    unfold toy_sent. simpl. rewrite filter_app, map_app, concat_app.
    rewrite filter_cons_True by done. simpl. by rewrite app_nil_r.
  - intros e h. split; [done|]. simpl. apply bool_decide_eq_true. set_solver.
Defined.

Definition sample_vecs : list bytes := [[Byte.x61; Byte.x62]; [Byte.x63]].

Lemma stream_write_prefix_witness :
  SSL_sent (fst (h3q_stream_write (ToySSL 2 [] [] [] 0 []) 1%positive sample_vecs true)) 1%positive
    = [Byte.x61; Byte.x62]
  /\ SSL_concluded (fst (h3q_stream_write (ToySSL 2 [] [] [] 0 []) 1%positive sample_vecs true)) 1%positive
    = false.
Proof.
  pose proof (stream_write_prefix (ToySSL 2 [] [] [] 0 []) 1%positive sample_vecs true _ _
    (surjective_pairing _)) as (Hs & _ & Hc & _); [by vm_compute|].
  split; [rewrite Hs; by vm_compute|rewrite Hc; by vm_compute].
Defined.
