(* ===== verification/Engine.v ===== *)
(** * The QUIC engine (quic/h3q.c, quic/detail/h3q_tls.c)

    The engine owns the TLS context, the listener, the filter BIO method and the address
    machinery of [AddrQueue].  OpenSSL's calls are parameters: whether each of them
    succeeds is a field of [engine_calls], and what a round of [SSL_handle_events] does is
    an [event], the receive calls it makes on the filter BIO with its return value.

    Objects the engine acquires are tracked in a list of live resources; releasing one
    that is not live, or running a BIO callback whose engine or method is gone, is a
    fault. *)

From S2P Require Import Prelude LinkedQueue AddrQueue.

Definition H3Q_ERRLEN : Z := 256.

(** ** Error texts *)

Definition str_take (n : Z) (s : string) : string := String.substring 0 (Z.to_nat n) s.

Definition slen (s : string) : Z := Z.of_nat (String.length s).

(** [h3q_tls_error]: [err] is the buffer ([None] for NULL) of [errlen] bytes, [msg] the
    formatted message and [code] the pending OpenSSL error's text, if there is one.  What
    [vsnprintf] and [snprintf] write is cut to the room left, less the terminator. *)
Definition h3q_tls_error (err : option string) (errlen : Z) (msg : string)
    (code : option string) : option string :=
  match err with
  | None => None
  | Some old =>
      if errlen =? 0 then Some old
      else
        let n := slen msg in
        let text := str_take (errlen - 1) msg in
        match code with
        | Some detail =>
            if (0 <? n) && (n +64 2 <? errlen)
            then Some (text +:+ str_take (errlen - n - 1)
                                  (": " +:+ str_take (H3Q_ERRLEN - 1) detail))
            else Some text
        | None => Some text
        end
  end.

#[global] Arguments h3q_tls_error : simpl never.

(** ** Resources *)

Inductive resource :=
  | R_engine | R_ssl_ctx | R_bio_method | R_peer_addr | R_listener | R_dgram_bio | R_filter_bio.

#[export] Instance resource_eq_dec : EqDecision resource.
Proof. solve_decision. Defined.

(** The live resources, and whether the listener owns the BIO chain. *)
Record world := World { w_live : list resource; w_attached : bool }.

Definition acquire (r : resource) (w : world) : world :=
  World (r :: w_live w) (w_attached w).

Definition release (r : resource) (w : world) : option world :=
  if bool_decide (r ∈ w_live w)
  then Some (World (filter (fun x => x <> r) (w_live w)) (w_attached w)) else None.

Definition attach (w : world) : world := World (w_live w) true.

(** [struct h3q_engine]: the four pointers as whether they are set, and the rest. *)
Record h3q_engine := Engine {
  en_ssl_ctx : bool;
  en_listener : bool;
  en_bio_method : bool;
  en_peer_addr : bool;
  en_addr : addr_state }.

Record h3q_config := QConfig {
  cfg_cert_path : string;
  cfg_key_path : string;
  cfg_address_validation : bool }.

(** Which of the library calls succeed. *)
Record engine_calls := EngineCalls {
  oc_calloc : bool;
  oc_ctx_new : bool;
  oc_certificate : string -> bool;
  oc_private_key : string -> bool;
  oc_meth_new : bool;
  oc_set_ctrl : bool;
  oc_set_sendmmsg : bool;
  oc_set_recvmmsg : bool;
  oc_set_destroy : bool;
  oc_addr_new : bool;
  oc_ex_index : Z;
  oc_new_listener : Z -> bool;
  oc_new_dgram : bool;
  oc_new_filter : bool;
  oc_listen : bool;
  oc_nonblocking : bool;
  oc_error : option string }.

Definition SSL_LISTENER_FLAG_NO_VALIDATE : Z := 2.

(** [h3q_tls_ctx_create]: the context is released again when the certificate or the key
    does not load. *)
Definition h3q_tls_ctx_create (oc : engine_calls) (cfg : h3q_config) (w : world)
    (err : option string) (errlen : Z) : option (world * bool * option string) :=
  if negb (oc_ctx_new oc)
  then Some (w, false, h3q_tls_error err errlen "SSL_CTX_new failed" (oc_error oc))
  else
    let w1 := acquire R_ssl_ctx w in
    if negb (oc_certificate oc (cfg_cert_path cfg)) || negb (oc_private_key oc (cfg_key_path cfg))
    then
      w2 ← release R_ssl_ctx w1;
      Some (w2, false,
            h3q_tls_error err errlen "loading the certificate or private key failed" (oc_error oc))
    else Some (w1, true, err).

(** The key log callback appends a line to the file named by [SSLKEYLOGFILE]; [path] is the
    variable and [opens] whether the file can be opened. *)
Definition h3q_tls_keylog_cb (path : option string) (opens : string -> bool) (line : bytes) (file : bytes)
    : bytes :=
  match path with
  | Some p => if opens p then file ++ line ++ [Byte.x0a] else file
  | None => file
  end.

(** The ALPN callback offers [h3] only; [select] is [SSL_select_next_proto]. *)
Definition alpn_h3 : bytes := [Byte.x02; Byte.x68; Byte.x33].

Definition h3q_tls_alpn_select_cb (select : bytes -> bytes -> option bytes) (client : bytes)
    : option bytes :=
  select alpn_h3 client.

(** [SSL_free] of the listener.  As documented for [SSL_set_bio], the listener owns the BIO
    chain it was given, which is freed with it ([BIO_free_all], from the filter down), and
    freeing a BIO calls its method's destroy handler: here the engine's. *)
Definition free_listener (a : addr_state) (w : world) : option (addr_state * world) :=
  w1 ← release R_listener w;
  if w_attached w1 then
    if bool_decide (R_engine ∈ w_live w1) && bool_decide (R_bio_method ∈ w_live w1) then
      a1 ← h3q_peer_addr_bio_destroy a;
      w2 ← release R_filter_bio w1;
      w3 ← release R_dgram_bio w2;
      Some (a1, World (w_live w3) false)
    else None
  else Some (a, w1).

Definition release_if (b : bool) (r : resource) (w : world) : option world :=
  if b then release r w else Some w.

Definition h3q_engine_destroy (engine : option h3q_engine) (w : world) : option world :=
  match engine with
  | None => Some w
  | Some en =>
      a ← h3q_peer_addr_queue_clear (en_addr en);
      aw ← (if en_listener en then free_listener a w else Some (a, w));
      w1 ← release_if (en_peer_addr en) R_peer_addr (snd aw);
      w2 ← release_if (en_bio_method en) R_bio_method w1;
      w3 ← release_if (en_ssl_ctx en) R_ssl_ctx w2;
      release R_engine w3
  end.

(** A failure after the engine exists: record the error, destroy, return NULL. *)
Definition create_fail (oc : engine_calls) (en : h3q_engine) (w : world) (err : option string)
    (errlen : Z) (msg : string) : option (world * option h3q_engine * option string) :=
  w' ← h3q_engine_destroy (Some en) w;
  Some (w', None, h3q_tls_error err errlen msg (oc_error oc)).

(** The second half of [h3q_engine_create], once the peer address machinery exists. *)
Definition create_listener (oc : engine_calls) (cfg : h3q_config) (fd : string) (en : h3q_engine)
    (w : world) (err : option string) (errlen : Z)
    : option (world * option h3q_engine * option string) :=
  let listener_flags := if cfg_address_validation cfg then 0 else SSL_LISTENER_FLAG_NO_VALIDATE in
  if negb (oc_new_listener oc listener_flags)
  then create_fail oc en w err errlen "SSL_new_listener failed"
  else
    let w := acquire R_listener w in
    let en := Engine true true true true (en_addr en) in
    if negb (oc_new_dgram oc)
    then create_fail oc en w err errlen ("BIO_new_dgram failed for fd=" +:+ fd)
    else
      let w := acquire R_dgram_bio w in
      if negb (oc_new_filter oc)
      then w' ← release R_dgram_bio w;
           create_fail oc en w' err errlen "BIO_new(h3q_peer_addr) failed"
      else
        let w := attach (acquire R_filter_bio w) in
        if negb (oc_listen oc) || negb (oc_nonblocking oc)
        then create_fail oc en w err errlen "SSL_listen failed"
        else Some (w, Some en, err).

(** [fd] is the text of [udp_fd]. *)
Definition h3q_engine_create (oc : engine_calls) (cfg : h3q_config) (fd : string)
    (err : option string) (errlen : Z) : option (world * option h3q_engine * option string) :=
  let w := World [] false in
  if negb (oc_calloc oc)
  then Some (w, None, h3q_tls_error err errlen "allocating the engine failed" (oc_error oc))
  else
    let w := acquire R_engine w in
    let en := Engine false false false false (addr_init (-1)) in
    c ← h3q_tls_ctx_create oc cfg w err errlen;
    let '(w, ok, err1) := c in
    if negb ok then w' ← h3q_engine_destroy (Some en) w; Some (w', None, err1)
    else
      let en := Engine true false false false (addr_init (-1)) in
      if negb (oc_meth_new oc) then create_fail oc en w err1 errlen "BIO_meth_new failed"
      else
        let w := acquire R_bio_method w in
        let en := Engine true false true false (addr_init (-1)) in
        if negb (oc_set_ctrl oc) || negb (oc_set_sendmmsg oc) || negb (oc_set_recvmmsg oc)
           || negb (oc_set_destroy oc)
        then create_fail oc en w err1 errlen "installing the peer address BIO handlers failed"
        else
          let w := if oc_addr_new oc then acquire R_peer_addr w else w in
          let en := Engine true false true (oc_addr_new oc) (addr_init (oc_ex_index oc)) in
          if negb (oc_addr_new oc) || (oc_ex_index oc <? 0)
          then create_fail oc en w err1 errlen "initializing peer address recovery failed"
          else create_listener oc cfg fd en w err1 errlen.

(** ** Driving the listener *)

(** One [SSL_handle_events]: the receives it makes on the filter BIO, and what it returns. *)
Record event := Event { ev_calls : list recv_call; ev_rv : Z }.

Definition SSL_handle_events (ev : event) (a : addr_state) : option (addr_state * Z) :=
  match recv_run a (ev_calls ev) with
  | Some (a', _, _) => Some (a', ev_rv ev)
  | None => None
  end.

(** The loop of [h3q_engine_pump]: [evs] are the rounds still to come. *)
Fixpoint pump_loop (evs : list event) (a : addr_state) (work : Z) : sched (addr_state * Z) :=
  match lq_head (eng_rx a) with
  | None => Ran (a, work)
  | Some _ =>
      match evs with
      | [] => Unscheduled
      | ev :: evs' =>
          match SSL_handle_events ev a with
          | None => Fault
          | Some (a', rv) => if negb (rv =? 1) then Ran (a', -1) else pump_loop evs' a' 1
          end
      end
  end.

Definition h3q_engine_pump (engine : option h3q_engine) (evs : list event)
    : sched (option addr_state * Z) :=
  match engine with
  | None => Ran (None, 0)
  | Some en =>
      if negb (en_listener en) then Ran (Some (en_addr en), 0)
      else
        match evs with
        | [] => Unscheduled
        | ev :: evs' =>
            match SSL_handle_events ev (en_addr en) with
            | None => Fault
            | Some (a, rv) =>
                if negb (rv =? 1) then Ran (Some a, -1)
                else match pump_loop evs' a 0 with
                     | Ran (a', w) => Ran (Some a', w)
                     | Unscheduled => Unscheduled
                     | Fault => Fault
                     end
            end
        end
  end.

(** What [SSL_get_event_timeout] reports: a call that fails, no timer, or a [timeval]. *)
Inductive event_timeout := NoTimeout | Infinite | Timeout (sec usec : Z).

Record net_wants := NetWants { nw_read : bool; nw_write : bool; nw_timeout : event_timeout }.

(** [want_read], [want_write] and the lowered [timeout_ms]. *)
Definition h3q_engine_want (engine : option h3q_engine) (nw : net_wants) (timeout_ms : Z)
    : bool * bool * Z :=
  match engine with
  | Some en =>
      if en_listener en then
        let t := match nw_timeout nw with
                 | Timeout sec usec =>
                     let ms := sec * 1000 + Z.quot usec 1000 in
                     if (0 <=? ms) && (ms <? timeout_ms) then ms else timeout_ms
                 | _ => timeout_ms
                 end in
        (nw_read nw, nw_write nw, if t <? 1 then 1 else t)
      else (false, false, 1000)
  | None => (false, false, 1000)
  end.

(** [accept] is [SSL_accept_connection] on the listener. *)
Definition h3q_engine_accept_conn {C} (engine : option h3q_engine) (accept : option C)
    : option C :=
  match engine with Some en => if en_listener en then accept else None | None => None end.

(** The socket address filled in: family, raw address, port. *)
Record sockaddr := SockAddr { sa_family : addr_family; sa_addr : bytes; sa_port : Z }.

(** [recorded] is what [SSL_get_ex_data] finds on the connection. *)
Definition h3q_engine_peer_addr (engine : option h3q_engine) (conn_ok : bool)
    (recorded : option bio_addr) : option sockaddr :=
  match engine with
  | None => None
  | Some en =>
      if negb conn_ok || (eng_ex_index (en_addr en) <? 0) then None
      else match recorded with
           | None => None
           | Some peer =>
               let rawlen := blen (ba_raw peer) in
               match ba_family peer with
               | AF_INET =>
                   if negb (rawlen =? 4) then None
                   else Some (SockAddr AF_INET (ba_raw peer) (ba_port peer))
               | AF_INET6 =>
                   if negb (rawlen =? 16) then None
                   else Some (SockAddr AF_INET6 (ba_raw peer) (ba_port peer))
               | _ => None
               end
           end
  end.

(** ** Lemmas *)

Definition all_resources : list resource :=
  [R_filter_bio; R_dgram_bio; R_listener; R_peer_addr; R_bio_method; R_ssl_ctx; R_engine].

(** Datagrams a round can bring in from the network. *)
Definition call_batch (c : recv_call) : nat := length (snd (rc_recv c)).
Definition event_batch (ev : event) : nat := sum_list_with call_batch (ev_calls ev).

(** A round in which OpenSSL reads nothing that is queued: it makes no receive call that has
    a buffer. *)
Definition buffered (c : recv_call) : Prop := is_Some (m_data (rc_msg c)).
Definition event_idle (ev : event) : Prop := Forall (fun c => ~ buffered c) (ev_calls ev).

#[export] Instance buffered_dec c : Decision (buffered c).
Proof. unfold buffered. apply _. Defined.
#[export] Instance event_idle_dec ev : Decision (event_idle ev).
Proof. unfold event_idle. apply _. Defined.

Section PumpLemmas.
Implicit Types (a : addr_state) (ds : list h3q_datagram).

(** A receive takes one datagram off the queue, after filling it when it was empty, unless
    there is no buffer for one that is queued. *)
Lemma recv_abs_length ds c :
  let '(ds', _, _) := recv_abs ds c in
  (length ds' <= length ds + call_batch c)%nat
  /\ (ds = [] \/ buffered c -> (length ds' <= pred (length ds + call_batch c))%nat).
Proof.
  unfold recv_abs, call_batch, buffered. destruct ds as [|d ds].
  - destruct (rc_recv c) as [[] [|[first al] rest]]; simpl; try lia.
    destruct (_ && forallb storable rest); simpl; rewrite ?length_fmap; lia.
  - destruct (m_data (rc_msg c)); simpl; [lia|]. split; [lia|]. by intros [?|[? ?]].
Qed.

Lemma recv_run_length a ds calls :
  rx_rep a ds ->
  exists a' dv rc ds', recv_run a calls = Some (a', dv, rc) /\ rx_rep a' ds'
    /\ (length ds' <= length ds + sum_list_with call_batch calls)%nat
    /\ (ds = [] \/ Exists buffered calls -> (length ds' <= pred (length ds + sum_list_with call_batch calls))%nat).
Proof.
  revert a ds. induction calls as [|c calls IH]; intros a ds Ha; cbn [recv_run sum_list_with].
  { exists a, [], [], ds. split_and!; [done|done|lia|]. intros [->|Hx]; [done|by apply Exists_nil in Hx]. }
  pose proof (recvmmsg_abs a ds c 1 0 Ha ltac:(lia)) as Hr. pose proof (recv_abs_length ds c) as Hl.
  destruct (recv_abs ds c) as [[ds1 fates] got] eqn:Eabs. destruct Hl as [Hl Hl']. destruct Hr as (r & -> & Ha1 & _).
  destruct (IH _ _ Ha1) as (a' & dv & rc & ds' & -> & Ha' & Hm & Hm').
  do 4 eexists. split; [done|]. split; [done|]. split; [lia|]. intros Hx.
  destruct (decide (ds = [] \/ buffered c)) as [Hb|Hb].
  { specialize (Hl' Hb). destruct ds1; [specialize (Hm' (or_introl eq_refl))|]; simpl in *; lia. }
  destruct Hx as [?|[?|Hx]%Exists_cons]; [tauto..|]. specialize (Hm' (or_intror Hx)).
  destruct ds as [|d ds]; [tauto|]. simpl in *. lia.
Qed.

Lemma handle_events_length a ds ev :
  rx_rep a ds ->
  exists a' ds', SSL_handle_events ev a = Some (a', ev_rv ev) /\ rx_rep a' ds'
    /\ (length ds' <= length ds + event_batch ev)%nat
    /\ (~ event_idle ev -> (length ds' <= pred (length ds + event_batch ev))%nat).
Proof.
  intros Ha. destruct (recv_run_length _ _ (ev_calls ev) Ha) as (a' & dv & rc & ds' & Hr & Ha' & Hl & Hl').
  exists a', ds'. unfold SSL_handle_events. rewrite Hr. split_and!; [done..|].
  intros Hn. apply Hl'. right. unfold event_idle in Hn.
  apply not_Forall_Exists in Hn; [|apply _]. eapply Exists_impl; [exact Hn|].
  intros c Hc. unfold compose in Hc. by apply dec_stable.
Qed.

Lemma pump_loop_ends evs a ds work :
  rx_rep a ds -> work = 0 \/ work = 1 ->
  (length ds + sum_list_with event_batch evs + length (filter event_idle evs) <= length evs)%nat ->
  exists a' w ds', pump_loop evs a work = Ran (a', w) /\ rx_rep a' ds'
    /\ (w = -1 \/ (w = 0 \/ w = 1) /\ ds' = []).
Proof.
  revert a ds work. induction evs as [|ev evs IH]; intros a ds work Ha Hw Hlen; simpl.
  - destruct ds; [|simpl in Hlen; lia]. rewrite (proj2 (rx_rep_head a [] Ha) eq_refl).
    exists a, work, []. auto.
  - destruct (lq_head (eng_rx a)) eqn:Eh.
    2:{ apply (rx_rep_head a ds Ha) in Eh as ->. exists a, work, []. auto. }
    destruct (handle_events_length _ _ ev Ha) as (a1 & ds1 & -> & Ha1 & Hl1 & Hl2).
    destruct (ev_rv ev =? 1); simpl; [|by exists a1, (-1), ds1; auto].
    apply IH with (ds := ds1); auto. destruct ds as [|d ds].
    { by rewrite (proj2 (rx_rep_head a [] Ha) eq_refl) in Eh. }
    rewrite filter_cons in Hlen. destruct (decide (event_idle ev)) as [Hi|Hi]; simpl in *; [lia|].
    specialize (Hl2 Hi). lia.
Qed.

Lemma str_take_len n s : 0 <= n -> slen (str_take n s) = Z.min n (slen s).
Proof.
  intros Hn. unfold slen, str_take. rewrite <- (Nat2Z.id (String.length s)) at 1.
  assert (forall k s, String.length (String.substring 0 k s) = (k `min` String.length s)%nat) as Hs.
  { clear. induction k as [|k IH]; intros [|c s]; simpl; try done. by rewrite IH. }
  rewrite Hs. lia.
Qed.

Lemma slen_app s1 s2 : slen (s1 +:+ s2) = slen s1 + slen s2.
Proof.
  unfold slen. rewrite <- Nat2Z.inj_add. f_equal.
  induction s1 as [|c s1 IH]; [reflexivity|]. exact (f_equal S IH).
Qed.

Lemma slen_nonneg s : 0 <= slen s.
Proof. unfold slen. lia. Qed.

Lemma tls_error_fits err errlen msg code e :
  0 < errlen <= SIZE_MAX -> slen msg + 2 <= SIZE_MAX -> 0 < slen msg ->
  h3q_tls_error (Some err) errlen msg code = Some e ->
  slen e < errlen /\ (1 < errlen -> 0 < slen e).
Proof.
  intros Hl Hm Hn. unfold h3q_tls_error. rewrite (proj2 (Z.eqb_neq _ _)) by lia.
  rewrite wrap64_small by (pose proof (slen_nonneg msg); lia).
  assert (Ht : slen (str_take (errlen - 1) msg) = Z.min (errlen - 1) (slen msg))
    by (apply str_take_len; lia).
  destruct code as [detail|]; [|intros; simplify_eq; lia].
  destruct (Z.ltb_spec 0 (slen msg)), (Z.ltb_spec (slen msg + 2) errlen); simpl;
    intros; simplify_eq; try lia.
  rewrite slen_app, Ht, str_take_len by lia.
  pose proof (slen_nonneg (": " +:+ str_take (H3Q_ERRLEN - 1) detail)). lia.
Qed.

End PumpLemmas.

(** A failing call ends with an error text, by [Herr]; the next one is considered. *)
Local Ltac err_case Herr :=
  match goal with
  | |- context [h3q_tls_error (Some ?o) _ ?m _] =>
      let e := fresh "e" in let He := fresh "He" in let Hb := fresh "Hb" in
      destruct (Herr o m) as (e & He & Hb);
      [first [rewrite slen_app; unfold slen in *; simpl; lia | unfold slen; simpl; lia]
      |rewrite He; simpl; do 3 eexists; split; [reflexivity|by split]]
  end.
Local Ltac next_call Herr :=
  match goal with |- context [negb ?b] => destruct b; simpl; [|err_case Herr] end.

(** Every path of [h3q_engine_create]. *)
Lemma engine_create_spec (oc : engine_calls) (cfg : h3q_config) (fd err : string) (errlen : Z) :
  1 < errlen <= SIZE_MAX -> slen fd <= 20 ->
  exists w en err', h3q_engine_create oc cfg fd (Some err) errlen = Some (w, en, Some err')
    /\ match en with
       | None => w_live w = [] /\ 0 < slen err' < errlen
       | Some e => w_live w = all_resources /\ err' = err
                   /\ exists w', h3q_engine_destroy (Some e) w = Some w' /\ w_live w' = []
       end.
Proof.
  intros Hlen Hfd.
  assert (Herr : forall old msg, 0 < slen msg <= 100 ->
    exists e, h3q_tls_error (Some old) errlen msg (oc_error oc) = Some e /\ 0 < slen e < errlen).
  { intros old msg Hm. destruct (h3q_tls_error (Some old) errlen msg (oc_error oc)) as [e|] eqn:He.
    - exists e. split; [done|]. apply tls_error_fits in He; unfold SIZE_MAX in *; lia.
    - unfold h3q_tls_error in He. repeat case_match; simplify_eq. }
  unfold h3q_engine_create, h3q_tls_ctx_create, create_listener, create_fail.
  do 10 next_call Herr. destruct (oc_ex_index oc <? 0); simpl; [err_case Herr|].
  do 5 next_call Herr.
  do 3 eexists. split; [reflexivity|]. split_and!; [done..|]. eexists. split; reflexivity.
Qed.

(** ** Properties *)

(** C27 (resources): whichever of OpenSSL's calls fail, [h3q_engine_create] releases
    everything it acquired and reports NULL with a non-empty text that fits the caller's
    buffer, or returns an engine that holds exactly its seven objects; destroying that
    engine releases each of them once, the listener's BIO callback running while the
    engine and its BIO method still exist. *)
Theorem engine_create_no_leak (oc : engine_calls) (cfg : h3q_config) (fd err : string) (errlen : Z) :
  1 < errlen <= SIZE_MAX -> slen fd <= 20 ->
  exists w en err', h3q_engine_create oc cfg fd (Some err) errlen = Some (w, en, Some err')
    /\ match en with
       | None => w_live w = [] /\ 0 < slen err' < errlen
       | Some e => w_live w = all_resources /\ err' = err
                   /\ exists w', h3q_engine_destroy (Some e) w = Some w' /\ w_live w' = []
       end.
Proof. apply engine_create_spec. Qed.

Definition sample_engine_calls : engine_calls :=
  EngineCalls true true (fun _ => true) (fun _ => true) true true true true true true 3
              (fun _ => true) true true true true None.

Definition sample_qconfig : h3q_config := QConfig "cert.pem" "key.pem" true.

Lemma engine_create_no_leak_witness :
  exists w e, h3q_engine_create sample_engine_calls sample_qconfig "7" (Some "") 256
              = Some (w, Some e, Some "")
    /\ exists w', h3q_engine_destroy (Some e) w = Some w' /\ w_live w' = [].
Proof.
  destruct (engine_create_no_leak sample_engine_calls sample_qconfig "7" "" 256)
    as (w & en & err' & Hc & H); [by vm_compute|by vm_compute|].
  destruct en as [e|].
  - destruct H as (_ & -> & H). exists w, e. by split.
  - vm_compute in Hc. discriminate Hc.
Defined.

(** C30 (pump termination): every round of [SSL_handle_events] that reads what is queued
    brings the pump closer to its end: it returns as soon as the rounds outnumber the
    datagrams queued and arriving and the rounds in which OpenSSL makes no receive call
    with a buffer; it never touches a freed datagram, and unless it reports a failed
    listener it leaves nothing queued. *)
Theorem engine_pump_terminates (en : h3q_engine) (evs : list event) (ds : list h3q_datagram) :
  rx_rep (en_addr en) ds ->
  (length ds + sum_list_with event_batch evs + length (filter event_idle evs) < length evs)%nat ->
  exists a w ds', h3q_engine_pump (Some en) evs = Ran (Some a, w) /\ rx_rep a ds'
    /\ (-1 <= w <= 1)
    /\ (w <> -1 -> en_listener en = true -> lq_head (eng_rx a) = None).
Proof.
  intros Ha Hlen. unfold h3q_engine_pump.
  destruct (en_listener en); simpl; [|do 3 eexists; split; [done|]; split; [done|]; split; [lia|done]].
  destruct evs as [|ev evs]; [simpl in Hlen; lia|].
  destruct (handle_events_length _ _ ev Ha) as (a1 & ds1 & -> & Ha1 & Hl1 & _).
  destruct (ev_rv ev =? 1); simpl; [|by do 3 eexists].
  destruct (pump_loop_ends evs a1 ds1 0 Ha1) as (a2 & w & ds2 & -> & Ha2 & Hw);
    [by left|rewrite filter_cons in Hlen; simpl in Hlen; case_decide; simpl in Hlen; lia|].
  exists a2, w, ds2. split; [done|]. split; [done|]. split; [lia|].
  intros Hne _. destruct Hw as [?|[_ ->]]; [done|]. by apply (rx_rep_head a2 [] Ha2).
Qed.

(** A round that brings two datagrams, one that reads nothing, and rounds that bring none. *)
Definition sample_events : list event :=
  [ Event [RecvCall (true, [sample_msg Byte.x61 1; sample_msg Byte.x62 2]) sample_slot] 1; Event [] 1;
    Event [RecvCall (false, []) sample_slot] 1; Event [RecvCall (false, []) sample_slot] 1 ].

Lemma engine_pump_terminates_witness :
  exists a, h3q_engine_pump (Some (Engine true true true true (addr_init 3))) sample_events
            = Ran (Some a, 1) /\ lq_head (eng_rx a) = None.
Proof.
  destruct (engine_pump_terminates (Engine true true true true (addr_init 3)) sample_events [])
    as (a & w & ds' & Hp & _ & _ & Hend).
  - apply addr_init_rep.
  - vm_compute. lia.
  - assert (w = 1) as -> by (vm_compute in Hp; by injection Hp).
    exists a. split; [exact Hp|by apply Hend].
Defined.

(** The wait the engine asks for is at least a millisecond and never
    longer than the caller's; a timer that is due sooner than that shortens it to the
    timer, and nothing else does. *)
Theorem engine_want_timeout (en : h3q_engine) (nw : net_wants) (timeout_ms : Z) :
  1 <= timeout_ms -> en_listener en = true ->
  exists r w t, h3q_engine_want (Some en) nw timeout_ms = (r, w, t)
    /\ 1 <= t <= timeout_ms
    /\ (forall sec usec, nw_timeout nw = Timeout sec usec -> 0 <= sec -> 0 <= usec ->
        t = Z.max 1 (Z.min timeout_ms (sec * 1000 + usec / 1000)))
    /\ ((forall sec usec, nw_timeout nw <> Timeout sec usec) -> t = timeout_ms).
Proof.
  intros Ht He. unfold h3q_engine_want. rewrite He. do 3 eexists. split; [done|].
  destruct (nw_timeout nw) as [| |sec usec].
  1-2: destruct (Z.ltb_spec timeout_ms 1); split_and!; try lia; done.
  set (ms := sec * 1000 + Z.quot usec 1000).
  split_and!; [| | |by intros H; destruct (H sec usec)].
  1-2: repeat case_match; lia.
  intros s u Heq Hs Hu. injection Heq as <- <-. unfold ms. rewrite Z.quot_div_nonneg by lia.
  pose proof (Z.div_pos usec 1000). repeat case_match; lia.
Qed.

Lemma engine_want_timeout_witness :
  h3q_engine_want (Some (Engine true true true true (addr_init 3)))
    (NetWants true false (Timeout 0 2500)) 1000 = (true, false, 2).
Proof.
  destruct (engine_want_timeout (Engine true true true true (addr_init 3))
    (NetWants true false (Timeout 0 2500)) 1000) as (r & w & t & Hw & _ & Ht & _); [lia|done|].
  rewrite Hw, (Ht 0 2500) by (done || lia). cbn in Hw. by simplify_eq.
Defined.

(** C37 (peer address round trip): a receive call that delivers a datagram to OpenSSL, the
    first of those that are queued or, if there is none, the first of the batch that it
    receives, lets OpenSSL recover its peer: when OpenSSL makes a connection of it, the
    address later found for that connection is the datagram's IPv4 or IPv6 address and
    port.  A connection made after a call that delivers nothing is given no address. *)
Theorem peer_addr_recovered (en : h3q_engine) (ds : list h3q_datagram) (c : recv_call) (num_msg processed : Z) :
  rx_rep (en_addr en) ds -> num_msg <> 0 -> 0 <= eng_ex_index (en_addr en) ->
  exists r rec, h3q_peer_addr_bio_recvmmsg (en_addr en) true (rc_recv c) (rc_msg c) num_msg processed = Some r
    /\ h3q_new_pending_conn_cb (rr_state r) true true = (true, rec)
    /\ (forall d p,
          (head ds = Some d /\ is_Some (m_data (rc_msg c)) /\ is_Some (m_peer (rc_msg c))
             /\ dg_len d <= m_data_len (rc_msg c)
           \/ ds = [] /\ exists first al rest, rc_recv c = (true, (first, al) :: rest)
             /\ Forall (fun ma => storable ma = true) ((first, al) :: rest) /\ d = datagram_of first) ->
          dg_peer d = Some p ->
          (ba_family p = AF_INET /\ blen (ba_raw p) = 4 \/ ba_family p = AF_INET6 /\ blen (ba_raw p) = 16) ->
          h3q_engine_peer_addr (Some en) true rec = Some (SockAddr (ba_family p) (ba_raw p) (ba_port p)))
    /\ (reports r = false -> rec = None).
Proof.
  intros Ha Hn Hidx. pose proof (recvmmsg_abs _ ds c num_msg processed Ha Hn) as Hr.
  destruct (recv_abs ds c) as [[ds' fates] got] eqn:Eabs. destruct Hr as (r & Hrun & _ & Hi & _ & Hcur & _).
  set (rec := if bool_decide (ba_family (eng_current (rr_state r)) = AF_UNSPEC) then None
              else Some (eng_current (rr_state r))).
  exists r, rec. split; [exact Hrun|]. split_and!.
  - unfold h3q_new_pending_conn_cb, rec. rewrite Hi, (proj2 (Z.ltb_ge _ _) Hidx). simpl. by case_bool_decide.
  - intros d p Hd Hp Hfam.
    assert (Ef : fates = [(d, Delivered p)]).
    { unfold recv_abs in Eabs. destruct Hd as [(Hd & [b Hb] & [mp Hmp] & Hfit)|(-> & first & al & rest & Er & Es & ->)].
      - destruct ds as [|d' ds]; [done|]. injection Hd as ->. rewrite Hb in Eabs. injection Eabs as _ <- _.
        unfold fate_in. rewrite (proj2 (Z.ltb_ge _ _) Hfit), Hmp, Hp. done.
      - rewrite Er in Eabs. replace (forallb storable ((first, al) :: rest)) with true in Eabs.
        + injection Eabs as _ <- _. unfold fate_in. cbn [datagram_of dg_len dg_peer] in *. by rewrite Z.ltb_irrefl, Hp.
        + symmetry. apply Is_true_true, forallb_True. eapply Forall_impl; [exact Es|]. by intros ? ->. }
    rewrite Ef in Hcur. destruct Hcur as [Hcur _]. unfold rec. rewrite Hcur.
    rewrite bool_decide_eq_false_2 by (intros Hu; rewrite Hu in Hfam; naive_solver).
    simpl. rewrite (proj2 (Z.ltb_ge _ _) Hidx). by destruct Hfam as [[-> ->]|[-> ->]].
  - intros Hnone. unfold rec. destruct (omap seen fates) as [|[b a] l]; destruct Hcur as [Hcur Hrep]; [|congruence].
    by rewrite Hcur.
Qed.

(** The first datagram of a batch, and the one queued behind it. *)
Lemma peer_addr_recovered_witness :
  let addr n := Some (SockAddr AF_INET [Byte.x7f; Byte.x00; Byte.x00; Byte.x01] n) in
  (exists r rec, h3q_peer_addr_bio_recvmmsg (addr_init 3) true
       (true, [sample_msg Byte.x61 1; sample_msg Byte.x62 2]) sample_slot 2 0 = Some r
     /\ h3q_new_pending_conn_cb (rr_state r) true true = (true, rec)
     /\ h3q_engine_peer_addr (Some (Engine true true true true (addr_init 3))) true rec = addr 1)
  /\ exists r rec, h3q_peer_addr_bio_recvmmsg sample_queued true (false, []) sample_slot 1 0 = Some r
     /\ h3q_new_pending_conn_cb (rr_state r) true true = (true, rec)
     /\ h3q_engine_peer_addr (Some (Engine true true true true sample_queued)) true rec = addr 1.
Proof.
  intros addr. split.
  - destruct (peer_addr_recovered (Engine true true true true (addr_init 3)) []
      (RecvCall (true, [sample_msg Byte.x61 1; sample_msg Byte.x62 2]) sample_slot) 2 0
      (addr_init_rep 3)) as (r & rec & Hr & Hcb & Hp & _); [lia|done|].
    exists r, rec. split; [exact Hr|]. split; [exact Hcb|].
    apply (Hp (datagram_of (fst (sample_msg Byte.x61 1))) (sample_addr 1)); [|done|by left].
    right. split; [done|]. do 3 eexists. split; [done|]. split; [|done]. by repeat constructor.
  - assert (Hq : rx_rep sample_queued [datagram_of (fst (sample_msg Byte.x61 1))]).
    { destruct (queue_fill_rep (addr_init 3) [] [sample_msg Byte.x61 1] (addr_init_rep 3))
        as (e' & Hf & _ & _ & Hr). unfold sample_queued. rewrite Hf. exact Hr. }
    destruct (peer_addr_recovered (Engine true true true true sample_queued) _
      (RecvCall (false, []) sample_slot) 1 0 Hq) as (r & rec & Hr & Hcb & Hp & _); [lia|by vm_compute|].
    exists r, rec. split; [exact Hr|]. split; [exact Hcb|].
    apply (Hp (datagram_of (fst (sample_msg Byte.x61 1))) (sample_addr 1)); [|done|by left].
    left. split; [done|]. split; [by eexists|]. split; [by eexists|]. vm_compute. congruence.
Defined.
