(* ===== verification/Socket.v ===== *)
(** * Sockets, the wakeup pair and the poll (h3_socket.c, h3_socket_os.c, h3_io.c)

    Descriptors are numbers; [os] has the open ones, those of the sockets that are registered
    with the child's pool, which closes them when it is destroyed, and the number of closes
    of descriptors that were not open, which the system would answer with an error or, if
    the number has been reused in between, carry out on someone else's socket.  What each
    APR call returns is a parameter. *)

From S2P Require Import Prelude Config AddrQueue Engine.

(** ** Descriptors *)

Record os := Os { os_open : list Z; os_pool : list Z; os_bad_closes : nat }.

Definition h3_socket_os_close (fd : Z) (w : os) : os :=
  if bool_decide (fd ∈ os_open w)
  then Os (filter (fun x => x <> fd) (os_open w)) (os_pool w) (os_bad_closes w)
  else Os (os_open w) (os_pool w) (S (os_bad_closes w)).

Definition h3_socket_close (fd : Z) (w : os) : os :=
  if 0 <=? fd then h3_socket_os_close fd w else w.

(** APR: a socket is registered with the pool it is created in; closing it by
    [apr_socket_close] takes it out again, destroying the pool closes what is registered,
    the last one first.  The pool knows nothing of a descriptor closed behind its back. *)
Definition apr_socket_create (fd : Z) (w : os) : os := Os (fd :: os_open w) (fd :: os_pool w) (os_bad_closes w).

Definition apr_socket_close (fd : Z) (w : os) : os :=
  h3_socket_os_close fd (Os (os_open w) (filter (fun x => x <> fd) (os_pool w)) (os_bad_closes w)).

Definition apr_pool_destroy (w : os) : os :=
  foldl (fun w fd => h3_socket_os_close fd w) (Os (os_open w) [] (os_bad_closes w)) (os_pool w).

Definition EADDRINUSE : Z := 98.

Definition h3_socket_os_is_eaddrinuse (rv : apr_status) : bool :=
  bool_decide (rv = APR_EOTHER EADDRINUSE).

(** What the calls of [h3_socket_open] return; [so_fd] is the socket's descriptor. *)
Record socket_calls := SocketCalls {
  so_create : apr_status;
  so_fd : Z;
  so_addr : apr_status;
  so_bind : apr_status;
  so_timeout : apr_status;
  so_os_get : apr_status }.

(** The status, and [*out_fd], which starts at -1. *)
Definition h3_socket_open (sc : socket_calls) (w : os) : os * apr_status * Z :=
  match so_create sc with
  | APR_SUCCESS =>
      let w1 := apr_socket_create (so_fd sc) w in
      let closed := apr_socket_close (so_fd sc) w1 in
      match so_addr sc with
      | APR_SUCCESS =>
          match so_bind sc with
          | APR_SUCCESS =>
              match so_timeout sc with
              | APR_SUCCESS =>
                  match so_os_get sc with
                  | APR_SUCCESS => (w1, APR_SUCCESS, so_fd sc)
                  | rv => (closed, rv, -1)
                  end
              | rv => (closed, rv, -1)
              end
          | rv => if h3_socket_os_is_eaddrinuse rv then (closed, APR_EAGAIN, -1) else (closed, rv, -1)
          end
      | rv => (closed, rv, -1)
      end
  | rv => (w, rv, -1)
  end.

(** ** The wakeup pair *)

Record h3_wakeup := Wakeup { wk_reader : bool; wk_writer : bool; wk_reader_fd : Z }.

Definition wakeup_none : h3_wakeup := Wakeup false false (-1).

(** The calls of [h3_wakeup_create], in order, with the two descriptors. *)
Record wakeup_calls := WakeupCalls {
  wu_loopback : apr_status;
  wu_reader : apr_status;
  wu_bind_reader : apr_status;
  wu_addr_reader : apr_status;
  wu_writer : apr_status;
  wu_writer_addr : apr_status;
  wu_bind_writer : apr_status;
  wu_connect_writer : apr_status;
  wu_addr_writer : apr_status;
  wu_connect_reader : apr_status;
  wu_timeout_reader : apr_status;
  wu_timeout_writer : apr_status;
  wu_os_get : apr_status;
  wu_fd : Z;
  wu_writer_fd : Z }.

(** Each call in turn; the first failure ends the chain. *)
Fixpoint first_failure (calls : list apr_status) : apr_status :=
  match calls with
  | [] => APR_SUCCESS
  | APR_SUCCESS :: cs => first_failure cs
  | rv :: _ => rv
  end.

(** A failure leaves the sockets created so far to the pool. *)
Definition h3_wakeup_create (wu : wakeup_calls) (w : os) : os * h3_wakeup * apr_status :=
  match first_failure [wu_loopback wu; wu_reader wu] with
  | APR_SUCCESS =>
      let w1 := apr_socket_create (wu_fd wu) w in
      match first_failure [wu_bind_reader wu; wu_addr_reader wu; wu_writer wu] with
      | APR_SUCCESS =>
          let w2 := apr_socket_create (wu_writer_fd wu) w1 in
          match first_failure [wu_writer_addr wu; wu_bind_writer wu; wu_connect_writer wu; wu_addr_writer wu;
                               wu_connect_reader wu; wu_timeout_reader wu; wu_timeout_writer wu; wu_os_get wu] with
          | APR_SUCCESS => (w2, Wakeup true true (wu_fd wu), APR_SUCCESS)
          | rv => (w2, wakeup_none, rv)
          end
      | rv => (w1, wakeup_none, rv)
      end
  | rv => (w, wakeup_none, rv)
  end.

(** The datagrams waiting at the reader, by length; a send that fails adds none. *)
Definition h3_wakeup_signal (w : option h3_wakeup) (sent : bool) (q : list Z) : list Z :=
  match w with
  | Some w => if wk_writer w && sent then q ++ [1] else q
  | None => q
  end.

(** From a worker: [wk] is the wakeup of [child_h3_io], if there is one. *)
Definition wake_event_thread (wk : option h3_wakeup) (sent : bool) (q : list Z) : list Z :=
  match wk with Some w => h3_wakeup_signal (Some w) sent q | None => q end.

(** At most 64 receives; one that fails or brings no byte ends the loop. *)
Fixpoint drain_loop (rounds : nat) (q : list Z) : list Z :=
  match rounds, q with
  | O, _ | _, [] => q
  | S k, len :: q' => if len =? 0 then q' else drain_loop k q'
  end.

Definition h3_wakeup_drain (w : option h3_wakeup) (q : list Z) : list Z :=
  match w with
  | Some w => if wk_reader w then drain_loop 64 q else q
  | None => q
  end.

(** ** Waiting *)

Definition POLLIN : Z := 1.
Definition POLLOUT : Z := 4.

Record pollfd := PollFd { pfd_fd : Z; pfd_events : Z }.

(** The descriptors polled and the timeout. *)
Definition poll_set (engine : option h3q_engine) (nw : net_wants) (udp_fd : Z) (wk : h3_wakeup)
    : list pollfd * Z :=
  let '(want_read, want_write, timeout_ms) := h3q_engine_want engine nw 1000 in
  let ev := Z.lor (if (want_read : bool) then POLLIN else 0) (if (want_write : bool) then POLLOUT else 0) in
  let ev := if ev =? 0 then POLLIN else ev in
  (PollFd udp_fd ev
     :: (if wk_reader wk && negb (wk_reader_fd wk =? -1) then [PollFd (wk_reader_fd wk) POLLIN] else []),
   timeout_ms).

(** [poll] gives the events of each descriptor, or fails; the result is what waits at the
    wakeup reader afterwards. *)
Definition wait_for_event (engine : option h3q_engine) (nw : net_wants) (udp_fd : Z) (wk : h3_wakeup)
    (poll : list pollfd -> Z -> option (list Z)) (q : list Z) : list Z :=
  let '(pfds, timeout_ms) := poll_set engine nw udp_fd wk in
  match poll pfds timeout_ms with
  | None => q
  | Some revents =>
      match pfds, revents with
      | [_; _], [_; r] => if negb (Z.land r POLLIN =? 0) then h3_wakeup_drain (Some wk) q else q
      | _, _ => q
      end
  end.

(** ** Properties *)

Lemma filter_neq_id (l : list Z) fd : fd ∉ l -> filter (fun x => x <> fd) l = l.
Proof.
  induction l as [|a l IH]; intros Hno; [done|]. rewrite filter_cons_True by set_solver.
  rewrite IH by set_solver. done.
Qed.

(** Closing the socket that was created last. *)
Lemma close_created fd (w : os) :
  fd ∉ os_open w -> h3_socket_os_close fd (apr_socket_create fd w) = Os (os_open w) (fd :: os_pool w) (os_bad_closes w).
Proof.
  intros Hno. unfold h3_socket_os_close, apr_socket_create. cbn [os_open os_pool os_bad_closes].
  rewrite bool_decide_true by (by left). by rewrite filter_cons_False, filter_neq_id by (done || by intros []).
Qed.

(** Opening the socket gives a descriptor that is open and registered with the pool, or
    gives none and leaves everything as it was; it reports [APR_EAGAIN] when the port is in
    use. *)
Lemma socket_open_cases sc (w : os) :
  so_fd sc ∉ os_open w -> so_fd sc ∉ os_pool w ->
  (h3_socket_open sc w = (apr_socket_create (so_fd sc) w, APR_SUCCESS, so_fd sc))
  \/ exists rv, rv <> APR_SUCCESS /\ h3_socket_open sc w = (w, rv, -1)
       /\ (so_create sc = APR_SUCCESS -> so_addr sc = APR_SUCCESS -> so_bind sc = APR_EOTHER EADDRINUSE ->
           rv = APR_EAGAIN).
Proof.
  intros Hno Hnp. assert (Hc : apr_socket_close (so_fd sc) (apr_socket_create (so_fd sc) w) = w).
  { unfold apr_socket_close, h3_socket_os_close, apr_socket_create. cbn [os_open os_pool os_bad_closes].
    rewrite bool_decide_true by (by left). rewrite !filter_cons_False by (by intros []).
    rewrite !filter_neq_id by done. by destruct w. }
  unfold h3_socket_open. rewrite Hc. unfold h3_socket_os_is_eaddrinuse.
  repeat (case_match; try (right; eexists; split; [|split; [reflexivity|]]; done)); [by left|].
  all: right; eexists; split; [|split; [reflexivity|]]; try done; by intros _ _ [= ->].
Qed.

Lemma drain_loop_spec rounds q :
  Forall (fun len => 0 < len) q -> drain_loop rounds q = drop rounds q.
Proof.
  revert q. induction rounds as [|k IH]; intros [|len q] Hq; try done. simpl.
  apply Forall_cons in Hq as [Hl Hq]. destruct (Z.eqb_spec len 0); [lia|]. by apply IH.
Qed.

Lemma wakeup_created wu os0 os1 wk :
  h3_wakeup_create wu os0 = (os1, wk, APR_SUCCESS) -> wk = Wakeup true true (wu_fd wu).
Proof. unfold h3_wakeup_create. repeat (case_match; try done). by intros [= _ <-]. Qed.

(** The wakeup interrupts the poll: with a created pair the reader is polled
    for input together with the socket, which is always polled for something, for at most a
    second and at least a millisecond; a wait that finds the reader readable takes 64
    wakeups off it and no more, so it is empty again unless more were waiting. *)
Theorem wait_polls_wakeup (wu : wakeup_calls) os0 os1 wk en nw udp_fd poll q revs :
  h3_wakeup_create wu os0 = (os1, wk, APR_SUCCESS) -> wu_fd wu <> -1 ->
  Forall (fun len => 0 < len) q ->
  let '(pfds, t) := poll_set (Some en) nw udp_fd wk in
  (exists ev, pfds = [PollFd udp_fd ev; PollFd (wu_fd wu) POLLIN] /\ ev <> 0)
  /\ 1 <= t <= 1000
  /\ (poll pfds t = Some [revs; POLLIN] ->
      wait_for_event (Some en) nw udp_fd wk poll q = drop 64 q).
Proof.
  intros Hwk Hfd Hq. apply wakeup_created in Hwk as ->. unfold wait_for_event, poll_set. cbn [wk_reader wk_reader_fd].
  destruct (h3q_engine_want (Some en) nw 1000) as [[wr ww] t] eqn:Ew.
  rewrite (proj2 (Z.eqb_neq _ _) Hfd). cbn [negb andb]. split_and!.
  - destruct wr, ww; simpl; by eexists.
  - cbn [h3q_engine_want] in Ew. destruct (en_listener en); [|by simplify_eq].
    injection Ew as _ _ <-. case_match; repeat case_match; lia.
  - cbn [h3q_engine_want] in Ew. destruct (en_listener en); [|by simplify_eq].
    injection Ew as _ _ <-. case_match; repeat case_match; lia.
  - intros ->. transitivity (drain_loop 64 q); [reflexivity|by apply drain_loop_spec].
Qed.

Definition toy_wakeup_calls : wakeup_calls :=
  WakeupCalls APR_SUCCESS APR_SUCCESS APR_SUCCESS APR_SUCCESS APR_SUCCESS APR_SUCCESS APR_SUCCESS
    APR_SUCCESS APR_SUCCESS APR_SUCCESS APR_SUCCESS APR_SUCCESS APR_SUCCESS 9 10.

Lemma wait_polls_wakeup_witness :
  wait_for_event (Some (Engine true true true true (addr_init 3))) (NetWants true false NoTimeout) 4
    (Wakeup true true 9) (fun _ _ => Some [0; POLLIN]) [1; 1; 1] = [].
Proof.
  pose proof (wait_polls_wakeup toy_wakeup_calls (Os [] [] 0) (Os [10; 9] [10; 9] 0) (Wakeup true true 9) (Engine true true true true (addr_init 3))
    (NetWants true false NoTimeout) 4 (fun _ _ => Some [0; POLLIN]) [1; 1; 1] 0 eq_refl ltac:(done)
    ltac:(repeat apply Forall_cons_2; [lia|lia|lia|by apply Forall_nil_2])) as W.
  destruct (poll_set _ _ _ _) as [pfds t]. destruct W as (_ & _ & W). by apply W.
Defined.
