(* ===== verification/Lifecycle.v ===== *)
(** * Starting and stopping in a child process (h3_server.c, h3_io.c)

    The child opens the UDP socket and starts the listener, or leaves a thread behind that
    keeps trying to acquire the port; when the child stops, the listener is torn down.  The
    event thread itself is EventLoop.v; here it is running or not, and joining it returns when it
    has left its loop, which it does only when no session is left.  At the end httpd destroys
    the child's pool, in which the sockets were created. *)

From S2P Require Import Prelude Config AddrQueue Engine Socket.

(** ** The listener's resources *)

Record listener := Listener {
  li_fd : Z;                           (** [udp_fd] *)
  li_wakeup : h3_wakeup;
  li_pool : bool;                      (** [h3_worker_pool] *)
  li_engine : option h3q_engine;
  li_world : world;                    (** the engine's objects *)
  li_thread : bool;                    (** [event_thread] *)
  li_running : bool }.

(** [None]: the engine's destruction would touch an object that is gone. *)
Definition teardown (li : listener) (w : os) : option (listener * os) :=
  let running := if li_thread li then false else li_running li in
  ew ← h3q_engine_destroy (li_engine li) (li_world li);
  let w' := if 0 <=? li_fd li then h3_socket_close (li_fd li) w else w in
  let fd' := if 0 <=? li_fd li then -1 else li_fd li in
  Some (Listener fd' (li_wakeup li) false None ew false running, w').

(** What the calls of [h3_io_listen_start] return. *)
Record start_calls := StartCalls {
  sl_wakeup : wakeup_calls;
  sl_pool : bool;                      (** the worker pool is created *)
  sl_engine : engine_calls;
  sl_notes : bool;                     (** the MPM has both notification functions *)
  sl_thread : bool }.                  (** the event thread is created *)

Definition engine_config (conf : h3_server_conf) : h3q_config :=
  QConfig (default "" (h3_cert_path conf)) (default "" (h3_key_path conf))
          (negb (bool_decide (h3_address_validation conf = H3_FLAG_OFF))).

(** The new [child_h3_io] with the status. *)
Definition h3_io_listen_start (sl : start_calls) (conf : h3_server_conf) (fd : Z) (w : os)
    : option (os * option listener * apr_status) :=
  let '(w, wk, rv) := h3_wakeup_create (sl_wakeup sl) w in
  match rv with
  | APR_SUCCESS =>
      if negb (sl_pool sl) then Some (w, None, APR_EGENERAL)
      else
        c ← h3q_engine_create (sl_engine sl) (engine_config conf) (pretty fd) (Some "") H3Q_ERRLEN;
        let '(ew, en, _) := c in
        let li := Listener fd wk true en ew false false in
        let fail := r ← teardown li w; Some (snd r, None, APR_EGENERAL) in
        match en with
        | None => fail
        | Some _ =>
            if negb (sl_notes sl) then fail
            else if negb (sl_thread sl) then fail
            else Some (w, Some (Listener fd wk true en ew true true), APR_SUCCESS)
        end
  | _ => Some (w, None, APR_EGENERAL)
  end.

Definition h3_io_listen_stop (io : option listener) (w : os) : option (option listener * os) :=
  match io with
  | Some li => r ← teardown li w; Some (None, snd r)
  | None => Some (None, w)
  end.

(** ** The child process *)

Record child := Child {
  ch_os : os;
  ch_io : option listener;             (** [child_h3_io] *)
  ch_stopping : bool;
  ch_acquirer : bool }.                (** [port_acquire_thread] *)

Fixpoint find_h3_server (servers : list server_rec) : option h3_server_conf :=
  match servers with
  | [] => None
  | s :: rest =>
      if has_cert_and_key (sv_conf s) then
        let '(ServerConf _ a b c d e f g h i j k l m) := sv_conf s in
        Some (ServerConf (get_server_port (sv_addrs s)) a b c d e f g h i j k l m)
      else find_h3_server rest
  end.

(** Starting the listener on an open socket, as both callers do it. *)
Definition start_or_close (sl : start_calls) (conf : h3_server_conf) (fd : Z) (w : os) (c : child)
    : option child :=
  r ← h3_io_listen_start sl conf fd w;
  let '(w', io, rv) := r in
  match rv with
  | APR_SUCCESS => Some (Child w' io (ch_stopping c) (ch_acquirer c))
  | _ => Some (Child (h3_socket_close fd w') io (ch_stopping c) (ch_acquirer c))
  end.

(** [thread_ok] is whether the acquirer thread can be created. *)
Definition h3_child_init (servers : list server_rec) (sc : socket_calls) (sl : start_calls)
    (thread_ok : bool) (c : child) : option child :=
  match find_h3_server servers with
  | None => Some c
  | Some conf =>
      let '(w, rv, fd) := h3_socket_open sc (ch_os c) in
      match rv with
      | APR_EAGAIN => Some (Child w (ch_io c) (ch_stopping c) thread_ok)
      | APR_SUCCESS => start_or_close sl conf fd w c
      | _ => Some (Child w (ch_io c) (ch_stopping c) (ch_acquirer c))
      end
  end.

(** One round of the acquirer: whether the child is stopping before and after the socket is
    opened, and what the calls return. *)
Record acquire_round := AcquireRound {
  ar_stop0 : bool;
  ar_socket : socket_calls;
  ar_stop1 : bool;
  ar_start : start_calls }.

Fixpoint port_acquire_thread_fn (conf : h3_server_conf) (rounds : list acquire_round) (c : child)
    : option child :=
  match rounds with
  | [] => Some c
  | r :: rs =>
      if ar_stop0 r then Some c
      else
        let '(w, rv, fd) := h3_socket_open (ar_socket r) (ch_os c) in
        let c1 := Child w (ch_io c) (ch_stopping c) (ch_acquirer c) in
        match rv with
        | APR_EAGAIN => port_acquire_thread_fn conf rs c1
        | APR_SUCCESS =>
            if ar_stop1 r
            then Some (Child (h3_socket_close fd w) (ch_io c) (ch_stopping c) (ch_acquirer c))
            else start_or_close (ar_start r) conf fd w c
        | _ => Some c1
        end
  end.

(** The acquirer, if there is one, is joined first. *)
Definition h3_c1_child_stopping (c : child) : option child :=
  r ← h3_io_listen_stop (ch_io c) (ch_os c);
  Some (Child (snd r) (fst r) true false).

(** ** Lemmas *)

(** The descriptors of the module on top of those that were there: the wakeup's, and the UDP
    socket's, which is open or not and registered with the pool either way. *)
Definition held (fds udp : list Z) (up : bool) (extra : nat) (w : os) : os :=
  Os (fds ++ (if up then udp else []) ++ os_open w) (fds ++ udp) (os_bad_closes w + extra).

Definition apart (fds : list Z) (w : os) : Prop := NoDup fds /\ Forall (fun fd => fd ∉ os_open w) fds.

Lemma filter_out fds fd (l : list Z) : fd ∉ fds -> fd ∉ l -> filter (fun x => x <> fd) (fds ++ fd :: l) = fds ++ l.
Proof.
  intros H1 H2. rewrite filter_app, filter_cons_False by (by intros []). by rewrite !filter_neq_id.
Qed.

(** Closing the UDP socket, once and again. *)
Lemma close_held fds fd up extra w :
  0 <= fd -> apart (fds ++ [fd]) w ->
  h3_socket_close fd (held fds [fd] up extra w) = held fds [fd] false (extra + if up then 0 else 1) w.
Proof.
  intros Hfd [Hnd Hno]. apply NoDup_app in Hnd as (_ & Hnd & _). apply Forall_app in Hno as [_ [Hno _]%Forall_cons].
  assert (Hin : fd ∉ fds) by set_solver.
  unfold h3_socket_close, h3_socket_os_close, held. rewrite (proj2 (Z.leb_le _ _) Hfd).
  cbn [os_open os_pool os_bad_closes]. destruct up.
  - rewrite bool_decide_true by set_solver. simpl. by rewrite filter_out, Nat.add_0_r.
  - rewrite bool_decide_false by set_solver. simpl. f_equal. lia.
Qed.

(** The pool closes what it has; the UDP socket is no longer open. *)
Lemma destroy_held fds udp extra w :
  apart (fds ++ udp) w ->
  apr_pool_destroy (held fds udp false extra w) = Os (os_open w) [] (os_bad_closes w + extra + length udp).
Proof.
  unfold apr_pool_destroy, held. cbn [os_open os_pool os_bad_closes]. rewrite foldl_app. intros [Hnd Hno].
  assert (Hf : forall n, foldl (fun w fd => h3_socket_os_close fd w) (Os (fds ++ os_open w) [] n) fds
                         = Os (os_open w) [] n).
  { intros n. apply NoDup_app in Hnd as (Hnd & _ & _). apply Forall_app in Hno as [Hno _]. clear udp.
    induction fds as [|fd fds IH]; [done|]. apply NoDup_cons in Hnd as [Hni Hnd]. apply Forall_cons in Hno as [Hn Hno].
    cbn [foldl app]. unfold h3_socket_os_close at 2. cbn [os_open os_pool os_bad_closes].
    rewrite bool_decide_true by (by left).
    rewrite filter_cons_False, filter_neq_id by (set_solver || by intros []). by apply IH. }
  simpl. rewrite Hf. apply Forall_app in Hno as [_ Hno]. clear Hf Hnd fds.
  generalize (os_bad_closes w + extra)%nat. induction Hno as [|fd udp Hn _ IH]; intros n; [by rewrite Nat.add_0_r|].
  cbn [foldl length]. unfold h3_socket_os_close at 2. cbn [os_open os_pool os_bad_closes].
  rewrite bool_decide_false by done. rewrite IH. f_equal. lia.
Qed.

(** A failure that comes after the wakeup pair and the worker pool exist. *)
Definition fails_late (sl : start_calls) : bool :=
  bool_decide (snd (h3_wakeup_create (sl_wakeup sl) (Os [] [] 0)) = APR_SUCCESS) && sl_pool sl.

(** Descriptors the system may hand out for these calls. *)
Definition fresh_fds (w : os) (sc : socket_calls) (sl : start_calls) : Prop :=
  0 <= so_fd sc /\ slen (pretty (so_fd sc)) <= 20
  /\ apart [wu_writer_fd (sl_wakeup sl); wu_fd (sl_wakeup sl); so_fd sc] w.

(** The wakeup leaves its sockets open, however far it got. *)
Lemma wakeup_create_spec wu (w : os) :
  exists fds, h3_wakeup_create wu w
      = (Os (fds ++ os_open w) (fds ++ os_pool w) (os_bad_closes w),
         snd (fst (h3_wakeup_create wu (Os [] [] 0))), snd (h3_wakeup_create wu (Os [] [] 0)))
    /\ (fds = [] \/ fds = [wu_fd wu] \/ fds = [wu_writer_fd wu; wu_fd wu]).
Proof.
  unfold h3_wakeup_create, apr_socket_create. cbn [os_open os_pool os_bad_closes].
  destruct (first_failure [wu_loopback wu; _]); try by exists []; destruct w; auto.
  destruct (first_failure [wu_bind_reader wu; _; _]); try by exists [wu_fd wu]; destruct w; auto.
  exists [wu_writer_fd wu; wu_fd wu]. destruct (first_failure _); destruct w; auto.
Qed.

Lemma apart_wakeup fds a b fd w :
  apart [a; b; fd] w -> fds = [] \/ fds = [b] \/ fds = [a; b] -> apart (fds ++ [fd]) w.
Proof.
  intros [Hnd Hno] Hfds. apply NoDup_cons in Hnd as Hnd'. apply Forall_cons in Hno as Hno'.
  pose proof (proj2 Hnd') as Hnd2%NoDup_cons. pose proof (proj2 Hno') as Hno2%Forall_cons.
  destruct Hfds as [->|[->| ->]]; split; simpl; tauto.
Qed.

Lemma listen_start_spec sl conf sc (w : os) :
  os_pool w = [] -> fresh_fds w sc sl ->
  exists fds w' io rv, h3_io_listen_start sl conf (so_fd sc) (apr_socket_create (so_fd sc) w) = Some (w', io, rv)
    /\ apart (fds ++ [so_fd sc]) w
    /\ match rv with
       | APR_SUCCESS => w' = held fds [so_fd sc] true 0 w /\ exists li ew, io = Some li /\ li_fd li = so_fd sc
           /\ h3q_engine_destroy (li_engine li) (li_world li) = Some ew /\ w_live ew = []
       | _ => io = None /\ w' = held fds [so_fd sc] (negb (fails_late sl)) 0 w
       end.
Proof.
  intros Hpool (Hfd & Hlen & Hap). set (fd := so_fd sc) in *. unfold h3_io_listen_start, fails_late.
  destruct (wakeup_create_spec (sl_wakeup sl) (apr_socket_create fd w)) as (fds & -> & Hfds).
  pose proof (apart_wakeup fds _ _ fd w Hap Hfds) as Hap'. exists fds.
  cbn [apr_socket_create os_open os_pool os_bad_closes]. rewrite Hpool.
  assert (Hheld : Os (fds ++ fd :: os_open w) (fds ++ [fd]) (os_bad_closes w) = held fds [fd] true 0 w)
    by (unfold held; by rewrite Nat.add_0_r). rewrite Hheld. clear Hheld Hfds.
  generalize (snd (fst (h3_wakeup_create (sl_wakeup sl) (Os [] [] 0)))). intros wk.
  destruct (snd (h3_wakeup_create (sl_wakeup sl) (Os [] [] 0)));
    try (rewrite bool_decide_false by done; do 3 eexists; by split_and!).
  rewrite bool_decide_true by done. destruct (sl_pool sl); simpl negb; cbn iota; [|do 3 eexists; by split_and!].
  destruct (engine_create_spec (sl_engine sl) (engine_config conf) (pretty fd) "" H3Q_ERRLEN)
    as (ew & en & err' & -> & Hen); [by vm_compute|done|]. cbn [mbind option_bind].
  assert (Hfail : forall ew', h3q_engine_destroy en ew = Some ew' ->
    (r ← teardown (Listener fd wk true en ew false false) (held fds [fd] true 0 w);
     Some (snd r, None : option listener, APR_EGENERAL)) = Some (held fds [fd] false 0 w, None, APR_EGENERAL)).
  { intros ew' Hd. unfold teardown. cbn [li_engine li_world li_fd]. rewrite Hd. cbn [mbind option_bind].
    rewrite (proj2 (Z.leb_le _ _) Hfd). cbn [snd]. by rewrite close_held. }
  destruct en as [e|].
  - destruct Hen as (_ & _ & ew' & Hd & Hl). destruct (sl_notes sl); cbn [negb].
    2:{ rewrite (Hfail _ Hd). do 3 eexists; by split_and!. }
    destruct (sl_thread sl); cbn [negb]; [|rewrite (Hfail _ Hd); do 3 eexists; by split_and!].
    do 3 eexists. split; [reflexivity|]. split; [exact Hap'|]. split; [done|]. by do 2 eexists.
  - rewrite (Hfail ew eq_refl). do 3 eexists; by split_and!.
Qed.

(** ** The whole life of a child *)

(** What the module leaves in a child: whether it opened the UDP socket, and whether the
    start of the listener may have failed after the worker pool existed. *)
Definition left_by (opened may : bool) (w : os) (c : child) : Prop :=
  exists fds udp (late : bool), apart (fds ++ udp) w /\ length udp = (if opened then 1 else 0)%nat
    /\ (late = true -> may = true /\ opened = true)
    /\ ch_os c = held fds udp (match ch_io c with Some _ => true | None => false end) (if late then 1 else 0) w
    /\ forall li, ch_io c = Some li -> udp = [li_fd li] /\ 0 <= li_fd li
         /\ exists ew, h3q_engine_destroy (li_engine li) (li_world li) = Some ew /\ w_live ew = [].

Lemma left_weaken opened may may' w c : (may = true -> may' = true) -> left_by opened may w c -> left_by opened may' w c.
Proof. intros Hm (fds & udp & late & H1 & H2 & H3 & H4). exists fds, udp, late. naive_solver. Qed.

Lemma left_same may (w : os) (c : child) : os_pool w = [] -> ch_io c = None -> ch_os c = w -> left_by false may w c.
Proof.
  intros Hp Hio Hos. exists [], [], false. rewrite Hio, Hos. split_and!; try done; [by split; constructor|].
  unfold held. rewrite Nat.add_0_r. destruct w. simpl in *. by subst.
Qed.

Lemma start_or_close_left sl conf sc (w : os) (c : child) :
  os_pool w = [] -> fresh_fds w sc sl ->
  exists c', start_or_close sl conf (so_fd sc) (apr_socket_create (so_fd sc) w) c = Some c'
    /\ left_by true (fails_late sl) w c' /\ ch_acquirer c' = ch_acquirer c.
Proof.
  intros Hp Hf. unfold start_or_close.
  destruct (listen_start_spec sl conf sc w Hp Hf) as (fds & w' & io & rv & -> & Hap & Hrv). cbn [mbind option_bind].
  destruct Hf as (Hfd & _).
  destruct rv; try (destruct Hrv as [-> ->]; eexists; split_and!; [reflexivity| |done];
    exists fds, [so_fd sc], (fails_late sl); cbn [ch_io ch_os]; rewrite close_held by done;
    destruct (fails_late sl); by split_and!).
  destruct Hrv as (-> & li & ew & -> & Hli & Hd & Hl). eexists. split_and!; [reflexivity| |done].
  exists fds, [so_fd sc], false. cbn [ch_io ch_os]. split_and!; try done.
  intros li' [= <-]. rewrite Hli. split_and!; [done..|]. by exists ew.
Qed.

(** How [h3_socket_open] ends, and whether the acquirer gets the socket. *)
Definition open_status (sc : socket_calls) : apr_status := snd (fst (h3_socket_open sc (Os [] [] 0))).

Lemma open_status_eq sc w : snd (fst (h3_socket_open sc w)) = open_status sc.
Proof. unfold open_status, h3_socket_open. repeat (case_match; try done). Qed.

Fixpoint acquires (rounds : list acquire_round) : bool :=
  match rounds with
  | [] => false
  | r :: rs => negb (ar_stop0 r) &&
      match open_status (ar_socket r) with APR_SUCCESS => true | APR_EAGAIN => acquires rs | _ => false end
  end.

Definition opened (servers : list server_rec) (sc : socket_calls) (thread_ok : bool) (rounds : list acquire_round) : bool :=
  match find_h3_server servers, open_status sc with
  | Some _, APR_SUCCESS => true
  | Some _, APR_EAGAIN => thread_ok && acquires rounds
  | _, _ => false
  end.

Lemma acquire_left conf rounds (w : os) (c : child) :
  ch_io c = None -> ch_os c = w -> os_pool w = [] ->
  Forall (fun r => fresh_fds w (ar_socket r) (ar_start r)) rounds ->
  exists c', port_acquire_thread_fn conf rounds c = Some c'
    /\ left_by (acquires rounds) (existsb (fun r => fails_late (ar_start r)) rounds) w c'.
Proof.
  revert c. induction rounds as [|r rs IH]; intros c Hio Hos Hp Hf; cbn [port_acquire_thread_fn acquires existsb].
  { exists c. split; [done|]. by apply left_same. }
  apply Forall_cons in Hf as [Hr Hf]. destruct (ar_stop0 r). { exists c. split; [done|]. by apply left_same. }
  rewrite Hos, <- (open_status_eq (ar_socket r) w). pose proof Hr as (Hfd & _ & [_ Hno]).
  apply Forall_cons in Hno as [_ [_ [Hno _]%Forall_cons]%Forall_cons].
  destruct (socket_open_cases (ar_socket r) w Hno) as [-> | (rv & Hrv & -> & _)]; [rewrite Hp; set_solver| |];
    cbn [fst snd negb andb].
  - destruct (ar_stop1 r).
    + eexists. split; [done|]. exists [], [so_fd (ar_socket r)], false. cbn [ch_io ch_os]. rewrite Hio.
      split_and!; try done; [split; [apply NoDup_singleton|by apply Forall_singleton]|].
      unfold h3_socket_close, held. rewrite (proj2 (Z.leb_le _ _) Hfd), close_created by done.
      by rewrite Hp, Nat.add_0_r.
    + destruct (start_or_close_left (ar_start r) conf (ar_socket r) w c Hp Hr) as (c' & -> & Hl & _).
      exists c'. split; [done|]. eapply left_weaken; [|exact Hl]. by intros ->.
  - set (c1 := Child w (ch_io c) (ch_stopping c) (ch_acquirer c)).
    destruct rv; try done; try (exists c1; split; [done|]; by apply left_same).
    destruct (IH c1) as (c' & He & Hl); [done..|]. exists c'. split; [exact He|].
    eapply left_weaken; [|exact Hl]. intros ->. apply orb_true_r.
Qed.

(** A child starts, its acquirer runs if it has one, and it is stopped. *)
Definition child_life (servers : list server_rec) (sc : socket_calls) (sl : start_calls) (thread_ok : bool)
    (rounds : list acquire_round) (c : child) : option child :=
  c1 ← h3_child_init servers sc sl thread_ok c;
  c2 ← (match find_h3_server servers with
        | Some conf => if ch_acquirer c1 then port_acquire_thread_fn conf rounds c1 else Some c1
        | None => Some c1
        end);
  h3_c1_child_stopping c2.

(** Until it is stopped. *)
Lemma run_left servers sc sl thread_ok rounds (c : child) :
  fresh_fds (ch_os c) sc sl -> Forall (fun r => fresh_fds (ch_os c) (ar_socket r) (ar_start r)) rounds ->
  ch_io c = None -> ch_acquirer c = false -> os_pool (ch_os c) = [] ->
  exists c2, (c1 ← h3_child_init servers sc sl thread_ok c;
      match find_h3_server servers with
      | Some conf => if ch_acquirer c1 then port_acquire_thread_fn conf rounds c1 else Some c1
      | None => Some c1
      end) = Some c2
    /\ left_by (opened servers sc thread_ok rounds)
         (fails_late sl || existsb (fun r => fails_late (ar_start r)) rounds) (ch_os c) c2.
Proof.
  intros Hf Hrs Hio Hac Hp. unfold h3_child_init, opened. destruct (find_h3_server servers) as [conf|].
  2:{ exists c. split; [done|]. by apply left_same. }
  rewrite <- (open_status_eq sc (ch_os c)). pose proof Hf as (Hfd & _ & [_ Hno]).
  apply Forall_cons in Hno as [_ [_ [Hno _]%Forall_cons]%Forall_cons].
  destruct (socket_open_cases sc (ch_os c) Hno) as [-> | (rv & Hrv & -> & _)]; [rewrite Hp; set_solver| |];
    cbn [fst snd].
  - destruct (start_or_close_left sl conf sc (ch_os c) c Hp Hf) as (c1 & -> & Hl & Ha). cbn [mbind option_bind].
    rewrite Ha, Hac. exists c1. split; [done|]. eapply left_weaken; [|exact Hl]. by intros ->.
  - destruct rv; try done; cbn [mbind option_bind ch_acquirer]; rewrite ?Hac;
      try (eexists; split; [reflexivity|]; by apply left_same).
    destruct thread_ok; cbn [andb]; [|eexists; split; [reflexivity|]; by apply left_same].
    set (c1 := Child _ _ _ _). destruct (acquire_left conf rounds (ch_os c) c1) as (c2 & -> & Hl); [done..|].
    exists c2. split; [done|]. eapply left_weaken; [|exact Hl]. intros ->. apply orb_true_r.
Qed.

Lemma stopping_left op may (w : os) (c : child) :
  left_by op may w c -> exists c', h3_c1_child_stopping c = Some c' /\ ch_io c' = None /\ ch_stopping c' = true
    /\ left_by op may w c'.
Proof.
  intros (fds & udp & late & Hap & Hlen & Hlate & Hos & Hli).
  unfold h3_c1_child_stopping, h3_io_listen_stop, teardown. destruct (ch_io c) as [li|].
  - destruct (Hli li eq_refl) as (-> & Hfd & ew & Hd & _). rewrite Hd. cbn [mbind option_bind snd].
    eexists. split_and!; [reflexivity|done..|]. exists fds, [li_fd li], late. cbn [ch_io ch_os fst].
    rewrite (proj2 (Z.leb_le _ _) Hfd), Hos, close_held, Nat.add_0_r by done. by split_and!.
  - eexists. split_and!; [reflexivity|done..|]. exists fds, udp, late. by split_and!.
Qed.

(** C29 (error): over the whole life of a child, whatever fails and however often the port is
    busy, no call faults, and once the child is stopped it has no listener and only the
    wakeup's sockets on top of the descriptors it began with; these are registered with its
    pool, and when that is destroyed the descriptors are exactly those it began with.  But a
    descriptor that is not open is closed once in every life in which the UDP socket was
    opened, since the pool also closes that socket, which [teardown] has closed by its
    number; and once more at most, and only if the start of the listener fails after the
    worker pool exists. *)
Theorem child_life_descriptors servers sc sl thread_ok rounds (c : child) :
  fresh_fds (ch_os c) sc sl -> Forall (fun r => fresh_fds (ch_os c) (ar_socket r) (ar_start r)) rounds ->
  ch_io c = None -> ch_acquirer c = false -> os_pool (ch_os c) = [] ->
  exists c' (late : bool), child_life servers sc sl thread_ok rounds c = Some c'
    /\ ch_io c' = None /\ ch_stopping c' = true
    /\ (exists fds, os_open (ch_os c') = fds ++ os_open (ch_os c) /\ fds ⊆ os_pool (ch_os c'))
    /\ apr_pool_destroy (ch_os c')
       = Os (os_open (ch_os c)) []
            (os_bad_closes (ch_os c) + (if late then 1 else 0)
             + if opened servers sc thread_ok rounds then 1 else 0)
    /\ (late = true -> opened servers sc thread_ok rounds = true
          /\ (fails_late sl = true \/ Exists (fun r => fails_late (ar_start r) = true) rounds)).
Proof.
  intros Hf Hrs Hio Hac Hp. unfold child_life.
  destruct (run_left servers sc sl thread_ok rounds c Hf Hrs Hio Hac Hp) as (c2 & Hrun & Hl2).
  destruct (stopping_left _ _ _ _ Hl2) as (c3 & Hstop & Hn & Hst & fds & udp & late & Hap & Hlen & Hlate & Hos & _).
  rewrite Hn in Hos. exists c3, late. split_and!; [|done|done| | |].
  - destruct (h3_child_init servers sc sl thread_ok c) as [c1|]; [|done]. cbn [mbind option_bind] in *.
    by rewrite Hrun.
  - exists fds. rewrite Hos. split; [done|]. simpl. set_solver.
  - rewrite Hos, destroy_held by done. by rewrite Hlen.
  - intros Ht. destruct (Hlate Ht) as [[?|Hx]%orb_true_iff ?]; split; try done; [by left|]. right.
    apply existsb_exists in Hx as (r & Hin & Hr). apply Exists_exists. exists r. split; [by apply list_elem_of_In|done].
Qed.

(** ** Witnesses *)

Definition open_calls (fd : Z) : socket_calls :=
  SocketCalls APR_SUCCESS fd APR_SUCCESS APR_SUCCESS APR_SUCCESS APR_SUCCESS.

Definition one_server : list server_rec :=
  [ServerRec [443] (upd_key_path (Some "key"%string) (upd_cert_path (Some "cert"%string) h3_create_server_config))].

Definition good_start : start_calls := StartCalls toy_wakeup_calls true sample_engine_calls true true.

(** The engine's certificate does not load. *)
Definition bad_certificate : start_calls :=
  StartCalls toy_wakeup_calls true
    (EngineCalls true true (fun _ => false) (fun _ => true) true true true true true true 3
       (fun _ => true) true true true true None) true true.

(** The port is busy when the child starts and at the acquirer's first try. *)
Definition busy_calls (fd : Z) : socket_calls :=
  SocketCalls APR_SUCCESS fd APR_SUCCESS (APR_EOTHER EADDRINUSE) APR_SUCCESS APR_SUCCESS.

Definition busy_rounds : list acquire_round :=
  [AcquireRound false (busy_calls 7) false good_start; AcquireRound false (open_calls 8) false good_start].

Lemma fresh_sample fd sl : fd = 7 \/ fd = 8 -> sl_wakeup sl = toy_wakeup_calls ->
  forall sc, so_fd sc = fd -> fresh_fds (Os [3] [] 0) sc sl.
Proof.
  intros Hfd Hsl sc Hsc. unfold fresh_fds, apart. rewrite Hsl, Hsc. simpl.
  split; [lia|]. split; [destruct Hfd as [-> | ->]; by vm_compute|].
  split; [repeat (apply NoDup_cons; split); [..|apply NoDup_nil_2]; set_solver by lia|].
  repeat (apply Forall_cons; split); [..|done]; set_solver by lia.
Qed.

(** A life in which the port is busy at first, and one whose engine cannot be created. *)
Lemma child_life_descriptors_witness :
  (exists c', child_life one_server (busy_calls 7) good_start true busy_rounds
                (Child (Os [3] [] 0) None false false) = Some c'
     /\ ch_io c' = None /\ os_open (ch_os c') = [10; 9; 3] /\ apr_pool_destroy (ch_os c') = Os [3] [] 1)
  /\ exists c', child_life one_server (open_calls 7) bad_certificate true [] (Child (Os [3] [] 0) None false false) = Some c'
     /\ apr_pool_destroy (ch_os c') = Os [3] [] 2.
Proof.
  split.
  - destruct (child_life_descriptors one_server (busy_calls 7) good_start true busy_rounds
      (Child (Os [3] [] 0) None false false)) as (c' & late & Hc & Hio & _ & _ & Hd & _);
      [by apply (fresh_sample 7); auto| |done..|].
    { repeat (apply Forall_cons; split); [..|done]; [by apply (fresh_sample 7); auto|by apply (fresh_sample 8); auto]. }
    exists c'. split; [exact Hc|]. split; [exact Hio|]. vm_compute in Hc. injection Hc as <-. by vm_compute.
  - destruct (child_life_descriptors one_server (open_calls 7) bad_certificate true []
      (Child (Os [3] [] 0) None false false)) as (c' & late & Hc & _ & _ & _ & Hd & _);
      [by apply (fresh_sample 7); auto|done..|].
    exists c'. split; [exact Hc|]. vm_compute in Hc. injection Hc as <-. by vm_compute.
Defined.
