(* ===== verification/Body.v ===== *)
(** * Body buffers (h3_callbacks.c: on_recv_data; h3_filter.c)

    The request body is collected by [on_recv_data] in a buffer that grows by doubling up
    to [H3MaxRequestBodySize], and handed to httpd's input filters by
    [serve_request_body]; with an explicit [H3MaxResponseBodySize] the response body is
    collected the same way by [capture_body_bucket].

    A buffer is its written bytes with the capacity allocated for it: a copy past the
    capacity is a fault ([None]), and so is a doubling loop that does not end. *)

From S2P Require Import Prelude Config.

Definition H3_BODY_BUF_INIT_CAP : Z := 8 * 1024.

(** [while (new_cap < needed) new_cap *= 2;], at most 64 rounds: the 64th leaves zero. *)
Fixpoint grow_cap (fuel : nat) (new_cap needed : Z) : option Z :=
  if new_cap <? needed then
    match fuel with O => None | S n => grow_cap n (new_cap *64 2) needed end
  else Some new_cap.

(** [memcpy(buf + len, data, n)] into a buffer of [cap] bytes of which [len] are written. *)
Definition buf_write (buf : bytes) (cap len : Z) (data : bytes) : option bytes :=
  if len + blen data <=? cap then Some (btake len buf ++ data) else None.

(** ** Receiving the request body *)

(** The request body fields of [struct h3_stream]. *)
Record req_body := ReqBody {
  rb_data : bytes;           (** [request_body] *)
  rb_len : Z;                (** [request_body_len] *)
  rb_offset : Z;             (** [request_body_offset] *)
  rb_capacity : Z;           (** [request_body_capacity] *)
  rb_overflow : bool }.      (** [request_body_overflow] *)

Definition rb_new : req_body := ReqBody [] 0 0 0 false.

(** The growth of the buffer to hold [needed] bytes. *)
Definition body_reserve (max : Z) (b : req_body) (needed : Z) : option req_body :=
  if rb_capacity b <? needed then
    let start := if rb_capacity b =? 0 then H3_BODY_BUF_INIT_CAP else rb_capacity b in
    new_cap ← grow_cap 64 start needed;
    let new_cap := if max <? new_cap then max else new_cap in
    grown ← (if rb_len b =? 0 then Some [] else buf_write [] new_cap 0 (btake (rb_len b) (rb_data b)));
    Some (ReqBody grown (rb_len b) (rb_offset b) new_cap (rb_overflow b))
  else Some b.

(** The body part of [on_recv_data]; [max] is [conf->h3_max_request_body_size] and [data]
    is [None] for a NULL pointer. *)
Definition body_recv_data (max : Z) (is_bidi : bool) (data : option bytes) (b : req_body)
    : option req_body :=
  match data with
  | None => Some b
  | Some data =>
      let datalen := blen data in
      if negb is_bidi || (datalen =? 0) then Some b
      else if rb_overflow b then Some b
      else if max <? rb_len b +64 datalen
      then Some (ReqBody (rb_data b) (rb_len b) (rb_offset b) (rb_capacity b) true)
      else
        b1 ← body_reserve max b (rb_len b +64 datalen);
        buf ← buf_write (rb_data b1) (rb_capacity b1) (rb_len b1) data;
        Some (ReqBody buf (rb_len b1 +64 datalen) (rb_offset b1) (rb_capacity b1) (rb_overflow b1))
  end.

(** The calls nghttp3 makes for one request body. *)
Fixpoint body_recv_all (max : Z) (datas : list bytes) (b : req_body) : option req_body :=
  match datas with
  | [] => Some b
  | d :: ds => b' ← body_recv_data max true (Some d) b; body_recv_all max ds b'
  end.

(** ** Serving the request body *)

Inductive ap_input_mode :=
  | AP_MODE_READBYTES | AP_MODE_GETLINE | AP_MODE_EATCRLF | AP_MODE_SPECULATIVE
  | AP_MODE_EXHAUSTIVE | AP_MODE_INIT.

#[export] Instance ap_input_mode_eq_dec : EqDecision ap_input_mode.
Proof. solve_decision. Defined.

(** The buckets of an input brigade. *)
Inductive bucket := B_data (b : bytes) | B_eos.

#[export] Instance bucket_eq_dec : EqDecision bucket.
Proof. solve_decision. Defined.

(** [next] is what [ap_get_brigade] on the next filter returns, if there is one. *)
Definition input_filter_eos (next : option (list bucket -> list bucket * apr_status))
    (bb : list bucket) (mode : ap_input_mode) : list bucket * apr_status :=
  if negb (bool_decide (mode = AP_MODE_READBYTES)) && negb (bool_decide (mode = AP_MODE_GETLINE))
  then match next with None => (bb, APR_EOF) | Some get => get bb end
  else match bb with
       | _ :: _ => (bb, APR_SUCCESS)
       | [] => ([B_eos], APR_SUCCESS)
       end.

Definition h3_filter_in := input_filter_eos.

(** [memchr(unread, '\n', avail)] as the index found. *)
Fixpoint find_newline (l : bytes) : option Z :=
  match l with
  | [] => None
  | c :: l' => if bool_decide (c = Byte.x0a) then Some 0 else Z.succ <$> find_newline l'
  end.

(** How many of the [avail] unread bytes a read takes. *)
Definition serve_want (mode : ap_input_mode) (readbytes : Z) (unread : bytes) (avail : Z) : Z :=
  match mode with
  | AP_MODE_READBYTES | AP_MODE_SPECULATIVE =>
      if (0 <? readbytes) && (wrap64 readbytes <? avail) then wrap64 readbytes else avail
  | AP_MODE_GETLINE =>
      match find_newline unread with Some i => i +64 1 | None => avail end
  | _ => avail
  end.

Definition serve_request_body (b : req_body) (bb : list bucket) (mode : ap_input_mode)
    (readbytes : Z) : req_body * list bucket * apr_status :=
  match mode with
  | AP_MODE_INIT | AP_MODE_EATCRLF => (b, bb, APR_SUCCESS)
  | _ =>
      let avail := rb_len b -64 rb_offset b in
      if avail =? 0 then (b, bb ++ [B_eos], APR_SUCCESS)
      else
        let unread := btake avail (bdrop (rb_offset b) (rb_data b)) in
        let want := serve_want mode readbytes unread avail in
        let bb := bb ++ [B_data (btake want unread)] in
        if bool_decide (mode = AP_MODE_SPECULATIVE) then (b, bb, APR_SUCCESS)
        else
          let offset := rb_offset b +64 want in
          (ReqBody (rb_data b) (rb_len b) offset (rb_capacity b) (rb_overflow b),
           (if rb_len b <=? offset then bb ++ [B_eos] else bb), APR_SUCCESS)
  end.

(** [h3s] is [None] when the request has no HTTP/3 stream. *)
Definition h3_filter_in_proto (h3s : option req_body)
    (next : option (list bucket -> list bucket * apr_status)) (bb : list bucket)
    (mode : ap_input_mode) (readbytes : Z) : option req_body * list bucket * apr_status :=
  match h3s with
  | None => let '(bb, rv) := input_filter_eos next bb mode in (None, bb, rv)
  | Some b => let '(b, bb, rv) := serve_request_body b bb mode readbytes in (Some b, bb, rv)
  end.

(** A handler's reads, each into an empty brigade: the state left and the brigades. *)
Fixpoint serve_all (b : req_body) (reads : list (ap_input_mode * Z)) : req_body * list (list bucket) :=
  match reads with
  | [] => (b, [])
  | (mode, n) :: rs =>
      let '(b1, bb, _) := serve_request_body b [] mode n in
      let '(b2, bbs) := serve_all b1 rs in (b2, bb :: bbs)
  end.

(** ** Capturing the response body *)

(** The capture fields of [h3_conn_ctx_t]. *)
Record resp_capture := RespCapture {
  rc_heap : bytes;            (** [dataheap] *)
  rc_len : Z;                 (** [dataheaplen] *)
  rc_cap : Z;                 (** [dataheapcap] *)
  rc_too_large : bool }.      (** [response_too_large] *)

Definition rc_new : resp_capture := RespCapture [] 0 0 false.

(** [read] is what [apr_bucket_read] gives; [limit] is the configured maximum. *)
Definition capture_body_bucket (limit : Z) (c : resp_capture) (read : apr_status * option bytes)
    : option resp_capture :=
  if rc_too_large c then Some c
  else
    match read with
    | (APR_SUCCESS, Some data) =>
        let len := blen data in
        if len =? 0 then Some c
        else if (limit <? rc_len c) || (limit -64 rc_len c <? len)
        then Some (RespCapture (rc_heap c) (rc_len c) (rc_cap c) true)
        else
          let new_len := rc_len c +64 len in
          c1 ← (if rc_cap c <? new_len then
                  new_cap ← grow_cap 64 (if negb (rc_cap c =? 0) then rc_cap c *64 2
                                         else H3_BODY_BUF_INIT_CAP) new_len;
                  heap ← (if 0 <? rc_len c
                          then buf_write [] new_cap 0 (btake (rc_len c) (rc_heap c)) else Some []);
                  Some (RespCapture heap (rc_len c) new_cap false)
                else Some c);
          heap ← buf_write (rc_heap c1) (rc_cap c1) (rc_len c1) data;
          Some (RespCapture heap new_len (rc_cap c1) false)
    | _ => Some c
    end.

Fixpoint capture_all (limit : Z) (c : resp_capture) (datas : list bytes) : option resp_capture :=
  match datas with
  | [] => Some c
  | d :: ds => c' ← capture_body_bucket limit c (APR_SUCCESS, Some d); capture_all limit c' ds
  end.

(** ** Lemmas *)

Lemma grow_cap_spec fuel cap needed :
  1 <= cap -> needed <= cap * 2 ^ Z.of_nat fuel -> needed <= 2 ^ 62 ->
  exists c, grow_cap fuel cap needed = Some c /\ cap <= c /\ needed <= c
    /\ (c = cap \/ c < 2 * needed).
Proof.
  revert cap. induction fuel as [|fuel IH]; intros cap Hc Hn Hmax; simpl;
    (destruct (Z.ltb_spec cap needed); [|by exists cap; auto with lia]).
  { simpl in Hn. lia. }
  rewrite wrap64_small by (unfold SIZE_MAX; lia).
  destruct (IH (cap * 2)) as (c & -> & H1 & H2 & H3); [lia| |lia|].
  { rewrite Nat2Z.inj_succ, Z.pow_succ_r in Hn by lia. lia. }
  exists c. split; [done|]. lia.
Qed.

Lemma grow_cap_64 cap needed :
  1 <= cap -> needed <= 2 ^ 62 ->
  exists c, grow_cap 64 cap needed = Some c /\ cap <= c /\ needed <= c
    /\ (c = cap \/ c < 2 * needed).
Proof. intros. apply grow_cap_spec; lia. Qed.

(** The buffer holds what was received, within its capacity and the configured maximum. *)
Record rb_inv (max : Z) (b : req_body) : Prop := {
  rbi_len : rb_len b = blen (rb_data b);
  rbi_offset : 0 <= rb_offset b <= rb_len b;
  rbi_cap : rb_len b <= rb_capacity b <= max }.

Definition rb_max_ok (max : Z) : Prop := 1 <= max <= H3_MAX_REQUEST_BODY_SIZE_MAX.

(** A length a single call can pass: the sum with a body length does not wrap. *)
Definition data_ok (d : bytes) : Prop := blen d <= SIZE_MAX - H3_MAX_REQUEST_BODY_SIZE_MAX.

Lemma rb_new_inv max : rb_max_ok max -> rb_inv max rb_new.
Proof. intros [? _]. split; simpl; rewrite ?blen_nil; lia. Qed.

Lemma buf_write_ok buf cap data :
  blen buf + blen data <= cap -> buf_write buf cap (blen buf) data = Some (buf ++ data).
Proof.
  intros H. unfold buf_write. rewrite (proj2 (Z.leb_le _ _)) by lia.
  by rewrite btake_all by lia.
Qed.

Lemma body_reserve_spec max b needed :
  rb_max_ok max -> rb_inv max b -> rb_len b <= needed <= max ->
  exists cap, body_reserve max b needed
    = Some (ReqBody (rb_data b) (rb_len b) (rb_offset b) cap (rb_overflow b))
    /\ needed <= cap <= max.
Proof.
  intros Hmax [Hlen Hoff Hcap] Hn. unfold body_reserve.
  destruct (Z.ltb_spec (rb_capacity b) needed).
  2:{ exists (rb_capacity b). destruct b; simpl in *. auto with lia. }
  unfold rb_max_ok, H3_MAX_REQUEST_BODY_SIZE_MAX in Hmax.
  destruct (grow_cap_64 (if rb_capacity b =? 0 then H3_BODY_BUF_INIT_CAP else rb_capacity b) needed)
    as (c & -> & _ & Hc & _);
    [unfold H3_BODY_BUF_INIT_CAP; pose proof (blen_nonneg (rb_data b));
     destruct (Z.eqb_spec (rb_capacity b) 0); lia|lia|].
  simpl. set (cap := if max <? c then max else c).
  assert (needed <= cap <= max) as Hcc by (unfold cap; case_match; lia).
  exists cap. split; [|done].
  rewrite Hlen at 2. rewrite btake_all by lia.
  destruct (Z.eqb_spec (rb_len b) 0) as [Hz|_].
  - simpl. destruct (rb_data b); [done|]. rewrite Hlen in Hz. done.
  - rewrite (buf_write_ok [] cap) by (rewrite blen_nil; lia). done.
Qed.

Lemma body_recv_data_spec max b d :
  rb_max_ok max -> rb_inv max b -> data_ok d ->
  exists b', body_recv_data max true (Some d) b = Some b' /\ rb_inv max b'
    /\ rb_overflow b' = rb_overflow b || (max <? rb_len b + blen d) && negb (blen d =? 0)
    /\ rb_data b' = (if rb_overflow b' then rb_data b else rb_data b ++ d)
    /\ rb_offset b' = rb_offset b.
Proof.
  intros Hmax Hinv Hd. pose proof Hinv as [Hlen Hoff Hcap]. unfold body_recv_data. simpl.
  pose proof (blen_nonneg d). destruct (Z.eqb_spec (blen d) 0) as [Hz|Hz].
  { exists b. simpl. rewrite andb_false_r, orb_false_r. split_and!; try done.
    destruct d; [|done]. rewrite app_nil_r. by destruct (rb_overflow b). }
  destruct (rb_overflow b) eqn:Eo; simpl.
  { exists b. rewrite Eo. auto. }
  unfold rb_max_ok, data_ok in *.
  rewrite wrap64_small by lia. destruct (Z.ltb_spec max (rb_len b + blen d)) as [Hov|Hov]; simpl.
  { eexists. split; [done|]. split; [by split|]. auto. }
  destruct (body_reserve_spec max b (rb_len b + blen d)) as (cap & -> & Hc); [done|done|lia|].
  cbn [mbind option_bind rb_data rb_capacity rb_len rb_offset rb_overflow].
  rewrite Hlen, buf_write_ok by lia. cbn [mbind option_bind].
  rewrite wrap64_small by lia. eexists. split; [done|]. rewrite Eo.
  split; [|auto]. split; simpl; rewrite ?blen_app; lia.
Qed.

Lemma body_recv_all_overflowed max datas b :
  rb_overflow b = true -> body_recv_all max datas b = Some b.
Proof.
  intros Ho. induction datas as [|d datas IH]; [done|]. simpl.
  rewrite Ho. by destruct (blen d =? 0).
Qed.

Lemma body_recv_all_spec max datas b :
  rb_max_ok max -> rb_inv max b -> Forall data_ok datas ->
  exists b', body_recv_all max datas b = Some b' /\ rb_inv max b'
    /\ rb_overflow b' = rb_overflow b || (max <? rb_len b + blen (concat datas))
    /\ (rb_overflow b' = false -> rb_data b' = rb_data b ++ concat datas)
    /\ (exists k, rb_data b' = rb_data b ++ concat (take k datas))
    /\ rb_offset b' = rb_offset b.
Proof.
  intros Hmax. revert b.
  induction datas as [|d datas IH]; intros b Hinv Hd; cbn [body_recv_all concat].
  { exists b. pose proof Hinv as [Hlen Hoff Hcap]. rewrite blen_nil, app_nil_r.
    rewrite (proj2 (Z.ltb_ge _ _)), orb_false_r by lia. split_and!; try done.
    exists 0%nat. by rewrite app_nil_r. }
  apply Forall_cons in Hd as [Hd Hds].
  destruct (body_recv_data_spec max b d Hmax Hinv Hd) as (b1 & -> & Hinv1 & Ho1 & Hd1 & Hof1).
  destruct (IH b1 Hinv1 Hds) as (b2 & Hb2 & Hinv2 & Ho2 & Hd2 & (k & Hk) & Hof2).
  exists b2. cbn [mbind option_bind]. split; [done|]. split; [done|].
  pose proof Hinv as [Hlen Hoff Hcap]. pose proof Hinv1 as [Hlen1 Hoff1 Hcap1].
  pose proof (blen_nonneg d). pose proof (blen_nonneg (concat datas)).
  assert (Hover : rb_overflow b2 = rb_overflow b || (max <? rb_len b + blen (d ++ concat datas))).
  { rewrite Ho2, Ho1, Hlen1, Hd1, Ho1, blen_app.
    destruct (rb_overflow b); [done|]. simpl.
    destruct (Z.ltb_spec max (rb_len b + blen d)), (Z.eqb_spec (blen d) 0); simpl;
      rewrite ?blen_app; symmetry; first [apply Z.ltb_lt; lia|f_equal; lia|idtac]. }
  split; [done|]. split.
  - intros Hf. rewrite Hd2 by done. rewrite Hf in Ho2. symmetry in Ho2.
    apply orb_false_iff in Ho2 as [Hf1 _]. by rewrite Hd1, Hf1, <- app_assoc.
  - split; [|congruence]. destruct (rb_overflow b1) eqn:Ef1.
    + exists 0%nat. rewrite (body_recv_all_overflowed _ _ _ Ef1) in Hb2.
      simplify_eq. by rewrite app_nil_r.
    + exists (S k). by rewrite Hk, Hd1, <- app_assoc.
Qed.

(** What the filter has not handed out yet. *)
Definition unread (b : req_body) : bytes := bdrop (rb_offset b) (rb_data b).

Definition bucket_bytes (x : bucket) : bytes := match x with B_data d => d | B_eos => [] end.

Definition brigade_bytes (bb : list bucket) : bytes := concat (bucket_bytes <$> bb).

(** The modes that hand out data. *)
Definition takes_data (mode : ap_input_mode) : bool :=
  match mode with AP_MODE_INIT | AP_MODE_EATCRLF => false | _ => true end.

Lemma find_newline_bound l i : find_newline l = Some i -> 0 <= i < blen l.
Proof.
  revert i. induction l as [|c l IH]; intros i H; simpl in *; [done|].
  change (blen (c :: l)) with (blen ([c] ++ l)). rewrite blen_app.
  change (blen [c]) with 1. pose proof (blen_nonneg l). case_bool_decide; simplify_eq; [lia|].
  destruct (find_newline l) as [j|]; simplify_eq/=. specialize (IH j eq_refl). lia.
Qed.

(** [readbytes] is an [apr_off_t]. *)
Definition off_ok (n : Z) : Prop := n < 2 ^ 63.

Lemma serve_want_bound mode n l :
  0 < blen l <= SIZE_MAX -> off_ok n ->
  0 < serve_want mode n l (blen l) <= blen l
  /\ (0 < n -> mode = AP_MODE_READBYTES \/ mode = AP_MODE_SPECULATIVE ->
      serve_want mode n l (blen l) <= n).
Proof.
  intros Ha Hn. unfold serve_want, off_ok in *.
  assert (Hw : 0 < n -> wrap64 n = n) by (intros; apply wrap64_small; unfold SIZE_MAX; lia).
  assert (Hnl : 0 < (match find_newline l with Some i => i +64 1 | None => blen l end) <= blen l).
  { destruct (find_newline l) as [i|] eqn:Ef; [|lia]. apply find_newline_bound in Ef.
    rewrite wrap64_small by lia. lia. }
  destruct (Z.ltb_spec 0 n) as [Hp|Hp]; [rewrite Hw by done|]; simpl;
    [destruct (Z.ltb_spec n (blen l))|]; destruct mode; (split; [|intros ? [?|?]]);
    done || lia.
Qed.

Section Serve.
Context (max : Z) (Hmax : rb_max_ok max).
Implicit Types (b : req_body).

Lemma unread_len b : rb_inv max b -> blen (unread b) = rb_len b - rb_offset b.
Proof. intros [Hlen Hoff Hcap]. unfold unread. rewrite blen_bdrop by lia. lia. Qed.

(** The function in the modes that take data, in terms of what is unread. *)
Lemma serve_eq b mode n :
  rb_inv max b -> takes_data mode = true ->
  serve_request_body b [] mode n =
    (let avail := blen (unread b) in
     if avail =? 0 then (b, [B_eos], APR_SUCCESS)
     else
       let want := serve_want mode n (unread b) avail in
       let bb := [B_data (btake want (unread b))] in
       if bool_decide (mode = AP_MODE_SPECULATIVE) then (b, bb, APR_SUCCESS)
       else
         let offset := rb_offset b +64 want in
         (ReqBody (rb_data b) (rb_len b) offset (rb_capacity b) (rb_overflow b),
          (if rb_len b <=? offset then bb ++ [B_eos] else bb), APR_SUCCESS)).
Proof.
  intros Hinv Ht. pose proof (unread_len b Hinv) as Hul. pose proof Hinv as [Hlen Hoff Hcap].
  unfold rb_max_ok, H3_MAX_REQUEST_BODY_SIZE_MAX in Hmax.
  assert (Hav : rb_len b -64 rb_offset b = blen (unread b))
    by (rewrite wrap64_small by (unfold SIZE_MAX; lia); lia).
  unfold serve_request_body. rewrite Hav. fold (unread b).
  rewrite (btake_all (blen (unread b))) by lia. by destruct mode.
Qed.

Lemma serve_step b mode n b' bb rv :
  rb_inv max b -> off_ok n -> serve_request_body b [] mode n = (b', bb, rv) ->
  rv = APR_SUCCESS /\ rb_inv max b' /\ rb_data b' = rb_data b
  /\ unread b = (if bool_decide (mode = AP_MODE_SPECULATIVE) then [] else brigade_bytes bb)
                ++ unread b'
  /\ (exists rest, unread b = brigade_bytes bb ++ rest)
  /\ (B_eos ∈ bb -> unread b' = [])
  /\ (takes_data mode = true -> brigade_bytes bb <> [] \/ B_eos ∈ bb)
  /\ (0 < n -> mode = AP_MODE_READBYTES \/ mode = AP_MODE_SPECULATIVE -> blen (brigade_bytes bb) <= n).
Proof.
  intros Hinv Hn. pose proof (unread_len b Hinv) as Hul. pose proof Hinv as [Hlen Hoff Hcap].
  unfold rb_max_ok, H3_MAX_REQUEST_BODY_SIZE_MAX in Hmax.
  destruct (takes_data mode) eqn:Et.
  2:{ destruct mode; try done; simpl; intros ?; simplify_eq; split_and!; try done;
        try (by eexists); try (by intros ?%elem_of_nil); by intros ? [?|?]. }
  rewrite serve_eq by done.
  cbv zeta. destruct (Z.eqb_spec (blen (unread b)) 0) as [Hz|Hz].
  { intros ?. simplify_eq. assert (Hu : unread b' = []) by (by destruct (unread b')).
    rewrite Hu. unfold brigade_bytes. simpl. split_and!; try done.
    - by case_bool_decide.
    - by exists [].
    - intros _. right. set_solver.
    - intros ? _. rewrite blen_nil. lia. }
  pose proof (blen_nonneg (unread b)).
  destruct (serve_want_bound mode n (unread b)) as [Hw1 Hw2]; [unfold SIZE_MAX; lia|done|].
  set (want := serve_want mode n (unread b) (blen (unread b))) in *.
  assert (Hne : brigade_bytes [B_data (btake want (unread b))] = btake want (unread b))
    by (unfold brigade_bytes; simpl; apply app_nil_r).
  assert (Hlt : blen (btake want (unread b)) = want) by (apply blen_btake; lia).
  assert (Hnz : btake want (unread b) <> []) by (intros H0; rewrite H0, blen_nil in Hlt; lia).
  destruct (bool_decide (mode = AP_MODE_SPECULATIVE)).
  { intros [= <- <- <-]. rewrite Hne. split_and!; try done.
    - exists (bdrop want (unread b)). by rewrite btake_bdrop.
    - intros Hin. apply list_elem_of_singleton in Hin. done.
    - by left.
    - intros. rewrite Hlt. auto. }
  rewrite wrap64_small by (unfold SIZE_MAX; lia). intros H0.
  assert (b' = ReqBody (rb_data b) (rb_len b) (rb_offset b + want) (rb_capacity b) (rb_overflow b)
    /\ rv = APR_SUCCESS /\ brigade_bytes bb = btake want (unread b)
    /\ (B_eos ∈ bb -> rb_len b <= rb_offset b + want)) as (-> & -> & Hbb & Heos).
  { destruct (Z.leb_spec (rb_len b) (rb_offset b + want)); inversion_clear H0; split_and!; try done.
    intros Hin. apply list_elem_of_singleton in Hin. done. }
  assert (Hu' : unread (ReqBody (rb_data b) (rb_len b) (rb_offset b + want) (rb_capacity b) (rb_overflow b))
    = bdrop want (unread b)) by (unfold unread; simpl; rewrite bdrop_bdrop by lia; done).
  rewrite Hu', Hbb. split_and!; try done.
  - split; simpl; lia.
  - by rewrite btake_bdrop.
  - exists (bdrop want (unread b)). by rewrite btake_bdrop.
  - intros Hin. apply bdrop_all. specialize (Heos Hin). lia.
  - by left.
  - intros. rewrite Hlt. auto.
Qed.

End Serve.

(** The data of the reads that consume, in order. *)
Fixpoint consumed (reads : list (ap_input_mode * Z)) (bbs : list (list bucket)) : bytes :=
  match reads, bbs with
  | (mode, _) :: rs, bb :: bs =>
      (if bool_decide (mode = AP_MODE_SPECULATIVE) then [] else brigade_bytes bb) ++ consumed rs bs
  | _, _ => []
  end.

(** What holds of the [i]th read and the brigade it was given. *)
Definition read_ok (b : req_body) (reads : list (ap_input_mode * Z)) (bbs : list (list bucket))
    (i : nat) : Prop :=
  forall mode n bb, reads !! i = Some (mode, n) -> bbs !! i = Some bb ->
    (B_eos ∈ bb -> consumed (take (S i) reads) (take (S i) bbs) = unread b)
    /\ (takes_data mode = true -> brigade_bytes bb <> [] \/ B_eos ∈ bb)
    /\ (0 < n -> mode = AP_MODE_READBYTES \/ mode = AP_MODE_SPECULATIVE ->
        blen (brigade_bytes bb) <= n).

Lemma serve_all_spec max b reads b' bbs :
  rb_max_ok max -> rb_inv max b -> Forall (fun r => off_ok (snd r)) reads ->
  serve_all b reads = (b', bbs) ->
  rb_inv max b' /\ rb_data b' = rb_data b /\ length bbs = length reads
  /\ unread b = consumed reads bbs ++ unread b'
  /\ forall i, read_ok b reads bbs i.
Proof.
  intros Hmax. revert b bbs. induction reads as [|[mode n] reads IH]; intros b bbs Hinv Hoff Hs;
    cbn [serve_all] in Hs.
  { simplify_eq. by split_and!. }
  apply Forall_cons in Hoff as [Hn Hoff].
  destruct (serve_request_body b [] mode n) as [[b1 bb1] rv1] eqn:E1.
  destruct (serve_all b1 reads) as [b2 bbs2] eqn:E2. simplify_eq.
  destruct (serve_step max Hmax _ _ _ _ _ _ Hinv Hn E1)
    as (_ & Hinv1 & Hd1 & Hu1 & _ & Heos & Hprog & Hbound).
  destruct (IH _ _ Hinv1 Hoff E2) as (Hinv2 & Hd2 & Hl2 & Hu2 & Hok).
  split_and!; [done|congruence|simpl; by rewrite Hl2|cbn [consumed]; by rewrite Hu1, <- app_assoc, Hu2|].
  intros [|i] m k bb Hr Hb; simpl in Hr, Hb.
  - simplify_eq. split_and!; [|done|done]. intros Hin. cbn [take consumed].
    rewrite !take_0. rewrite Hu1, (Heos Hin). done.
  - destruct (Hok i m k bb Hr Hb) as (H1 & H2 & H3). split_and!; [|done|done].
    intros Hin. cbn [take consumed].
    rewrite H1 by done. by rewrite Hu1.
Qed.

(** The reads that consume: they take data and are not speculative. *)
Definition consumes (r : ap_input_mode * Z) : bool :=
  takes_data (fst r) && negb (bool_decide (fst r = AP_MODE_SPECULATIVE)).

Fixpoint count_consuming (reads : list (ap_input_mode * Z)) : Z :=
  match reads with [] => 0 | r :: rs => (if consumes r then 1 else 0) + count_consuming rs end.

(** A consuming read that is not the last gives at least a byte. *)
Lemma consumed_progress max b reads b' bbs :
  rb_max_ok max -> rb_inv max b -> Forall (fun r => off_ok (snd r)) reads ->
  serve_all b reads = (b', bbs) -> (forall bb, bb ∈ bbs -> B_eos ∉ bb) ->
  count_consuming reads <= blen (consumed reads bbs).
Proof.
  intros Hmax. revert b bbs. induction reads as [|[mode n] reads IH]; intros b bbs Hinv Hoff Hs Hno;
    cbn [serve_all] in Hs; [by simplify_eq|].
  apply Forall_cons in Hoff as [Hn Hoff].
  destruct (serve_request_body b [] mode n) as [[b1 bb1] rv1] eqn:E1.
  destruct (serve_all b1 reads) as [b2 bbs2] eqn:E2. simplify_eq.
  destruct (serve_step max Hmax _ _ _ _ _ _ Hinv Hn E1) as (_ & Hinv1 & _ & _ & _ & _ & Hprog & _).
  assert (count_consuming reads <= blen (consumed reads bbs2)) as Hrec
    by (eapply IH; eauto; intros bb Hbb; apply Hno; set_solver).
  cbn [consumed count_consuming]. rewrite blen_app. unfold consumes. cbn [fst].
  pose proof (blen_nonneg (brigade_bytes bb1)).
  destruct (takes_data mode); cbn [andb]; [|case_bool_decide; rewrite ?blen_nil; lia].
  case_bool_decide; cbn [negb]; [rewrite blen_nil; lia|].
  destruct (Hprog eq_refl) as [Hne|Hin]; [|exfalso; eapply Hno; [left|done]].
  destruct (brigade_bytes bb1); [done|]. unfold blen in *. simpl length in *. lia.
Qed.

(** The capture buffer holds what was read, within its capacity and the limit. *)
Record rc_inv (limit : Z) (c : resp_capture) : Prop := {
  rci_len : rc_len c = blen (rc_heap c);
  rci_limit : rc_len c <= limit;
  rci_cap : rc_len c <= rc_cap c <= Z.max H3_BODY_BUF_INIT_CAP (2 * limit) }.

Definition rc_limit_ok (limit : Z) : Prop := 1 <= limit <= H3_MAX_RESPONSE_BODY_SIZE_MAX.

Lemma capture_grow limit c new_len :
  rc_limit_ok limit -> rc_inv limit c -> rc_len c < new_len <= limit ->
  exists cap,
    (if rc_cap c <? new_len then
       new_cap ← grow_cap 64 (if negb (rc_cap c =? 0) then rc_cap c *64 2
                              else H3_BODY_BUF_INIT_CAP) new_len;
       heap ← (if 0 <? rc_len c
               then buf_write [] new_cap 0 (btake (rc_len c) (rc_heap c)) else Some []);
       Some (RespCapture heap (rc_len c) new_cap false)
     else Some c) = Some (RespCapture (rc_heap c) (rc_len c) cap (if rc_cap c <? new_len then false else rc_too_large c))
    /\ new_len <= cap <= Z.max H3_BODY_BUF_INIT_CAP (2 * limit).
Proof.
  intros Hlim [Hlen Hl Hcap] Hn. pose proof (blen_nonneg (rc_heap c)).
  unfold rc_limit_ok, H3_MAX_RESPONSE_BODY_SIZE_MAX, H3_BODY_BUF_INIT_CAP in *.
  destruct (Z.ltb_spec (rc_cap c) new_len).
  2:{ exists (rc_cap c). destruct c; simpl in *. split; [done|lia]. }
  rewrite wrap64_small by (unfold SIZE_MAX; lia).
  destruct (grow_cap_64 (if negb (rc_cap c =? 0) then rc_cap c * 2 else 8 * 1024) new_len)
    as (cap & -> & Hc1 & Hc2 & Hc3);
    [destruct (Z.eqb_spec (rc_cap c) 0); simpl; lia|lia|].
  exists cap. cbn [mbind option_bind]. split.
  2:{ destruct (Z.eqb_spec (rc_cap c) 0); simpl in *; lia. }
  rewrite Hlen at 2. rewrite btake_all by lia.
  destruct (Z.ltb_spec 0 (rc_len c)).
  - rewrite (buf_write_ok [] cap) by (rewrite blen_nil; lia). done.
  - cbn [mbind option_bind]. destruct (rc_heap c); [done|]. unfold blen in *. simpl in *. lia.
Qed.

Lemma capture_step limit c d :
  rc_limit_ok limit -> rc_inv limit c -> blen d <= SIZE_MAX ->
  exists c', capture_body_bucket limit c (APR_SUCCESS, Some d) = Some c' /\ rc_inv limit c'
    /\ rc_too_large c' = rc_too_large c || (limit <? rc_len c + blen d)
    /\ rc_heap c' = (if rc_too_large c' then rc_heap c else rc_heap c ++ d).
Proof.
  intros Hlim Hinv Hd. pose proof Hinv as [Hlen Hl Hcap]. unfold capture_body_bucket.
  destruct (rc_too_large c) eqn:Et; [exists c; by rewrite Et|].
  pose proof (blen_nonneg d). pose proof (blen_nonneg (rc_heap c)). cbn [orb].
  pose proof Hlim as Hlim'. unfold rc_limit_ok, H3_MAX_RESPONSE_BODY_SIZE_MAX in Hlim'.
  destruct (Z.eqb_spec (blen d) 0).
  { exists c. rewrite Et, (proj2 (Z.ltb_ge _ _)) by lia. split_and!; try done.
    destruct d; [by rewrite app_nil_r|done]. }
  rewrite (proj2 (Z.ltb_ge limit (rc_len c))) by lia. cbn [orb].
  rewrite (wrap64_small (limit - rc_len c)) by (unfold SIZE_MAX; lia).
  destruct (Z.ltb_spec (limit - rc_len c) (blen d)).
  { eexists. split; [done|]. rewrite (proj2 (Z.ltb_lt limit _)) by lia. by split; [split|]. }
  rewrite (wrap64_small (rc_len c + blen d)) by (unfold SIZE_MAX in *; lia).
  destruct (capture_grow limit c (rc_len c + blen d)) as (cap & -> & Hc); [done|done|lia|].
  cbn [mbind option_bind rc_heap rc_cap rc_len]. rewrite Hlen, buf_write_ok by lia.
  cbn [mbind option_bind]. eexists. split; [done|]. cbn [rc_too_large rc_heap].
  rewrite (proj2 (Z.ltb_ge limit _)) by lia. split; [|done].
  split; cbn [rc_len rc_heap rc_cap]; rewrite ?blen_app; lia.
Qed.

Lemma capture_all_spec limit datas c :
  rc_limit_ok limit -> rc_inv limit c -> Forall (fun d => blen d <= SIZE_MAX) datas ->
  exists c', capture_all limit c datas = Some c' /\ rc_inv limit c'
    /\ rc_too_large c' = rc_too_large c || (limit <? rc_len c + blen (concat datas))
    /\ (rc_too_large c' = false -> rc_heap c' = rc_heap c ++ concat datas).
Proof.
  intros Hlim. revert c. induction datas as [|d datas IH]; intros c Hinv Hd; cbn [capture_all concat].
  { exists c. pose proof Hinv as [Hlen Hl Hcap]. rewrite blen_nil, app_nil_r.
    by rewrite (proj2 (Z.ltb_ge _ _)), orb_false_r by lia. }
  apply Forall_cons in Hd as [Hd Hds].
  destruct (capture_step limit c d Hlim Hinv Hd) as (c1 & -> & Hinv1 & Ht1 & Hh1).
  cbn [mbind option_bind].
  destruct (IH c1 Hinv1 Hds) as (c2 & -> & Hinv2 & Ht2 & Hh2). exists c2.
  pose proof Hinv as [Hlen Hl Hcap]. pose proof Hinv1 as [Hlen1 Hl1 Hcap1].
  pose proof (blen_nonneg d). pose proof (blen_nonneg (concat datas)).
  split_and!; [done|done| |].
  - rewrite Ht2, Ht1, Hlen1, Hh1, Ht1, blen_app. destruct (rc_too_large c); [done|]. cbn [orb].
    destruct (Z.ltb_spec limit (rc_len c + blen d)); cbn [orb]; rewrite ?blen_app; symmetry;
      [apply Z.ltb_lt; lia|f_equal; lia].
  - intros Hf. rewrite Hh2 by done. rewrite Hf in Ht2. symmetry in Ht2.
    apply orb_false_iff in Ht2 as [Hf1 _]. by rewrite Hh1, Hf1, <- app_assoc.
Qed.

(** ** Properties *)

(** C17 (request body): whatever sizes the body arrives in, collecting it never writes past
    the buffer, the doubling always ends, and the buffer stays within
    [H3MaxRequestBodySize]; the overflow flag is set exactly when the body is larger than
    that, otherwise the buffer holds exactly the bytes received in order. *)
Theorem request_body_assembled (max : Z) (datas : list bytes) :
  rb_max_ok max -> Forall data_ok datas ->
  exists b, body_recv_all max datas rb_new = Some b
    /\ rb_inv max b
    /\ rb_overflow b = (max <? blen (concat datas))
    /\ (rb_overflow b = false -> rb_data b = concat datas)
    /\ exists k, rb_data b = concat (take k datas).
Proof.
  intros Hmax Hd.
  destruct (body_recv_all_spec max datas rb_new Hmax (rb_new_inv max Hmax) Hd)
    as (b & H1 & H2 & H3 & H4 & H5 & _). by exists b.
Qed.

Definition sample_datas : list bytes := [[Byte.x61; Byte.x0a]; [Byte.x62]; [Byte.x63; Byte.x64]].

Lemma sample_datas_ok : Forall data_ok sample_datas.
Proof. repeat apply Forall_cons_2; (apply Forall_nil_2 || (vm_compute; congruence)). Qed.

Lemma request_body_assembled_witness :
  (exists b, body_recv_all 1024 sample_datas rb_new = Some b /\ rb_data b = concat sample_datas)
  /\ (exists b, body_recv_all 4 sample_datas rb_new = Some b /\ rb_overflow b = true).
Proof.
  split.
  - destruct (request_body_assembled 1024 sample_datas) as (b & Hb & _ & Ho & Hd & _);
      [by vm_compute|apply sample_datas_ok|]. exists b. split; [done|]. apply Hd. by rewrite Ho.
  - destruct (request_body_assembled 4 sample_datas) as (b & Hb & _ & Ho & _ & _);
      [by vm_compute|apply sample_datas_ok|]. exists b. split; [done|]. by rewrite Ho.
Defined.

(** C16 (round trip): a body that fits is read back by the input filter as it was sent: the
    data of a handler's reads, in any mix of modes, is the received body from its
    beginning, without loss or repetition; no read hands out more bytes than it asked
    for; a read returns end-of-stream only when the whole body has been handed out, and
    every read that consumes returns data or end-of-stream, so enough of them reach it. *)
Theorem request_body_roundtrip (max : Z) (datas : list bytes) (reads : list (ap_input_mode * Z))
    (b b' : req_body) (bbs : list (list bucket)) :
  rb_max_ok max -> Forall data_ok datas -> Forall (fun r => off_ok (snd r)) reads ->
  blen (concat datas) <= max ->
  body_recv_all max datas rb_new = Some b -> serve_all b reads = (b', bbs) ->
  concat datas = consumed reads bbs ++ unread b'
  /\ (forall i mode n bb, reads !! i = Some (mode, n) -> bbs !! i = Some bb ->
       (B_eos ∈ bb -> consumed (take (S i) reads) (take (S i) bbs) = concat datas)
       /\ (0 < n -> mode = AP_MODE_READBYTES \/ mode = AP_MODE_SPECULATIVE ->
           blen (brigade_bytes bb) <= n))
  /\ (blen (concat datas) < count_consuming reads -> exists bb, bb ∈ bbs /\ B_eos ∈ bb).
Proof.
  intros Hmax Hd Hoff Hfit Hb Hs.
  destruct (body_recv_all_spec max datas rb_new Hmax (rb_new_inv max Hmax) Hd)
    as (b0 & Hb0 & Hinv & Ho & Hdata & _ & Hof). rewrite Hb in Hb0. simplify_eq.
  assert (rb_overflow b0 = false) as Hno.
  { rewrite Ho. cbn [rb_overflow rb_new rb_len orb]. apply Z.ltb_ge. lia. }
  assert (Hu : unread b0 = concat datas).
  { unfold unread. rewrite Hof, (Hdata Hno). done. }
  destruct (serve_all_spec max _ _ _ _ Hmax Hinv Hoff Hs) as (_ & _ & Hl & Heq & Hok).
  rewrite <- Hu. split_and!; [done| |].
  - intros i mode n bb Hr Hbb. destruct (Hok i mode n bb Hr Hbb) as (H1 & _ & H3). by split.
  - intros Hmany. destruct (decide (Exists (fun bb => B_eos ∈ bb) bbs)) as [(bb & ? & ?)%Exists_exists|Hn].
    { by exists bb. }
    exfalso. assert (count_consuming reads <= blen (consumed reads bbs)).
    { eapply consumed_progress; eauto. intros bb Hbb Hin. apply Hn, Exists_exists. by exists bb. }
    rewrite Heq, blen_app in Hmany. pose proof (blen_nonneg (unread b')). lia.
Qed.

Definition sample_reads : list (ap_input_mode * Z) :=
  [(AP_MODE_SPECULATIVE, 3); (AP_MODE_GETLINE, 0); (AP_MODE_READBYTES, 2); (AP_MODE_EXHAUSTIVE, 0)].

Lemma request_body_roundtrip_witness :
  exists b b' bbs, body_recv_all 1024 sample_datas rb_new = Some b
    /\ serve_all b sample_reads = (b', bbs)
    /\ bbs = [[B_data [Byte.x61; Byte.x0a; Byte.x62]]; [B_data [Byte.x61; Byte.x0a]];
              [B_data [Byte.x62; Byte.x63]]; [B_data [Byte.x64]; B_eos]]
    /\ consumed sample_reads bbs ++ unread b' = concat sample_datas.
Proof.
  do 3 eexists. split; [by vm_compute|]. split; [by vm_compute|]. split; [by vm_compute|].
  symmetry. refine (proj1 (request_body_roundtrip 1024 sample_datas sample_reads _ _ _ _ _ _ _ _ _)).
  - by vm_compute.
  - apply sample_datas_ok.
  - repeat apply Forall_cons_2; (apply Forall_nil_2 || (vm_compute; congruence)).
  - by vm_compute.
  - by vm_compute.
  - by vm_compute.
Defined.

(** C33 (response capture): capturing a response never writes past the buffer, never holds
    more than [H3MaxResponseBodySize] bytes nor allocates more than twice that (8 KiB at
    least), and marks the response too large exactly when its body exceeds the limit;
    otherwise the buffer is the response body. *)
Theorem response_capture_bounded (limit : Z) (datas : list bytes) :
  rc_limit_ok limit -> Forall (fun d => blen d <= SIZE_MAX) datas ->
  exists c, capture_all limit rc_new datas = Some c
    /\ rc_len c = blen (rc_heap c) /\ rc_len c <= limit
    /\ rc_cap c <= Z.max H3_BODY_BUF_INIT_CAP (2 * limit)
    /\ rc_too_large c = (limit <? blen (concat datas))
    /\ (rc_too_large c = false -> rc_heap c = concat datas).
Proof.
  intros Hlim Hd. assert (rc_inv limit rc_new) as Hinv.
  { unfold rc_limit_ok in *. split; cbn [rc_new rc_len rc_heap rc_cap]; rewrite ?blen_nil;
      unfold H3_BODY_BUF_INIT_CAP; lia. }
  destruct (capture_all_spec limit datas rc_new Hlim Hinv Hd) as (c & Hc & [H1 H2 H3] & H4 & H5).
  exists c. split_and!; done || lia.
Qed.

Lemma response_capture_bounded_witness :
  exists c, capture_all 5 rc_new sample_datas = Some c /\ rc_heap c = concat sample_datas.
Proof.
  destruct (response_capture_bounded 5 sample_datas) as (c & Hc & _ & _ & _ & Ht & Hh).
  - by vm_compute.
  - repeat apply Forall_cons_2; (apply Forall_nil_2 || (vm_compute; congruence)).
  - exists c. split; [done|]. apply Hh. by rewrite Ht.
Defined.
