(* ===== verification/Stream.v ===== *)
(** * Streams and the nghttp3 callbacks (h3_session.h, h3_callbacks.c)

    [h3_stream] is [struct h3_stream]; each callback nghttp3 makes is a function on the
    stream its [stream_user_data] points to.  What a callback does to the session besides
    (queueing the QUIC stream to be freed, resetting it) is part of its result, and
    [Session] carries it out. *)

From S2P Require Import Prelude LinkedQueue RespQueue Config Body Quic.

(** ** Data *)

(** The request head: the pseudo-headers and the table of the other fields. *)
Record req_head := ReqHead {
  rh_method : option bytes;
  rh_scheme : option bytes;
  rh_authority : option bytes;
  rh_path : option bytes;
  rh_headers : option (list (bytes * bytes)) }.

Definition rh_new : req_head := ReqHead None None None None None.

(** [struct h3_stream]. *)
Record h3_stream := Stream {
  st_stream_id : Z;
  st_qstream : option handle;
  st_done : bool;
  st_write_blocked : bool;
  st_is_bidi : bool;
  st_headers_complete : bool;
  st_dispatched : bool;
  st_worker_done : bool;
  st_body_complete : bool;
  st_body_truncated : bool;
  st_body : req_body;   (** the [request_body] fields *)
  st_head : req_head;   (** [method] to [headers] *)
  st_resp : resp_queue;   (** the [response_] fields *)
  st_pool : bool }.   (** [pool] has not been destroyed *)

(** Stores to the fields. *)

Definition set_st_qstream (v : option handle) (x : h3_stream) : h3_stream :=
  Stream (st_stream_id x) v (st_done x) (st_write_blocked x) (st_is_bidi x)
    (st_headers_complete x) (st_dispatched x) (st_worker_done x) (st_body_complete x)
    (st_body_truncated x) (st_body x) (st_head x) (st_resp x) (st_pool x).
Definition set_st_done (v : bool) (x : h3_stream) : h3_stream :=
  Stream (st_stream_id x) (st_qstream x) v (st_write_blocked x) (st_is_bidi x)
    (st_headers_complete x) (st_dispatched x) (st_worker_done x) (st_body_complete x)
    (st_body_truncated x) (st_body x) (st_head x) (st_resp x) (st_pool x).
Definition set_st_write_blocked (v : bool) (x : h3_stream) : h3_stream :=
  Stream (st_stream_id x) (st_qstream x) (st_done x) v (st_is_bidi x) (st_headers_complete x)
    (st_dispatched x) (st_worker_done x) (st_body_complete x) (st_body_truncated x) (st_body x)
    (st_head x) (st_resp x) (st_pool x).
Definition set_st_headers_complete (v : bool) (x : h3_stream) : h3_stream :=
  Stream (st_stream_id x) (st_qstream x) (st_done x) (st_write_blocked x) (st_is_bidi x) v
    (st_dispatched x) (st_worker_done x) (st_body_complete x) (st_body_truncated x) (st_body x)
    (st_head x) (st_resp x) (st_pool x).
Definition set_st_dispatched (v : bool) (x : h3_stream) : h3_stream :=
  Stream (st_stream_id x) (st_qstream x) (st_done x) (st_write_blocked x) (st_is_bidi x)
    (st_headers_complete x) v (st_worker_done x) (st_body_complete x) (st_body_truncated x)
    (st_body x) (st_head x) (st_resp x) (st_pool x).
Definition set_st_worker_done (v : bool) (x : h3_stream) : h3_stream :=
  Stream (st_stream_id x) (st_qstream x) (st_done x) (st_write_blocked x) (st_is_bidi x)
    (st_headers_complete x) (st_dispatched x) v (st_body_complete x) (st_body_truncated x)
    (st_body x) (st_head x) (st_resp x) (st_pool x).
Definition set_st_body_complete (v : bool) (x : h3_stream) : h3_stream :=
  Stream (st_stream_id x) (st_qstream x) (st_done x) (st_write_blocked x) (st_is_bidi x)
    (st_headers_complete x) (st_dispatched x) (st_worker_done x) v (st_body_truncated x)
    (st_body x) (st_head x) (st_resp x) (st_pool x).
Definition set_st_body_truncated (v : bool) (x : h3_stream) : h3_stream :=
  Stream (st_stream_id x) (st_qstream x) (st_done x) (st_write_blocked x) (st_is_bidi x)
    (st_headers_complete x) (st_dispatched x) (st_worker_done x) (st_body_complete x) v (st_body
    x) (st_head x) (st_resp x) (st_pool x).
Definition set_st_body (v : req_body) (x : h3_stream) : h3_stream :=
  Stream (st_stream_id x) (st_qstream x) (st_done x) (st_write_blocked x) (st_is_bidi x)
    (st_headers_complete x) (st_dispatched x) (st_worker_done x) (st_body_complete x)
    (st_body_truncated x) v (st_head x) (st_resp x) (st_pool x).
Definition set_st_head (v : req_head) (x : h3_stream) : h3_stream :=
  Stream (st_stream_id x) (st_qstream x) (st_done x) (st_write_blocked x) (st_is_bidi x)
    (st_headers_complete x) (st_dispatched x) (st_worker_done x) (st_body_complete x)
    (st_body_truncated x) (st_body x) v (st_resp x) (st_pool x).
Definition set_st_resp (v : resp_queue) (x : h3_stream) : h3_stream :=
  Stream (st_stream_id x) (st_qstream x) (st_done x) (st_write_blocked x) (st_is_bidi x)
    (st_headers_complete x) (st_dispatched x) (st_worker_done x) (st_body_complete x)
    (st_body_truncated x) (st_body x) (st_head x) v (st_pool x).
Definition set_st_pool (v : bool) (x : h3_stream) : h3_stream :=
  Stream (st_stream_id x) (st_qstream x) (st_done x) (st_write_blocked x) (st_is_bidi x)
    (st_headers_complete x) (st_dispatched x) (st_worker_done x) (st_body_complete x)
    (st_body_truncated x) (st_body x) (st_head x) (st_resp x) v.

(** Low two bits of a QUIC stream id: initiator and direction. *)
Definition H3_SID_IS_BIDI (sid : Z) : bool := Z.land sid 2 =? 0.
Definition H3_SID_IS_SERVER (sid : Z) : bool := Z.land sid 1 =? 1.

(** The zeroed stream [track_stream] fills in. *)
Definition new_stream (sid : Z) (qstream : handle) (limit : Z) : h3_stream :=
  Stream sid (Some qstream) false false (H3_SID_IS_BIDI sid) false false false false false
    rb_new rh_new (rq_new limit) true.

(** ** Callbacks *)

(** What a callback returns to nghttp3. *)
Inductive cb_rv := CB_OK | CB_MALFORMED_HTTP_HEADER | CB_CALLBACK_FAILURE.

#[export] Instance cb_rv_eq_dec : EqDecision cb_rv.
Proof. solve_decision. Defined.

(** The QPACK tokens the callbacks tell apart. *)
Inductive qpack_token :=
  | TOKEN__METHOD | TOKEN__SCHEME | TOKEN__PATH | TOKEN__AUTHORITY | TOKEN_OTHER.

Definition IS_PSEUDO_TOKEN (t : qpack_token) : bool :=
  match t with TOKEN_OTHER => false | _ => true end.

(** [apr_pstrndup]: the bytes up to the first NUL. *)
Fixpoint apr_pstrndup (b : bytes) : bytes :=
  match b with
  | [] => []
  | c :: b' => if bool_decide (c = Byte.x00) then [] else c :: apr_pstrndup b'
  end.

Definition set_pseudo (token : qpack_token) (value : bytes) (st : h3_stream) : cb_rv * h3_stream :=
  if (blen value =? 0) || (8192 <=? blen value) then (CB_MALFORMED_HTTP_HEADER, st)
  else
    let copy := Some (apr_pstrndup value) in
    let '(ReqHead m s a p h) := st_head st in
    match token with
    | TOKEN__METHOD => (CB_OK, set_st_head (ReqHead copy s a p h) st)
    | TOKEN__SCHEME => (CB_OK, set_st_head (ReqHead m copy a p h) st)
    | TOKEN__PATH => (CB_OK, set_st_head (ReqHead m s a copy h) st)
    | TOKEN__AUTHORITY => (CB_OK, set_st_head (ReqHead m s copy p h) st)
    | TOKEN_OTHER => (CB_MALFORMED_HTTP_HEADER, st)
    end.

(** The store of [on_begin_headers] once it has found the stream. *)
Definition begin_headers (st : h3_stream) : h3_stream :=
  let '(ReqHead m s a p h) := st_head st in
  match h with
  | None => if st_is_bidi st then set_st_head (ReqHead m s a p (Some [])) st else st
  | Some _ => st
  end.

Definition on_recv_header (token : qpack_token) (name value : bytes) (st : h3_stream)
    : cb_rv * h3_stream :=
  if IS_PSEUDO_TOKEN token then set_pseudo token value st
  else
    let '(ReqHead m s a p h) := st_head st in
    match h with
    | None => (CB_OK, st)
    | Some t =>
        (CB_OK, set_st_head (ReqHead m s a p (Some (t ++ [(apr_pstrndup name, apr_pstrndup value)]))) st)
    end.

Definition on_end_headers (fin : bool) (st : h3_stream) : h3_stream :=
  if st_is_bidi st then
    let st := set_st_headers_complete true st in
    if fin then set_st_body_complete true st else st
  else st.

(** [None] is a write outside the body buffer. *)
Definition on_recv_data (max : Z) (data : option bytes) (st : h3_stream) : option h3_stream :=
  b ← body_recv_data max (st_is_bidi st) data (st_body st);
  Some (set_st_body b st).

Definition on_acked_stream_data (datalen : Z) (st : h3_stream) : option h3_stream :=
  r ← h3_stream_response_ack_locked (st_resp st) datalen;
  Some (set_st_resp (fst r) st).

Definition stream_cancel (st : h3_stream) : h3_stream :=
  set_st_resp (h3_stream_response_cancel_locked (st_resp st)) st.

(** The second component is the QUIC stream handed to [h3_session_queue_free]. *)
Definition on_stop_sending (st : h3_stream) : h3_stream * option handle :=
  (set_st_body_truncated true (set_st_body_complete true (set_st_done true
     (set_st_qstream None (stream_cancel st)))), st_qstream st).

(** The second component is the QUIC stream reset with the peer's code. *)
Definition on_reset_stream (st : h3_stream) : h3_stream * option handle :=
  (set_st_done true (stream_cancel st), st_qstream st).

Definition on_stream_close (st : h3_stream) : h3_stream * option handle :=
  (set_st_qstream None (set_st_done true (stream_cancel st)), st_qstream st).

(** [h3_session_read_data] on the stream nghttp3 passes. *)
Definition stream_read_data (veccnt : nat) (st : h3_stream) : option (h3_stream * read_reply) :=
  r ← h3_session_read_data (st_resp st) veccnt;
  Some (set_st_resp (fst r) st, snd r).

(** *** The stream's pool

    Strings, the table of fields, the body buffer and the condition variable of the response
    are in [stream->pool]: which of the callbacks use it.  Those that cancel the response
    broadcast the condition variable. *)

Definition begin_headers_uses_pool (st : h3_stream) : bool :=
  st_is_bidi st && bool_decide (rh_headers (st_head st) = None).

Definition recv_header_uses_pool (token : qpack_token) (value : bytes) (st : h3_stream) : bool :=
  if IS_PSEUDO_TOKEN token then negb ((blen value =? 0) || (8192 <=? blen value))
  else bool_decide (is_Some (rh_headers (st_head st))).

(** Unless there is nothing to store or no room for it. *)
Definition recv_data_uses_pool (max : Z) (data : bytes) (st : h3_stream) : bool :=
  st_is_bidi st && negb (blen data =? 0) && negb (rb_overflow (st_body st))
  && negb (max <? rb_len (st_body st) +64 blen data).

(** When bytes of a chunk are released, the condition variable is broadcast. *)
Definition acked_uses_pool (datalen : Z) (st : h3_stream) : bool :=
  match h3_stream_response_ack_locked (st_resp st) datalen with Some (_, released) => released | None => false end.

(** A request is dispatched once its head and body are in. *)
Definition ready_to_dispatch (st : h3_stream) : bool :=
  st_is_bidi st && st_headers_complete st && st_body_complete st && negb (st_dispatched st).

(** ** The header block *)

(** The calls of one header block, in order; the first failure ends it. *)
Fixpoint recv_headers (fields : list (qpack_token * bytes * bytes)) (st : h3_stream)
    : cb_rv * h3_stream :=
  match fields with
  | [] => (CB_OK, st)
  | (t, n, v) :: fs =>
      match on_recv_header t n v st with
      | (CB_OK, st') => recv_headers fs st'
      | r => r
      end
  end.

(** The last value of a pseudo-header, if it occurs. *)
Definition last_value (t : qpack_token) (fields : list (qpack_token * bytes * bytes))
    (start : option bytes) : option bytes :=
  fold_left (fun acc f =>
    match f, t with
    | (TOKEN__METHOD, _, v), TOKEN__METHOD | (TOKEN__SCHEME, _, v), TOKEN__SCHEME
    | (TOKEN__PATH, _, v), TOKEN__PATH | (TOKEN__AUTHORITY, _, v), TOKEN__AUTHORITY =>
        Some (apr_pstrndup v)
    | _, _ => acc
    end) fields start.

(** The regular fields, in order. *)
Definition regular_fields (fields : list (qpack_token * bytes * bytes)) : list (bytes * bytes) :=
  omap (fun f => match f with
                 | (TOKEN_OTHER, n, v) => Some (apr_pstrndup n, apr_pstrndup v)
                 | _ => None
                 end) fields.

(** The length a pseudo-header value must have. *)
Definition pseudo_len_ok (f : qpack_token * bytes * bytes) : Prop :=
  let '(t, _, v) := f in IS_PSEUDO_TOKEN t = true -> 0 < blen v < 8192.

#[export] Instance pseudo_len_ok_dec f : Decision (pseudo_len_ok f).
Proof. destruct f as [[t n] v]. unfold pseudo_len_ok. apply _. Defined.

Lemma set_pseudo_bad t v st :
  ~ (0 < blen v < 8192) -> set_pseudo t v st = (CB_MALFORMED_HTTP_HEADER, st).
Proof.
  intros Hv. unfold set_pseudo. pose proof (blen_nonneg v).
  destruct (Z.eqb_spec (blen v) 0), (Z.leb_spec 8192 (blen v)); done || lia.
Qed.

(** The head after one accepted field. *)
Lemma on_recv_header_ok tok n v st t :
  rh_headers (st_head st) = Some t -> pseudo_len_ok (tok, n, v) ->
  on_recv_header tok n v st = (CB_OK, set_st_head
    (ReqHead (last_value TOKEN__METHOD [(tok, n, v)] (rh_method (st_head st)))
             (last_value TOKEN__SCHEME [(tok, n, v)] (rh_scheme (st_head st)))
             (last_value TOKEN__AUTHORITY [(tok, n, v)] (rh_authority (st_head st)))
             (last_value TOKEN__PATH [(tok, n, v)] (rh_path (st_head st)))
             (Some (t ++ regular_fields [(tok, n, v)]))) st).
Proof.
  intros Ht Hok. unfold on_recv_header, set_pseudo.
  destruct (st_head st) as [m s a p h]. cbn in Ht. subst h.
  destruct tok; cbn [IS_PSEUDO_TOKEN]; [..|done]; specialize (Hok eq_refl);
    rewrite (proj2 (Z.eqb_neq _ _)), (proj2 (Z.leb_gt _ _)) by lia; cbn;
    by rewrite app_nil_r.
Qed.

Lemma on_recv_header_bad tok n v st :
  ~ pseudo_len_ok (tok, n, v) -> on_recv_header tok n v st = (CB_MALFORMED_HTTP_HEADER, st).
Proof.
  intros Hbad. unfold on_recv_header. destruct (IS_PSEUDO_TOKEN tok) eqn:Et.
  - apply set_pseudo_bad. intros H. apply Hbad. by intros _.
  - exfalso. apply Hbad. cbn. congruence.
Qed.

(** C34 (request head): a header block is accepted exactly when every pseudo-header value
    has between 1 and 8191 bytes; then each pseudo-header holds the last value received
    for it, and the header table the regular fields in the order they were received; a
    rejected block leaves the stream as it was before the offending field. *)
Theorem header_block_collected (fields : list (qpack_token * bytes * bytes)) (st : h3_stream)
    (t : list (bytes * bytes)) :
  rh_headers (st_head st) = Some t ->
  (Forall pseudo_len_ok fields ->
   recv_headers fields st = (CB_OK, set_st_head
     (ReqHead (last_value TOKEN__METHOD fields (rh_method (st_head st)))
              (last_value TOKEN__SCHEME fields (rh_scheme (st_head st)))
              (last_value TOKEN__AUTHORITY fields (rh_authority (st_head st)))
              (last_value TOKEN__PATH fields (rh_path (st_head st)))
              (Some (t ++ regular_fields fields))) st))
  /\ (~ Forall pseudo_len_ok fields ->
      exists good rest, fields = good ++ rest /\ Forall pseudo_len_ok good
        /\ recv_headers fields st = (CB_MALFORMED_HTTP_HEADER, snd (recv_headers good st))).
Proof.
  revert st t. induction fields as [|[[tok n] v] fs IH]; intros st t Ht.
  { split; [|by intros []]. intros _. cbn. rewrite app_nil_r, <- Ht.
    by destruct st as [? ? ? ? ? ? ? ? ? ? ? [] ?]. }
  cbn [recv_headers]. destruct (decide (pseudo_len_ok (tok, n, v))) as [Hok|Hbad].
  2:{ rewrite on_recv_header_bad by done. split; [by intros [? _]%Forall_cons|].
      intros _. exists [], ((tok, n, v) :: fs). by split; [|split; [apply Forall_nil_2|]]. }
  rewrite (on_recv_header_ok _ _ _ _ t) by done.
  match goal with |- context [set_st_head ?h st] => set (hd := h) end.
  destruct (IH (set_st_head hd st) _ eq_refl) as [IHok IHbad]. split.
  - intros [_ Hfs]%Forall_cons. rewrite IHok by done. cbn [st_head rh_method rh_scheme
      rh_authority rh_path set_st_head].
    assert (regular_fields ((tok, n, v) :: fs) = regular_fields [(tok, n, v)] ++ regular_fields fs)
      as -> by (by destruct tok). by rewrite app_assoc.
  - intros Hn. destruct IHbad as (good & rest & -> & Hgood & Hr).
    { intros H. apply Hn. by apply Forall_cons. }
    exists ((tok, n, v) :: good), rest. split; [done|]. split; [by apply Forall_cons|].
    cbn [recv_headers]. by rewrite (on_recv_header_ok _ _ _ _ t).
Qed.

Definition sample_fields : list (qpack_token * bytes * bytes) :=
  [(TOKEN__METHOD, [], [Byte.x47; Byte.x45; Byte.x54]); (TOKEN__PATH, [], [Byte.x2f]);
   (TOKEN_OTHER, [Byte.x61], [Byte.x62])].

Lemma header_block_collected_witness :
  recv_headers sample_fields (begin_headers (new_stream 0 1%positive 65536))
  = (CB_OK, set_st_head (ReqHead (Some [Byte.x47; Byte.x45; Byte.x54]) None None (Some [Byte.x2f])
                                 (Some [([Byte.x61], [Byte.x62])]))
                        (begin_headers (new_stream 0 1%positive 65536))).
Proof.
  apply (proj1 (header_block_collected sample_fields
    (begin_headers (new_stream 0 1%positive 65536)) [] eq_refl)).
  repeat apply Forall_cons_2; (apply Forall_nil_2 || (intros _; vm_compute; done) || (intros; done)).
Defined.

