(* ===== verification/Session.v ===== *)
(** * Sessions and stream driving (h3_session.c, h3_stream.c, h3_callbacks.c)

    [h3_session] is the state of one connection: the streams it has allocated, the table
    of the tracked ones, the nghttp3 connection, and the transport.  nghttp3 is the class
    [Nghttp3]: a state and the calls the code makes on it.  A call that can run callbacks
    is a [prog]: it ends with a new state and a result, or asks for a callback with the
    [stream_user_data] it holds and continues with the answer; [run_prog] carries it out
    on the session, so callbacks and the code around the call share one state.

    A QUIC stream is a handle; a handle that was freed is in [ss_freed] and any further
    use of it aborts.  The stream objects live as long as the session; what is in a stream's
    own pool does not: the session functions and the workers abort on the use of a pool
    that was destroyed ([get_live]), and a callback that uses one is noted in [ss_stale].
    The session lock is held for the whole of every function here, so each runs as one
    step; [SessionInv] states what all of them preserve. *)

From S2P Require Import Prelude Effects LinkedQueue RespQueue Config Body Quic Stream.

(** A pointer to a [h3_stream]. *)
Abbreviation sptr := positive.

(** ** nghttp3 *)

(** The callbacks the session registers, and [h3_session_read_data]. *)
Inductive ngh_cb :=
  | CbBeginHeaders (sid : Z)
  | CbRecvHeader (token : qpack_token) (name value : bytes)
  | CbEndHeaders (fin : bool)
  | CbRecvData (data : bytes)
  | CbAcked (datalen : Z)
  | CbStopSending
  | CbResetStream (app_error_code : Z)
  | CbStreamClose (sid : Z)
  | CbReadData (veccnt : nat).

Inductive cb_reply := Reply (rv : cb_rv) | ReplyData (r : read_reply).

Inductive prog (N R : Type) :=
  | Done (n : N) (r : R)
  | Call (n : N) (cb : ngh_cb) (user_data : option sptr) (k : N -> cb_reply -> prog N R).
Arguments Done {N R}.
Arguments Call {N R}.

(** What [nghttp3_conn_writev_stream] reports; nothing to send is stream -1 without
    vectors. *)
Inductive wv_result := WvError (liberr : Z) | WvStream (sid : Z) (fin : bool) (vecs : list bytes).

Class Nghttp3 (N : Type) := {
  ngh_server_new : option N;
  ngh_set_max_streams : N -> Z -> N;
  ngh_bind_control_stream : N -> Z -> N * bool;
  ngh_bind_qpack_streams : N -> Z -> Z -> N * bool;
  ngh_read_stream : N -> Z -> bytes -> bool -> prog N Z;
  ngh_writev_stream : N -> prog N wv_result;
  ngh_add_write_offset : N -> Z -> Z -> N;
  ngh_add_ack_offset : N -> Z -> Z -> prog N unit;
  ngh_block_stream : N -> Z -> N;
  ngh_unblock_stream : N -> Z -> N;
  ngh_resume_stream : N -> Z -> N;
  ngh_close_stream : N -> Z -> prog N unit;
  ngh_submit_response : N -> Z -> list (bytes * bytes) -> N * Z;
  ngh_set_stream_user_data : N -> Z -> sptr -> N;
  ngh_submit_shutdown_notice : N -> N;
  ngh_shutdown : N -> N;
  ngh_is_drained : N -> bool;
  ngh_err_code : Z -> Z;
  ngh_strerror : Z -> string;
  (** Observations: the user data of a stream, and how many bytes read from it are not
      acknowledged. *)
  ngh_user_data : N -> Z -> option sptr;
  ngh_unacked : N -> sptr -> Z }.

(** [apr_hash_t]: a walk meets every entry once, in an order the table chooses. *)
Class AprHash := {
  hash_walk : gmap Z sptr -> list (Z * sptr);
  hash_walk_perm m : hash_walk m ≡ₚ map_to_list m }.

#[export] Instance apr_hash_sorted : AprHash := {
  hash_walk := map_to_list;
  hash_walk_perm m := reflexivity _ }.

(** Per-pass budget so one busy stream cannot starve the others. *)
Definition H3_STREAM_DRAIN_READ_BUDGET : nat := 256.
Definition H3_STREAM_DRAIN_BYTE_BUDGET : Z := 1024 * 1024.

Section Session.
Context {N E : Type} {NG : Nghttp3 N} {QS : QuicStreams E} {QC : QuicConns E} {AH : AprHash}.

(** ** State *)

Record h3_session := Sess {
  ss_heap : gmap sptr h3_stream;   (** the [h3_stream] objects of the session pool *)
  ss_next : sptr;   (** the next object's address *)
  ss_streams : gmap Z sptr;   (** [streams] *)
  ss_aborted : bool;
  ss_blocked : Z;   (** [blocked_streams] *)
  ss_ngh3 : option N;
  ss_ngh3_dead : bool;
  ss_abort_code : Z;   (** [abort_quic_error_code] *)
  ss_abort_reason : option string;
  ss_qconn : option handle;
  ss_pending_free : list handle;   (** the array, last element first *)
  ss_freed : list handle;   (** every handle freed so far *)
  ss_fresh : handle;   (** the handle of the next object OpenSSL creates *)
  ss_env : E;   (** the transport *)
  ss_read_buf_size : Z;   (** [stream_read_buf_size], 0 before the buffer exists *)
  ss_cursor : Z;   (** [stream_drain_cursor] *)
  ss_control_created : bool;
  ss_goaway_deadline : Z;
  ss_active_tasks : Z;
  ss_pending : Z * option sptr;   (** [pending.sid], [pending.h3s] *)
  ss_bytes_read : Z;   (** [child_h3_io->total_bytes_read] *)
  ss_bytes_written : Z;   (** [child_h3_io->total_bytes_written] *)
  ss_wakes : Z;   (** calls of [wake_event_thread] from its workers *)
  ss_stale : list sptr }.   (** streams whose destroyed pool a callback has used *)

(** Stores to the fields. *)

Definition set_ss_heap (v : gmap sptr h3_stream) (x : h3_session) : h3_session :=
  Sess v (ss_next x) (ss_streams x) (ss_aborted x) (ss_blocked x) (ss_ngh3 x) (ss_ngh3_dead x)
    (ss_abort_code x) (ss_abort_reason x) (ss_qconn x) (ss_pending_free x) (ss_freed x)
    (ss_fresh x) (ss_env x) (ss_read_buf_size x) (ss_cursor x) (ss_control_created x)
    (ss_goaway_deadline x) (ss_active_tasks x) (ss_pending x) (ss_bytes_read x)
    (ss_bytes_written x) (ss_wakes x) (ss_stale x).
Definition set_ss_next (v : sptr) (x : h3_session) : h3_session :=
  Sess (ss_heap x) v (ss_streams x) (ss_aborted x) (ss_blocked x) (ss_ngh3 x) (ss_ngh3_dead x)
    (ss_abort_code x) (ss_abort_reason x) (ss_qconn x) (ss_pending_free x) (ss_freed x)
    (ss_fresh x) (ss_env x) (ss_read_buf_size x) (ss_cursor x) (ss_control_created x)
    (ss_goaway_deadline x) (ss_active_tasks x) (ss_pending x) (ss_bytes_read x)
    (ss_bytes_written x) (ss_wakes x) (ss_stale x).
Definition set_ss_streams (v : gmap Z sptr) (x : h3_session) : h3_session :=
  Sess (ss_heap x) (ss_next x) v (ss_aborted x) (ss_blocked x) (ss_ngh3 x) (ss_ngh3_dead x)
    (ss_abort_code x) (ss_abort_reason x) (ss_qconn x) (ss_pending_free x) (ss_freed x)
    (ss_fresh x) (ss_env x) (ss_read_buf_size x) (ss_cursor x) (ss_control_created x)
    (ss_goaway_deadline x) (ss_active_tasks x) (ss_pending x) (ss_bytes_read x)
    (ss_bytes_written x) (ss_wakes x) (ss_stale x).
Definition set_ss_aborted (v : bool) (x : h3_session) : h3_session :=
  Sess (ss_heap x) (ss_next x) (ss_streams x) v (ss_blocked x) (ss_ngh3 x) (ss_ngh3_dead x)
    (ss_abort_code x) (ss_abort_reason x) (ss_qconn x) (ss_pending_free x) (ss_freed x)
    (ss_fresh x) (ss_env x) (ss_read_buf_size x) (ss_cursor x) (ss_control_created x)
    (ss_goaway_deadline x) (ss_active_tasks x) (ss_pending x) (ss_bytes_read x)
    (ss_bytes_written x) (ss_wakes x) (ss_stale x).
Definition set_ss_blocked (v : Z) (x : h3_session) : h3_session :=
  Sess (ss_heap x) (ss_next x) (ss_streams x) (ss_aborted x) v (ss_ngh3 x) (ss_ngh3_dead x)
    (ss_abort_code x) (ss_abort_reason x) (ss_qconn x) (ss_pending_free x) (ss_freed x)
    (ss_fresh x) (ss_env x) (ss_read_buf_size x) (ss_cursor x) (ss_control_created x)
    (ss_goaway_deadline x) (ss_active_tasks x) (ss_pending x) (ss_bytes_read x)
    (ss_bytes_written x) (ss_wakes x) (ss_stale x).
Definition set_ss_ngh3 (v : option N) (x : h3_session) : h3_session :=
  Sess (ss_heap x) (ss_next x) (ss_streams x) (ss_aborted x) (ss_blocked x) v (ss_ngh3_dead x)
    (ss_abort_code x) (ss_abort_reason x) (ss_qconn x) (ss_pending_free x) (ss_freed x)
    (ss_fresh x) (ss_env x) (ss_read_buf_size x) (ss_cursor x) (ss_control_created x)
    (ss_goaway_deadline x) (ss_active_tasks x) (ss_pending x) (ss_bytes_read x)
    (ss_bytes_written x) (ss_wakes x) (ss_stale x).
Definition set_ss_ngh3_dead (v : bool) (x : h3_session) : h3_session :=
  Sess (ss_heap x) (ss_next x) (ss_streams x) (ss_aborted x) (ss_blocked x) (ss_ngh3 x) v
    (ss_abort_code x) (ss_abort_reason x) (ss_qconn x) (ss_pending_free x) (ss_freed x)
    (ss_fresh x) (ss_env x) (ss_read_buf_size x) (ss_cursor x) (ss_control_created x)
    (ss_goaway_deadline x) (ss_active_tasks x) (ss_pending x) (ss_bytes_read x)
    (ss_bytes_written x) (ss_wakes x) (ss_stale x).
Definition set_ss_abort_code (v : Z) (x : h3_session) : h3_session :=
  Sess (ss_heap x) (ss_next x) (ss_streams x) (ss_aborted x) (ss_blocked x) (ss_ngh3 x)
    (ss_ngh3_dead x) v (ss_abort_reason x) (ss_qconn x) (ss_pending_free x) (ss_freed x)
    (ss_fresh x) (ss_env x) (ss_read_buf_size x) (ss_cursor x) (ss_control_created x)
    (ss_goaway_deadline x) (ss_active_tasks x) (ss_pending x) (ss_bytes_read x)
    (ss_bytes_written x) (ss_wakes x) (ss_stale x).
Definition set_ss_abort_reason (v : option string) (x : h3_session) : h3_session :=
  Sess (ss_heap x) (ss_next x) (ss_streams x) (ss_aborted x) (ss_blocked x) (ss_ngh3 x)
    (ss_ngh3_dead x) (ss_abort_code x) v (ss_qconn x) (ss_pending_free x) (ss_freed x)
    (ss_fresh x) (ss_env x) (ss_read_buf_size x) (ss_cursor x) (ss_control_created x)
    (ss_goaway_deadline x) (ss_active_tasks x) (ss_pending x) (ss_bytes_read x)
    (ss_bytes_written x) (ss_wakes x) (ss_stale x).
Definition set_ss_qconn (v : option handle) (x : h3_session) : h3_session :=
  Sess (ss_heap x) (ss_next x) (ss_streams x) (ss_aborted x) (ss_blocked x) (ss_ngh3 x)
    (ss_ngh3_dead x) (ss_abort_code x) (ss_abort_reason x) v (ss_pending_free x) (ss_freed x)
    (ss_fresh x) (ss_env x) (ss_read_buf_size x) (ss_cursor x) (ss_control_created x)
    (ss_goaway_deadline x) (ss_active_tasks x) (ss_pending x) (ss_bytes_read x)
    (ss_bytes_written x) (ss_wakes x) (ss_stale x).
Definition set_ss_pending_free (v : list handle) (x : h3_session) : h3_session :=
  Sess (ss_heap x) (ss_next x) (ss_streams x) (ss_aborted x) (ss_blocked x) (ss_ngh3 x)
    (ss_ngh3_dead x) (ss_abort_code x) (ss_abort_reason x) (ss_qconn x) v (ss_freed x)
    (ss_fresh x) (ss_env x) (ss_read_buf_size x) (ss_cursor x) (ss_control_created x)
    (ss_goaway_deadline x) (ss_active_tasks x) (ss_pending x) (ss_bytes_read x)
    (ss_bytes_written x) (ss_wakes x) (ss_stale x).
Definition set_ss_freed (v : list handle) (x : h3_session) : h3_session :=
  Sess (ss_heap x) (ss_next x) (ss_streams x) (ss_aborted x) (ss_blocked x) (ss_ngh3 x)
    (ss_ngh3_dead x) (ss_abort_code x) (ss_abort_reason x) (ss_qconn x) (ss_pending_free x) v
    (ss_fresh x) (ss_env x) (ss_read_buf_size x) (ss_cursor x) (ss_control_created x)
    (ss_goaway_deadline x) (ss_active_tasks x) (ss_pending x) (ss_bytes_read x)
    (ss_bytes_written x) (ss_wakes x) (ss_stale x).
Definition set_ss_fresh (v : handle) (x : h3_session) : h3_session :=
  Sess (ss_heap x) (ss_next x) (ss_streams x) (ss_aborted x) (ss_blocked x) (ss_ngh3 x)
    (ss_ngh3_dead x) (ss_abort_code x) (ss_abort_reason x) (ss_qconn x) (ss_pending_free x)
    (ss_freed x) v (ss_env x) (ss_read_buf_size x) (ss_cursor x) (ss_control_created x)
    (ss_goaway_deadline x) (ss_active_tasks x) (ss_pending x) (ss_bytes_read x)
    (ss_bytes_written x) (ss_wakes x) (ss_stale x).
Definition set_ss_env (v : E) (x : h3_session) : h3_session :=
  Sess (ss_heap x) (ss_next x) (ss_streams x) (ss_aborted x) (ss_blocked x) (ss_ngh3 x)
    (ss_ngh3_dead x) (ss_abort_code x) (ss_abort_reason x) (ss_qconn x) (ss_pending_free x)
    (ss_freed x) (ss_fresh x) v (ss_read_buf_size x) (ss_cursor x) (ss_control_created x)
    (ss_goaway_deadline x) (ss_active_tasks x) (ss_pending x) (ss_bytes_read x)
    (ss_bytes_written x) (ss_wakes x) (ss_stale x).
Definition set_ss_read_buf_size (v : Z) (x : h3_session) : h3_session :=
  Sess (ss_heap x) (ss_next x) (ss_streams x) (ss_aborted x) (ss_blocked x) (ss_ngh3 x)
    (ss_ngh3_dead x) (ss_abort_code x) (ss_abort_reason x) (ss_qconn x) (ss_pending_free x)
    (ss_freed x) (ss_fresh x) (ss_env x) v (ss_cursor x) (ss_control_created x)
    (ss_goaway_deadline x) (ss_active_tasks x) (ss_pending x) (ss_bytes_read x)
    (ss_bytes_written x) (ss_wakes x) (ss_stale x).
Definition set_ss_cursor (v : Z) (x : h3_session) : h3_session :=
  Sess (ss_heap x) (ss_next x) (ss_streams x) (ss_aborted x) (ss_blocked x) (ss_ngh3 x)
    (ss_ngh3_dead x) (ss_abort_code x) (ss_abort_reason x) (ss_qconn x) (ss_pending_free x)
    (ss_freed x) (ss_fresh x) (ss_env x) (ss_read_buf_size x) v (ss_control_created x)
    (ss_goaway_deadline x) (ss_active_tasks x) (ss_pending x) (ss_bytes_read x)
    (ss_bytes_written x) (ss_wakes x) (ss_stale x).
Definition set_ss_control_created (v : bool) (x : h3_session) : h3_session :=
  Sess (ss_heap x) (ss_next x) (ss_streams x) (ss_aborted x) (ss_blocked x) (ss_ngh3 x)
    (ss_ngh3_dead x) (ss_abort_code x) (ss_abort_reason x) (ss_qconn x) (ss_pending_free x)
    (ss_freed x) (ss_fresh x) (ss_env x) (ss_read_buf_size x) (ss_cursor x) v
    (ss_goaway_deadline x) (ss_active_tasks x) (ss_pending x) (ss_bytes_read x)
    (ss_bytes_written x) (ss_wakes x) (ss_stale x).
Definition set_ss_goaway_deadline (v : Z) (x : h3_session) : h3_session :=
  Sess (ss_heap x) (ss_next x) (ss_streams x) (ss_aborted x) (ss_blocked x) (ss_ngh3 x)
    (ss_ngh3_dead x) (ss_abort_code x) (ss_abort_reason x) (ss_qconn x) (ss_pending_free x)
    (ss_freed x) (ss_fresh x) (ss_env x) (ss_read_buf_size x) (ss_cursor x)
    (ss_control_created x) v (ss_active_tasks x) (ss_pending x) (ss_bytes_read x)
    (ss_bytes_written x) (ss_wakes x) (ss_stale x).
Definition set_ss_active_tasks (v : Z) (x : h3_session) : h3_session :=
  Sess (ss_heap x) (ss_next x) (ss_streams x) (ss_aborted x) (ss_blocked x) (ss_ngh3 x)
    (ss_ngh3_dead x) (ss_abort_code x) (ss_abort_reason x) (ss_qconn x) (ss_pending_free x)
    (ss_freed x) (ss_fresh x) (ss_env x) (ss_read_buf_size x) (ss_cursor x)
    (ss_control_created x) (ss_goaway_deadline x) v (ss_pending x) (ss_bytes_read x)
    (ss_bytes_written x) (ss_wakes x) (ss_stale x).
Definition set_ss_pending (v : Z * option sptr) (x : h3_session) : h3_session :=
  Sess (ss_heap x) (ss_next x) (ss_streams x) (ss_aborted x) (ss_blocked x) (ss_ngh3 x)
    (ss_ngh3_dead x) (ss_abort_code x) (ss_abort_reason x) (ss_qconn x) (ss_pending_free x)
    (ss_freed x) (ss_fresh x) (ss_env x) (ss_read_buf_size x) (ss_cursor x)
    (ss_control_created x) (ss_goaway_deadline x) (ss_active_tasks x) v (ss_bytes_read x)
    (ss_bytes_written x) (ss_wakes x) (ss_stale x).
Definition set_ss_bytes_read (v : Z) (x : h3_session) : h3_session :=
  Sess (ss_heap x) (ss_next x) (ss_streams x) (ss_aborted x) (ss_blocked x) (ss_ngh3 x)
    (ss_ngh3_dead x) (ss_abort_code x) (ss_abort_reason x) (ss_qconn x) (ss_pending_free x)
    (ss_freed x) (ss_fresh x) (ss_env x) (ss_read_buf_size x) (ss_cursor x)
    (ss_control_created x) (ss_goaway_deadline x) (ss_active_tasks x) (ss_pending x) v
    (ss_bytes_written x) (ss_wakes x) (ss_stale x).
Definition set_ss_bytes_written (v : Z) (x : h3_session) : h3_session :=
  Sess (ss_heap x) (ss_next x) (ss_streams x) (ss_aborted x) (ss_blocked x) (ss_ngh3 x)
    (ss_ngh3_dead x) (ss_abort_code x) (ss_abort_reason x) (ss_qconn x) (ss_pending_free x)
    (ss_freed x) (ss_fresh x) (ss_env x) (ss_read_buf_size x) (ss_cursor x)
    (ss_control_created x) (ss_goaway_deadline x) (ss_active_tasks x) (ss_pending x)
    (ss_bytes_read x) v (ss_wakes x) (ss_stale x).
Definition set_ss_wakes (v : Z) (x : h3_session) : h3_session :=
  Sess (ss_heap x) (ss_next x) (ss_streams x) (ss_aborted x) (ss_blocked x) (ss_ngh3 x)
    (ss_ngh3_dead x) (ss_abort_code x) (ss_abort_reason x) (ss_qconn x) (ss_pending_free x)
    (ss_freed x) (ss_fresh x) (ss_env x) (ss_read_buf_size x) (ss_cursor x)
    (ss_control_created x) (ss_goaway_deadline x) (ss_active_tasks x) (ss_pending x)
    (ss_bytes_read x) (ss_bytes_written x) v (ss_stale x).
Definition set_ss_stale (v : list sptr) (x : h3_session) : h3_session :=
  Sess (ss_heap x) (ss_next x) (ss_streams x) (ss_aborted x) (ss_blocked x) (ss_ngh3 x)
    (ss_ngh3_dead x) (ss_abort_code x) (ss_abort_reason x) (ss_qconn x) (ss_pending_free x)
    (ss_freed x) (ss_fresh x) (ss_env x) (ss_read_buf_size x) (ss_cursor x)
    (ss_control_created x) (ss_goaway_deadline x) (ss_active_tasks x) (ss_pending x)
    (ss_bytes_read x) (ss_bytes_written x) (ss_wakes x) v.

(** [conf] is the configuration of the session's server, [io] whether [child_h3_io] is
    set. *)
Context (conf : h3_server_conf) (io : bool).

Abbreviation sess := (M h3_session).

(** ** Objects *)

Definition upd_stream (p : sptr) (f : h3_stream -> h3_stream) (s : h3_session) : h3_session :=
  set_ss_heap (alter f p (ss_heap s)) s.

Definition get_stream (p : sptr) : sess h3_stream :=
  o ← gets (fun s => ss_heap s !! p); nonnull o.

Definition get_ngh : sess N := o ← gets ss_ngh3; nonnull o.
Definition put_ngh (n : N) : sess unit := modify (set_ss_ngh3 (Some n)).
Definition on_ngh (f : N -> N) : sess unit := n ← get_ngh; put_ngh (f n).

(** A call on a QUIC object: the handle must not have been freed. *)
Definition use (h : handle) : sess unit :=
  freed ← gets ss_freed; CHECK (bool_decide (h ∉ freed)).

Definition on_env {A} (f : E -> E * A) : sess A :=
  fun s => let '(e, a) := f (ss_env s) in Ret a (set_ss_env e s).

Definition q_write (h : handle) (vs : list bytes) (fin : bool) : sess h3q_write_result :=
  use h ;; on_env (fun e => qs_write e h vs fin).
Definition q_is_write_blocked (h : handle) : sess bool :=
  use h ;; gets (fun s => qs_is_write_blocked (ss_env s) h).
Definition q_read (h : handle) (n : Z) : sess h3q_read_result :=
  use h ;; on_env (fun e => qs_read e h n).
Definition q_is_read_finished (h : handle) : sess (bool * bool) :=
  use h ;; gets (fun s => qs_read_finished (ss_env s) h).
Definition q_reset (h : handle) (err : Z) : sess unit :=
  use h ;; modify (fun s => set_ss_env (qs_reset (ss_env s) h err) s).
Definition q_stream_free (h : handle) : sess unit :=
  use h ;; modify (fun s => set_ss_freed (h :: ss_freed s) (set_ss_env (qs_free (ss_env s) h) s)).
Definition q_conn_free (h : handle) : sess unit :=
  use h ;; modify (fun s => set_ss_freed (h :: ss_freed s) (set_ss_env (qc_free (ss_env s) h) s)).

(** An object OpenSSL may create: [f] is given the fresh handle, which is then used up. *)
Definition q_create {A} (f : E -> handle -> E * option A) : sess (option A) :=
  fun s => let '(e, o) := f (ss_env s) (ss_fresh s) in
           Ret o (set_ss_fresh (Pos.succ (ss_fresh s)) (set_ss_env e s)).

Definition h3_session_queue_free (st : option handle) (s : h3_session) : h3_session :=
  match st with Some h => set_ss_pending_free (h :: ss_pending_free s) s | None => s end.

(** A use of memory in the stream's pool, which must not have been destroyed. *)
Definition get_live (p : sptr) : sess h3_stream :=
  st ← get_stream p; CHECK (st_pool st) ;; mret st.

(** The same in a callback, which nothing keeps from being made for a stream whose pool is
    gone: if [uses] says it uses the pool, and that was destroyed, the stream is noted. *)
Definition note_stale (p : sptr) (stale : bool) (s : h3_session) : h3_session :=
  if stale then set_ss_stale (p :: ss_stale s) s else s.

Definition pool_user (p : sptr) (uses : h3_stream -> bool) : sess h3_stream :=
  st ← get_stream p; modify (note_stale p (uses st && negb (st_pool st))) ;; mret st.

(** ** Callbacks *)

Definition on_begin_headers (sid : Z) (user_data : option sptr) : sess cb_reply :=
  pending ← gets ss_pending;
  let stream := match user_data with
                | Some p => Some p
                | None => if fst pending =? sid then snd pending else None
                end in
  match stream with
  | None => mret (Reply CB_CALLBACK_FAILURE)
  | Some p =>
      pool_user p begin_headers_uses_pool ;;
      modify (upd_stream p begin_headers) ;;
      on_ngh (fun n => ngh_set_stream_user_data n sid p) ;;
      mret (Reply CB_OK)
  end.

(** The callback of each event on the stream [user_data] points to. *)
Definition callback (cb : ngh_cb) (user_data : option sptr) : sess cb_reply :=
  match cb, user_data with
  | CbBeginHeaders sid, _ => on_begin_headers sid user_data
  | CbReadData _, None => mret (ReplyData ReadCallbackFailure)
  | _, None => mret (Reply CB_OK)
  | CbRecvHeader token name value, Some p =>
      st ← pool_user p (recv_header_uses_pool token value);
      let '(rv, st') := on_recv_header token name value st in
      modify (upd_stream p (fun _ => st')) ;; mret (Reply rv)
  | CbEndHeaders fin, Some p =>
      get_stream p ;; modify (upd_stream p (on_end_headers fin)) ;; mret (Reply CB_OK)
  | CbRecvData data, Some p =>
      st ← pool_user p (recv_data_uses_pool (h3_max_request_body_size conf) data);
      st' ← nonnull (on_recv_data (h3_max_request_body_size conf) (Some data) st);
      modify (upd_stream p (fun _ => st')) ;; mret (Reply CB_OK)
  | CbAcked datalen, Some p =>
      st ← pool_user p (acked_uses_pool datalen);
      st' ← nonnull (on_acked_stream_data datalen st);
      modify (upd_stream p (fun _ => st')) ;; mret (Reply CB_OK)
  | CbStopSending, Some p =>
      st ← pool_user p (fun _ => true);
      let '(st', q) := on_stop_sending st in
      modify (fun s => upd_stream p (fun _ => st') (h3_session_queue_free q s)) ;; mret (Reply CB_OK)
  | CbResetStream code, Some p =>
      st ← pool_user p (fun _ => true);
      let '(st', q) := on_reset_stream st in
      match q with Some h => q_reset h code | None => mret tt end ;;
      modify (upd_stream p (fun _ => st')) ;; mret (Reply CB_OK)
  | CbStreamClose _, Some p =>
      st ← pool_user p (fun _ => true);
      let '(st', q) := on_stream_close st in
      modify (fun s => upd_stream p (fun _ => st') (h3_session_queue_free q s)) ;; mret (Reply CB_OK)
  | CbReadData veccnt, Some p =>
      st ← get_stream p;
      r ← nonnull (stream_read_data veccnt st);
      modify (upd_stream p (fun _ => fst r)) ;; mret (ReplyData (snd r))
  end.

(** A call of nghttp3 with its callbacks. *)
Fixpoint run_prog {R} (p : prog N R) : sess R :=
  match p with
  | Done n r => put_ngh n ;; mret r
  | Call n cb user_data k =>
      put_ngh n ;; r ← callback cb user_data; n' ← get_ngh; run_prog (k n' r)
  end.

Definition call_ngh {R} (f : N -> prog N R) : sess R := n ← get_ngh; run_prog (f n).

(** ** Sessions (h3_session.c) *)

(** [mutex_rv] is what creating the lock returns. *)
Definition h3_session_create (mutex_rv : apr_status) (fresh : handle) (env : E) (qconn : handle)
    : option h3_session * apr_status :=
  match mutex_rv with
  | APR_SUCCESS =>
      match ngh_server_new with
      | None => (None, APR_EGENERAL)
      | Some n =>
          (Some (Sess ∅ 1%positive ∅ false 0
                   (Some (ngh_set_max_streams n (h3_max_concurrent_streams conf))) false 0 None
                   (Some qconn) [] [] fresh env 0 0 false 0 0 (0, None) 0 0 0 []), APR_SUCCESS)
      end
  | rv => (None, rv)
  end.

Definition h3_stream_find (sid : Z) : sess (option sptr) := gets (fun s => ss_streams s !! sid).

(** [pool_ok] and [cond_ok] are the outcomes of creating the stream's pool and its
    condition variable; the former is a [CHECK]. *)
Definition track_stream (pool_ok cond_ok : bool) (sid : Z) (qstream : handle) : sess (option sptr) :=
  found ← h3_stream_find sid;
  match found with
  | Some p => get_stream p ;; modify (upd_stream p (set_st_qstream (Some qstream))) ;; mret (Some p)
  | None =>
      CHECK pool_ok ;;
      if negb cond_ok then mret None
      else
        let limit := if negb (h3_stream_buffer_size conf =? 0) then h3_stream_buffer_size conf
                     else H3_STREAM_BUFFER_SIZE_DEFAULT in
        p ← gets ss_next;
        modify (fun s => set_ss_next (Pos.succ p)
                  (set_ss_streams (<[sid := p]> (ss_streams s))
                    (set_ss_heap (<[p := new_stream sid qstream limit]> (ss_heap s)) s))) ;;
        mret (Some p)
  end.

Definition q_open_uni : sess (option (handle * Z)) :=
  c ← gets ss_qconn; c ← nonnull c; q_create (fun e f => qc_open_uni e c f).

Definition free_opt (o : option (handle * Z)) : sess unit :=
  match o with Some (h, _) => q_stream_free h | None => mret tt end.

(** [ok]: the stream's pool is created, and its condition variable. *)
Definition track_opt (ok : bool * bool) (o : option (handle * Z)) : sess unit :=
  match o with Some (h, id) => track_stream (fst ok) (snd ok) id h ;; mret tt | None => mret tt end.

(** The four calls that can fail, in order. *)
Definition bind_control (c0 c1 c2 : option (handle * Z)) : sess bool :=
  match c0, c1, c2 with
  | Some (_, id0), Some (_, id1), Some (_, id2) =>
      n ← get_ngh;
      let '(n1, ok1) := ngh_bind_control_stream n id0 in
      put_ngh n1 ;;
      if negb ok1 then mret false
      else
        let '(n2, ok2) := ngh_bind_qpack_streams n1 id1 id2 in
        put_ngh n2 ;; mret ok2
  | _, _, _ => mret false
  end.

(** [ok0] to [ok2] are the outcomes of creating the three pools and condition variables. *)
Definition h3_session_create_control_streams (ok0 ok1 ok2 : bool * bool) : sess apr_status :=
  created ← gets ss_control_created;
  if (created : bool) then mret APR_SUCCESS
  else
    c0 ← q_open_uni; c1 ← q_open_uni; c2 ← q_open_uni;
    ok ← bind_control c0 c1 c2;
    if negb ok then
      free_opt c0 ;; free_opt c1 ;; free_opt c2 ;;
      modify (set_ss_ngh3 None) ;; mret APR_EGENERAL
    else
      track_opt ok0 c0 ;; track_opt ok1 c1 ;; track_opt ok2 c2 ;;
      modify (set_ss_control_created true) ;; mret APR_SUCCESS.

(** [while (nelts > 0) h3q_stream_free(pop)]. *)
Definition free_pending : sess unit :=
  l ← gets ss_pending_free;
  for_each (fun h => modify (fun s => set_ss_pending_free (tail (ss_pending_free s)) s) ;;
                     q_stream_free h) l.

(** Cancels and empties the response of every tracked stream. *)
Definition destroy_stream (p : sptr) : sess unit :=
  st ← get_live p;
  q ← nonnull (h3_stream_response_cleanup_locked (h3_stream_response_cancel_locked (st_resp st)));
  modify (upd_stream p (set_st_resp q)).

Definition h3_session_destroy : sess unit :=
  modify (set_ss_ngh3 None) ;;
  table ← gets ss_streams;
  for_each (fun x => destroy_stream (snd x)) (hash_walk table) ;;
  free_pending ;;
  c ← gets ss_qconn;
  match c with
  | Some h => q_conn_free h ;; modify (set_ss_qconn None)
  | None => mret tt
  end.

(** ** Driving the streams (h3_stream.c) *)

Definition mark_ngh3_dead (liberr : Z) : sess unit :=
  modify (fun s => set_ss_abort_reason (Some (ngh_strerror liberr))
    (set_ss_abort_code (ngh_err_code liberr) (set_ss_ngh3_dead true s))).

Definition unblock_stream (x : Z * sptr) : sess unit :=
  st ← get_stream (snd x);
  if negb (st_write_blocked st) then mret tt
  else
    full ← (match st_qstream st with Some h => q_is_write_blocked h | None => mret false end);
    if (full : bool) then mret tt
    else
      modify (fun s => set_ss_blocked (ss_blocked s - 1)
                         (upd_stream (snd x) (set_st_write_blocked false) s)) ;;
      on_ngh (fun n => ngh_unblock_stream n (st_stream_id st)).

Definition unblock_writable_streams : sess unit :=
  blocked ← gets ss_blocked;
  if blocked <=? 0 then mret tt
  else table ← gets ss_streams; for_each unblock_stream (hash_walk table).

(** [apr_atomic_add64]. *)
Definition count_written (n : Z) : sess unit :=
  when ((0 <? n) && io) (modify (fun s => set_ss_bytes_written (ss_bytes_written s +64 n) s)).
Definition count_read (n : Z) : sess unit :=
  when io (modify (fun s => set_ss_bytes_read (ss_bytes_read s +64 n) s)).

(** The two offset calls that tell nghttp3 how much was taken. *)
Definition add_offsets (sid n : Z) : sess unit :=
  on_ngh (fun g => ngh_add_write_offset g sid n) ;; call_ngh (fun g => ngh_add_ack_offset g sid n).

(** Writing what nghttp3 has for one stream. *)
Definition flush_stream (sid : Z) (fin : bool) (vecs : list bytes) : sess unit :=
  let expected := wrap64 (vecs_len vecs) in
  found ← h3_stream_find sid;
  match found with
  | None => add_offsets sid expected
  | Some p =>
      st ← get_stream p;
      match st_qstream st with
      | None => add_offsets sid expected
      | Some h =>
          res ← q_write h vecs fin;
          count_written (wr_accepted res) ;;
          if wr_broken res then add_offsets sid expected
          else
            add_offsets sid (wr_accepted res) ;;
            if wr_blocked res then
              st ← get_stream p;
              if negb (st_write_blocked st) then
                modify (fun s => set_ss_blocked (ss_blocked s + 1)
                                   (upd_stream p (set_st_write_blocked true) s)) ;;
                on_ngh (fun g => ngh_block_stream g sid)
              else mret tt
            else mret tt
      end
  end.

(** [for (;;)]: one round per unit of fuel. *)
Fixpoint flush_loop (fuel : nat) : sess unit :=
  match fuel with
  | O => out_of_fuel
  | S k =>
      r ← call_ngh ngh_writev_stream;
      match r with
      | WvError liberr => mark_ngh3_dead liberr
      | WvStream sid fin vecs =>
          if bool_decide (vecs = []) && (sid <? 0) then mret tt
          else flush_stream sid fin vecs ;; flush_loop k
      end
  end.

Definition flush_nghttp3 (fuel : nat) : sess unit :=
  dead ← gets ss_ngh3_dead;
  if (dead : bool) then mret tt
  else unblock_writable_streams ;; flush_loop fuel ;; free_pending.

Definition feed_stream_fin (p : sptr) : sess unit :=
  st ← get_stream p;
  consumed ← call_ngh (fun g => ngh_read_stream g (st_stream_id st) [] true);
  when (consumed <? 0) (mark_ngh3_dead consumed) ;;
  modify (upd_stream p (set_st_body_complete true)).

(** The read loop of [drain_one_stream]: the loop ends when [reads] is used up, so it
    recurses on it; the result is what is left of the two budgets and whether anything was
    read. *)
Fixpoint drain_reads (p : sptr) (buf_size : Z) (reads : nat) (bytes_left : Z) (data_read : bool)
    : sess (nat * Z * bool) :=
  match reads with
  | O => mret (O, bytes_left, data_read)
  | S reads' =>
      if bytes_left <=? 0 then mret (reads, bytes_left, data_read)
      else
        st ← get_stream p;
        match st_qstream st with
        | None => modify (upd_stream p (set_st_done true)) ;; mret (reads, bytes_left, data_read)
        | Some h =>
            let read_size := if buf_size <? bytes_left then buf_size else bytes_left in
            r ← q_read h read_size;
            if rd_ok r && (0 <? blen (rd_bytes r)) then
              let nread := blen (rd_bytes r) in
              count_read nread ;;
              modify (set_ss_pending (st_stream_id st, Some p)) ;;
              consumed ← call_ngh (fun g => ngh_read_stream g (st_stream_id st) (rd_bytes r) false);
              modify (set_ss_pending (-1, None)) ;;
              if consumed <? 0 then
                mark_ngh3_dead consumed ;;
                modify (upd_stream p (set_st_done true)) ;;
                mret (reads', bytes_left -64 nread, true)
              else
                st ← get_stream p;
                if st_done st then mret (reads', bytes_left -64 nread, true)
                else drain_reads p buf_size reads' (bytes_left -64 nread) true
            else
              when (rd_fin r) (feed_stream_fin p) ;;
              mret (reads, bytes_left, data_read)
        end
  end.

Definition drain_one_stream (p : sptr) (reads : nat) (bytes_left : Z) (data_read : bool)
    : sess (bool * (nat * Z * bool)) :=
  let buf_size := h3_stream_buffer_size conf in
  modify (fun s => if (ss_read_buf_size s =? 0) || (ss_read_buf_size s <? buf_size)
                   then set_ss_read_buf_size buf_size s else s) ;;
  st ← get_stream p;
  fins ← (match st_qstream st with
          | Some h => q_is_read_finished h
          | None => mret (false, false)
          end);
  if fst (fins : bool * bool) then
    (if negb (st_body_complete st) then feed_stream_fin p else mret tt) ;;
    st ← get_stream p;
    (if bool_decide (is_Some (st_qstream st)) && snd fins
     then call_ngh (fun g => ngh_close_stream g (st_stream_id st)) else mret tt) ;;
    st ← get_stream p;
    mret (ready_to_dispatch st, (reads, bytes_left, data_read))
  else
    left ← drain_reads p buf_size reads bytes_left data_read;
    st ← get_stream p;
    mret (ready_to_dispatch st, left).

(** The snapshot loop with its guard against a corrupted table. *)
Fixpoint take_snapshot (total iterations : Z) (walk : list (Z * sptr)) (acc : list sptr)
    : sess (list sptr) :=
  match walk with
  | [] => mret acc
  | (_, p) :: walk' =>
      if total + 100 <? iterations + 1
      then modify (set_ss_aborted true) ;; mret acc
      else take_snapshot total (iterations + 1) walk' (acc ++ [p])
  end.

(** The streams of the snapshot from [start] on, [todo] of them left. *)
Fixpoint drain_pass (snapshot : list sptr) (start : Z) (offset : Z) (todo : nat)
    (reads : nat) (bytes_left : Z) (data_read : bool) (completed : list sptr)
    : sess (list sptr * bool) :=
  let nelts := Z.of_nat (length snapshot) in
  match todo with
  | O => mret (completed, data_read)
  | S todo' =>
      dead ← gets ss_ngh3_dead;
      if (dead : bool) then mret (completed, data_read)
      else
        let i := (start + offset) mod nelts in
        p ← nonnull (snapshot !! Z.to_nat i);
        st ← get_stream p;
        if st_done st || bool_decide (st_qstream st = None) || H3_SID_IS_SERVER (st_stream_id st)
        then drain_pass snapshot start (offset + 1) todo' reads bytes_left data_read completed
        else
          r ← drain_one_stream p reads bytes_left data_read;
          let '(ready, (reads', bytes', read')) := r in
          dead ← gets ss_ngh3_dead;
          let completed' := if (ready : bool) && negb dead then completed ++ [p] else completed in
          if (reads' =? 0)%nat || (bytes' =? 0) then
            modify (set_ss_cursor ((i + 1) mod nelts)) ;; mret (completed', read')
          else drain_pass snapshot start (offset + 1) todo' reads' bytes' read' completed'
  end.

(** A closed request whose worker has returned is dropped from the table, and its pool is
    destroyed. *)
Definition reclaimable (st : h3_stream) : bool :=
  st_is_bidi st && negb (H3_SID_IS_SERVER (st_stream_id st)) && st_done st
  && bool_decide (st_qstream st = None) && st_dispatched st && st_worker_done st.

Definition reclaim (p : sptr) : sess unit :=
  st ← get_stream p;
  if negb (reclaimable st) then mret tt
  else
    q ← nonnull (h3_stream_response_cleanup_locked (st_resp st));
    modify (fun s =>
      let s := if st_write_blocked st then set_ss_blocked (ss_blocked s - 1) s else s in
      set_ss_streams (delete (st_stream_id st) (ss_streams s))
        (upd_stream p (fun x => set_st_pool false (set_st_resp q (set_st_write_blocked false x))) s)).

(** The requests that became complete, and whether anything was read. *)
Definition drain_ready_streams : sess (list sptr * bool) :=
  table ← gets ss_streams;
  snapshot ← take_snapshot (Z.of_nat (size table)) 0 (hash_walk table) [];
  cursor ← gets ss_cursor;
  let start := if bool_decide (snapshot = []) then 0
               else cursor mod Z.of_nat (length snapshot) in
  r ← drain_pass snapshot start 0 (length snapshot) H3_STREAM_DRAIN_READ_BUDGET
        H3_STREAM_DRAIN_BYTE_BUDGET false [];
  for_each reclaim snapshot ;;
  mret r.

End Session.
