(* ===== verification/SessionInv.v ===== *)
(** * The session invariant (h3_session.c, h3_stream.c, h3_callbacks.c)

    What every function of [Session] preserves, whatever the peer sends and however
    nghttp3 calls back: the table of streams and the stream objects agree, the count of
    write-blocked streams is right, every QUIC handle has one owner (a stream, the list of
    streams to free, the connection, or the freed ones), and every response queue and
    body buffer is well formed, with at least the bytes nghttp3 has still to acknowledge.

    The pool of a tracked stream exists, and a callback has used a pool that was destroyed
    only for a stream that nghttp3 had asked to stop.

    [Nghttp3Spec] states what is relied on of nghttp3: it passes back only the user data
    it was given, for the stream it was given for, forgets a stream it has reported closed,
    and acknowledges only bytes it was handed. *)

From S2P Require Import Prelude Effects LinkedQueue RespQueue Config Body Quic Stream Session.

(** ** What nghttp3 guarantees *)

Section Nghttp3Laws.
Context {N : Type} `{NG : Nghttp3 N}.

(** The user data of every stream satisfies [P]. *)
Definition known (P : Z -> sptr -> Prop) (n : N) : Prop :=
  forall sid p, ngh_user_data n sid = Some p -> P sid p.

(** A call that changes neither the user data nor what is unacknowledged. *)
Definition ngh_same (n n' : N) : Prop :=
  (forall sid p, ngh_user_data n' sid = Some p -> ngh_user_data n sid = Some p)
  /\ forall p, ngh_unacked n' p = ngh_unacked n p.

Definition bump (f : sptr -> Z) (p : sptr) (d : Z) (q : sptr) : Z :=
  if decide (q = p) then f q + d else f q.

(** A callback acknowledges at most what its stream has outstanding, and passes buffers
    that exist in memory. *)
Definition cb_ok (f : sptr -> Z) (cb : ngh_cb) (user_data : option sptr) : Prop :=
  match cb, user_data with
  | CbAcked n, Some p => 0 <= n <= f p
  | CbRecvData d, _ => data_ok d
  | CbReadData veccnt, _ => veccnt <> O
  | _, _ => True
  end.

(** What is outstanding after the callback. *)
Definition acct_after (f : sptr -> Z) (cb : ngh_cb) (user_data : option sptr) (r : cb_reply)
    : sptr -> Z :=
  match cb, user_data, r with
  | CbAcked n, Some p, _ => bump f p (- n)
  | CbReadData _, Some p, ReplyData r => bump f p (blen (reply_bytes r))
  | _, _, _ => f
  end.

(** The stream a callback is made for; [G] are those closed during the call. *)
Definition made_for (cb : ngh_cb) (sid : Z) : Prop :=
  match cb with CbBeginHeaders i | CbStreamClose i => sid = i | _ => True end.

Definition closed_after (cb : ngh_cb) (G : list Z) : list Z :=
  match cb with CbStreamClose sid => sid :: G | _ => G end.

Definition still (P : Z -> sptr -> Prop) (G : list Z) (sid : Z) (p : sptr) : Prop := P sid p /\ sid ∉ G.

Lemma still_nil P n : known P n -> known (still P []) n.
Proof. intros H sid p Hp. split; [by apply H|by intros ?%elem_of_nil]. Qed.

(** A call passes on the user data of streams that have not been closed, and leaves that of
    no other behind. *)
Fixpoint prog_ok {R} (P : Z -> sptr -> Prop) (G : list Z) (f : sptr -> Z) (pr : prog N R) : Prop :=
  match pr with
  | Done n _ => known (still P G) n /\ forall p, ngh_unacked n p <= f p
  | Call n cb user_data k =>
      known (still P G) n
      /\ (forall p, user_data = Some p -> exists sid, still P G sid p /\ made_for cb sid)
      /\ (forall sid, cb = CbBeginHeaders sid -> sid ∉ G) /\ cb_ok f cb user_data
      /\ forall n' r, known (still P G) n' -> (forall p, ngh_unacked n' p = ngh_unacked n p) ->
         prog_ok P (closed_after cb G) (acct_after f cb user_data r) (k n' r)
  end.

End Nghttp3Laws.

Class Nghttp3Spec (N : Type) `(NG : Nghttp3 N) := {
  ngh_unacked_nonneg n p : 0 <= ngh_unacked n p;
  ngh_new_clean n : ngh_server_new = Some n ->
    (forall sid, ngh_user_data n sid = None) /\ forall p, ngh_unacked n p = 0;
  ngh_max_same n z : ngh_same n (ngh_set_max_streams n z);
  ngh_control_same n a : ngh_same n (fst (ngh_bind_control_stream n a));
  ngh_qpack_same n a b : ngh_same n (fst (ngh_bind_qpack_streams n a b));
  ngh_write_offset_same n sid z : ngh_same n (ngh_add_write_offset n sid z);
  ngh_block_same n sid : ngh_same n (ngh_block_stream n sid);
  ngh_unblock_same n sid : ngh_same n (ngh_unblock_stream n sid);
  ngh_resume_same n sid : ngh_same n (ngh_resume_stream n sid);
  ngh_submit_same n sid nva : ngh_same n (fst (ngh_submit_response n sid nva));
  ngh_notice_same n : ngh_same n (ngh_submit_shutdown_notice n);
  ngh_shutdown_same n : ngh_same n (ngh_shutdown n);
  ngh_set_user_data n sid p sid' q :
    ngh_user_data (ngh_set_stream_user_data n sid p) sid' = Some q ->
    (sid' = sid /\ q = p) \/ ngh_user_data n sid' = Some q;
  ngh_set_unacked n sid p q : ngh_unacked (ngh_set_stream_user_data n sid p) q = ngh_unacked n q;
  ngh_read_ok P n sid d fin : known P n -> prog_ok P [] (ngh_unacked n) (ngh_read_stream n sid d fin);
  ngh_writev_ok P n : known P n -> prog_ok P [] (ngh_unacked n) (ngh_writev_stream n);
  ngh_ack_ok P n sid z : known P n -> prog_ok P [] (ngh_unacked n) (ngh_add_ack_offset n sid z);
  ngh_close_ok P n sid : known P n -> prog_ok P [] (ngh_unacked n) (ngh_close_stream n sid) }.

(** ** The invariant *)

Section Invariant.
Context {N E : Type} {NG : Nghttp3 N} {QS : QuicStreams E} {QC : QuicConns E} {AH : AprHash}.
Context (conf : h3_server_conf).
Abbreviation session := (@h3_session N E).
Implicit Types (s : session) (st : h3_stream) (p q : sptr) (f : sptr -> Z).

(** Request body and cancellation: a stream that gave up its QUIC stream is cancelled, one
    whose pool is gone has had its worker and no QUIC stream, and only a dispatched one has
    had a worker. *)
Definition stream_ok st : Prop :=
  rb_inv (h3_max_request_body_size conf) (st_body st)
  /\ (st_qstream st = None -> rq_cancelled (st_resp st) = true)
  /\ (st_pool st = false -> st_worker_done st = true /\ st_qstream st = None)
  /\ (st_worker_done st = true -> st_dispatched st = true).

(** A stream that nghttp3 may know: it has not been closed, or was asked to stop. *)
Definition good st : Prop := is_Some (st_qstream st) \/ st_body_truncated st = true.

(** A worker has been given the stream and has not said it is done. *)
Definition busy st : Prop :=
  st_dispatched st = true /\ st_worker_done st = false /\ st_pool st = true.

(** The buffer limit of a stream. *)
Definition stream_limit : Z :=
  if negb (h3_stream_buffer_size conf =? 0) then h3_stream_buffer_size conf
  else H3_STREAM_BUFFER_SIZE_DEFAULT.

(** The queue is well formed, has that limit, and holds the [n] bytes nghttp3 may still
    acknowledge, or it was emptied after a cancellation and will stay empty. *)
Definition resp_ok (n : Z) (rq : resp_queue) : Prop :=
  exists a, (rq_refines rq a /\ aq_limit a = stream_limit)
    /\ (0 <= n <= blen (aq_inflight a)
        \/ aq_cancelled a = true /\ aq_inflight a = [] /\ aq_pending a = []).

Definition acct s f : Prop :=
  forall p st, ss_heap s !! p = Some st -> resp_ok (f p) (st_resp st).

Definition unacked_of s p : Z :=
  match ss_ngh3 s with Some n => ngh_unacked n p | None => 0 end.

(** Whether the stream at [p] is marked write-blocked, and the tracked ones that are. *)
Definition is_blocked (heap : gmap sptr h3_stream) p : bool :=
  match heap !! p with Some st => st_write_blocked st | None => false end.

Definition blocked_map s : gmap Z sptr :=
  filter (fun kv => is_blocked (ss_heap s) (snd kv) = true) (ss_streams s).

(** Every handle with an owner. *)
Definition held (heap : gmap sptr h3_stream) : list handle :=
  omap (fun x => st_qstream (snd x)) (map_to_list heap).

Definition owned s : list handle :=
  held (ss_heap s) ++ ss_pending_free s ++ ss_freed s ++ option_list (ss_qconn s).

Record core_inv s : Prop := {
  ci_table : forall sid p, ss_streams s !! sid = Some p ->
    exists st, ss_heap s !! p = Some st /\ st_stream_id st = sid;
  ci_next : forall p, is_Some (ss_heap s !! p) -> (p < ss_next s)%positive;
  ci_blocked : ss_blocked s = Z.of_nat (size (blocked_map s));
  ci_stream : forall p st, ss_heap s !! p = Some st -> stream_ok st;
  ci_owned : NoDup (owned s);
  ci_fresh : Forall (fun h => (h < ss_fresh s)%positive) (owned s);
  ci_pool : forall sid p st, ss_streams s !! sid = Some p -> ss_heap s !! p = Some st -> st_pool st = true;
  ci_stale : forall p, p ∈ ss_stale s -> exists st, ss_heap s !! p = Some st /\ st_body_truncated st = true }.

Definition valid s p : Prop := is_Some (ss_heap s !! p).

(** A stream of the session by its number that nghttp3 may know. *)
Definition in_use s (sid : Z) p : Prop :=
  exists st, ss_heap s !! p = Some st /\ st_stream_id st = sid /\ good st.

(** nghttp3 knows only such streams, and has nothing outstanding of others. *)
Definition ngh_ok s (n : N) : Prop :=
  known (in_use s) n /\ forall p, ss_heap s !! p = None -> ngh_unacked n p <= 0.

(** An open session; [pending] is only set while a stream's data is fed to nghttp3. *)
Record sess_inv s : Prop := {
  si_core : core_inv s;
  si_ngh : exists n, ss_ngh3 s = Some n /\ ngh_ok s n;
  si_qconn : is_Some (ss_qconn s);
  si_acct : acct s (unacked_of s);
  si_pending : snd (ss_pending s) = None }.

(** What never goes back: streams keep their identity, stay cancelled, done and stopped; one
    that a worker uses stays usable, and a freed handle stays freed. *)
Definition stream_le st st' : Prop :=
  st_stream_id st' = st_stream_id st /\ st_is_bidi st' = st_is_bidi st
  /\ (rq_cancelled (st_resp st) = true -> rq_cancelled (st_resp st') = true)
  /\ (st_done st = true -> st_done st' = true)
  /\ (st_body_truncated st = true -> st_body_truncated st' = true)
  /\ (busy st -> busy st').

Record sess_le s s' : Prop := {
  sl_heap : forall p st, ss_heap s !! p = Some st ->
    exists st', ss_heap s' !! p = Some st' /\ stream_le st st';
  sl_freed : forall h, h ∈ ss_freed s -> h ∈ ss_freed s';
  sl_tasks : ss_active_tasks s' = ss_active_tasks s;
  sl_qconn : forall c, ss_qconn s' = Some c -> ss_qconn s = Some c;
  sl_fresh : (ss_fresh s <= ss_fresh s')%positive }.

#[export] Instance stream_le_preorder : PreOrder stream_le.
Proof. split; [done|]. unfold stream_le. intros x y z. naive_solver congruence. Qed.

#[export] Instance sess_le_preorder : PreOrder sess_le.
Proof.
  split.
  - intros s. split; [|done|done|done|lia]. intros p st H. by exists st.
  - intros x y z [A1 A2 A4 A5 A3] [B1 B2 B4 B5 B3]. split; [|auto|congruence|auto|lia]. intros p st H.
    destruct (A1 _ _ H) as (st1 & H1 & L1). destruct (B1 _ _ H1) as (st2 & H2 & L2).
    exists st2. split; [done|by etrans].
Qed.

(** What nghttp3's callbacks leave alone. *)
Record same_shape s s' : Prop := {
  ss_same_streams : ss_streams s' = ss_streams s;
  ss_same_pending : ss_pending s' = ss_pending s;
  ss_same_freed : ss_freed s' = ss_freed s;
  ss_same_fresh : ss_fresh s' = ss_fresh s;
  ss_same_qconn : ss_qconn s' = ss_qconn s;
  ss_same_dead : ss_ngh3_dead s' = ss_ngh3_dead s;
  ss_same_blocked : forall p, is_blocked (ss_heap s') p = is_blocked (ss_heap s) p;
  ss_same_dom : forall p, is_Some (ss_heap s' !! p) <-> is_Some (ss_heap s !! p) }.

#[export] Instance same_shape_preorder : PreOrder same_shape.
Proof.
  split; [by split|].
  intros x y z [A1 A2 A3 A4 A5 A6 A7 A8] [B1 B2 B3 B4 B5 B6 B7 B8]. split; try congruence.
  intros p. by rewrite B8.
Qed.

(** Streams that nghttp3 may know stay so. *)
Definition good_le s s' : Prop :=
  forall p st, ss_heap s !! p = Some st ->
    exists st', ss_heap s' !! p = Some st' /\ st_stream_id st' = st_stream_id st /\ (good st -> good st').

Lemma good_le_same s s' : ss_heap s' = ss_heap s -> good_le s s'.
Proof. intros Hh p st Hp. exists st. by rewrite Hh. Qed.

Lemma good_le_store s s' p st st' :
  ss_heap s !! p = Some st -> ss_heap s' = <[p := st']> (ss_heap s) ->
  st_stream_id st' = st_stream_id st -> (good st -> good st') -> good_le s s'.
Proof.
  intros Hp Hh Hid Hg q st0 Hq. rewrite Hh. destruct (decide (q = p)) as [->|].
  - rewrite lookup_insert_eq. simplify_eq. by exists st'.
  - rewrite lookup_insert_ne by done. by exists st0.
Qed.

Lemma ngh_ok_le s s' n : ngh_ok s n -> good_le s s' -> ngh_ok s' n.
Proof.
  intros [Hk Hu] Hg. split.
  - intros sid p Hp. destruct (Hk sid p Hp) as (st & Hst & <- & Hgood).
    destruct (Hg p st Hst) as (st' & Hst' & Hid & Hg'). exists st'. auto.
  - intros p Hp. apply Hu. destruct (ss_heap s !! p) as [st|] eqn:E0; [|done].
    destruct (Hg p st E0) as (st' & Hst' & _). congruence.
Qed.

Lemma good_keeps st st' :
  st_qstream st' = st_qstream st -> stream_le st st' -> good st -> good st'.
Proof. intros Hq (_ & _ & _ & _ & Ht & _) [?|?]; [left; by rewrite Hq|right; auto]. Qed.

(** ** Updating one stream *)

Lemma held_insert heap p st :
  held (<[p := st]> heap) ≡ₚ option_list (st_qstream st) ++ held (delete p heap).
Proof.
  unfold held. rewrite <- insert_delete_eq. rewrite map_to_list_insert by apply lookup_delete_eq.
  simpl. by destruct (st_qstream st).
Qed.

Lemma held_lookup heap p st :
  heap !! p = Some st -> held heap ≡ₚ option_list (st_qstream st) ++ held (delete p heap).
Proof. intros H. rewrite <- held_insert. by rewrite insert_id. Qed.

Lemma alter_insert_eq (heap : gmap sptr h3_stream) p st (g : h3_stream -> h3_stream) :
  heap !! p = Some st -> alter g p heap = <[p := g st]> heap.
Proof.
  intros H. apply map_eq. intros q. destruct (decide (q = p)) as [->|].
  - by rewrite lookup_alter_eq, lookup_insert_eq, H.
  - by rewrite lookup_alter_ne, lookup_insert_ne by done.
Qed.

Lemma upd_stream_eq s p st g :
  ss_heap s !! p = Some st -> upd_stream p g s = set_ss_heap (<[p := g st]> (ss_heap s)) s.
Proof. intros H. unfold upd_stream. by erewrite alter_insert_eq. Qed.

(** Storing [st'] in place of [st], with the same place in the table. *)
Lemma blocked_map_same s p st st' :
  ss_heap s !! p = Some st -> st_write_blocked st' = st_write_blocked st ->
  blocked_map (set_ss_heap (<[p := st']> (ss_heap s)) s) = blocked_map s.
Proof.
  intros Hp Hw. unfold blocked_map. simpl. apply map_filter_ext. intros sid q _. simpl.
  unfold is_blocked. destruct (decide (q = p)) as [->|].
  - by rewrite lookup_insert_eq, Hp, Hw.
  - by rewrite lookup_insert_ne by done.
Qed.

Lemma insert_is_Some s p st st' q :
  ss_heap s !! p = Some st -> is_Some (<[p := st']> (ss_heap s) !! q) <-> is_Some (ss_heap s !! q).
Proof.
  intros Hp. destruct (decide (q = p)) as [->|].
  - rewrite lookup_insert_eq, Hp. naive_solver.
  - by rewrite lookup_insert_ne by done.
Qed.

(** The general form: [pend] and [freed] are the new lists. *)
Lemma core_store s p st st' pend :
  core_inv s -> ss_heap s !! p = Some st -> st_stream_id st' = st_stream_id st ->
  (st_body_truncated st = true -> st_body_truncated st' = true) -> st_pool st' = st_pool st ->
  st_write_blocked st' = st_write_blocked st -> stream_ok st' ->
  option_list (st_qstream st') ++ pend ≡ₚ option_list (st_qstream st) ++ ss_pending_free s ->
  core_inv (set_ss_pending_free pend (set_ss_heap (<[p := st']> (ss_heap s)) s)).
Proof.
  intros [C1 C2 C3 C4 C5 C6 C7 C8] Hp Hid Htr Hpl Hw Hok Hperm.
  assert (Hown : owned (set_ss_pending_free pend (set_ss_heap (<[p := st']> (ss_heap s)) s)) ≡ₚ owned s).
  { unfold owned. simpl. rewrite held_insert, (held_lookup _ _ _ Hp).
    rewrite !(Permutation_app_comm _ (held (delete p (ss_heap s)))), <- !app_assoc.
    apply Permutation_app_head. rewrite !app_assoc. by rewrite Hperm. }
  split; simpl.
  - intros sid q Hq. destruct (C1 _ _ Hq) as (st0 & H0 & Hsid). destruct (decide (q = p)) as [->|].
    + exists st'. rewrite lookup_insert_eq. split; [done|]. congruence.
    + exists st0. by rewrite lookup_insert_ne.
  - intros q. rewrite (insert_is_Some _ _ _ _ _ Hp). apply C2.
  - rewrite C3. do 2 f_equal. symmetry. by apply (blocked_map_same s p st st').
  - intros q st0. destruct (decide (q = p)) as [->|].
    + rewrite lookup_insert_eq. intros. by simplify_eq.
    + rewrite lookup_insert_ne by done. apply C4.
  - by rewrite Hown.
  - by rewrite Hown.
  - intros sid q st0 Hq. destruct (decide (q = p)) as [->|].
    + rewrite lookup_insert_eq. intros. simplify_eq. rewrite Hpl. by apply (C7 sid p).
    + rewrite lookup_insert_ne by done. by apply (C7 sid).
  - intros q Hq. destruct (C8 q Hq) as (st0 & H0 & Ht). destruct (decide (q = p)) as [->|].
    + exists st'. rewrite lookup_insert_eq. split; [done|]. apply Htr. congruence.
    + exists st0. by rewrite lookup_insert_ne.
Qed.

Lemma core_upd s p st st' :
  core_inv s -> ss_heap s !! p = Some st -> st_stream_id st' = st_stream_id st ->
  (st_body_truncated st = true -> st_body_truncated st' = true) -> st_pool st' = st_pool st ->
  st_write_blocked st' = st_write_blocked st -> stream_ok st' -> st_qstream st' = st_qstream st ->
  core_inv (set_ss_heap (<[p := st']> (ss_heap s)) s).
Proof.
  intros Hc Hp Hid Htr Hpl Hw Hok Hq.
  pose proof (core_store s p st st' (ss_pending_free s) Hc Hp Hid Htr Hpl Hw Hok) as H.
  rewrite Hq in H. specialize (H (reflexivity _)). destruct s; exact H.
Qed.

(** The QUIC stream moves to the list of streams to free. *)
Lemma core_release s p st st' :
  core_inv s -> ss_heap s !! p = Some st -> stream_le st st' -> st_pool st' = st_pool st ->
  st_write_blocked st' = st_write_blocked st -> stream_ok st' -> st_qstream st' = None ->
  core_inv (upd_stream p (fun _ => st') (h3_session_queue_free (st_qstream st) s)).
Proof.
  intros Hc Hp (Hid & _ & _ & _ & Htr & _) Hpl Hw Hok Hq.
  assert (Hp' : ss_heap (h3_session_queue_free (st_qstream st) s) !! p = Some st)
    by (by destruct (st_qstream st)).
  rewrite (upd_stream_eq _ _ _ _ Hp').
  pose proof (core_store s p st st' (option_list (st_qstream st) ++ ss_pending_free s)
    Hc Hp Hid Htr Hpl Hw Hok) as H.
  rewrite Hq in H. specialize (H (reflexivity _)).
  destruct s; destruct (st_qstream st); exact H.
Qed.

(** Storing leaves the rest of the accounts alone. *)
Lemma acct_store s s' p st st' f g :
  acct s f -> ss_heap s !! p = Some st -> ss_heap s' = <[p := st']> (ss_heap s) ->
  resp_ok (g p) (st_resp st') -> (forall q, q <> p -> g q = f q) -> acct s' g.
Proof.
  intros Ha Hp Hh Hok Hg q st0. rewrite Hh. destruct (decide (q = p)) as [->|].
  - rewrite lookup_insert_eq. intros. by simplify_eq.
  - rewrite lookup_insert_ne by done. intros H. rewrite Hg by done. by apply Ha.
Qed.

Lemma shape_store s s' p st st' :
  ss_heap s !! p = Some st -> ss_heap s' = <[p := st']> (ss_heap s) ->
  st_write_blocked st' = st_write_blocked st ->
  ss_streams s' = ss_streams s -> ss_pending s' = ss_pending s -> ss_freed s' = ss_freed s ->
  ss_fresh s' = ss_fresh s -> ss_qconn s' = ss_qconn s -> ss_ngh3_dead s' = ss_ngh3_dead s ->
  same_shape s s'.
Proof.
  intros Hp Hh Hw E1 E2 E3 E4 E5 E6. split; try done; intros q; rewrite Hh.
  - unfold is_blocked. destruct (decide (q = p)) as [->|].
    + by rewrite lookup_insert_eq, Hp.
    + by rewrite lookup_insert_ne by done.
  - by apply (insert_is_Some _ _ _ _ _ Hp).
Qed.

Lemma le_store s s' p st st' :
  ss_heap s !! p = Some st -> ss_heap s' = <[p := st']> (ss_heap s) -> stream_le st st' ->
  (forall h, h ∈ ss_freed s -> h ∈ ss_freed s') -> ss_active_tasks s' = ss_active_tasks s ->
  (forall c, ss_qconn s' = Some c -> ss_qconn s = Some c) ->
  (ss_fresh s <= ss_fresh s')%positive -> sess_le s s'.
Proof.
  intros Hp Hh Hle Hf Ht Hqc Hfr. split; [|done|done|done|done]. intros q st0 Hq. rewrite Hh.
  destruct (decide (q = p)) as [->|].
  - rewrite lookup_insert_eq. simplify_eq. by exists st'.
  - rewrite lookup_insert_ne by done. by exists st0.
Qed.

(** ** Response queues *)

Lemma refines_cancelled rq a : rq_refines rq a -> aq_cancelled a = rq_cancelled rq.
Proof. by intros (sub & pend & _ & ->). Qed.

Lemma resp_ok_mono n m rq : 0 <= m <= n -> resp_ok n rq -> resp_ok m rq.
Proof.
  intros Hm (a & Ha & [Hn|He]); exists a; (split; [done|]); [left; lia|by right].
Qed.

Lemma resp_ok_new : 0 < stream_limit <= SIZE_MAX -> resp_ok 0 (rq_new stream_limit).
Proof.
  intros H. exists (AQueue [] [] stream_limit false false). split; [|left; vm_compute; split; congruence].
  split; [|done]. exists [], []. split; [by apply rq_new_inv|done].
Qed.

Lemma resp_ok_cancel n rq : resp_ok n rq -> resp_ok n (h3_stream_response_cancel_locked rq).
Proof.
  intros (a & [Ha Hl] & Hn). destruct (cancel_refines _ _ Ha) as (a' & Hs & Ha').
  exists a'. inversion Hs; subst; simpl in *. split; [done|]. naive_solver.
Qed.

Lemma resp_ok_complete n rq : resp_ok n rq -> resp_ok n (rq_set_complete rq).
Proof.
  intros (a & [Ha Hl] & Hn). destruct (complete_refines _ _ Ha) as (a' & Hs & Ha').
  exists a'. inversion Hs; subst; simpl in *. split; [done|]. naive_solver.
Qed.

Lemma resp_ok_submitted n rq : resp_ok n rq -> resp_ok n (rq_set_submitted rq).
Proof.
  intros (a & [(sub & pend & Hi & ->) Hl] & Hn). eexists. split; [|exact Hn].
  split; [|exact Hl]. exists sub, pend. split; [by apply rq_inv_submitted|done].
Qed.

Lemma ack_empty rq n : lq_head (rq_q rq) = None -> h3_stream_response_ack_locked rq n = Some (rq, false).
Proof. intros H. unfold h3_stream_response_ack_locked. simpl. by rewrite H. Qed.

Lemma refines_empty_head rq a :
  rq_refines rq a -> aq_inflight a = [] -> aq_pending a = [] -> lq_head (rq_q rq) = None.
Proof.
  intros (sub & pend & Hi & ->) H1 H2. simpl in *.
  rewrite (lq_rep_head _ _ (inv_rep _ _ _ Hi)).
  pose proof (inv_wf _ _ _ Hi) as [Hw1 Hw2]%Forall_app.
  apply queue_bytes_nil in H1 as ->; [|done]. by apply queue_bytes_nil in H2 as ->.
Qed.

Lemma resp_ok_ack n c rq :
  resp_ok n rq -> 0 <= c <= n ->
  exists rq' b, h3_stream_response_ack_locked rq c = Some (rq', b) /\ resp_ok (n - c) rq'
    /\ rq_cancelled rq' = rq_cancelled rq.
Proof.
  intros (a & [Ha Hl] & [Hn|(Hc & Hi & Hp)]) Hle.
  - destruct (ack_refines rq a c Ha) as (rq' & b & a' & He & _ & Hs & Ha'); [lia|].
    exists rq', b. split; [done|]. inversion Hs; subst; simpl in *.
    split; [exists (AQueue (bdrop c i) p lim c0 x); split; [done|left; simpl; rewrite blen_bdrop; lia]|].
    rewrite <- (refines_cancelled _ _ Ha), <- (refines_cancelled _ _ Ha'). done.
  - exists rq, false. rewrite (ack_empty rq c) by (by eapply refines_empty_head). split; [done|].
    split; [|done]. exists a. split; [done|]. by right.
Qed.

Lemma resp_ok_read n cnt rq :
  resp_ok n rq -> cnt <> O ->
  exists rq' r, h3_session_read_data rq cnt = Some (rq', r)
    /\ resp_ok (n + blen (reply_bytes r)) rq' /\ rq_cancelled rq' = rq_cancelled rq.
Proof.
  intros (a & [Ha Hl] & Hn) Hcnt.
  destruct (read_data_refines rq a cnt Ha Hcnt) as (rq' & r & He & Hr). exists rq', r.
  split; [done|]. destruct r as [| |vs eof]; [done| |].
  - destruct Hr as (-> & _ & _). split; [|done]. exists a. split; [done|].
    simpl. rewrite blen_nil, Z.add_0_r. done.
  - destruct Hr as (a' & Hs & Ha'). split.
    2:{ rewrite <- (refines_cancelled _ _ Ha), <- (refines_cancelled _ _ Ha').
        by inversion Hs; subst. }
    exists a'. inversion Hs; subst; simpl in *; (split; [done|]).
    + destruct Hn as [Hn|(? & _ & _)]; [|done]. left. rewrite blen_app.
      pose proof (blen_nonneg (concat (vec_data <$> vs))). lia.
    + assert (concat (vec_data <$> vs) = []) as -> by done. rewrite blen_nil, Z.add_0_r. done.
Qed.

Lemma resp_ok_cleanup n rq :
  resp_ok n rq -> exists rq', h3_stream_response_cleanup_locked rq = Some rq' /\ resp_ok 0 rq'
    /\ rq_cancelled rq' = rq_cancelled rq
    /\ (rq_cancelled rq = true -> forall m, resp_ok m rq').
Proof.
  intros (a & [(sub & pend & [Hrep Hsub Hoff Hwf Hp Hbuf Hbd Hlim Hlen] & ->) Hsl] & _).
  unfold h3_stream_response_cleanup_locked.
  destruct (lq_clear_rep _ _ Hrep) as (l & -> & Hl & _). eexists. split; [done|].
  assert (Href : rq_refines (RespQueue l None 0 0 (rq_len rq) (rq_limit rq) (rq_submitted rq)
    (rq_complete rq) (rq_cancelled rq)) (AQueue [] [] (rq_limit rq) (rq_complete rq) (rq_cancelled rq))).
  { exists [], []. split; [|done]. split; simpl; try done; lia. }
  split; [|split; [done|]].
  - eexists. split; [exact (conj Href Hsl)|]. left. vm_compute. split; congruence.
  - intros Hc m. eexists. split; [exact (conj Href Hsl)|]. right. simpl. done.
Qed.

(** ** Running code from a state *)

Lemma bind_ret {S A B} (m : M S A) (k : A -> M S B) (x x' : S) a :
  m x = Ret a x' -> (m ≫= k) x = k a x'.
Proof. intros H. unfold mbind, M_bind. by rewrite H. Qed.

Lemma get_stream_ret s p st : ss_heap s !! p = Some st -> get_stream p s = Ret st s.
Proof. intros H. unfold get_stream, gets, mbind, M_bind. by rewrite H. Qed.

Lemma pool_live_ret s p st : ss_heap s !! p = Some st -> st_pool st = true -> get_live p s = Ret st s.
Proof. intros H Hpl. unfold get_live, mbind, M_bind. by rewrite (get_stream_ret s p st H), Hpl. Qed.

Lemma get_ngh_ret s n : ss_ngh3 s = Some n -> get_ngh s = Ret n s.
Proof. intros H. unfold get_ngh, gets, mbind, M_bind. by rewrite H. Qed.

(** The fields the core invariant is about. *)
Lemma core_ext s s' :
  core_inv s -> ss_heap s' = ss_heap s -> ss_next s' = ss_next s -> ss_streams s' = ss_streams s ->
  ss_blocked s' = ss_blocked s -> ss_pending_free s' = ss_pending_free s ->
  ss_freed s' = ss_freed s -> ss_qconn s' = ss_qconn s -> ss_fresh s' = ss_fresh s ->
  ss_stale s' = ss_stale s -> core_inv s'.
Proof.
  intros [C1 C2 C3 C4 C5 C6 C7 C8] E1 E2 E3 E4 E5 E6 E7 E8 E9.
  assert (owned s' = owned s) as Ho by (unfold owned; congruence).
  split; rewrite ?Ho, ?E1, ?E2, ?E3, ?E4, ?E8, ?E9; try done.
  rewrite C3. unfold blocked_map. by rewrite E1, E3.
Qed.

Lemma le_same_heap s s' :
  ss_heap s' = ss_heap s -> (forall h, h ∈ ss_freed s -> h ∈ ss_freed s') ->
  ss_active_tasks s' = ss_active_tasks s ->
  (forall c, ss_qconn s' = Some c -> ss_qconn s = Some c) ->
  (ss_fresh s <= ss_fresh s')%positive -> sess_le s s'.
Proof. intros E1 E2 E4 E5 E3. split; [|done|done|done|done]. intros p st H. exists st. by rewrite E1. Qed.

Lemma acct_same_heap s s' f : acct s f -> ss_heap s' = ss_heap s -> acct s' f.
Proof. intros H E1 p st. rewrite E1. apply H. Qed.

(** A handle a stream holds has not been freed. *)
Lemma held_elem heap p st h : heap !! p = Some st -> st_qstream st = Some h -> h ∈ held heap.
Proof. intros Hp Hq. rewrite (held_lookup _ _ _ Hp), Hq. set_solver. Qed.

Lemma held_not_freed s p st h :
  core_inv s -> ss_heap s !! p = Some st -> st_qstream st = Some h -> h ∉ ss_freed s.
Proof.
  intros Hc Hp Hq Hf. pose proof (ci_owned _ Hc) as Hnd. unfold owned in Hnd.
  apply NoDup_app in Hnd as (_ & Hdis & _).
  apply (Hdis h); [by eapply held_elem|]. set_solver.
Qed.

Lemma use_ret s h : h ∉ ss_freed s -> use h s = Ret tt s.
Proof.
  intros H. unfold use, gets, mbind, M_bind. by rewrite bool_decide_eq_true_2.
Qed.

(** *** A step of a callback *)

(** Every stream keeps its pool, and stays one that nghttp3 may know, unless [X] says it is
    closed. *)
Definition kept (X : sptr -> Prop) s s' : Prop :=
  forall p st, ss_heap s !! p = Some st ->
    exists st', ss_heap s' !! p = Some st' /\ st_stream_id st' = st_stream_id st /\ st_pool st' = st_pool st
      /\ (good st -> good st' \/ X p).

Lemma kept_store (X : sptr -> Prop) s s' p st st' :
  ss_heap s !! p = Some st -> ss_heap s' = <[p := st']> (ss_heap s) ->
  st_stream_id st' = st_stream_id st -> st_pool st' = st_pool st -> (good st -> good st' \/ X p) -> kept X s s'.
Proof.
  intros Hp Hh Hid Hpl Hg q st0 Hq. rewrite Hh. destruct (decide (q = p)) as [->|].
  - rewrite lookup_insert_eq. simplify_eq. by exists st'.
  - rewrite lookup_insert_ne by done. exists st0. auto.
Qed.

Lemma kept_same X s s' : ss_heap s' = ss_heap s -> kept X s s'.
Proof. intros Hh p st Hp. exists st. rewrite Hh. auto. Qed.

Lemma kept_trans X s1 s2 s3 : kept X s1 s2 -> kept X s2 s3 -> kept X s1 s3.
Proof.
  intros H1 H2 p st Hp. destruct (H1 p st Hp) as (st1 & Hp1 & I1 & P1 & G1).
  destruct (H2 p st1 Hp1) as (st2 & Hp2 & I2 & P2 & G2). exists st2. split_and!; [done|congruence|congruence|].
  intros Hg. destruct (G1 Hg); auto.
Qed.

(** What a callback establishes, with [g] outstanding after it. *)
Definition cb_post (X : sptr -> Prop) s s' (g : sptr -> Z) : Prop :=
  core_inv s' /\ acct s' g /\ sess_le s s' /\ same_shape s s' /\ ss_ngh3 s' = ss_ngh3 s /\ kept X s s'.

Lemma post_upd X s p st st' f g :
  core_inv s -> acct s f -> ss_heap s !! p = Some st -> st_pool st' = st_pool st ->
  st_write_blocked st' = st_write_blocked st -> stream_le st st' ->
  stream_ok st' -> st_qstream st' = st_qstream st ->
  resp_ok (g p) (st_resp st') -> (forall q, q <> p -> g q = f q) ->
  cb_post X s (set_ss_heap (<[p := st']> (ss_heap s)) s) g.
Proof.
  intros Hc Ha Hp Hpl Hw Hle Hok Hq Hr Hg. pose proof Hle as (Hid & _). split_and!.
  - by eapply core_upd; try apply Hle.
  - by eapply (acct_store s _ p st st' f g).
  - by eapply (le_store s _ p st st').
  - by eapply (shape_store s _ p st st').
  - done.
  - eapply (kept_store X s _ p st st'); try done. left. by eapply good_keeps.
Qed.

Lemma post_release (X : sptr -> Prop) s p st st' f :
  core_inv s -> acct s f -> ss_heap s !! p = Some st -> st_pool st' = st_pool st ->
  st_write_blocked st' = st_write_blocked st -> stream_le st st' ->
  stream_ok st' -> st_qstream st' = None -> resp_ok (f p) (st_resp st') -> good st' \/ X p ->
  cb_post X s (upd_stream p (fun _ => st') (h3_session_queue_free (st_qstream st) s)) f.
Proof.
  intros Hc Ha Hp Hpl Hw Hle Hok Hq Hr Hg. pose proof Hle as (Hid & _).
  assert (Hh : ss_heap (upd_stream p (fun _ => st') (h3_session_queue_free (st_qstream st) s))
               = <[p := st']> (ss_heap s)).
  { rewrite <- (alter_insert_eq _ _ _ (fun _ => st') Hp). by destruct (st_qstream st). }
  split_and!.
  - by eapply core_release.
  - by eapply (acct_store s _ p st st' f f).
  - eapply (le_store s _ p st st'); try done; by destruct (st_qstream st).
  - eapply (shape_store s _ p st st'); try done; by destruct (st_qstream st).
  - by destruct (st_qstream st).
  - by eapply (kept_store X s _ p st st').
Qed.

Lemma cancel_le st : stream_le st (stream_cancel st).
Proof. by unfold stream_le. Qed.

End Invariant.

(** ** The callbacks *)

Section Callbacks.
Context {N E : Type} {NG : Nghttp3 N} {NGS : Nghttp3Spec N NG}.
Context {QS : QuicStreams E} {QC : QuicConns E} {AH : AprHash}.
Context (conf : h3_server_conf) (Hbody : rb_max_ok (h3_max_request_body_size conf)).
Abbreviation session := (@h3_session N E).
Implicit Types (s : session) (st : h3_stream) (p q : sptr) (f : sptr -> Z).

Ltac bind_step H := rewrite (bind_ret _ _ _ _ _ H).

(** Storing a stream and answering. *)
Lemma store_answer s p st st' (r : cb_reply) :
  ss_heap s !! p = Some st ->
  (modify (upd_stream p (fun _ => st')) ;; mret r) s
  = Ret r (set_ss_heap (<[p := st']> (ss_heap s)) s).
Proof. intros Hp. unfold mbind, M_bind, modify. by rewrite (upd_stream_eq _ _ _ _ Hp). Qed.

Lemma set_pseudo_frame t v st :
  let st' := snd (set_pseudo t v st) in
  exists h, st' = set_st_head h st.
Proof.
  assert (st = set_st_head (st_head st) st) as Hid by (by destruct st).
  unfold set_pseudo. destruct (_ || _); [by exists (st_head st)|].
  destruct (st_head st) as [m sc a pa h] eqn:Eh. destruct t; simpl; eauto.
Qed.

Lemma recv_header_frame t n v st :
  exists h, snd (on_recv_header t n v st) = set_st_head h st.
Proof.
  unfold on_recv_header. destruct (IS_PSEUDO_TOKEN t); [apply set_pseudo_frame|].
  assert (st = set_st_head (st_head st) st) as Hid by (by destruct st).
  destruct (st_head st) as [m sc a pa [h|]] eqn:Eh; simpl; eauto.
Qed.

Lemma begin_headers_frame st : exists h, begin_headers st = set_st_head h st.
Proof.
  assert (st = set_st_head (st_head st) st) as Hid by (by destruct st).
  unfold begin_headers. destruct (st_head st) as [m sc a pa [h|]] eqn:Eh; [by eauto|].
  destruct (st_is_bidi st); eauto.
Qed.

(** *** Uses of a stream's pool *)

Lemma noted_heap p b s : ss_heap (note_stale p b s) = ss_heap s.
Proof. by destruct b. Qed.

(** A callback on a stream that nghttp3 may know: if the pool is gone, it was asked to stop. *)
Lemma pool_user_spec X s p st u f :
  core_inv conf s -> acct conf s f -> ss_heap s !! p = Some st -> good st ->
  exists s1, pool_user p u s = Ret st s1 /\ ss_heap s1 !! p = Some st /\ ss_pending s1 = ss_pending s
    /\ cb_post conf X s s1 f.
Proof.
  intros Hc Ha Hp Hg. exists (note_stale p (u st && negb (st_pool st)) s).
  unfold pool_user. bind_step (get_stream_ret s p st Hp). split; [done|]. rewrite noted_heap.
  split; [done|]. split; [by destruct (u st && _)|].
  destruct (u st && negb (st_pool st)) eqn:Eb.
  2:{ split_and!; try done; [reflexivity..|]. by apply kept_same. }
  apply andb_true_iff in Eb as [_ Hpl%negb_true_iff].
  assert (Ht : st_body_truncated st = true).
  { destruct (ci_stream _ _ Hc _ _ Hp) as (_ & _ & Hno & _). destruct (Hno Hpl) as [_ Hq].
    destruct Hg as [[h Hh]|]; [congruence|done]. }
  split_and!; [|done|by apply le_same_heap|by split|done|by apply kept_same].
  destruct Hc as [C1 C2 C3 C4 C5 C6 C7 C8]. split; try done.
  intros q [->|Hq]%elem_of_cons; [by exists st|by apply C8].
Qed.

Lemma post_env X s e f : core_inv conf s -> acct conf s f -> cb_post conf X s (set_ss_env e s) f.
Proof.
  intros Hc Ha. split_and!; try done; [by eapply core_ext|by apply le_same_heap|by apply kept_same].
Qed.

Lemma post_trans X s1 s2 s3 f g : cb_post conf X s1 s2 f -> cb_post conf X s2 s3 g -> cb_post conf X s1 s3 g.
Proof.
  intros (_ & _ & L1 & S1 & N1 & K1) (C & A & L2 & S2 & N2 & K2). split_and!; try done.
  - by etrans.
  - by etrans.
  - congruence.
  - by eapply kept_trans.
Qed.

(** *** The streams a call may pass on *)

(** [P]: the streams that nghttp3 may know when the call begins; those in [G] have been
    closed during the call, and their pools still exist. *)
Definition alive (P : Z -> sptr -> Prop) (G : list Z) s : Prop :=
  forall sid p, P sid p -> exists st, ss_heap s !! p = Some st /\ st_stream_id st = sid
    /\ (good st \/ sid ∈ G /\ st_pool st = true).

Lemma alive_step (X : sptr -> Prop) P (G G' : list Z) s s' :
  alive P G s -> core_inv conf s -> kept X s s' -> sess_le s s' ->
  (forall q sid, X q -> P sid q -> sid ∈ G') -> G ⊆ G' -> alive P G' s'.
Proof.
  intros Ha Hc Hk Hle HX Hsub sid p HP. destruct (Ha sid p HP) as (st & Hp & Hid & Hg).
  destruct (Hk p st Hp) as (st' & Hp' & Hid' & Hpl & Hg'). exists st'. split; [done|]. split; [congruence|].
  destruct Hg as [Hg|[HG Hpool]]; [|right; split; [set_solver|congruence]].
  destruct (Hg' Hg) as [?|HXp]; [by left|].
  destruct Hg as [[h Hh]|Ht].
  - right. split; [by apply (HX p)|]. rewrite Hpl. destruct (ci_stream _ _ Hc _ _ Hp) as (_ & _ & Hno & _).
    destruct (st_pool st); [done|]. destruct (Hno eq_refl). congruence.
  - left. right. destruct (sl_heap _ _ Hle _ _ Hp) as (st2 & Hp2 & _ & _ & _ & _ & Hmono & _).
    simplify_eq. auto.
Qed.

(** [on_begin_headers] gives nghttp3 a pointer to a stream of the session. *)
Lemma begin_headers_spec sid ud s n P G f :
  core_inv conf s -> acct conf s f -> ss_ngh3 s = Some n -> known (still P G) n -> alive P G s ->
  (forall p, snd (ss_pending s) = Some p -> P (fst (ss_pending s)) p) ->
  (forall p, ud = Some p -> exists i, still P G i p /\ i = sid) -> sid ∉ G ->
  exists r s' n', on_begin_headers sid ud s = Ret r s'
    /\ core_inv conf s' /\ acct conf s' f /\ sess_le s s' /\ same_shape s s'
    /\ ss_ngh3 s' = Some n' /\ known (still P G) n' /\ (forall q, ngh_unacked n' q = ngh_unacked n q)
    /\ alive P G s' /\ exists rv, r = Reply rv.
Proof.
  intros Hc Ha Hn Hk Hal Hpend Hud HG. unfold on_begin_headers. rewrite (bind_ret _ _ s s (ss_pending s)) by done.
  set (stream := match ud with Some p => Some p | None => _ end).
  assert (Hv : forall p, stream = Some p -> P sid p).
  { intros p Hs. destruct ud as [p'|]; simpl in Hs.
    - injection Hs as ->. by destruct (Hud p eq_refl) as (i & [? _] & <-).
    - unfold stream in Hs. destruct (Z.eqb_spec (fst (ss_pending s)) sid) as [<-|]; [|done]. by apply Hpend. }
  destruct stream as [p|] eqn:Es.
  2:{ exists (Reply CB_CALLBACK_FAILURE), s, n. split_and!; try done; by eexists. }
  destruct (Hal sid p (Hv p eq_refl)) as (st & Hp & _ & Hgd).
  assert (Hg : good st) by (destruct Hgd as [?|[? _]]; done).
  destruct (pool_user_spec (fun _ => False) s p st begin_headers_uses_pool f Hc Ha Hp Hg)
    as (s0 & Hu & Hp0 & _ & Hpost0). bind_step Hu.
  destruct (begin_headers_frame st) as [h Hbh].
  rewrite (bind_ret (modify (upd_stream p begin_headers)) _ s0
    (set_ss_heap (<[p := set_st_head h st]> (ss_heap s0)) s0) tt)
    by (unfold modify; by rewrite (upd_stream_eq _ _ _ _ Hp0), Hbh).
  set (s1 := set_ss_heap _ s0). unfold on_ngh. pose proof Hpost0 as (Hc0 & Ha0 & _ & _ & Hn0 & _).
  assert (Hpost1 : cb_post conf (fun _ => False) s0 s1 f).
  { apply (post_upd conf _ s0 p st (set_st_head h st) f f); try done;
      [by apply (ci_stream _ _ Hc0 _ _ Hp0)|by apply (Ha0 _ _ Hp0)]. }
  destruct (post_trans _ _ _ _ _ _ Hpost0 Hpost1) as (P1 & P2 & P3 & P4 & P5 & P6).
  assert (Hn1 : ss_ngh3 s1 = Some n) by congruence.
  exists (Reply CB_OK), (set_ss_ngh3 (Some (ngh_set_stream_user_data n sid p)) s1), (ngh_set_stream_user_data n sid p).
  split; [unfold mbind, M_bind; by rewrite (get_ngh_ret _ _ Hn1)|].
  assert (L : sess_le s (set_ss_ngh3 (Some (ngh_set_stream_user_data n sid p)) s1))
    by (etrans; [exact P3|by apply le_same_heap]).
  split_and!; try done.
  - by eapply core_ext.
  - etrans; [exact P4|]. by split.
  - intros sid' q Hq. apply ngh_set_user_data in Hq as [[-> ->]|Hq]; [split; [by apply Hv|done]|by apply Hk].
  - intros q. apply ngh_set_unacked.
  - by eapply (alive_step (fun _ => False) P G G s).
  - by eexists.
Qed.

Lemma reset_ret s p st h code :
  core_inv conf s -> ss_heap s !! p = Some st -> st_qstream st = Some h ->
  q_reset h code s = Ret tt (set_ss_env (qs_reset (ss_env s) h code) s).
Proof.
  intros Hc Hp Hq. unfold q_reset. by bind_step (use_ret s h (held_not_freed _ _ _ _ _ Hc Hp Hq)).
Qed.

Lemma recv_data_ok st d :
  stream_ok conf st -> data_ok d ->
  exists b, on_recv_data (h3_max_request_body_size conf) (Some d) st = Some (set_st_body b st)
    /\ rb_inv (h3_max_request_body_size conf) b.
Proof.
  intros [Hb _] Hd. unfold on_recv_data. destruct (st_is_bidi st) eqn:Eb.
  - destruct (body_recv_data_spec _ _ d Hbody Hb Hd) as (b & -> & Hinv & _). by exists b.
  - exists (st_body st). by split.
Qed.

(** The streams that a callback on [p] closes. *)
Definition closes (cb : ngh_cb) p q : Prop := q = p /\ exists sid, cb = CbStreamClose sid.

(** Every other callback on a stream of the session keeps the invariant and the accounts. *)
Lemma stream_callback_spec cb s p st f :
  core_inv conf s -> acct conf s f -> ss_heap s !! p = Some st -> good st -> cb_ok f cb (Some p) ->
  (forall sid, cb <> CbBeginHeaders sid) ->
  exists r s', callback conf cb (Some p) s = Ret r s'
    /\ cb_post conf (closes cb p) s s' (acct_after f cb (Some p) r).
Proof.
  intros Hc Ha Hp Hg Hcb Hnb.
  (* the callback on the state in which a use of the pool has been noted *)
  assert (Huse : forall u, exists s1, pool_user p u s = Ret st s1 /\ ss_heap s1 !! p = Some st
    /\ core_inv conf s1 /\ acct conf s1 f /\ cb_post conf (closes cb p) s s1 f).
  { intros u. destruct (pool_user_spec (closes cb p) s p st u f Hc Ha Hp Hg) as (s1 & E1 & H1 & _ & Hpost).
    exists s1. split_and!; try done; apply Hpost. }
  pose proof (ci_stream _ _ Hc _ _ Hp) as Hok. pose proof (Ha _ _ Hp) as Hr.
  pose proof Hok as (Hrb & Hqc & Hpl).
  destruct cb as [sid|t n v|fin|d|n| |code|sid|cnt]; [by destruct (Hnb sid)|..]; cbn [callback].
  - destruct (Huse (recv_header_uses_pool t v)) as (s1 & E1 & Hp1 & Hc1 & Ha1 & Hpost). bind_step E1.
    destruct (recv_header_frame t n v st) as [h Hh].
    destruct (on_recv_header t n v st) as [rv st']. simpl in Hh. subst st'.
    do 2 eexists. split; [by apply (store_answer _ _ st)|]. eapply post_trans; [exact Hpost|].
    by apply (post_upd _ _ s1 p st _ f f).
  - bind_step (get_stream_ret s p st Hp). do 2 eexists. split.
    { unfold mbind, M_bind, modify. by rewrite (upd_stream_eq _ _ _ _ Hp). }
    apply (post_upd _ _ s p st _ f f); try done; unfold on_end_headers; destruct (st_is_bidi st), fin; done.
  - destruct (Huse (recv_data_uses_pool (h3_max_request_body_size conf) d)) as (s1 & E1 & Hp1 & Hc1 & Ha1 & Hpost).
    bind_step E1. destruct (recv_data_ok st d Hok Hcb) as (b & -> & Hb).
    do 2 eexists. split; [by apply (store_answer _ _ st)|]. eapply post_trans; [exact Hpost|].
    apply (post_upd _ _ s1 p st _ f f); try done.
  - destruct (Huse (acked_uses_pool n)) as (s1 & E1 & Hp1 & Hc1 & Ha1 & Hpost). bind_step E1.
    destruct (resp_ok_ack conf (f p) n (st_resp st) Hr Hcb) as (q' & b & He & Hq' & Hcan).
    unfold on_acked_stream_data. rewrite He. do 2 eexists. split; [by apply (store_answer _ _ st)|].
    eapply post_trans; [exact Hpost|]. apply (post_upd _ _ s1 p st _ f _); try done.
    + unfold stream_le. simpl. by rewrite Hcan.
    + split; [done|]. simpl. by rewrite Hcan.
    + simpl. unfold bump. by rewrite decide_True by done.
    + intros q Hne. simpl. unfold bump. by rewrite decide_False.
  - destruct (Huse (fun _ => true)) as (s1 & E1 & Hp1 & Hc1 & Ha1 & Hpost). bind_step E1.
    do 2 eexists. split; [done|]. eapply post_trans; [exact Hpost|].
    apply (post_release _ _ s1 p st _ f); try done; try (by apply resp_ok_cancel);
      [split_and!; simpl; [done|done|naive_solver..]|left; by right].
  - destruct (Huse (fun _ => true)) as (s1 & E1 & Hp1 & Hc1 & Ha1 & Hpost). bind_step E1.
    assert (Hok' : stream_ok conf (set_st_done true (stream_cancel st)))
      by (split_and!; simpl; [done|done|naive_solver..]).
    cbn [on_reset_stream]. destruct (st_qstream st) as [h|] eqn:Eq.
    + bind_step (reset_ret s1 p st h code Hc1 Hp1 Eq). do 2 eexists.
      split; [by apply (store_answer _ _ st)|]. eapply post_trans; [exact Hpost|].
      pose proof (post_env (closes (CbResetStream code) p) s1 (qs_reset (ss_env s1) h code) f Hc1 Ha1) as Hpe.
      eapply post_trans; [exact Hpe|]. destruct Hpe as (Hc2 & Ha2 & _).
      apply (post_upd _ _ _ p st _ f f); try done. by apply resp_ok_cancel.
    + do 2 eexists. split; [by apply (store_answer _ _ st)|]. eapply post_trans; [exact Hpost|].
      apply (post_upd _ _ s1 p st _ f f); try done. by apply resp_ok_cancel.
  - destruct (Huse (fun _ => true)) as (s1 & E1 & Hp1 & Hc1 & Ha1 & Hpost). bind_step E1.
    do 2 eexists. split; [done|]. eapply post_trans; [exact Hpost|].
    apply (post_release _ _ s1 p st _ f); try done; try (by apply resp_ok_cancel);
      [split_and!; simpl; [done|done|naive_solver..]|right; split; [done|by eexists]].
  - bind_step (get_stream_ret s p st Hp).
    destruct (resp_ok_read conf (f p) cnt (st_resp st) Hr Hcb) as (q' & r & He & Hq' & Hcan).
    unfold stream_read_data. rewrite He. do 2 eexists. split; [by apply (store_answer _ _ st)|].
    apply (post_upd _ _ s p st _ f _); try done.
    + unfold stream_le. simpl. by rewrite Hcan.
    + split; [done|]. simpl. by rewrite Hcan.
    + simpl. unfold bump. by rewrite decide_True by done.
    + intros q Hne. simpl. unfold bump. by rewrite decide_False.
Qed.

Lemma put_ngh_post s n f :
  core_inv conf s -> acct conf s f -> core_inv conf (set_ss_ngh3 (Some n) s)
    /\ acct conf (set_ss_ngh3 (Some n) s) f /\ sess_le s (set_ss_ngh3 (Some n) s)
    /\ same_shape s (set_ss_ngh3 (Some n) s).
Proof.
  intros Hc Ha. split_and!; [by eapply core_ext|done|by apply le_same_heap|by split].
Qed.

(** Any callback. *)
Lemma callback_spec cb ud s n P G f :
  core_inv conf s -> acct conf s f -> ss_ngh3 s = Some n -> known (still P G) n -> alive P G s ->
  (forall p, snd (ss_pending s) = Some p -> P (fst (ss_pending s)) p) ->
  (forall p, ud = Some p -> exists sid, still P G sid p /\ made_for cb sid) ->
  (forall sid, cb = CbBeginHeaders sid -> sid ∉ G) -> cb_ok f cb ud ->
  exists r s' n', callback conf cb ud s = Ret r s'
    /\ core_inv conf s' /\ acct conf s' (acct_after f cb ud r) /\ sess_le s s' /\ same_shape s s'
    /\ ss_ngh3 s' = Some n' /\ known (still P G) n' /\ (forall q, ngh_unacked n' q = ngh_unacked n q)
    /\ alive P (closed_after cb G) s'.
Proof.
  intros Hc Ha Hn Hk Hal Hpend Hud HG Hcb.
  assert ((exists sid, cb = CbBeginHeaders sid) \/ ~ exists sid, cb = CbBeginHeaders sid)
    as [[sid ->]|Hne] by (destruct cb; first [by left; eexists|by right; intros []]).
  { destruct (begin_headers_spec sid ud s n P G f Hc Ha Hn Hk Hal Hpend Hud (HG sid eq_refl))
      as (r & s' & n' & H1 & H2 & H3 & H4 & H5 & H6 & H7 & H8 & H9 & [rv ->]).
    exists (Reply rv), s', n'. cbn [callback]. split_and!; done. }
  assert (HGs : G ⊆ closed_after cb G) by (destruct cb; set_solver).
  destruct ud as [p|].
  - destruct (Hud p eq_refl) as (i & [HP Hi] & Hmf). destruct (Hal i p HP) as (st & Hp & Hid & Hgd).
    assert (Hg : good st) by (destruct Hgd as [?|[? _]]; done).
    destruct (stream_callback_spec cb s p st f Hc Ha Hp Hg Hcb) as (r & s' & He & H1 & H2 & H3 & H4 & H5 & H6).
    { intros sid ->. apply Hne. by exists sid. }
    exists r, s', n. split_and!; try done; [congruence|].
    eapply (alive_step (closes cb p) P G _ s); try done. intros q sid [-> [sid' ->]] HP'.
    destruct (Hal sid p HP') as (st' & Hp' & Hid' & _). simplify_eq/=. left.
  - assert (Hal' : alive P (closed_after cb G) s).
    { eapply (alive_step (fun _ => False) P G _ s s); try done. by apply kept_same. }
    destruct cb as [sid|?|?|?|?| |?|?|?]; [by destruct Hne; exists sid|..];
      do 2 eexists; exists n; (split; [done|]); by split_and!.
Qed.

Lemma acct_after_ne f cb ud r p : ud <> Some p -> acct_after f cb ud r p = f p.
Proof.
  intros Hne. unfold acct_after, bump. destruct cb, ud, r; try done; case_decide; congruence.
Qed.

(** A whole call of nghttp3, with every callback it makes. *)
Lemma run_prog_spec {R} (pr : prog N R) s P G f :
  core_inv conf s -> acct conf s f -> is_Some (ss_qconn s) -> alive P G s ->
  (forall p, snd (ss_pending s) = Some p -> P (fst (ss_pending s)) p) ->
  (forall p, ss_heap s !! p = None -> f p <= 0) -> prog_ok P G f pr ->
  exists r s', run_prog conf pr s = Ret r s' /\ (forall z, sess_inv conf (set_ss_pending (z, None) s'))
    /\ sess_le s s' /\ same_shape s s'.
Proof.
  revert s f G. induction pr as [n r|n cb ud k IH]; intros s f G Hc Ha Hcn Hal Hpend H0; cbn [prog_ok run_prog].
  - intros [Hk Hu]. exists r, (set_ss_ngh3 (Some n) s). split; [done|].
    destruct (put_ngh_post s n f Hc Ha) as (H1 & H2 & H3 & H4). split_and!; [|done|done]. intros z.
    split; [by eapply core_ext| |done| |done].
    + exists n. split; [done|]. split.
      * intros sid p Hp. destruct (Hk sid p Hp) as [HP HG].
        destruct (Hal sid p HP) as (st & Hst & Hid & [Hg|[? _]]); [|done]. by exists st.
      * intros p Hp. etrans; [apply Hu|by apply H0].
    + intros p st Hp. apply (resp_ok_mono conf (f p)); [|by apply (H2 _ _ Hp)].
      split; [apply ngh_unacked_nonneg|apply Hu].
  - intros (Hk & Hud & HG & Hcb & Hnext).
    destruct (put_ngh_post s n f Hc Ha) as (H1 & H2 & H3 & H4).
    rewrite (bind_ret (put_ngh n) _ s (set_ss_ngh3 (Some n) s) tt) by done.
    destruct (callback_spec cb ud (set_ss_ngh3 (Some n) s) n P G f H1 H2 eq_refl Hk Hal Hpend Hud HG Hcb)
      as (r & s1 & n1 & He & C1 & A1 & L1 & S1 & N1 & K1 & U1 & Al1).
    bind_step He. bind_step (get_ngh_ret _ _ N1).
    destruct (IH n1 r s1 _ (closed_after cb G) C1 A1) as (r' & s2 & Hr & I2 & L2 & S2).
    + by rewrite (ss_same_qconn _ _ S1).
    + done.
    + rewrite (ss_same_pending _ _ S1). exact Hpend.
    + intros p Hp. assert (ss_heap s !! p = None) as Hnp.
      { apply eq_None_not_Some. intros Hs. apply eq_None_not_Some in Hp as [].
        by apply (ss_same_dom _ _ S1). }
      rewrite acct_after_ne; [by apply H0|]. intros ->. destruct (Hud p eq_refl) as (i & [HP _] & _).
      destruct (Hal i p HP) as (st & Hst & _). congruence.
    + by apply Hnext.
    + exists r', s2. split_and!; [done|done|by do 2 (etrans; [done|])|by do 2 (etrans; [done|])].
Qed.

(** [wp] for the session: every function keeps [sess_inv] and only moves up [sess_le]. *)
Abbreviation swp := (wp (sess_inv conf) sess_le).

Definition ngh_call_ok {R} (g : N -> prog N R) : Prop :=
  forall P n, known P n -> prog_ok P [] (ngh_unacked n) (g n).

(** A call on an open session; [pending] may be set for it. *)
Lemma call_spec {R} s v (g : N -> prog N R) :
  sess_inv conf s -> ngh_call_ok g -> (forall p, snd v = Some p -> in_use s (fst v) p) ->
  exists r s', call_ngh conf g (set_ss_pending v s) = Ret r s' /\ (forall z, sess_inv conf (set_ss_pending (z, None) s'))
    /\ sess_le s s' /\ same_shape (set_ss_pending v s) s'.
Proof.
  intros [Hc (n & Hn & Hk & H0) Hcn Ha _] Hg Hv. unfold call_ngh.
  assert (Hn' : ss_ngh3 (set_ss_pending v s) = Some n) by done. bind_step (get_ngh_ret _ _ Hn').
  destruct (run_prog_spec (g n) (set_ss_pending v s) (in_use s) [] (ngh_unacked n)) as (r & s' & -> & H1 & H2 & H3).
  - by eapply core_ext.
  - intros p st Hp. specialize (Ha p st Hp). unfold unacked_of in Ha. by rewrite Hn in Ha.
  - done.
  - intros sid p (st & Hp & Hid & Hgd). exists st. auto.
  - exact Hv.
  - done.
  - by apply Hg.
  - exists r, s'. split_and!; try done. etrans; [|exact H2]. by apply le_same_heap.
Qed.

Lemma set_pending_id s z : ss_pending s = (z, None) -> set_ss_pending (z, None) s = s.
Proof. destruct s. simpl. by intros ->. Qed.

Lemma wp_call {R} s (g : N -> prog N R) :
  sess_inv conf s -> ngh_call_ok g -> swp s (call_ngh conf g) (fun _ s' => same_shape s s').
Proof.
  intros Hs Hg. pose proof (si_pending _ _ Hs) as Hp. destruct (ss_pending s) as [z o] eqn:Ep. simpl in Hp. subst o.
  destruct (call_spec s (z, None) g Hs Hg ltac:(done)) as (r & s' & Hr & H1 & H2 & H3).
  rewrite (set_pending_id s z Ep) in Hr, H3. unfold wp. rewrite Hr. split_and!; try done.
  specialize (H1 z). rewrite set_pending_id in H1; [done|]. by rewrite (ss_same_pending _ _ H3).
Qed.

(** A call with [pending] set, and cleared afterwards. *)
Lemma wp_call_pending {R A} s v (g : N -> prog N R) (k : R -> M session A) Q :
  sess_inv conf s -> ngh_call_ok g -> (forall p, snd v = Some p -> in_use s (fst v) p) ->
  (forall r s', sess_inv conf s' -> sess_le s s' -> ss_streams s' = ss_streams s -> swp s' (k r) Q) ->
  swp s (modify (set_ss_pending v) ;; r ← call_ngh conf g; modify (set_ss_pending (-1, None)) ;; k r) Q.
Proof.
  intros Hs Hg Hv Hk. destruct (call_spec s v g Hs Hg Hv) as (r & s' & Hr & H1 & H2 & H3).
  assert (L : sess_le s (set_ss_pending (-1, None) s')) by (etrans; [exact H2|by apply le_same_heap]).
  assert (W : swp (set_ss_pending (-1, None) s') (k r) Q).
  { apply Hk; [done|done|]. exact (ss_same_streams _ _ H3). }
  unfold wp in *. unfold mbind, M_bind, modify. rewrite Hr.
  destruct (k r (set_ss_pending (-1, None) s')) as [a s2| |s2]; [|done|].
  - destruct W as (W1 & W2 & W3). split_and!; try done. by etrans.
  - destruct W as (W1 & W2). split; [done|by etrans].
Qed.

Lemma wp_on_ngh s (g : N -> N) :
  sess_inv conf s -> (forall n, ngh_same n (g n)) -> swp s (on_ngh g) (fun _ s' => same_shape s s').
Proof.
  intros [Hc (n & Hn & Hk) Hcn Ha Hpn] Hg. destruct (Hg n) as [Hu Hq].
  unfold wp, on_ngh. bind_step (get_ngh_ret _ _ Hn). simpl.
  destruct (put_ngh_post s (g n) _ Hc Ha) as (H1 & H2 & H3 & H4). split_and!; [|done|done].
  split; [done| |done| |done].
  - exists (g n). destruct Hk as [Hk H0]. split; [done|]. split.
    + intros sid p Hp. by apply (Hk sid), Hu.
    + intros p Hp. rewrite Hq. by apply H0.
  - intros p st Hp. specialize (H2 p st Hp). unfold unacked_of in *. simpl. rewrite Hn in H2.
    by rewrite Hq.
Qed.

End Callbacks.
