(* ===== verification/SessionSafe.v ===== *)
(** * The session functions keep the invariant (h3_session.c, h3_stream.c)

    For each function of [Session] its verification condition: from an open session in
    which the invariant holds it never aborts (no failed check, no null or dangling
    stream, no call on a freed QUIC stream, no fault in a queue or buffer), and it leaves
    the invariant in place. *)

From S2P Require Import Prelude Effects LinkedQueue RespQueue Config Body Quic Stream.
From S2P Require Import Session SessionInv.

Section Safe.
Context {N E : Type} {NG : Nghttp3 N} {NGS : Nghttp3Spec N NG}.
Context {QS : QuicStreams E} {QSS : QuicStreamsSpec E QS}.
Context {QC : QuicConns E} {QCS : QuicConnsSpec E QC} {AH : AprHash}.
Context (conf : h3_server_conf) (io : bool).
Context (Hbody : rb_max_ok (h3_max_request_body_size conf)).
Context (Hbuf : 0 < h3_stream_buffer_size conf <= SIZE_MAX).
Abbreviation session := (@h3_session N E).
Abbreviation swp := (wp (sess_inv conf) sess_le).
Implicit Types (s : session) (st : h3_stream) (p q : sptr).

Ltac wbind := apply (wp_bind (sess_inv conf) sess_le).
Ltac wret := apply (wp_ret (sess_inv conf) sess_le).
Ltac wgets := apply (wp_gets (sess_inv conf) sess_le).

(** ** Steps that keep the invariant *)

(** Everything the invariant is about is unchanged. *)
Record same_inv s s' : Prop := {
  sm_heap : ss_heap s' = ss_heap s;
  sm_next : ss_next s' = ss_next s;
  sm_streams : ss_streams s' = ss_streams s;
  sm_blocked : ss_blocked s' = ss_blocked s;
  sm_ngh : ss_ngh3 s' = ss_ngh3 s;
  sm_pending_free : ss_pending_free s' = ss_pending_free s;
  sm_freed : ss_freed s' = ss_freed s;
  sm_qconn : ss_qconn s' = ss_qconn s;
  sm_fresh : ss_fresh s' = ss_fresh s;
  sm_pending : ss_pending s' = ss_pending s;
  sm_stale : ss_stale s' = ss_stale s;
  sm_tasks : ss_active_tasks s' = ss_active_tasks s }.

Lemma inv_ext s s' : sess_inv conf s -> same_inv s s' -> sess_inv conf s' /\ sess_le s s'.
Proof.
  intros [Hc (n & Hn & Hk) Hcn Ha Hpn] [E1 E2 E3 E4 E5 E6 E7 E8 E9 E10 E12 E11]. split.
  - split; [by eapply core_ext| | | |by rewrite E10].
    + exists n. rewrite E5. split; [done|]. apply (ngh_ok_le s); [done|]. by apply good_le_same.
    + by rewrite E8.
    + unfold acct, unacked_of. by rewrite E1, E5.
  - apply le_same_heap; [done|by rewrite E7|done|by rewrite E8|by rewrite E9].
Qed.

Lemma wp_ext s g : sess_inv conf s -> same_inv s (g s) -> swp s (modify g) (fun _ s' => s' = g s).
Proof. intros Hs Hg. destruct (inv_ext _ _ Hs Hg). by apply wp_modify. Qed.

Lemma inv_upd s p st st' :
  sess_inv conf s -> ss_heap s !! p = Some st ->
  st_write_blocked st' = st_write_blocked st -> stream_le st st' -> stream_ok conf st' ->
  st_qstream st' = st_qstream st -> st_pool st' = st_pool st -> resp_ok conf (unacked_of s p) (st_resp st') ->
  sess_inv conf (set_ss_heap (<[p := st']> (ss_heap s)) s)
  /\ sess_le s (set_ss_heap (<[p := st']> (ss_heap s)) s)
  /\ same_shape s (set_ss_heap (<[p := st']> (ss_heap s)) s).
Proof.
  intros [Hc (n & Hn & Hk) Hcn Ha Hpn] Hp Hw Hle Hok Hq Hpl Hr.
  destruct (post_upd conf (fun _ => False) s p st st' (unacked_of s) (unacked_of s) Hc Ha Hp)
    as (H1 & H2 & H3 & H4 & H5 & _); try done.
  split_and!; [|done|done]. split; [done| |done|done|done].
  exists n. split; [done|]. apply (ngh_ok_le s); [done|].
  eapply (good_le_store s _ p st st'); [done|done|apply Hle|by apply good_keeps].
Qed.

(** The fields that tell what has become of the stream's worker. *)
Definition same_worker st st' : Prop :=
  st_dispatched st' = st_dispatched st /\ st_worker_done st' = st_worker_done st
  /\ st_pool st' = st_pool st.

(** A store to one field that is neither the flag nor the QUIC stream nor the queue. *)
Lemma wp_upd s p st g :
  sess_inv conf s -> ss_heap s !! p = Some st ->
  st_write_blocked (g st) = st_write_blocked st -> stream_le st (g st) ->
  st_qstream (g st) = st_qstream st -> st_body (g st) = st_body st -> st_resp (g st) = st_resp st ->
  same_worker st (g st) ->
  swp s (modify (upd_stream p g)) (fun _ s' => same_shape s s' /\ ss_heap s' = <[p := g st]> (ss_heap s)).
Proof.
  intros Hs Hp Hw Hle Hq Hb Hr (W1 & W2 & W3).
  destruct (ci_stream _ _ (si_core _ _ Hs) _ _ Hp) as (Hok1 & Hok2 & Hok3).
  destruct (inv_upd s p st (g st) Hs Hp Hw Hle) as (H1 & H2 & H3).
  - split_and!; [by rewrite Hb|by rewrite Hq, Hr|by rewrite W2, W3, Hq; apply Hok3|by rewrite W1, W2; apply Hok3].
  - done.
  - done.
  - rewrite Hr. by apply (si_acct _ _ Hs).
  - apply wp_modify; rewrite (upd_stream_eq _ _ _ _ Hp); done.
Qed.

Lemma wp_get_stream s p st (Q : h3_stream -> session -> Prop) :
  sess_inv conf s -> ss_heap s !! p = Some st -> Q st s -> swp s (get_stream p) Q.
Proof. intros Hs Hp HQ. unfold wp. by rewrite (get_stream_ret _ _ _ Hp). Qed.

Lemma wp_use s p st h (Q : unit -> session -> Prop) :
  sess_inv conf s -> ss_heap s !! p = Some st -> st_qstream st = Some h -> Q tt s -> swp s (use h) Q.
Proof.
  intros Hs Hp Hq HQ. unfold wp.
  by rewrite (use_ret s h (held_not_freed _ _ _ _ _ (si_core _ _ Hs) Hp Hq)).
Qed.

Lemma wp_on_env {A} s (g : E -> E * A) :
  sess_inv conf s ->
  swp s (on_env g) (fun a s' => same_inv s s' /\ ss_ngh3_dead s' = ss_ngh3_dead s
                                /\ g (ss_env s) = (ss_env s', a)).
Proof.
  intros Hs. unfold wp, on_env. destruct (g (ss_env s)) as [e a] eqn:Eg.
  destruct (inv_ext s (set_ss_env e s)) as [H1 H2]; [done|by split|]. by split_and!.
Qed.

Lemma same_inv_shape s s' : same_inv s s' -> ss_ngh3_dead s' = ss_ngh3_dead s -> same_shape s s'.
Proof. intros [E1 E2 E3 E4 E5 E6 E7 E8 E9 E10 E12 E11] Hd. split; try done; intros; by rewrite E1. Qed.

(** A stream of the session is still one later. *)
Lemma le_lookup s s' p st :
  sess_le s s' -> ss_heap s !! p = Some st ->
  exists st', ss_heap s' !! p = Some st' /\ stream_le st st'.
Proof. intros H. apply (sl_heap _ _ H). Qed.

(** ** Write-blocked streams *)

Lemma blocked_map_set s sid p st st' :
  core_inv conf s -> ss_streams s !! sid = Some p -> ss_heap s !! p = Some st ->
  blocked_map (set_ss_heap (<[p := st']> (ss_heap s)) s)
  = if st_write_blocked st' then <[sid := p]> (blocked_map s) else delete sid (blocked_map s).
Proof.
  intros Hc Ht Hp. apply map_eq. intros i.
  assert (Hother : i <> sid ->
    blocked_map (set_ss_heap (<[p := st']> (ss_heap s)) s) !! i = blocked_map s !! i).
  { intros Hi. assert (Hq : forall q, ss_streams s !! i = Some q ->
      is_blocked (<[p := st']> (ss_heap s)) q = is_blocked (ss_heap s) q).
    { intros q Hq. unfold is_blocked.
      destruct (decide (q = p)) as [->|]; [|by rewrite lookup_insert_ne].
      destruct (ci_table _ _ Hc _ _ Ht) as (? & ? & ?), (ci_table _ _ Hc _ _ Hq) as (? & ? & ?).
      congruence. }
    apply option_eq. intros q. unfold blocked_map. simpl. rewrite !map_lookup_filter_Some. simpl.
    split; intros [H1 H2]; (split; [done|]); rewrite <- H2; [symmetry|]; by apply Hq. }
  assert (Hsid : blocked_map (set_ss_heap (<[p := st']> (ss_heap s)) s) !! sid
                 = if st_write_blocked st' then Some p else None).
  { unfold blocked_map. simpl. destruct (st_write_blocked st') eqn:Ew.
    - apply map_lookup_filter_Some. split; [done|]. simpl. unfold is_blocked.
      by rewrite lookup_insert_eq.
    - apply map_lookup_filter_None. right. intros q Hq. simplify_eq. simpl. unfold is_blocked.
      rewrite lookup_insert_eq. congruence. }
  destruct (decide (i = sid)) as [->|Hi]; destruct (st_write_blocked st').
  - by rewrite lookup_insert_eq.
  - by rewrite lookup_delete_eq.
  - by rewrite lookup_insert_ne by done; rewrite Hother.
  - by rewrite lookup_delete_ne by done; rewrite Hother.
Qed.

Lemma blocked_lookup s sid p st :
  ss_streams s !! sid = Some p -> ss_heap s !! p = Some st ->
  blocked_map s !! sid = if st_write_blocked st then Some p else None.
Proof.
  intros Ht Hp. unfold blocked_map. destruct (st_write_blocked st) eqn:Ew.
  - apply map_lookup_filter_Some. split; [done|]. simpl. unfold is_blocked. by rewrite Hp.
  - apply map_lookup_filter_None. right. intros q Hq. simplify_eq. simpl. unfold is_blocked.
    rewrite Hp. congruence.
Qed.

(** Two clauses of the invariant after a store. *)
Lemma pool_insert (table : gmap Z sptr) (heap : gmap sptr h3_stream) p st st' :
  (forall sid q x, table !! sid = Some q -> heap !! q = Some x -> st_pool x = true) ->
  heap !! p = Some st -> (st_pool st = true -> st_pool st' = true) ->
  forall sid q x, table !! sid = Some q -> <[p := st']> heap !! q = Some x -> st_pool x = true.
Proof.
  intros C Hp Hpl sid q x Hq. destruct (decide (q = p)) as [->|].
  - rewrite lookup_insert_eq. intros. simplify_eq. apply Hpl. by apply (C sid p).
  - rewrite lookup_insert_ne by done. by apply (C sid).
Qed.

Lemma stale_insert (l : list sptr) (heap : gmap sptr h3_stream) p st st' :
  (forall q, q ∈ l -> exists x, heap !! q = Some x /\ st_body_truncated x = true) ->
  heap !! p = Some st -> (st_body_truncated st = true -> st_body_truncated st' = true) ->
  forall q, q ∈ l -> exists x, <[p := st']> heap !! q = Some x /\ st_body_truncated x = true.
Proof.
  intros C Hp Ht q Hq. destruct (C q Hq) as (x & Hx & Htx). destruct (decide (q = p)) as [->|].
  - exists st'. rewrite lookup_insert_eq. simplify_eq. auto.
  - exists x. by rewrite lookup_insert_ne.
Qed.

(** Setting or clearing the flag of a tracked stream, with the count. *)
Lemma inv_set_blocked s sid p st b :
  sess_inv conf s -> ss_streams s !! sid = Some p -> ss_heap s !! p = Some st ->
  st_write_blocked st = negb b ->
  let s' := set_ss_blocked (ss_blocked s + (if b then 1 else -1))
              (upd_stream p (set_st_write_blocked b) s) in
  sess_inv conf s' /\ sess_le s s'.
Proof.
  intros [Hc (n & Hn & Hk) Hcn Ha Hpn] Ht Hp Hw. rewrite (upd_stream_eq _ _ _ _ Hp). cbv zeta.
  set (st' := set_st_write_blocked b st).
  pose proof (blocked_map_set s sid p st st' Hc Ht Hp) as Hbm.
  pose proof (blocked_lookup s sid p st Ht Hp) as Hl. rewrite Hw in Hl.
  pose proof (ci_stream _ _ Hc _ _ Hp) as Hok.
  destruct Hc as [C1 C2 C3 C4 C5 C6 C7 C8]. split.
  - split; [split|..]; simpl.
    + intros i q Hq. destruct (C1 _ _ Hq) as (st0 & H0 & Hi). destruct (decide (q = p)) as [->|].
      * exists st'. rewrite lookup_insert_eq. split; [done|]. simpl. congruence.
      * exists st0. by rewrite lookup_insert_ne.
    + intros q. rewrite (insert_is_Some _ _ _ _ _ Hp). apply C2.
    + change (blocked_map _) with (blocked_map (set_ss_heap (<[p := st']> (ss_heap s)) s)) at 1.
      rewrite Hbm, C3. simpl. destruct b; simpl in *.
      * rewrite map_size_insert_None by done. lia.
      * rewrite map_size_delete_Some by done.
        assert (size (blocked_map s) <> 0%nat); [|lia].
        intros Hz%map_size_empty_inv. by rewrite Hz in Hl.
    + intros q st0. destruct (decide (q = p)) as [->|].
      * rewrite lookup_insert_eq. intros. by simplify_eq.
      * rewrite lookup_insert_ne by done. apply C4.
    + unfold owned. simpl. rewrite held_insert. simpl. by rewrite <- (held_lookup _ _ _ Hp).
    + unfold owned. simpl. rewrite held_insert. simpl. by rewrite <- (held_lookup _ _ _ Hp).
    + apply (pool_insert (ss_streams s) (ss_heap s) p st st' C7 Hp). done.
    + apply (stale_insert (ss_stale s) (ss_heap s) p st st' C8 Hp). done.
    + exists n. split; [done|]. apply (ngh_ok_le s); [done|]. by eapply (good_le_store s _ p st st').
    + done.
    + by eapply (acct_store conf s _ p st st' (unacked_of s)); [done|done|done|by apply (Ha _ _ Hp)|done].
    + done.
  - by eapply (le_store s _ p st st').
Qed.

(** ** Unblocking and flushing *)

Lemma walk_lookup s x : x ∈ hash_walk (ss_streams s) -> ss_streams s !! fst x = Some (snd x).
Proof.
  intros Hx. rewrite hash_walk_perm in Hx. destruct x. by apply elem_of_map_to_list in Hx.
Qed.

Lemma wp_unblock_stream s x :
  sess_inv conf s -> ss_streams s !! fst x = Some (snd x) ->
  swp s (unblock_stream x) (fun _ s' => ss_streams s' = ss_streams s).
Proof.
  intros Hs Ht. destruct (ci_table _ _ (si_core _ _ Hs) _ _ Ht) as (st & Hp & Hid).
  unfold unblock_stream. wbind. eapply wp_get_stream; [done|exact Hp|].
  destruct (st_write_blocked st) eqn:Ew; simpl; [|by wret].
  wbind. eapply wp_mono.
  { instantiate (1 := fun _ s' => s' = s). destruct (st_qstream st) as [h|] eqn:Eq; [|by wret].
    unfold q_is_write_blocked. wbind. eapply wp_use; [done|exact Hp|done|].
    by wgets. }
  intros full s1 _ _ ->. destruct full; [by wret|]. wbind.
  destruct (inv_set_blocked s (fst x) (snd x) st false) as [H1 H2]; [done..|].
  apply wp_modify; [done|done|]. eapply wp_mono; [apply wp_on_ngh; [done|]|].
  { intros n. apply ngh_unblock_same. }
  intros [] s2 _ _ Hsh. by rewrite (ss_same_streams _ _ Hsh).
Qed.

Lemma wp_unblock_writable_streams s :
  sess_inv conf s -> swp s unblock_writable_streams (fun _ _ => True).
Proof.
  intros Hs. unfold unblock_writable_streams. wbind. wgets; [done|].
  destruct (ss_blocked s <=? 0); [by wret|]. wbind. wgets; [done|].
  eapply wp_mono; [apply (wp_for_each _ _ _ _ _ (fun s' => ss_streams s' = ss_streams s)); [done|done|]|done].
  intros x s1 Hx Hs1 _ HJ. apply walk_lookup in Hx.
  eapply wp_mono; [apply wp_unblock_stream; [done|by rewrite HJ]|]. simpl. congruence.
Qed.

Lemma wp_add_offsets s sid n :
  sess_inv conf s -> swp s (add_offsets conf sid n) (fun _ s' => same_shape s s').
Proof.
  intros Hs. unfold add_offsets. wbind. eapply wp_mono; [apply wp_on_ngh; [done|]|].
  { intros g. apply ngh_write_offset_same. }
  intros [] s1 Hs1 _ Hsh. eapply wp_mono; [apply wp_call; [done|done|]|].
  { intros P g Hk. by apply ngh_ack_ok. }
  intros [] s2 _ _ Hsh2. by etrans.
Qed.

Lemma wp_count_written s n :
  sess_inv conf s -> swp s (count_written io n) (fun _ s' => same_shape s s').
Proof.
  intros Hs. unfold count_written. destruct (_ && _); simpl; [|by wret].
  eapply wp_mono; [apply wp_ext; [done|by split]|]. intros [] s' _ _ ->. by split.
Qed.

Lemma wp_count_read s n : sess_inv conf s -> swp s (count_read io n) (fun _ s' => same_inv s s').
Proof.
  intros Hs. unfold count_read. destruct io; simpl; [|by wret].
  eapply wp_mono; [apply wp_ext; [done|by split]|]. intros [] s' _ _ ->. by split.
Qed.

Lemma wp_mark_dead s e :
  sess_inv conf s -> swp s (mark_ngh3_dead e) (fun _ s' => same_inv s s').
Proof. intros Hs. eapply wp_mono; [apply wp_ext; [done|by split]|]. intros [] s' _ _ ->. by split. Qed.

(** The last part of [flush_stream]: the stream's send buffer is full. *)
Lemma wp_block_stream s sid p :
  sess_inv conf s -> ss_streams s !! sid = Some p ->
  swp s (st ← get_stream p;
         if negb (st_write_blocked st) then
           modify (fun s => set_ss_blocked (ss_blocked s + 1)
                              (upd_stream p (set_st_write_blocked true) s)) ;;
           on_ngh (fun g => ngh_block_stream g sid)
         else mret tt) (fun _ _ => True).
Proof.
  intros Hs Ht. destruct (ci_table _ _ (si_core _ _ Hs) _ _ Ht) as (st & Hp & Hid).
  wbind. eapply wp_get_stream; [done|exact Hp|].
  destruct (st_write_blocked st) eqn:Ew; simpl; [by wret|]. wbind.
  destruct (inv_set_blocked s sid p st true) as [H1 H2]; [done..|].
  apply wp_modify; [done|done|]. eapply wp_mono; [apply wp_on_ngh; [done|]|done].
  intros n. apply ngh_block_same.
Qed.

Lemma wp_q_write s p st h vs fin :
  sess_inv conf s -> ss_heap s !! p = Some st -> st_qstream st = Some h ->
  swp s (q_write h vs fin) (fun _ s' => same_shape s s').
Proof.
  intros Hs Hp Hq. unfold q_write. wbind. eapply wp_use; [done|exact Hp|done|].
  eapply wp_mono; [by apply wp_on_env|]. intros r s1 _ _ (Hsm & Hd & _). by apply same_inv_shape.
Qed.

Lemma wp_flush_stream s sid fin vecs :
  sess_inv conf s -> swp s (flush_stream conf io sid fin vecs) (fun _ _ => True).
Proof.
  intros Hs. unfold flush_stream. wbind. wgets; [done|].
  destruct (ss_streams s !! sid) as [p|] eqn:Ht; [|eapply wp_mono; [by apply wp_add_offsets|done]].
  destruct (ci_table _ _ (si_core _ _ Hs) _ _ Ht) as (st & Hp & Hid).
  wbind. eapply wp_get_stream; [done|exact Hp|].
  destruct (st_qstream st) as [h|] eqn:Eq; [|eapply wp_mono; [by apply wp_add_offsets|done]].
  wbind. eapply wp_mono; [by eapply wp_q_write|]. intros res s1 Hs1 _ Hsh1.
  wbind. eapply wp_mono; [by apply wp_count_written|]. intros [] s2 Hs2 _ Hsh2.
  destruct (wr_broken res); [eapply wp_mono; [by apply wp_add_offsets|done]|].
  wbind. eapply wp_mono; [by apply wp_add_offsets|]. intros [] s3 Hs3 _ Hsh3.
  destruct (wr_blocked res); [|by wret]. apply wp_block_stream; [done|].
  rewrite (ss_same_streams _ _ Hsh3), (ss_same_streams _ _ Hsh2), (ss_same_streams _ _ Hsh1). done.
Qed.

Lemma wp_flush_loop fuel s : sess_inv conf s -> swp s (flush_loop conf io fuel) (fun _ _ => True).
Proof.
  revert s. induction fuel as [|fuel IH]; intros s Hs; cbn [flush_loop].
  { by apply (wp_out_of_fuel (sess_inv conf) sess_le). }
  wbind. eapply wp_mono; [apply wp_call; [done|done|]|].
  { intros P n Hk. by apply ngh_writev_ok. }
  intros r s1 Hs1 _ _. destruct r as [e|sid fin vecs]; [eapply wp_mono; [by apply wp_mark_dead|done]|].
  destruct (_ && _); [by wret|]. wbind.
  eapply wp_mono; [by apply wp_flush_stream|]. intros [] s2 Hs2 _ _. by apply IH.
Qed.

(** ** Freeing QUIC streams *)

(** A handle without an owner: just created, or just taken off the list to free. *)
Definition unowned s (h : handle) : Prop := h ∉ owned s /\ (h < ss_fresh s)%positive.

(** The same for an open session and, below, for an ended one: [I] is kept by any change
    of the lists. *)
Section Lists.
Context (I : session -> Prop).
Context (I_owned : forall s, I s -> NoDup (owned s) /\ Forall (fun h => (h < ss_fresh s)%positive) (owned s)).
Context (I_lists : forall s pend freed e, I s ->
  NoDup (held (ss_heap s) ++ pend ++ freed ++ option_list (ss_qconn s)) ->
  Forall (fun h => (h < ss_fresh s)%positive)
    (held (ss_heap s) ++ pend ++ freed ++ option_list (ss_qconn s)) ->
  I (set_ss_freed freed (set_ss_pending_free pend (set_ss_env e s)))).

Lemma lists_freed s h e :
  I s -> unowned s h -> I (set_ss_freed (h :: ss_freed s) (set_ss_env e s)).
Proof.
  intros Hs [Hno Hlt]. destruct (I_owned s Hs) as [C5 C6].
  assert (Hp : held (ss_heap s) ++ ss_pending_free s ++ (h :: ss_freed s) ++ option_list (ss_qconn s)
               ≡ₚ h :: owned s) by (unfold owned; solve_Permutation).
  pose proof (I_lists s (ss_pending_free s) (h :: ss_freed s) e Hs) as HI.
  destruct s; apply HI; rewrite Hp; by constructor.
Qed.

(** Freeing an object of either kind. *)
Lemma wp_free_gen s h (g : E -> handle -> E) :
  I s -> unowned s h ->
  wp I sess_le s (use h ;; modify (fun s => set_ss_freed (h :: ss_freed s) (set_ss_env (g (ss_env s) h) s)))
    (fun _ s' => ss_freed s' = h :: ss_freed s
    /\ ss_pending_free s' = ss_pending_free s /\ ss_streams s' = ss_streams s
    /\ ss_heap s' = ss_heap s /\ ss_qconn s' = ss_qconn s /\ ss_fresh s' = ss_fresh s
    /\ ss_ngh3 s' = ss_ngh3 s).
Proof.
  intros Hs Hu. apply (wp_bind I sess_le). unfold wp at 1.
  assert (h ∉ ss_freed s) as Hf by (destruct Hu as [Hno _]; unfold owned in Hno; set_solver).
  rewrite (use_ret s h Hf). split_and!; [done|done|].
  apply wp_modify; [by apply lists_freed| |done]. apply le_same_heap; simpl; [done|set_solver|done|done|lia].
Qed.

Lemma wp_free_all l s :
  I s -> ss_pending_free s = l ->
  wp I sess_le s
    (for_each (fun h => modify (fun s => set_ss_pending_free (tail (ss_pending_free s)) s) ;;
                        q_stream_free h) l)
    (fun _ s' => ss_pending_free s' = [] /\ ss_freed s' = rev l ++ ss_freed s
       /\ ss_streams s' = ss_streams s /\ ss_heap s' = ss_heap s /\ ss_qconn s' = ss_qconn s
       /\ ss_ngh3 s' = ss_ngh3 s).
Proof.
  revert s. induction l as [|h l IH]; intros s Hs Hl; cbn [for_each].
  { by apply (wp_ret I sess_le). }
  destruct (I_owned s Hs) as [C5 C6].
  assert (Hp : owned s ≡ₚ h :: (held (ss_heap s) ++ l ++ ss_freed s ++ option_list (ss_qconn s)))
    by (unfold owned; rewrite Hl; solve_Permutation).
  rewrite Hp in C5, C6. apply NoDup_cons in C5 as [Hno C5]. apply Forall_cons in C6 as [Hlt C6].
  pose proof (I_lists s l (ss_freed s) (ss_env s) Hs C5 C6) as H1.
  do 2 apply (wp_bind I sess_le).
  apply wp_modify; rewrite Hl; simpl; [destruct s; exact H1|by apply le_same_heap|].
  eapply wp_mono; [apply wp_free_gen; [destruct s; exact H1|by split]|].
  simpl. intros [] s1 Hs1 _ (F1 & F2 & F3 & F4 & F5 & _ & F7).
  eapply wp_mono; [apply IH; [done|done]|]. simpl. intros [] s2 _ _ (G1 & G2 & G3 & G4 & G5 & G6).
  split_and!; try congruence. rewrite G2, F1, <- app_assoc. done.
Qed.

Lemma wp_free_pending s :
  I s ->
  wp I sess_le s free_pending (fun _ s' => ss_pending_free s' = []
    /\ ss_freed s' = rev (ss_pending_free s) ++ ss_freed s
    /\ ss_streams s' = ss_streams s /\ ss_heap s' = ss_heap s /\ ss_qconn s' = ss_qconn s
       /\ ss_ngh3 s' = ss_ngh3 s).
Proof.
  intros Hs. unfold free_pending. apply (wp_bind I sess_le). apply (wp_gets I sess_le); [done|].
  by apply wp_free_all.
Qed.

End Lists.

Lemma sess_owned s :
  sess_inv conf s -> NoDup (owned s) /\ Forall (fun h => (h < ss_fresh s)%positive) (owned s).
Proof. intros [[] _ _ _ _]. done. Qed.

Lemma sess_lists s pend freed e :
  sess_inv conf s ->
  NoDup (held (ss_heap s) ++ pend ++ freed ++ option_list (ss_qconn s)) ->
  Forall (fun h => (h < ss_fresh s)%positive)
    (held (ss_heap s) ++ pend ++ freed ++ option_list (ss_qconn s)) ->
  sess_inv conf (set_ss_freed freed (set_ss_pending_free pend (set_ss_env e s))).
Proof.
  intros [[C1 C2 C3 C4 C5 C6 C7 C8] (n & Hn & Hk) Hcn Ha Hpn] H1 H2. split; [by split| |done|done|done]. by exists n.
Qed.

Lemma wp_q_stream_free s h :
  sess_inv conf s -> unowned s h ->
  swp s (q_stream_free h) (fun _ s' => ss_freed s' = h :: ss_freed s
    /\ ss_pending_free s' = ss_pending_free s /\ ss_streams s' = ss_streams s
    /\ ss_heap s' = ss_heap s /\ ss_qconn s' = ss_qconn s /\ ss_fresh s' = ss_fresh s
    /\ ss_ngh3 s' = ss_ngh3 s).
Proof. apply (wp_free_gen _ sess_owned sess_lists). Qed.

Lemma wp_flush_nghttp3 fuel s :
  sess_inv conf s -> swp s (flush_nghttp3 conf io fuel) (fun _ s' =>
    ss_ngh3_dead s = false -> ss_pending_free s' = []).
Proof.
  intros Hs. unfold flush_nghttp3. wbind. wgets; [done|].
  destruct (ss_ngh3_dead s); [by wret|].
  wbind. eapply wp_mono; [by apply wp_unblock_writable_streams|]. intros [] s1 Hs1 _ _.
  wbind. eapply wp_mono; [by apply wp_flush_loop|]. intros [] s2 Hs2 _ _.
  eapply wp_mono; [by apply (wp_free_pending _ sess_owned sess_lists)|]. naive_solver.
Qed.

(** ** Draining *)

Lemma wp_feed_stream_fin s p st :
  sess_inv conf s -> ss_heap s !! p = Some st ->
  swp s (feed_stream_fin conf p) (fun _ s' => ss_streams s' = ss_streams s).
Proof.
  intros Hs Hp. unfold feed_stream_fin. wbind. eapply wp_get_stream; [done|exact Hp|].
  wbind. eapply wp_mono; [apply wp_call; [done|done|]|].
  { intros P n Hk. by apply ngh_read_ok. }
  intros consumed s1 Hs1 Hle1 Hsh1. wbind. eapply wp_mono.
  { instantiate (1 := fun _ s' => same_inv s1 s').
    destruct (consumed <? 0); simpl; [by apply wp_mark_dead|by wret]. }
  intros [] s2 Hs2 Hle2 Hsm. destruct (le_lookup s s2 p st) as (st2 & Hp2 & _); [by etrans|done|].
  eapply wp_mono; [by eapply (wp_upd s2 p st2)|]. simpl. intros [] s3 _ _ [Hsh3 _].
  rewrite (ss_same_streams _ _ Hsh3), (sm_streams _ _ Hsm). by apply ss_same_streams.
Qed.

Lemma wp_q_read s p st h n :
  sess_inv conf s -> ss_heap s !! p = Some st -> st_qstream st = Some h ->
  swp s (q_read h n) (fun r s' => same_inv s s' /\ (0 <= n -> blen (rd_bytes r) <= n)).
Proof.
  intros Hs Hp Hq. unfold q_read. wbind. eapply wp_use; [done|exact Hp|done|].
  eapply wp_mono; [by apply wp_on_env|]. intros r s1 _ _ (Hsm & Hd & He).
  split; [done|]. intros Hn. by eapply qs_read_bound.
Qed.

(** The budgets are only ever lowered, and by no more than is left. *)
Lemma wp_drain_reads p buf reads left data s st :
  sess_inv conf s -> ss_heap s !! p = Some st -> 0 < buf -> 0 <= left <= SIZE_MAX ->
  swp s (drain_reads conf io p buf reads left data)
    (fun r s' => ss_streams s' = ss_streams s /\ (fst (fst r) <= reads)%nat
                 /\ 0 <= snd (fst r) <= left).
Proof.
  revert s st left data. induction reads as [|reads IH]; intros s st left data Hs Hp Hb Hl;
    cbn [drain_reads]; [wret; simpl; auto with lia|].
  destruct (Z.leb_spec left 0) as [|Hpos]; [wret; simpl; auto with lia|].
  wbind. eapply wp_get_stream; [done|exact Hp|].
  destruct (st_qstream st) as [h|] eqn:Eq.
  2:{ wbind. eapply wp_mono; [by eapply (wp_upd s p st)|]. intros [] s1 Hs1 _ [Hsh _].
      wret; [done|]. simpl. rewrite (ss_same_streams _ _ Hsh). auto with lia. }
  set (size := if buf <? left then buf else left).
  assert (0 < size <= left) as Hsz by (unfold size; destruct (Z.ltb_spec buf left); lia).
  wbind. eapply wp_mono; [by eapply wp_q_read|]. intros r s1 Hs1 Hle1 [Hsh1 Hrd].
  assert (Hp1 : ss_heap s1 !! p = Some st) by (by rewrite (sm_heap _ _ Hsh1)).
  destruct (rd_ok r && (0 <? blen (rd_bytes r))) eqn:Eok.
  2:{ wbind. eapply wp_mono.
      { instantiate (1 := fun _ s' => ss_streams s' = ss_streams s1).
        destruct (rd_fin r); simpl; [by eapply wp_feed_stream_fin|by wret]. }
      intros [] s2 Hs2 _ Ht. wret; [done|]. simpl. rewrite Ht, (sm_streams _ _ Hsh1). auto with lia. }
  apply andb_true_iff in Eok as [_ Hnz%Z.ltb_lt]. specialize (Hrd ltac:(lia)).
  rewrite (wrap64_small (left - blen (rd_bytes r))) by (unfold SIZE_MAX in *; lia).
  wbind. eapply wp_mono; [by apply wp_count_read|]. intros [] s2 Hs2 Hle2 Hsh2.
  assert (Hp2 : ss_heap s2 !! p = Some st) by (by rewrite (sm_heap _ _ Hsh2)).
  assert (Hus : in_use s2 (st_stream_id st) p) by (exists st; split_and!; [done..|left; by rewrite Eq]).
  apply wp_call_pending; [done|done| | |].
  { intros P n Hk. by apply ngh_read_ok. }
  { simpl. intros q Hq. by simplify_eq. }
  intros consumed s5 Hs5 Hle5 Ht5.
  destruct (le_lookup _ s5 p st Hle5) as (st4 & Hp4 & _); [done|].
  assert (Htab : ss_streams s5 = ss_streams s).
  { by rewrite Ht5, (sm_streams _ _ Hsh2), (sm_streams _ _ Hsh1). }
  destruct (consumed <? 0).
  - wbind. eapply wp_mono; [by apply wp_mark_dead|]. intros [] s6 Hs6 _ Hsm6.
    wbind. eapply wp_mono; [eapply (wp_upd s6 p st4); try done; by rewrite (sm_heap _ _ Hsm6)|].
    intros [] s7 Hs7 _ [Hsh7 _]. wret; [done|]. simpl.
    rewrite (ss_same_streams _ _ Hsh7), (sm_streams _ _ Hsm6). auto with lia.
  - wbind. eapply wp_get_stream; [done|exact Hp4|]. destruct (st_done st4).
    + wret; [done|]. simpl in *. auto with lia.
    + eapply wp_mono; [eapply IH; [done|exact Hp4|done|lia]|]. simpl in *.
      intros r0 s6 _ _ (H1 & H2 & H3). rewrite H1. auto with lia.
Qed.

Lemma wp_drain_one_stream p reads left data s st :
  sess_inv conf s -> ss_heap s !! p = Some st -> 0 <= left <= SIZE_MAX ->
  swp s (drain_one_stream conf io p reads left data)
    (fun r s' => ss_streams s' = ss_streams s /\ (fst (fst (snd r)) <= reads)%nat
                 /\ 0 <= snd (fst (snd r)) <= left).
Proof.
  intros Hs Hp Hl. unfold drain_one_stream. wbind. eapply wp_mono.
  { apply wp_ext; [done|]. case_match; by split. }
  intros [] s0 Hs0 _ Heq.
  assert (Hsm : ss_heap s0 = ss_heap s /\ ss_streams s0 = ss_streams s)
    by (rewrite Heq; by case_match).
  destruct Hsm as [Hh0 Ht0]. rewrite <- Hh0 in Hp. clear Heq.
  wbind. eapply wp_get_stream; [done|exact Hp|]. wbind. eapply wp_mono.
  { instantiate (1 := fun _ s' => s' = s0). destruct (st_qstream st) as [h|] eqn:Eq; [|by wret].
    unfold q_is_read_finished. wbind. eapply wp_use; [done|exact Hp|done|]. by wgets. }
  intros [rfin wfin] s1 _ _ ->. simpl. destruct rfin.
  - wbind. eapply wp_mono.
    { instantiate (1 := fun _ s' => ss_streams s' = ss_streams s0).
      destruct (negb (st_body_complete st)); [by eapply wp_feed_stream_fin|by wret]. }
    intros [] s2 Hs2 Hle2 Ht2. destruct (le_lookup _ _ _ _ Hle2 Hp) as (st2 & Hp2 & _).
    wbind. eapply wp_get_stream; [done|exact Hp2|]. wbind. eapply wp_mono.
    { instantiate (1 := fun _ s' => same_shape s2 s'). destruct (_ && _); [|by wret].
      apply wp_call; [done|done|]. intros P n Hk. by apply ngh_close_ok. }
    intros [] s3 Hs3 Hle3 Hsh3. destruct (le_lookup _ _ _ _ Hle3 Hp2) as (st3 & Hp3 & _).
    wbind. eapply wp_get_stream; [done|exact Hp3|]. wret; [done|]. simpl.
    rewrite (ss_same_streams _ _ Hsh3). split; [congruence|]. auto with lia.
  - wbind. eapply wp_mono; [by eapply wp_drain_reads; [..|lia|]|].
    intros r s2 Hs2 Hle2 (Ht2 & Hr & Hb). destruct (le_lookup _ _ _ _ Hle2 Hp) as (st2 & Hp2 & _).
    wbind. eapply wp_get_stream; [done|exact Hp2|]. wret; [done|]. simpl. split; [congruence|done].
Qed.

Lemma wp_take_snapshot s total walk iter acc :
  sess_inv conf s -> 0 <= iter -> iter + Z.of_nat (length walk) <= total ->
  swp s (take_snapshot total iter walk acc) (fun l s' => s' = s /\ l = acc ++ (snd <$> walk)).
Proof.
  intros Hs. revert iter acc. induction walk as [|[k q] walk IH]; intros iter acc Hi Hle;
    cbn [take_snapshot].
  { wret; [done|]. by rewrite app_nil_r. }
  rewrite (proj2 (Z.ltb_ge _ _)) by (simpl in Hle; lia).
  eapply wp_mono; [apply IH; simpl in Hle; lia|]. simpl. intros l s' _ _ [-> ->].
  split; [done|]. by rewrite <- app_assoc.
Qed.

(** The pass over the snapshot: the requests it reports are streams of the snapshot. *)
Lemma wp_drain_pass snap start offset todo reads left data done_ s :
  sess_inv conf s -> (forall p, p ∈ snap -> valid s p) -> 0 <= left <= SIZE_MAX ->
  (todo <= length snap)%nat -> (forall p, p ∈ done_ -> p ∈ snap) ->
  swp s (drain_pass conf io snap start offset todo reads left data done_)
    (fun r s' => ss_streams s' = ss_streams s /\ forall p, p ∈ fst r -> p ∈ snap).
Proof.
  revert offset reads left data done_ s.
  induction todo as [|todo IH]; intros offset reads left data done_ s Hs Hv Hl Htodo Hd;
    cbn [drain_pass]; [by wret|].
  wbind. wgets; [done|]. destruct (ss_ngh3_dead s); [by wret|].
  set (i := (start + offset) mod Z.of_nat (length snap)).
  assert (Hi : 0 <= i < Z.of_nat (length snap)) by (apply Z.mod_pos_bound; lia).
  destruct (lookup_lt_is_Some_2 snap (Z.to_nat i)) as [p Hsp]; [lia|].
  assert (Hin : p ∈ snap) by (by eapply list_elem_of_lookup_2).
  wbind. rewrite Hsp. wret; [done|]. destruct (Hv p Hin) as [st Hp].
  wbind. eapply wp_get_stream; [done|exact Hp|].
  destruct (_ || _ || _); [apply IH; auto with lia|].
  wbind. eapply wp_mono; [by eapply wp_drain_one_stream|].
  intros [ready [[reads' left'] read']] s1 Hs1 Hle1 (Ht1 & Hr1 & Hb1). simpl in Hr1, Hb1.
  wbind. wgets; [done|].
  set (done' := if ready && negb (ss_ngh3_dead s1) then done_ ++ [p] else done_).
  assert (Hd' : forall q, q ∈ done' -> q ∈ snap).
  { intros q. unfold done'. case_match; [|apply Hd]. rewrite elem_of_app, list_elem_of_singleton.
    intros [?| ->]; auto. }
  destruct (_ || _).
  - wbind. eapply wp_mono; [apply wp_ext; [done|by split]|]. intros [] s2 Hs2 _ ->.
    by wret.
  - eapply wp_mono; [apply IH; try done; try lia|].
    + intros q Hq. destruct (Hv q Hq) as [stq Hstq].
      destruct (le_lookup _ _ _ _ Hle1 Hstq) as (stq' & ? & _). by eexists.
    + simpl. intros r s2 _ _ [H1 H2]. split; [congruence|done].
Qed.

(** ** Reclaiming closed requests *)

Definition tracked s p : Prop :=
  exists st, ss_heap s !! p = Some st /\ ss_streams s !! st_stream_id st = Some p.

Lemma blocked_map_delete s sid p st st' :
  core_inv conf s -> ss_streams s !! sid = Some p -> ss_heap s !! p = Some st ->
  blocked_map (set_ss_streams (delete sid (ss_streams s)) (set_ss_heap (<[p := st']> (ss_heap s)) s))
  = delete sid (blocked_map s).
Proof.
  intros Hc Ht Hp.
  transitivity (delete sid (blocked_map (set_ss_heap (<[p := st']> (ss_heap s)) s))).
  { unfold blocked_map. simpl. by rewrite map_filter_delete. }
  rewrite (blocked_map_set s sid p st st') by done.
  destruct (st_write_blocked st'); [by rewrite delete_insert_eq|by rewrite delete_delete_eq].
Qed.

Lemma inv_reclaim s p st rq :
  sess_inv conf s -> ss_heap s !! p = Some st -> ss_streams s !! st_stream_id st = Some p ->
  rq_cancelled rq = rq_cancelled (st_resp st) -> (forall m, resp_ok conf m rq) ->
  st_qstream st = None -> st_dispatched st = true -> st_worker_done st = true ->
  let s1 := if st_write_blocked st then set_ss_blocked (ss_blocked s - 1) s else s in
  let s' := set_ss_streams (delete (st_stream_id st) (ss_streams s1))
              (upd_stream p (fun x => set_st_pool false (set_st_resp rq (set_st_write_blocked false x))) s1) in
  sess_inv conf s' /\ sess_le s s'.
Proof.
  intros Hs Hp Ht Hcan Hr Hnq Hdi Hwd s1 s'. pose proof Hs as [Hc (n & Hn & Hk) Hcn Ha Hpn].
  set (st' := set_st_pool false (set_st_resp rq (set_st_write_blocked false st))).
  set (sa := set_ss_streams (delete (st_stream_id st) (ss_streams s))
               (set_ss_heap (<[p := st']> (ss_heap s)) s)).
  assert (Hs' : s' = set_ss_blocked (if st_write_blocked st then ss_blocked s - 1 else ss_blocked s) sa).
  { unfold s', s1, sa, upd_stream, st'.
    destruct (st_write_blocked st); destruct s; simpl in *;
      by rewrite (alter_insert_eq _ _ _ _ Hp). }
  pose proof (blocked_map_delete s _ p st st' Hc Ht Hp) as Hbm. fold sa in Hbm.
  pose proof (blocked_lookup s _ p st Ht Hp) as Hl.
  pose proof (ci_stream _ _ Hc _ _ Hp) as (Hok1 & Hok2 & Hok3). rewrite Hs'.
  destruct Hc as [C1 C2 C3 C4 C5 C6 C7 C8]. split.
  - split; [split|..]; simpl.
    + intros i q [Hi Hq]%lookup_delete_Some. destruct (C1 _ _ Hq) as (st0 & H0 & Hid).
      exists st0. rewrite lookup_insert_ne; [done|]. intros <-. congruence.
    + intros q. rewrite (insert_is_Some _ _ _ _ _ Hp). apply C2.
    + change (blocked_map _) with (blocked_map sa) at 1. rewrite Hbm.
      destruct (st_write_blocked st).
      * rewrite map_size_delete_Some by done.
        assert (size (blocked_map s) <> 0%nat); [|lia].
        intros Hz%map_size_empty_inv. by rewrite Hz in Hl.
      * by rewrite delete_id.
    + intros q st0. destruct (decide (q = p)) as [->|].
      * rewrite lookup_insert_eq. intros. simplify_eq. split_and!; [done| |done|done]. simpl. by rewrite Hcan.
      * rewrite lookup_insert_ne by done. apply C4.
    + unfold owned. simpl. rewrite held_insert. simpl. by rewrite <- (held_lookup _ _ _ Hp).
    + unfold owned. simpl. rewrite held_insert. simpl. by rewrite <- (held_lookup _ _ _ Hp).
    + intros i q st0 [Hi Hq]%lookup_delete_Some. destruct (C1 _ _ Hq) as (st1 & H1 & Hid).
      rewrite lookup_insert_ne; [by apply (C7 i)|]. intros <-. congruence.
    + by apply (stale_insert (ss_stale s) (ss_heap s) p st st' C8 Hp).
    + exists n. split; [done|]. apply (ngh_ok_le s); [done|]. by eapply (good_le_store s _ p st st').
    + done.
    + by eapply (acct_store conf s _ p st st' (unacked_of s)).
    + done.
  - eapply (le_store s _ p st st'); try done. unfold stream_le, busy. simpl. rewrite Hcan, Hwd. naive_solver.
Qed.

Lemma wp_reclaim s p :
  sess_inv conf s -> tracked s p ->
  swp s (reclaim p) (fun _ s' => forall q, q <> p -> tracked s q -> tracked s' q).
Proof.
  intros Hs (st & Hp & Ht). unfold reclaim. wbind. eapply wp_get_stream; [done|exact Hp|].
  destruct (reclaimable st) eqn:Er; simpl; [|by wret].
  unfold reclaimable in Er. rewrite !andb_true_iff, bool_decide_eq_true in Er.
  destruct Er as [[[_ Hq] Hdi] Hwd].
  destruct (resp_ok_cleanup conf _ _ (si_acct _ _ Hs _ _ Hp)) as (rq & Hcl & _ & Hcan & Hany).
  specialize (Hany (proj1 (proj2 (ci_stream _ _ (si_core _ _ Hs) _ _ Hp)) Hq)).
  wbind. rewrite Hcl. wret; [done|].
  destruct (inv_reclaim s p st rq Hs Hp Ht Hcan Hany Hq Hdi Hwd) as [H1 H2].
  apply wp_modify; [done|done|]. intros q Hne (stq & Hpq & Htq). exists stq.
  assert (st_stream_id stq <> st_stream_id st) by congruence.
  simpl. destruct (st_write_blocked st); simpl;
    rewrite lookup_delete_ne by done; unfold upd_stream; simpl; by rewrite lookup_alter_ne.
Qed.

Lemma wp_reclaim_all l s :
  sess_inv conf s -> NoDup l -> Forall (tracked s) l ->
  swp s (for_each reclaim l) (fun _ _ => True).
Proof.
  revert s. induction l as [|p l IH]; intros s Hs Hnd Hl; cbn [for_each]; [by wret|].
  apply NoDup_cons in Hnd as [Hno Hnd]. apply Forall_cons in Hl as [Hp Hl].
  wbind. eapply wp_mono; [by apply wp_reclaim|]. simpl. intros [] s1 Hs1 _ Hkeep.
  apply IH; [done|done|]. rewrite Forall_forall in *. intros q Hq. apply Hkeep; [|by apply Hl].
  intros ->. done.
Qed.

(** The walk meets each tracked stream once. *)
Lemma snapshot_tracked s :
  core_inv conf s ->
  NoDup (snd <$> hash_walk (ss_streams s)) /\ Forall (tracked s) (snd <$> hash_walk (ss_streams s)).
Proof.
  intros Hc. split.
  - rewrite hash_walk_perm. apply NoDup_fmap_2_strong; [|apply NoDup_map_to_list].
    intros [i x] [j y] Hx%elem_of_map_to_list Hy%elem_of_map_to_list Heq. simpl in Heq. subst y.
    destruct (ci_table _ _ Hc _ _ Hx) as (? & ? & ?), (ci_table _ _ Hc _ _ Hy) as (? & ? & ?).
    congruence.
  - rewrite hash_walk_perm. apply Forall_fmap, Forall_forall. intros [i x] Hx%elem_of_map_to_list. simpl.
    destruct (ci_table _ _ Hc _ _ Hx) as (st & Hp & Hid). exists st. by rewrite Hid.
Qed.

(** A callback or a read leaves every tracked stream tracked. *)
Lemma tracked_le s s' p : sess_le s s' -> ss_streams s' = ss_streams s -> tracked s p -> tracked s' p.
Proof.
  intros Hle Ht (st & Hp & Htab). destruct (le_lookup _ _ _ _ Hle Hp) as (st' & Hp' & Hid & _).
  exists st'. by rewrite Ht, Hid.
Qed.

Lemma wp_drain_ready_streams s :
  sess_inv conf s ->
  swp s (drain_ready_streams conf io) (fun r s' => forall p, p ∈ fst r -> valid s' p).
Proof.
  intros Hs. unfold drain_ready_streams. wbind. wgets; [done|].
  destruct (snapshot_tracked s (si_core _ _ Hs)) as [Hnd Htr].
  wbind. eapply wp_mono; [apply wp_take_snapshot; [done|done|]|].
  { rewrite hash_walk_perm, length_map_to_list. lia. }
  intros snap s1 _ _ [-> ->]. cbn [app]. wbind. wgets; [done|]. wbind.
  eapply wp_mono; [apply wp_drain_pass; try done|].
  { intros p Hp. rewrite Forall_forall in Htr. destruct (Htr p Hp) as (st & ? & _). by eexists. }
  { by intros p ?%elem_of_nil. }
  intros r s2 Hs2 Hle2 [Ht2 Hin]. wbind. eapply wp_mono; [apply wp_reclaim_all; [done|done|]|].
  { eapply Forall_impl; [exact Htr|]. intros p. by apply tracked_le. }
  intros [] s3 Hs3 Hle3 _. wret; [done|]. intros p Hp.
  rewrite Forall_forall in Htr. destruct (Htr p (Hin p Hp)) as (st & Hst & _).
  destruct (le_lookup s s3 p st) as (st' & ? & _); [by etrans|done|]. by eexists.
Qed.

(** ** Tracking streams *)

Lemma owned_set_qstream s p st h :
  ss_heap s !! p = Some st ->
  owned (set_ss_heap (<[p := set_st_qstream (Some h) st]> (ss_heap s)) s) ⊆+ h :: owned s.
Proof.
  intros Hp. unfold owned. simpl. rewrite held_insert, (held_lookup _ _ _ Hp). simpl.
  apply submseteq_skip. rewrite <- app_assoc. by apply submseteq_inserts_l.
Qed.

(** A handle the stream takes over; the one it had, if any, is forgotten. *)
Lemma inv_set_qstream s sid p st h :
  sess_inv conf s -> ss_streams s !! sid = Some p -> ss_heap s !! p = Some st -> unowned s h ->
  let s' := upd_stream p (set_st_qstream (Some h)) s in
  sess_inv conf s' /\ sess_le s s'.
Proof.
  intros Hs Ht Hp [Hno Hlt]. rewrite (upd_stream_eq _ _ _ _ Hp). cbv zeta.
  set (st' := set_st_qstream (Some h) st).
  pose proof Hs as [Hc (n & Hn & Hk) Hcn Ha Hpn]. pose proof (ci_pool _ _ Hc _ _ _ Ht Hp) as Hpl.
  pose proof (ci_stream _ _ Hc _ _ Hp) as (Hok1 & Hok2 & Hok3).
  pose proof (owned_set_qstream s p st h Hp) as Hsub. fold st' in Hsub.
  destruct Hc as [C1 C2 C3 C4 C5 C6 C7 C8]. split; [|by eapply (le_store s _ p st st')].
  split; [split|..]; simpl.
  - intros i q Hq. destruct (C1 _ _ Hq) as (st0 & H0 & Hi). destruct (decide (q = p)) as [->|].
    + exists st'. rewrite lookup_insert_eq. split; [done|]. simpl. congruence.
    + exists st0. by rewrite lookup_insert_ne.
  - intros q. rewrite (insert_is_Some _ _ _ _ _ Hp). apply C2.
  - rewrite C3. do 2 f_equal. symmetry. by apply (blocked_map_same s p st st').
  - intros q st0. destruct (decide (q = p)) as [->|].
    + rewrite lookup_insert_eq. intros. simplify_eq. split_and!; [done|done| |apply Hok3]. simpl. by rewrite Hpl.
    + rewrite lookup_insert_ne by done. apply C4.
  - eapply NoDup_sub; [exact Hsub|]. by constructor.
  - eapply Forall_sub; [exact Hsub|]. by constructor.
  - by apply (pool_insert (ss_streams s) (ss_heap s) p st st' C7 Hp).
  - by apply (stale_insert (ss_stale s) (ss_heap s) p st st' C8 Hp).
  - exists n. split; [done|]. apply (ngh_ok_le s); [done|].
    eapply (good_le_store s _ p st st'); [done|done|done|]. intros _. left. by eexists.
  - done.
  - by eapply (acct_store conf s _ p st st' (unacked_of s)); [done|done|done|by apply (Ha _ _ Hp)|done].
  - done.
Qed.

Lemma stream_limit_ok : 0 < stream_limit conf <= SIZE_MAX.
Proof. unfold stream_limit. destruct (Z.eqb_spec (h3_stream_buffer_size conf) 0); simpl; lia. Qed.

Lemma inv_new_stream s sid h :
  sess_inv conf s -> ss_streams s !! sid = None -> unowned s h ->
  let s' := set_ss_next (Pos.succ (ss_next s))
              (set_ss_streams (<[sid := ss_next s]> (ss_streams s))
                (set_ss_heap (<[ss_next s := new_stream sid h (stream_limit conf)]> (ss_heap s)) s)) in
  sess_inv conf s' /\ sess_le s s' /\ owned s' ≡ₚ h :: owned s.
Proof.
  intros [Hc (n & Hn & Hk & H0) Hcn Ha Hpn] Ht [Hno Hlt] s'.
  destruct Hc as [C1 C2 C3 C4 C5 C6 C7 C8].
  assert (Hnone : ss_heap s !! ss_next s = None).
  { apply eq_None_not_Some. intros H%C2. lia. }
  assert (Hown : owned s' ≡ₚ h :: owned s).
  { unfold owned. simpl. rewrite held_insert. simpl. by rewrite delete_id by done. }
  assert (Hold : forall q st, ss_heap s !! q = Some st -> ss_heap s' !! q = Some st).
  { intros q st Hq. simpl. rewrite lookup_insert_ne; [done|]. congruence. }
  assert (Hnew : forall q st, ss_heap s' !! q = Some st -> ss_heap s !! q = Some st
    \/ q = ss_next s /\ st = new_stream sid h (stream_limit conf)).
  { intros q st. simpl. rewrite lookup_insert_Some. naive_solver. }
  split_and!; [| |done].
  - split; [split|..].
    + intros i q. simpl. rewrite lookup_insert_Some. intros [[<- <-]|[Hne Hq]].
      * eexists. rewrite lookup_insert_eq. done.
      * destruct (C1 _ _ Hq) as (st & Hst & Hid). exists st. split; [by apply Hold|done].
    + intros q [st Hq]. simpl. apply Hnew in Hq as [Hq|[-> _]]; [|lia].
      assert (q < ss_next s)%positive by (apply C2; by eexists). lia.
    + simpl. rewrite C3. do 2 f_equal. unfold blocked_map. simpl.
      rewrite map_filter_insert_False.
      2:{ simpl. unfold is_blocked. by rewrite lookup_insert_eq. }
      rewrite delete_id by done. apply map_filter_ext. intros i q Hq. simpl. unfold is_blocked.
      destruct (C1 _ _ Hq) as (st & Hst & _). pose proof (Hold _ _ Hst) as Hst'. simpl in Hst'.
      by rewrite Hst, Hst'.
    + intros q st [Hq|[-> ->]]%Hnew; [by apply (C4 q)|]. split; [|done]. by apply rb_new_inv.
    + rewrite Hown. by constructor.
    + rewrite Hown. by constructor.
    + intros i q st. intros Hq [Hst|[-> ->]]%Hnew; [|done]. revert Hq. simpl. rewrite lookup_insert_Some.
      intros [[<- <-]|[Hne Hq]]; [congruence|by apply (C7 i q)].
    + intros q Hq. destruct (C8 q Hq) as (st & Hst & Htr). exists st. split; [by apply Hold|done].
    + exists n. split; [done|]. split.
      * intros i q Hq. destruct (Hk i q Hq) as (st & Hst & Hu). exists st. split; [by apply Hold|done].
      * intros q Hq. apply H0. destruct (ss_heap s !! q) as [st|] eqn:E0; [|done].
        apply Hold in E0. congruence.
    + done.
    + intros q st [Hq|[-> ->]]%Hnew; [by apply (Ha q)|].
      unfold unacked_of. simpl. rewrite Hn. specialize (H0 _ Hnone).
      assert (ngh_unacked n (ss_next s) = 0) as -> by (pose proof (ngh_unacked_nonneg n (ss_next s)); lia).
      apply resp_ok_new, stream_limit_ok.
    + done.
  - split; [|done|done|done|simpl; lia]. intros q st Hq. exists st. split; [by apply Hold|done].
Qed.

Lemma wp_track_stream s cond_ok sid h :
  sess_inv conf s -> unowned s h ->
  swp s (track_stream conf true cond_ok sid h) (fun o s' =>
    match o with
    | Some p => ss_streams s' !! sid = Some p
                /\ exists st, ss_heap s' !! p = Some st /\ st_qstream st = Some h
    | None => s' = s
    end
    /\ ss_qconn s' = ss_qconn s /\ forall h', unowned s h' -> h' <> h -> unowned s' h').
Proof.
  intros Hs Hu. unfold track_stream. wbind. wgets; [done|].
  destruct (ss_streams s !! sid) as [p|] eqn:Ht.
  - destruct (ci_table _ _ (si_core _ _ Hs) _ _ Ht) as (st & Hp & Hid).
    wbind. eapply wp_get_stream; [done|exact Hp|].
    destruct (inv_set_qstream s sid p st h Hs Ht Hp Hu) as [H1 H2].
    wbind. apply wp_modify; [done|done|]. wret; [done|]. rewrite (upd_stream_eq _ _ _ _ Hp).
    split_and!; [done| |done|].
    + exists (set_st_qstream (Some h) st). simpl. by rewrite lookup_insert_eq.
    + intros h' [Hno Hlt] Hne. split; [|done]. intros Hin.
      pose proof (elem_of_submseteq _ _ h' Hin (owned_set_qstream s p st h Hp)). set_solver.
  - wbind. wret; [done|]. destruct cond_ok; simpl; [|by wret].
    wbind. wgets; [done|]. fold (stream_limit conf).
    destruct (inv_new_stream s sid h Hs Ht Hu) as (H1 & H2 & Hown).
    wbind. apply wp_modify; [done|done|]. wret; [done|]. simpl.
    rewrite lookup_insert_eq. split_and!; [done| |done|].
    + eexists. by rewrite lookup_insert_eq.
    + intros h' [Hno Hlt] Hne. split; [|done]. rewrite Hown. set_solver.
Qed.

(** ** Creating a session *)

Lemma session_create_inv fresh env qconn s rv :
  (qconn < fresh)%positive ->
  h3_session_create conf APR_SUCCESS fresh env qconn = (Some s, rv) ->
  sess_inv conf s /\ ss_qconn s = Some qconn /\ ss_freed s = [].
Proof.
  intros Hq. unfold h3_session_create. destruct ngh_server_new as [n|] eqn:En; [|done].
  intros [= <- _]. destruct (ngh_new_clean n En) as [Hud Hua].
  destruct (ngh_max_same n (h3_max_concurrent_streams conf)) as [Hm1 Hm2].
  split; [|done]. split; [split|..]; simpl; try done.
  - by intros p [? ?].
  - unfold owned, held. simpl. rewrite map_to_list_empty. simpl. by apply NoDup_singleton.
  - unfold owned, held. simpl. rewrite map_to_list_empty. simpl. by apply Forall_singleton.
  - by intros p ?%elem_of_nil.
  - eexists. split; [done|]. split.
    + intros sid p Hp%Hm1. by rewrite Hud in Hp.
    + intros p _. rewrite Hm2, Hua. done.
Qed.

(** A created stream has no owner yet; those without one before still have none. *)
Lemma wp_open_uni s c :
  sess_inv conf s -> ss_qconn s = Some c ->
  swp s q_open_uni (fun o s' => ss_qconn s' = Some c
    /\ ss_control_created s' = ss_control_created s
    /\ (forall h id, o = Some (h, id) -> unowned s' h /\ forall h', unowned s h' -> h' <> h)
    /\ forall h', unowned s h' -> unowned s' h').
Proof.
  intros Hs Hc. unfold q_open_uni. wbind. wgets; [done|]. rewrite Hc. wbind. wret; [done|].
  unfold wp, q_create. destruct (qc_open_uni (ss_env s) c (ss_fresh s)) as [e o] eqn:Eo.
  pose proof Hs as [[C1 C2 C3 C4 C5 C6 C7 C8] (n & Hn & Hk) Hcn Ha Hpn].
  assert (Hf : Forall (fun h => (h < Pos.succ (ss_fresh s))%positive) (owned s))
    by (eapply Forall_impl; [exact C6|]; simpl; lia).
  split_and!; try done.
  - split; [by split| |done|done|done]. by exists n.
  - split; [|done|done|done|simpl; lia]. intros p st Hp. by exists st.
  - intros h id ->. apply qc_open_uni_fresh in Eo as ->. split.
    + split; [|simpl; lia]. change (owned _) with (owned s). intros Hin.
      rewrite Forall_forall in C6. specialize (C6 _ Hin). simpl in C6. lia.
    + intros h' [_ Hlt] ->. lia.
  - intros h' [Hno Hlt]. split; [done|simpl; lia].
Qed.

(** The handles of a list of created streams: none has an owner, and no two are equal. *)
Definition fresh_list s (l : list handle) : Prop := NoDup l /\ Forall (unowned s) l.

Definition handle_of (o : option (handle * Z)) : list handle :=
  match o with Some (h, _) => [h] | None => [] end.

Lemma wp_open_uni_list s c l :
  sess_inv conf s -> ss_qconn s = Some c -> fresh_list s l ->
  swp s q_open_uni (fun o s' => ss_qconn s' = Some c /\ fresh_list s' (l ++ handle_of o)).
Proof.
  intros Hs Hc [Hnd Hl]. eapply wp_mono; [by eapply wp_open_uni|].
  simpl. intros o s' _ _ (Hc' & _ & Ho & Hk). split; [done|].
  assert (Forall (unowned s') l) as Hl' by (eapply Forall_impl; [exact Hl|exact Hk]).
  destruct o as [[h id]|]; simpl; [|by rewrite app_nil_r].
  destruct (Ho h id eq_refl) as [Hu Hne]. split.
  - apply NoDup_app. split_and!; [done| |by apply NoDup_singleton].
    intros x Hx ->%list_elem_of_singleton. rewrite Forall_forall in Hl. by destruct (Hne h (Hl _ Hx)).
  - apply Forall_app. split; [done|]. by apply Forall_singleton.
Qed.

Lemma wp_track_opt s ok o l :
  sess_inv conf s -> fresh_list s (handle_of o ++ l) -> fst ok = true ->
  swp s (track_opt conf ok o) (fun _ s' => fresh_list s' l).
Proof.
  intros Hs [Hnd Hl] Hpool. destruct ok as [pool cond]. simpl in Hpool. subst pool. destruct o as [[h id]|]; simpl in *; [|by wret].
  apply NoDup_cons in Hnd as [Hno Hnd]. apply Forall_cons in Hl as [Hu Hl].
  wbind. eapply wp_mono; [by apply wp_track_stream|]. intros o s1 Hs1 _ (_ & _ & Hk).
  wret; [done|]. split; [done|]. rewrite Forall_forall in *. intros x Hx.
  apply Hk; [by apply Hl|]. intros ->. done.
Qed.

Lemma wp_free_opt s o l :
  sess_inv conf s -> fresh_list s (handle_of o ++ l) ->
  swp s (free_opt o) (fun _ s' => fresh_list s' l).
Proof.
  intros Hs [Hnd Hl]. destruct o as [[h id]|]; simpl in *; [|by wret].
  apply NoDup_cons in Hnd as [Hno Hnd]. apply Forall_cons in Hl as [Hu Hl].
  eapply wp_mono; [by apply wp_q_stream_free|]. intros [] s1 _ Hle (F1 & F2 & F3 & F4 & F5 & F6 & _).
  split; [done|]. rewrite Forall_forall in *. intros x Hx. destruct (Hl x Hx) as [Hx1 Hx2].
  split; [|by rewrite F6]. unfold owned in *. rewrite F1, F2, F4, F5. set_solver.
Qed.

Lemma wp_bind_control s c0 c1 c2 l :
  sess_inv conf s -> fresh_list s l ->
  swp s (bind_control c0 c1 c2) (fun ok s' => fresh_list s' l
    /\ (ok = true -> is_Some c0 /\ is_Some c1 /\ is_Some c2)).
Proof.
  intros Hs Hl. unfold bind_control.
  destruct c0 as [[h0 i0]|]; [|by wret]. destruct c1 as [[h1 i1]|]; [|by wret].
  destruct c2 as [[h2 i2]|]; [|by wret].
  pose proof Hs as [Hc (n & Hn & Hk & H0) Hcn Ha Hpn]. unfold wp. rewrite (bind_ret _ _ _ _ _ (get_ngh_ret _ _ Hn)).
  pose proof (wp_on_ngh conf s (fun n => fst (ngh_bind_control_stream n i0)) Hs
    (fun n => ngh_control_same n i0)) as W1. unfold wp, on_ngh in W1.
  rewrite (bind_ret _ _ _ _ _ (get_ngh_ret _ _ Hn)) in W1. simpl in W1.
  destruct (ngh_bind_control_stream n i0) as [n1 ok1]. simpl in *.
  destruct W1 as (I1 & L1 & S1). unfold mbind, M_bind, put_ngh, modify.
  set (s1 := set_ss_ngh3 (Some n1) s) in *.
  destruct ok1; simpl; [|by split_and!].
  pose proof (wp_on_ngh conf s1 (fun n => fst (ngh_bind_qpack_streams n i1 i2)) I1
    (fun n => ngh_qpack_same n i1 i2)) as W2. unfold wp, on_ngh in W2.
  rewrite (bind_ret _ _ s1 s1 n1) in W2 by done. simpl in W2.
  destruct (ngh_bind_qpack_streams n1 i1 i2) as [n2 ok2]. simpl in *.
  destruct W2 as (I2 & L2 & S2). split_and!; [done|by etrans|done|]. by intros _; split_and!; eexists.
Qed.

(** An ended session: nghttp3 is gone, the objects and the handles are still in order. *)
Definition closed_inv s : Prop := core_inv conf s /\ acct conf s (fun _ => 0).

Lemma sess_closed s : sess_inv conf s -> closed_inv s.
Proof.
  intros [Hc (n & Hn & _) Hcn Ha _]. split; [done|]. intros p st Hp.
  eapply resp_ok_mono; [|by apply (Ha _ _ Hp)]. unfold unacked_of. rewrite Hn.
  pose proof (ngh_unacked_nonneg n p). lia.
Qed.

Abbreviation cwp := (wp closed_inv sess_le).

Lemma wp_open_to_closed {A} s (m : M session A) (Q : A -> session -> Prop) :
  swp s m Q -> cwp s m (fun a s' => sess_inv conf s' /\ Q a s').
Proof. apply wp_weaken, sess_closed. Qed.

Ltac cbind H := apply (wp_bind closed_inv sess_le); eapply wp_mono; [apply wp_open_to_closed, H|].

(** Either the session is open with its control streams tracked, or every stream that was
    opened has been freed and nghttp3 is gone. *)
Lemma wp_create_control s c k0 k1 k2 :
  sess_inv conf s -> ss_qconn s = Some c -> fst k0 = true -> fst k1 = true -> fst k2 = true ->
  cwp s (h3_session_create_control_streams conf k0 k1 k2) (fun rv s' =>
    match rv with
    | APR_SUCCESS => sess_inv conf s' /\ ss_control_created s' = true
    | _ => ss_ngh3 s' = None /\ is_Some (ss_qconn s')
    end).
Proof.
  intros Hs Hc K0 K1 K2. unfold h3_session_create_control_streams.
  apply (wp_bind closed_inv sess_le). apply (wp_gets closed_inv sess_le); [by apply sess_closed|].
  destruct (ss_control_created s) eqn:Ecc.
  { apply (wp_ret closed_inv sess_le); [by apply sess_closed|done]. }
  cbind (wp_open_uni_list s c [] Hs Hc (conj (NoDup_nil_2) (Forall_nil_2 _))).
  intros c0 s1 _ _ (Hs1 & Hc1 & F1). cbind (wp_open_uni_list s1 c _ Hs1 Hc1 F1).
  intros c1 s2 _ _ (Hs2 & Hc2 & F2). cbind (wp_open_uni_list s2 c _ Hs2 Hc2 F2).
  intros c2 s3 _ _ (Hs3 & Hc3 & F3). rewrite <- app_assoc in F3. cbn [app] in F3.
  cbind (wp_bind_control s3 c0 c1 c2 _ Hs3 F3). intros ok s4 _ _ (Hs4 & F4 & Hok).
  destruct ok; simpl.
  - cbind (wp_track_opt s4 k0 c0 _ Hs4 F4 K0). intros [] s5 _ _ (Hs5 & F5).
    cbind (wp_track_opt s5 k1 c1 _ Hs5 F5 K1). intros [] s6 _ _ (Hs6 & F6).
    rewrite <- (app_nil_r (handle_of c2)) in F6.
    cbind (wp_track_opt s6 k2 c2 _ Hs6 F6 K2). intros [] s7 _ _ (Hs7 & _).
    cbind (wp_ext s7 (set_ss_control_created true) Hs7 ltac:(by split)).
    intros [] s8 _ _ (Hs8 & ->). apply (wp_ret closed_inv sess_le); [by apply sess_closed|done].
  - cbind (wp_free_opt s4 c0 _ Hs4 F4). intros [] s5 _ _ (Hs5 & F5).
    cbind (wp_free_opt s5 c1 _ Hs5 F5). intros [] s6 _ _ (Hs6 & F6).
    rewrite <- (app_nil_r (handle_of c2)) in F6.
    cbind (wp_free_opt s6 c2 _ Hs6 F6). intros [] s7 _ _ (Hs7 & _).
    destruct (sess_closed _ Hs7) as [Hc7 Ha7].
    assert (closed_inv (set_ss_ngh3 None s7)) by (split; [by eapply core_ext|done]).
    apply (wp_bind closed_inv sess_le). apply wp_modify; [done|by apply le_same_heap|].
    apply (wp_ret closed_inv sess_le); [done|]. split; [done|]. by apply (si_qconn _ _ Hs7).
Qed.

(** ** Destroying a session *)

Lemma closed_owned s :
  closed_inv s -> NoDup (owned s) /\ Forall (fun h => (h < ss_fresh s)%positive) (owned s).
Proof. intros [[] _]. done. Qed.

Lemma closed_lists s pend freed e :
  closed_inv s ->
  NoDup (held (ss_heap s) ++ pend ++ freed ++ option_list (ss_qconn s)) ->
  Forall (fun h => (h < ss_fresh s)%positive)
    (held (ss_heap s) ++ pend ++ freed ++ option_list (ss_qconn s)) ->
  closed_inv (set_ss_freed freed (set_ss_pending_free pend (set_ss_env e s))).
Proof. intros [[C1 C2 C3 C4 C5 C6 C7 C8] Ha] H1 H2. split; [by split|done]. Qed.

(** The response queue of a stream has no chunk left. *)
Definition drained st : Prop := lq_heap (rq_q (st_resp st)) = ∅.

Lemma cleanup_drained rq rq' :
  (exists n, resp_ok conf n rq) -> h3_stream_response_cleanup_locked rq = Some rq' ->
  lq_heap (rq_q rq') = ∅.
Proof.
  intros (n & a & [(sub & pend & [Hrep _ _ _ _ _ _ _ _] & _) _] & _).
  unfold h3_stream_response_cleanup_locked.
  destruct (lq_clear_rep _ _ Hrep) as (l & -> & Hl & _). intros [= <-]. simpl.
  apply dom_empty_inv_L. by destruct Hl.
Qed.

(** What one round of the destroy loop does to the other streams. *)
Definition destroy_keeps s s' (l : list sptr) : Prop :=
  ss_streams s' = ss_streams s /\ ss_pending_free s' = ss_pending_free s
  /\ ss_freed s' = ss_freed s /\ ss_qconn s' = ss_qconn s /\ ss_ngh3 s' = ss_ngh3 s
  /\ forall p st, ss_heap s !! p = Some st ->
     exists st', ss_heap s' !! p = Some st' /\ st_qstream st' = st_qstream st /\ st_pool st' = st_pool st
       /\ (p ∈ l \/ drained st -> drained st').

Lemma wp_destroy_stream s p st :
  closed_inv s -> ss_heap s !! p = Some st -> st_pool st = true ->
  cwp s (destroy_stream p) (fun _ s' => destroy_keeps s s' [p]).
Proof.
  intros [Hc Ha] Hp Hpl. unfold destroy_stream. apply (wp_bind closed_inv sess_le).
  unfold wp at 1. rewrite (pool_live_ret _ _ _ Hp Hpl). split_and!; [by split|done|].
  destruct (resp_ok_cleanup conf 0 (h3_stream_response_cancel_locked (st_resp st)))
    as (rq & Hcl & Hok & Hcan & _); [by apply resp_ok_cancel, (Ha _ _ Hp)|].
  rewrite Hcl. apply (wp_bind closed_inv sess_le). apply (wp_ret closed_inv sess_le); [by split|].
  destruct (post_upd conf (fun _ => False) s p st (set_st_resp rq st) (fun _ => 0) (fun _ => 0) Hc Ha Hp)
    as (H1 & H2 & H3 & H4 & _); try done.
  { destruct (ci_stream _ _ Hc _ _ Hp) as (? & ? & ? & ?). split_and!; [done| |done|done]. simpl. by rewrite Hcan. }
  apply wp_modify; rewrite (upd_stream_eq _ _ _ _ Hp); [by split|done|].
  split_and!; try done. intros q st0 Hq. simpl. destruct (decide (q = p)) as [->|Hne].
  - rewrite lookup_insert_eq. simplify_eq. eexists. split_and!; [done|done|done|]. intros _.
    eapply cleanup_drained; [|exact Hcl]. exists 0. by apply resp_ok_cancel, (Ha _ _ Hp).
  - rewrite lookup_insert_ne by done. exists st0. split_and!; try done. set_solver.
Qed.

Lemma wp_destroy_all l s :
  closed_inv s -> (forall x, x ∈ l -> exists st, ss_heap s !! snd x = Some st /\ st_pool st = true) ->
  cwp s (for_each (fun x : Z * sptr => destroy_stream (snd x)) l)
    (fun _ s' => destroy_keeps s s' (snd <$> l)).
Proof.
  revert s. induction l as [|x l IH]; intros s Hs Hv; cbn [for_each].
  { apply (wp_ret closed_inv sess_le); [done|]. split_and!; try done. intros p st Hp. exists st.
    split_and!; try done. simpl. set_solver. }
  destruct (Hv x) as (st & Hp & Hpl); [by left|].
  apply (wp_bind closed_inv sess_le). eapply wp_mono; [by eapply wp_destroy_stream|].
  intros [] s1 Hs1 Hle1 (K1 & K2 & K3 & K4 & K6 & K5). eapply wp_mono; [apply IH; [done|]|].
  { intros y Hy. destruct (Hv y) as (sty & Hy' & Hply); [by right|].
    destruct (K5 _ _ Hy') as (sty' & ? & _ & Hply' & _). exists sty'. split; [done|congruence]. }
  intros [] s2 _ _ (G1 & G2 & G3 & G4 & G6 & G5). split_and!; try congruence.
  intros q st0 Hq. destruct (K5 _ _ Hq) as (st1 & H1 & Q1 & P1 & D1).
  destruct (G5 _ _ H1) as (st2 & H2 & Q2 & P2 & D2). exists st2. split_and!; [done|congruence|congruence|].
  rewrite fmap_cons, elem_of_cons. intros [[->|?]|?]; apply D2; [right; apply D1; left; set_solver|by left|].
  right. apply D1. by right.
Qed.

(** Freeing the connection and clearing the pointer. *)
Lemma wp_conn_free s c :
  closed_inv s -> ss_qconn s = Some c ->
  cwp s (q_conn_free c ;; modify (set_ss_qconn None)) (fun _ s' =>
    s' = set_ss_qconn None (set_ss_freed (c :: ss_freed s) (set_ss_env (qc_free (ss_env s) c) s))).
Proof.
  intros [Hc Ha] Hq. pose proof Hc as [C1 C2 C3 C4 C5 C6 C7 C8].
  assert (Hperm : owned s ≡ₚ held (ss_heap s) ++ ss_pending_free s ++ (c :: ss_freed s) ++ [])
    by (unfold owned; rewrite Hq; simpl; solve_Permutation).
  assert (c ∉ ss_freed s) as Hf.
  { rewrite Hperm in C5. apply NoDup_app in C5 as (_ & _ & C5). apply NoDup_app in C5 as (_ & _ & C5).
    rewrite app_nil_r in C5. by apply NoDup_cons in C5 as [? _]. }
  unfold wp, q_conn_free, mbind, M_bind. rewrite (use_ret s c Hf). simpl.
  split_and!; [|apply le_same_heap; simpl; [done|set_solver|done|done|lia]|done].
  split; [|done]. rewrite Hperm in C5, C6. by split.
Qed.

Lemma wp_session_destroy s c :
  closed_inv s -> ss_qconn s = Some c ->
  cwp s h3_session_destroy (fun _ s' =>
    ss_ngh3 s' = None /\ ss_qconn s' = None /\ ss_pending_free s' = []
    /\ ss_freed s' = c :: rev (ss_pending_free s) ++ ss_freed s
    /\ (forall p st, ss_heap s !! p = Some st ->
         exists st', ss_heap s' !! p = Some st' /\ st_qstream st' = st_qstream st
           /\ (tracked s p -> drained st'))).
Proof.
  intros [Hc Ha] Hq. unfold h3_session_destroy. apply (wp_bind closed_inv sess_le).
  apply wp_modify; [split; [by eapply core_ext|done]|by apply le_same_heap|].
  set (s0 := set_ss_ngh3 None s). assert (Hs0 : closed_inv s0) by (split; [by eapply core_ext|done]).
  apply (wp_bind closed_inv sess_le). apply (wp_gets closed_inv sess_le); [done|].
  apply (wp_bind closed_inv sess_le). eapply wp_mono; [apply wp_destroy_all; [done|]|].
  { intros x Hx. apply walk_lookup in Hx. destruct (ci_table _ _ Hc _ _ Hx) as (st & Hp & _). exists st.
    split; [done|]. by apply (ci_pool _ _ Hc (fst x) (snd x)). }
  intros [] s1 Hs1 Hle1 (K1 & K2 & K3 & K4 & K6 & K5). apply (wp_bind closed_inv sess_le).
  eapply wp_mono; [by apply (wp_free_pending _ closed_owned closed_lists)|].
  intros [] s2 Hs2 Hle2 (F1 & F2 & F3 & F4 & F5 & F6). apply (wp_bind closed_inv sess_le).
  apply (wp_gets closed_inv sess_le); [done|].
  assert (Hq2 : ss_qconn s2 = Some c) by (rewrite F5, K4; exact Hq). rewrite Hq2.
  eapply wp_mono; [by apply wp_conn_free|]. intros [] s3 _ _ ->. simpl. split_and!; try done.
  - by rewrite F6, K6.
  - rewrite F2, K2, K3. done.
  - intros p st Hp. destruct (K5 p st Hp) as (st' & Hp' & Hqs & _ & Hd). exists st'. rewrite F4.
    split_and!; [done|done|]. intros (st0 & Hst0 & Ht). apply Hd. left.
    apply list_elem_of_fmap. exists (st_stream_id st0, p). split; [done|].
    rewrite hash_walk_perm. by apply elem_of_map_to_list.
Qed.

End Safe.
