(* ===== verification/Request.v ===== *)
(** * Requests and workers (h3_request.c, h3_filter.c)

    A complete request is handed to a worker thread, which builds a [request_rec] from the
    stream, lets httpd process it, and queues the response on the stream.  Worker code is
    a [thread]: a sequence of atomic steps on the session, each the part of the code that
    runs under the session lock; other threads can run between any two of them.  The
    output filter that httpd calls from the worker ([h3_filter_out_proto]) is part of it.
    Reads of the stream's fields that the code makes without the lock are steps of their
    own.

    httpd and APR are the class [Httpd]; what they do while a request is processed is the
    sequence of filter calls they make, in [worker_calls]. *)

From S2P Require Import Prelude Effects LinkedQueue RespQueue Config Body Quic Stream Session.

(** ** httpd and APR *)

(** A constant text. *)
Definition text (s : string) : bytes := String.list_byte_of_string s.

Class Httpd := {
  ap_cstr_caseeq : bytes -> bytes -> bool;
  ap_find_token : bytes -> bytes -> bool;
  apr_table : Type;
  table_empty : apr_table;
  table_get : apr_table -> bytes -> option bytes;
  table_elts : apr_table -> list (option bytes * option bytes);
  table_setn : apr_table -> bytes -> bytes -> apr_table;
  table_add : apr_table -> bytes -> bytes -> apr_table;
  table_overlap_set : apr_table -> list (bytes * bytes) -> apr_table;
  ap_parse_uri : bytes -> bytes }.

(** ASCII letters in lower case. *)
Definition lower (b : Byte.byte) : N :=
  let n := Byte.to_N b in if (65 <=? n)%N && (n <=? 90)%N then (n + 32)%N else n.

(** Keys are compared without regard to case; setting overwrites, and overlapping with
    [APR_OVERLAP_TABLES_SET] lets the last entry of the second table win. *)
Class HttpdSpec `(H : Httpd) := {
  caseeq_lower a b : ap_cstr_caseeq a b = bool_decide (map lower a = map lower b);
  table_get_empty k : table_get table_empty k = None;
  table_get_setn t k v k' :
    table_get (table_setn t k v) k' = if ap_cstr_caseeq k k' then Some v else table_get t k';
  table_elts_empty : table_elts table_empty = [];
  table_elts_add t k v : table_elts (table_add t k v) = table_elts t ++ [(Some k, Some v)];
  table_get_overlap t l k :
    table_get (table_overlap_set t l) k =
    match last (filter (fun kv => ap_cstr_caseeq (fst kv) k = true) l) with
    | Some kv => Some (snd kv)
    | None => table_get t k
    end }.

Lemma caseeq_refl `{HS : HttpdSpec} k : ap_cstr_caseeq k k = true.
Proof. rewrite caseeq_lower. by apply bool_decide_eq_true. Qed.

(** The network output filter drops what it is given. *)
Definition h3_filter_out {A} (bb : list A) : list A * apr_status := ([], APR_SUCCESS).

(** ** The response head *)

Section ResponseHead.
Context {H : Httpd}.

Definition is_connection_specific (k : bytes) : bool :=
  ap_cstr_caseeq k (text "Connection") || ap_cstr_caseeq k (text "Keep-Alive")
  || ap_cstr_caseeq k (text "Proxy-Connection") || ap_cstr_caseeq k (text "Transfer-Encoding")
  || ap_cstr_caseeq k (text "Upgrade") || ap_cstr_caseeq k (text "TE").

(** The response bucket's fields, once one has been seen. *)
Record response := Response { rs_status : Z; rs_headers : option apr_table }.

(** The parts of [request_rec] the response is made from. *)
Record request_out := RequestOut { ro_status : Z; ro_headers_out : option apr_table }.

Definition starts_with_colon (k : bytes) : bool :=
  match k with c :: _ => bool_decide (c = Byte.x3a) | [] => false end.

(** The loop over the table's entries, up to the capacity of the array. *)
Fixpoint add_headers (conn_hdr : option bytes) (cap : nat) (nva : list (bytes * bytes))
    (elts : list (option bytes * option bytes)) : list (bytes * bytes) :=
  match elts with
  | [] => nva
  | e :: es =>
      if (length nva <? cap)%nat then
        match e with
        | (Some k, Some v) =>
            if starts_with_colon k then add_headers conn_hdr cap nva es
            else if is_connection_specific k
                    || match conn_hdr with Some c => ap_find_token c k | None => false end
            then add_headers conn_hdr cap nva es
            else add_headers conn_hdr cap (nva ++ [(k, v)]) es
        | _ => add_headers conn_hdr cap nva es
        end
      else nva
  end.

(** [%d]. *)
Definition fmt_d (z : Z) : bytes := text (pretty z).

Definition response_headers (r : request_out) (resp : option response) : option apr_table :=
  match resp with
  | Some x => match rs_headers x with Some h => Some h | None => ro_headers_out r end
  | None => ro_headers_out r
  end.

Definition response_status (r : request_out) (resp : option response) : Z :=
  match resp with
  | Some x => if negb (rs_status x =? 0) then rs_status x else ro_status r
  | None => ro_status r
  end.

Definition build_response_nva (cap : nat) (r : request_out) (resp : option response)
    : list (bytes * bytes) :=
  let nva := [(text ":status", fmt_d (response_status r resp))] in
  match response_headers r resp with
  | Some hdrs => add_headers (table_get hdrs (text "Connection")) cap nva (table_elts hdrs)
  | None => nva
  end.

(** ** The request *)

Record request := Request {
  rq_method : bytes;
  rq_header_only : bool;
  rq_the_request : option bytes;
  rq_headers_in : apr_table }.

(** [ap_method_number_of] maps HEAD to [M_GET]; [is_get] says whether the method does. *)
Definition set_opt (t : apr_table) (k : bytes) (v : option bytes) : apr_table :=
  match v with Some v => table_setn t k v | None => t end.

(** The fields [stream_worker] sets from the stream. *)
Definition build_request (is_get : bytes -> bool) (st : h3_stream) : request :=
  let head := st_head st in
  let method := default (text "GET") (rh_method head) in
  let t0 := set_opt table_empty (text "Host") (rh_authority head) in
  let t1 := set_opt t0 (text "Scheme") (rh_scheme head) in
  let t2 := match rh_headers head with Some h => table_overlap_set t1 h | None => t1 end in
  let t3 := if 0 <? rb_len (st_body st)
            then table_setn t2 (text "Content-Length") (fmt_d (rb_len (st_body st))) else t2 in
  Request method
    (is_get method && match method with c :: _ => bool_decide (c = Byte.x48) | [] => false end)
    ((fun p => method ++ text " " ++ ap_parse_uri p ++ text " " ++ text "HTTP/3.0") <$> rh_path head)
    t3.

End ResponseHead.

(** ** Workers *)

Section Workers.
Context {N E : Type} {NG : Nghttp3 N} {QS : QuicStreams E} {QC : QuicConns E} {AH : AprHash}.
Context {H : Httpd}.
Context (conf : h3_server_conf).
Abbreviation session := (@h3_session N E).
Abbreviation sess := (M session).

(** *** Steps under the session lock *)

Definition get_flags : sess sess_flags :=
  gets (fun s => SessFlags (ss_aborted s) (ss_ngh3_dead s)
                           (match ss_ngh3 s with Some _ => true | None => false end)).

(** The worker tells the event thread that there is something to send.  The datagram goes to
    the wakeup socket, which the sessions share; the session counts the calls. *)
Definition wake_event : sess unit := modify (fun s => set_ss_wakes (ss_wakes s + 1) s).

(** The name/value pairs are strings of the stream's pool; the result is the status, and
    whether the response was submitted here. *)
Definition submit_locked (p : sptr) (nva : list (bytes * bytes)) : sess (apr_status * bool) :=
  st ← get_live p;
  if rq_submitted (st_resp st) then mret (APR_SUCCESS, false)
  else
    fl ← get_flags;
    if rq_cancelled (st_resp st) || sf_aborted fl || sf_ngh3_dead fl || negb (sf_ngh3 fl)
    then mret (APR_ECONNABORTED, false)
    else
      n ← get_ngh;
      let '(n', rv) := ngh_submit_response n (st_stream_id st) nva in
      put_ngh n' ;;
      if rv =? 0 then
        modify (upd_stream p (fun st => set_st_resp (rq_set_submitted (st_resp st)) st)) ;;
        mret (APR_SUCCESS, true)
      else
        modify (upd_stream p stream_cancel) ;; mret (APR_EGENERAL, false).

Definition submit_response_nva (p : sptr) (nva : list (bytes * bytes)) : T session apr_status :=
  x ← atomic (submit_locked p nva);
  (if (snd x : bool) then atomic wake_event else mret tt) ;;
  mret (fst x).

(** One round of [h3_stream_response_append] on the stream's queue; it waits on the
    condition variable, which is in the stream's pool, while the queue is full.  [wait_rv]
    is what the timed wait returns. *)
Definition append_round (p : sptr) (malloc_ok : bool) (wait_rv : session -> apr_status)
    (data : bytes) (offset : Z) : sess (option append_result) :=
  st ← get_live p;
  fl ← get_flags;
  r ← nonnull (response_append_locked fl malloc_ok (st_resp st) data offset);
  let '(q, res) := r in
  modify (upd_stream p (set_st_resp q)) ;;
  match res with
  | AppendBlocked =>
      rv ← gets wait_rv;
      mret (if wait_ok rv then None else Some (AppendFailed rv))
  | AppendQueued _ true =>
      on_ngh (fun n => ngh_resume_stream n (st_stream_id st)) ;; mret (Some res)
  | _ => mret (Some res)
  end.

(** The condition variable is broadcast. *)
Definition response_complete (p : sptr) : sess unit :=
  st ← get_live p;
  fl ← get_flags;
  let '(q, resume) := h3_stream_response_complete fl (st_resp st) in
  modify (upd_stream p (set_st_resp q)) ;;
  when resume (on_ngh (fun n => ngh_resume_stream n (st_stream_id st))).

(** [h3_stream_response_complete]. *)
Definition complete_response (p : sptr) : T session unit :=
  atomic (response_complete p) ;; atomic wake_event.

Definition set_stream_dispatched (p : sptr) (dispatched : bool) : sess unit :=
  get_stream p ;; modify (upd_stream p (set_st_dispatched dispatched)).

(** [apr_atomic_inc32], [apr_atomic_dec32] of [active_tasks]. *)
Definition inc_tasks : sess unit :=
  modify (fun s => set_ss_active_tasks (wrap32 (ss_active_tasks s + 1)) s).
Definition dec_tasks : sess unit :=
  modify (fun s => set_ss_active_tasks (wrap32 (ss_active_tasks s - 1)) s).

(** The input filter's read, which moves the body's offset. *)
Definition serve_body (p : sptr) (mode : ap_input_mode) (readbytes : Z) : sess (list bucket) :=
  st ← get_live p;
  let '(b, bb, _) := serve_request_body (st_body st) [] mode readbytes in
  modify (upd_stream p (set_st_body b)) ;; mret bb.

(** *** The output filter *)

(** The outcomes of the calls an append makes. *)
Record append_calls := AppendCalls {
  ac_malloc : Z -> bool;                    (** by the offset reached *)
  ac_wait : session -> apr_status }.

(** Every round takes at least one byte, so one more round than there are bytes is
    enough. *)
Fixpoint append_loop (fuel : nat) (p : sptr) (ac : append_calls) (data : bytes) (offset : Z)
    : T session apr_status :=
  match fuel with
  | O => atomic abort
  | S k =>
      if offset <? blen data then
        r ← await (append_round p (ac_malloc ac offset) (ac_wait ac) data offset);
        match r with
        | AppendBlocked => atomic abort
        | AppendFailed rv => mret rv
        | AppendQueued n _ => atomic wake_event ;; append_loop k p ac data (offset +64 n)
        end
      else mret APR_SUCCESS
  end.

Definition response_append (p : sptr) (ac : append_calls) (data : bytes) : T session apr_status :=
  append_loop (S (length data)) p ac data 0.

(** The output buckets the filter tells apart; a data bucket carries what reading it
    gives. *)
Inductive out_bucket :=
  | OB_error
  | OB_response (r : response)
  | OB_data (read : apr_status * option bytes)
  | OB_eos
  | OB_flush
  | OB_metadata.

(** [h3_conn_ctx_t]: the fields the filter and the worker use. *)
Record h3_conn_ctx := ConnCtx {
  cx_resp : option response;
  cx_streaming : bool;
  cx_capture : resp_capture }.

Definition h3_response_start (p : sptr) (r : request_out) (ctx : h3_conn_ctx)
    : T session apr_status :=
  submit_response_nva p (build_response_nva 64 r (cx_resp ctx)).

(** What a call of the filter does besides: it returns a status, asks httpd for an error
    response, or leaves the brigade to the next filter. *)
Inductive filter_rv := FR_status (rv : apr_status) | FR_error_response | FR_next_filter.

(** The copy of the response headers drops entries without key or value. *)
Definition dup_headers (t : apr_table) : apr_table :=
  foldl (fun d e => match e with (Some k, Some v) => table_add d k v | _ => d end)
        table_empty (table_elts t).

Definition dup_response (r : response) : response :=
  Response (rs_status r) (dup_headers <$> rs_headers r).

Definition filter_data (p : sptr) (ac : append_calls) (r : request_out)
    (ctx : h3_conn_ctx) (read : apr_status * option bytes) : T session (h3_conn_ctx * apr_status) :=
  if cx_streaming ctx then
    rv ← h3_response_start p r ctx;
    match rv with
    | APR_SUCCESS =>
        match read with
        | (APR_SUCCESS, Some data) =>
            if 0 <? blen data then rv ← response_append p ac data; mret (ctx, rv)
            else mret (ctx, APR_SUCCESS)
        | (rv, _) => mret (ctx, rv)
        end
    | _ => mret (ctx, rv)
    end
  else
    match capture_body_bucket (h3_max_response_body_size conf) (cx_capture ctx) read with
    | Some c => mret (ConnCtx (cx_resp ctx) (cx_streaming ctx) c, APR_SUCCESS)
    | None => atomic abort
    end.

(** The loop over the brigade. *)
Fixpoint filter_buckets (p : sptr) (ac : append_calls) (r : request_out) (ctx : h3_conn_ctx)
    (bb : list out_bucket) : T session (h3_conn_ctx * filter_rv) :=
  match bb with
  | [] => mret (ctx, FR_status APR_SUCCESS)
  | b :: bb' =>
      let continue ctx rv := match rv with
                             | APR_SUCCESS => filter_buckets p ac r ctx bb'
                             | _ => mret (ctx, FR_status rv)
                             end in
      match b with
      | OB_error => mret (ctx, FR_error_response)
      | OB_response x =>
          let ctx := ConnCtx (Some (dup_response x)) (cx_streaming ctx) (cx_capture ctx) in
          if cx_streaming ctx then rv ← h3_response_start p r ctx; continue ctx rv
          else continue ctx APR_SUCCESS
      | OB_data read => x ← filter_data p ac r ctx read; continue (fst x) (snd x)
      | OB_eos =>
          if cx_streaming ctx then
            rv ← h3_response_start p r ctx;
            match rv with
            | APR_SUCCESS => complete_response p ;; continue ctx APR_SUCCESS
            | _ => mret (ctx, FR_status rv)
            end
          else continue ctx APR_SUCCESS
      | OB_flush =>
          if cx_streaming ctx then rv ← h3_response_start p r ctx; continue ctx rv
          else continue ctx APR_SUCCESS
      | OB_metadata => continue ctx APR_SUCCESS
      end
  end.

(** [main] says that the request is not a subrequest. *)
Definition h3_filter_out_proto (main : bool) (p : sptr) (ac : append_calls) (r : request_out)
    (ctx : h3_conn_ctx) (bb : list out_bucket) : T session (h3_conn_ctx * filter_rv) :=
  if negb main then mret (ctx, FR_next_filter) else filter_buckets p ac r ctx bb.

(** *** The worker *)

(** What httpd does while it processes the request: the filter calls it makes. *)
Inductive filter_call :=
  | FC_out (main : bool) (r : request_out) (bb : list out_bucket)
  | FC_in (mode : ap_input_mode) (readbytes : Z).

(** What the worker asks httpd to do with the request. *)
Inductive worker_action := Ap_die (err : Z) | Ap_process_request.

Definition choose_action (status : Z) (overflow : bool) : worker_action :=
  if negb (status =? 200) then Ap_die status
  else if overflow then Ap_die 413 else Ap_process_request.

Record worker_calls := WorkerCalls {
  wc_create_request : bool;            (** [ap_create_request] gives a request *)
  wc_pool : bool;                      (** the request's pool is created *)
  wc_is_get : bytes -> bool;           (** [ap_method_number_of] gives [M_GET] *)
  wc_status : request -> Z;            (** [r->status] after [ap_update_vhost_from_headers] *)
  wc_filters : request -> worker_action -> list filter_call;
  wc_request : request_out;            (** [r->status], [r->headers_out] afterwards *)
  wc_append : append_calls }.

Fixpoint run_filters (ac : append_calls) (p : sptr) (ctx : h3_conn_ctx) (calls : list filter_call)
    : T session h3_conn_ctx :=
  match calls with
  | [] => mret ctx
  | FC_in mode n :: cs => atomic (serve_body p mode n) ;; run_filters ac p ctx cs
  | FC_out main r bb :: cs =>
      x ← h3_filter_out_proto main p ac r ctx bb;
      run_filters ac p (fst x) cs
  end.

Definition oversized_msg : bytes :=
  text "Response exceeded H3MaxResponseBodySize" ++ [Byte.x0a].

(** The head of the answer to a response that was too large. *)
Definition oversized_nva : list (bytes * bytes) :=
  [(text ":status", fmt_d 500); (text "content-type", text "text/plain")].

(** After httpd has processed the request: submit what is left to submit, queue the
    captured body, and complete the response. *)
Definition finish_response (wc : worker_calls) (p : sptr) (ctx : h3_conn_ctx)
    : T session apr_status :=
  x ← (if rc_too_large (cx_capture ctx) then
         rv ← submit_response_nva p oversized_nva; mret (rv, oversized_msg)
       else
         rv ← h3_response_start p (wc_request wc) ctx;
         mret (rv, if negb (cx_streaming ctx) && (0 <? rc_len (cx_capture ctx))
                   then rc_heap (cx_capture ctx) else []));
  rv ← (match fst x with
        | APR_SUCCESS =>
            if 0 <? blen (snd x) then response_append p (wc_append wc) (snd x)
            else mret APR_SUCCESS
        | rv => mret rv
        end);
  complete_response p ;;
  mret rv.

(** The worker gives up before the request is processed. *)
Definition worker_fail (p : sptr) : T session unit :=
  atomic (set_stream_dispatched p false) ;; exit_thread dec_tasks.

(** The new context; the filter streams unless a limit is configured. *)
Definition new_ctx : h3_conn_ctx :=
  ConnCtx None (h3_max_response_body_size conf =? H3_MAX_RESPONSE_BODY_SIZE_DEFAULT) rc_new.

Definition stream_worker (wc : worker_calls) (p : sptr) : T session unit :=
  if negb (wc_create_request wc) then worker_fail p
  else
    st ← atomic (get_live p);
    let r := build_request (wc_is_get wc) st in
    if negb (wc_pool wc) then worker_fail p
    else
      let action := choose_action (wc_status wc r) (rb_overflow (st_body st)) in
      ctx ← run_filters (wc_append wc) p new_ctx (wc_filters wc r action);
      finish_response wc p ctx ;;
      atomic (get_stream p ;; modify (upd_stream p (set_st_worker_done true))) ;;
      exit_thread dec_tasks.

(** *** Reads that returned *)

Lemma get_stream_inv (s : session) p st s' : get_stream p s = Ret st s' -> ss_heap s !! p = Some st /\ s' = s.
Proof. unfold get_stream, mbind, M_bind, gets. destruct (ss_heap s !! p); [|done]. by intros [= -> ->]. Qed.

Lemma pool_user_inv (s : session) p u st s' :
  pool_user p u s = Ret st s' -> ss_heap s !! p = Some st /\ s' = note_stale p (u st && negb (st_pool st)) s.
Proof.
  unfold pool_user. intros He. binv He st1 s1 H1. apply get_stream_inv in H1 as [Hp ->].
  binv He x s2 H2. injection H2 as _ <-. by injection He as -> <-.
Qed.

Lemma get_live_inv (s : session) p st s' : get_live p s = Ret st s' -> s' = s.
Proof.
  unfold get_live. intros He. binv He st1 s2 H2. apply get_stream_inv in H2 as [_ ->]. binv He u s3 H3.
  destruct (st_pool st1); [|done]. injection H3 as _ <-. by injection He as _ <-.
Qed.

Lemma get_ngh_inv (s : session) n s' : get_ngh s = Ret n s' -> ss_ngh3 s = Some n /\ s' = s.
Proof. unfold get_ngh, mbind, M_bind, gets. destruct (ss_ngh3 s); [|done]. by intros [= -> ->]. Qed.

Lemma use_inv (s : session) h u s' : use h s = Ret u s' -> s' = s.
Proof. unfold use, mbind, M_bind, CHECK. simpl. case_bool_decide; [by intros [= _ <-]|done]. Qed.

(** *** The steps of a worker *)

(** What a worker does under the lock, apart from the rounds of an append. *)
Inductive worker_op : forall {A}, sess A -> Prop :=
  | op_live p : worker_op (get_live p)
  | op_serve p mode n : worker_op (serve_body p mode n)
  | op_wake : worker_op wake_event
  | op_dispatched p b : worker_op (set_stream_dispatched p b)
  | op_worker_done p : worker_op (get_stream p ;; modify (upd_stream p (set_st_worker_done true)))
  | op_tasks : worker_op dec_tasks
  | op_abort {A} : worker_op (abort : sess A).

(** The thread wakes the event thread next. *)
Definition wakes_next (t : thread session) : Prop := exists k, t = atomic wake_event k.

Section Steps.
Context (P : sess (option (thread session)) -> Prop).
Context (Hop : forall A (m : sess A) (k : A -> thread session), worker_op m -> P (a ← m; mret (Some (k a)))).
Context (Hsubmit : forall p nva (k : apr_status * bool -> thread session),
  (forall rv, wakes_next (k (rv, true))) -> P (a ← submit_locked p nva; mret (Some (k a)))).
Context (Hcomplete : forall p (k : unit -> thread session),
  wakes_next (k tt) -> P (a ← response_complete p; mret (Some (k a)))).
Context (Happend : forall p ok w data off (k : append_result -> thread session),
  (forall n b, wakes_next (k (AppendQueued n b))) -> P (o ← append_round p ok w data off; mret (k <$> o))).

Lemma wake_steps k : (forall a, all_steps P (k a)) -> all_steps P (atomic wake_event k).
Proof. intros Hk. apply each_atomic; [|done]. intros k'. apply Hop. constructor. Qed.

Lemma submit_steps p nva : each P (submit_response_nva p nva).
Proof.
  intros k Hk. apply all_step.
  - apply Hsubmit. intros rv. by eexists.
  - intros s t s' He. binv He x s1 H1. injection He as <- <-. destruct x as [rv []]; [|apply Hk].
    apply wake_steps. intros _. apply Hk.
Qed.

Lemma complete_steps p : each P (complete_response p).
Proof.
  intros k Hk. apply all_step.
  - apply Hcomplete. by eexists.
  - intros s t s' He. binv He x s1 H1. injection He as <- <-. by apply wake_steps.
Qed.

Ltac worker_steps :=
  solve_each ltac:(first [apply Hop; constructor | apply (Hop _ _ (fun _ => Finished)); constructor]).

Lemma append_loop_steps fuel p ac data off : each P (append_loop fuel p ac data off).
Proof.
  revert off. induction fuel as [|f IH]; intros off; cbn [append_loop]; [worker_steps|].
  destruct (off <? blen data); [|worker_steps]. intros k Hk. apply all_step.
  - apply Happend. intros n b. by eexists.
  - intros s t s' He. binv He o s1 H1. destruct o as [r|]; [|done]. injection He as <- <-.
    destruct r as [|rv|n b]; [|apply Hk|].
    + apply each_atomic; [|done]. intros k'. apply Hop. constructor.
    + apply wake_steps. intros _. by apply IH.
Qed.

Lemma filter_data_steps p ac r ctx read : each P (filter_data p ac r ctx read).
Proof.
  pose proof (fun data => append_loop_steps (S (length data)) p ac data 0) as Ha. pose proof (submit_steps p) as Hs.
  unfold filter_data, h3_response_start, response_append. worker_steps.
Qed.

Lemma filter_buckets_steps p ac r ctx bb : each P (filter_buckets p ac r ctx bb).
Proof.
  pose proof (filter_data_steps p ac r) as Hd. pose proof (submit_steps p) as Hs. pose proof (complete_steps p) as Hc.
  revert ctx. induction bb as [|b bb IH]; intros ctx; cbn [filter_buckets]; unfold h3_response_start; worker_steps.
Qed.

Lemma run_filters_steps ac p ctx calls : each P (run_filters ac p ctx calls).
Proof.
  pose proof (fun r => filter_buckets_steps p ac r) as Hb.
  revert ctx. induction calls as [|[main r bb|mode z] calls IH]; intros ctx; cbn [run_filters];
    unfold h3_filter_out_proto; worker_steps.
Qed.

(** A property of these operations holds of every step of a worker. *)
Lemma worker_steps_all wc p : all_steps P (stream_worker wc p (fun _ => Finished)).
Proof.
  pose proof (run_filters_steps (wc_append wc) p new_ctx) as Hf.
  pose proof (fun data => append_loop_steps (S (length data)) p (wc_append wc) data 0) as Ha.
  pose proof (submit_steps p) as Hs. pose proof (complete_steps p) as Hc.
  assert (Hw : each P (stream_worker wc p)).
  { unfold stream_worker, worker_fail, finish_response, h3_response_start, response_append. worker_steps. }
  apply Hw. intros _. constructor.
Qed.

End Steps.

(** A relation that the operations preserve. *)
Lemma worker_preserves (R : relation session) `{!PreOrder R} wc p :
  (forall A (m : sess A), worker_op m -> preserves R m) ->
  (forall p nva, preserves R (submit_locked p nva)) -> (forall p, preserves R (response_complete p)) ->
  (forall p ok w data off, preserves R (append_round p ok w data off)) ->
  all_steps (preserves R) (stream_worker wc p (fun _ => Finished)).
Proof.
  intros Hop Hs Hc Ha. apply worker_steps_all; intros; (apply preserves_bind; [apply _|auto|]); intros ?;
    apply preserves_ret, _.
Qed.

End Workers.
