(* ===== verification/Frame.v ===== *)
(** * What draining leaves alone

    Several properties of a session are kept by [drain_ready_streams] for the same reason:
    nothing that runs under it, the callbacks of nghttp3 included, writes the fields they
    are about.  [CallFrame] collects the few updates such code is made of; a relation that
    allows them is kept by every callback and every call of nghttp3.  [ReadFrame] and
    [DrainFrame] add the updates of the functions of h3_stream.c that read. *)

From S2P Require Import Prelude Effects LinkedQueue RespQueue Config Body Quic Stream.
From S2P Require Import Session SessionInv Request.

(** A stream goes forward: its head and its body are completed, never reopened, and it is
    not dispatched. *)
Record advances (st st' : h3_stream) : Prop := {
  av_id : st_stream_id st' = st_stream_id st;
  av_bidi : st_is_bidi st' = st_is_bidi st;
  av_dispatched : st_dispatched st' = st_dispatched st;
  av_headers : st_headers_complete st = true -> st_headers_complete st' = true;
  av_body : st_body_complete st = true -> st_body_complete st' = true }.

#[export] Instance advances_preorder : PreOrder advances.
Proof. split; [by split|]. intros x y z [A1 A2 A3 A4 A5] [B1 B2 B3 B4 B5]. split; [congruence..|auto|auto]. Qed.

Lemma advances_ready st st' : advances st st' -> ready_to_dispatch st = true -> ready_to_dispatch st' = true.
Proof.
  intros [_ A2 A3 A4 A5]. unfold ready_to_dispatch. rewrite A2, A3, !andb_true_iff.
  intros [[[? ?] ?] ?]. auto.
Qed.

Lemma end_headers_advances fin st : advances st (on_end_headers fin st).
Proof. unfold on_end_headers. by destruct (st_is_bidi st), fin. Qed.

Section Frame.
Context {N E : Type} {NG : Nghttp3 N} {QS : QuicStreams E} {QC : QuicConns E} {AH : AprHash}.
Abbreviation session := (@h3_session N E).
Implicit Types (s : session) (st : h3_stream) (p : sptr) (R : relation session).

Class CallFrame R := {
  cf_preorder :: PreOrder R;
  cf_ngh s n : R s (set_ss_ngh3 (Some n) s);
  cf_env s e : R s (set_ss_env e s);
  cf_queue s h : R s (set_ss_pending_free (h :: ss_pending_free s) s);
  cf_stale s l : R s (set_ss_stale l s);
  cf_store s p st st' : ss_heap s !! p = Some st -> advances st st' ->
    R s (set_ss_heap (<[p := st']> (ss_heap s)) s) }.

Class ReadFrame R := {
  rf_call :: CallFrame R;
  rf_pending s x : R s (set_ss_pending x s);
  rf_dead s z : R s (set_ss_abort_reason (Some (ngh_strerror z)) (set_ss_abort_code (ngh_err_code z) (set_ss_ngh3_dead true s)));
  rf_buffer s z : R s (set_ss_read_buf_size z s) }.

Class DrainFrame R := {
  df_read :: ReadFrame R;
  df_count s z : R s (set_ss_bytes_read z s);
  df_cursor s z : R s (set_ss_cursor z s);
  df_aborted s : R s (set_ss_aborted true s) }.

(** A read that returned. *)
Lemma q_read_inv s h z r s' :
  q_read h z s = Ret r s' -> exists e, qs_read (ss_env s) h z = (e, r) /\ s' = set_ss_env e s.
Proof.
  unfold q_read. intros He. binv He u s1 H1. apply use_inv in H1 as ->. unfold on_env in He.
  destruct (qs_read (ss_env s) h z) as [e a]. injection He as <- <-. by exists e.
Qed.

Context (conf : h3_server_conf) (io : bool).

(** ** Callbacks and calls *)

Section Calls.
Context R {CF : CallFrame R}.

Lemma frame_upd s p g :
  (forall st, ss_heap s !! p = Some st -> advances st (g st)) -> R s (upd_stream p g s).
Proof.
  intros Hg. destruct (ss_heap s !! p) as [st|] eqn:Hp.
  - rewrite (upd_stream_eq _ _ _ _ Hp). apply (cf_store s p st); auto.
  - unfold upd_stream. rewrite alter_id by (intros x; by rewrite Hp). destruct s. simpl. reflexivity.
Qed.

Lemma frame_get p : preserves R (get_stream p : M session h3_stream).
Proof. intros s st s' [_ ->]%get_stream_inv. reflexivity. Qed.

Lemma frame_use h : preserves R (use h : M session unit).
Proof. intros s u s' ->%use_inv. reflexivity. Qed.

Lemma frame_get_ngh : preserves R (get_ngh : M session N).
Proof. intros s n s' [_ ->]%get_ngh_inv. reflexivity. Qed.

Lemma frame_on_ngh (g : N -> N) : preserves R (on_ngh g : M session unit).
Proof.
  unfold on_ngh. apply preserves_bind; [apply _|apply frame_get_ngh|]. intros n. apply preserves_modify.
  intros s. apply cf_ngh.
Qed.

Lemma frame_on_env {A} (g : E -> E * A) : preserves R (on_env g : M session A).
Proof. intros s a s'. unfold on_env. destruct (g (ss_env s)). intros [= _ <-]. apply cf_env. Qed.

Lemma frame_reset h err : preserves R (q_reset h err : M session unit).
Proof.
  unfold q_reset. apply preserves_bind; [apply _|apply frame_use|]. intros _. apply preserves_modify.
  intros s. apply cf_env.
Qed.

(** A callback stores what it made of the stream and may queue a QUIC stream. *)
Lemma frame_answer {A} s p st st' o (r a : A) s' :
  ss_heap s !! p = Some st -> advances st st' ->
  (modify (fun s => upd_stream p (fun _ => st') (h3_session_queue_free o s)) ;; mret r) s = Ret a s' -> R s s'.
Proof.
  intros Hp Hk [= _ <-]. transitivity (h3_session_queue_free o s).
  { destruct o; [apply cf_queue|reflexivity]. }
  apply frame_upd. intros x Hx. assert (x = st) as -> by (destruct o; simpl in Hx; congruence). done.
Qed.

(** A callback that uses the stream's pool. *)
Lemma frame_pool_user s p u st s' : pool_user p u s = Ret st s' -> R s s' /\ ss_heap s' !! p = Some st.
Proof.
  intros [Hp ->]%pool_user_inv. rewrite noted_heap. split; [|done].
  unfold note_stale. destruct (_ && _); [apply cf_stale|reflexivity].
Qed.

Lemma frame_callback cb ud : preserves R (callback conf cb ud : M session cb_reply).
Proof.
  intros s a s' He. destruct cb as [sid|t nm v|fin|d|z| |code| |cnt].
  { cbn [callback] in He. unfold on_begin_headers in He. binv He pend s1 H1. injection H1 as <- <-.
    destruct (match ud with Some p => _ | None => _ end) as [p|]; [|by injection He as _ <-].
    binv He st s1 H1. apply frame_pool_user in H1 as [HR _]. binv He u s2 H2. injection H2 as _ <-.
    binv He v s3 H3. injection He as _ <-. etrans; [exact HR|]. etrans; [|by eapply frame_on_ngh].
    apply frame_upd. intros x _.
    destruct (begin_headers_frame x) as [hd ->]. by split. }
  all: destruct ud as [p|]; [|by injection He as _ <-]; cbn [callback] in He;
    binv He st s1 H1;
    assert (R s s1 /\ ss_heap s1 !! p = Some st) as [HR Hp]
      by (first [by eapply frame_pool_user|apply get_stream_inv in H1 as [? ->]; by split]);
    clear H1; etrans; [exact HR|]; clear HR; rename s into s0, s1 into s.
  - destruct (recv_header_frame t nm v st) as [hd Hh]. destruct (on_recv_header t nm v st) as [rv st'].
    simpl in Hh. subst st'. by eapply (frame_answer s p st _ None _ _ _ Hp) in He.
  - injection He as _ <-. apply frame_upd. intros x _. apply end_headers_advances.
  - unfold on_recv_data in He. destruct (body_recv_data _ _ _ _) as [b|]; [|done].
    binv He st' s1 H1. injection H1 as <- <-. by eapply (frame_answer s p st _ None _ _ _ Hp) in He.
  - unfold on_acked_stream_data in He. destruct (h3_stream_response_ack_locked _ _) as [r|]; [|done].
    binv He st' s1 H1. injection H1 as <- <-. by eapply (frame_answer s p st _ None _ _ _ Hp) in He.
  - by eapply (frame_answer s p st _ _ _ _ _ Hp) in He.
  - cbn [on_reset_stream] in He. binv He u s1 H1.
    assert (R s s1 /\ ss_heap s1 !! p = Some st) as [HR Hp1].
    { destruct (st_qstream st) as [h|]; [|by injection H1 as _ <-]. split; [by eapply frame_reset|].
      unfold q_reset in H1. binv H1 v s2 H2. apply use_inv in H2 as ->. by injection H1 as _ <-. }
    etrans; [exact HR|]. by eapply (frame_answer s1 p st _ None _ _ _ Hp1) in He.
  - by eapply (frame_answer s p st _ _ _ _ _ Hp) in He.
  - unfold stream_read_data in He. destruct (h3_session_read_data _ _) as [r|]; [|done].
    binv He st' s1 H1. injection H1 as <- <-. by eapply (frame_answer s p st _ None _ _ _ Hp) in He.
Qed.

Lemma frame_run_prog {A} (pr : prog N A) : preserves R (run_prog conf pr : M session A).
Proof.
  induction pr as [n r|n cb ud k IH]; cbn [run_prog]; unfold put_ngh.
  - apply preserves_bind; [apply _|apply preserves_modify; intros s; apply cf_ngh|]. intros _. apply preserves_ret, _.
  - apply preserves_bind; [apply _|apply preserves_modify; intros s; apply cf_ngh|]. intros _.
    apply preserves_bind; [apply _|apply frame_callback|]. intros r.
    apply preserves_bind; [apply _|apply frame_get_ngh|]. intros n'. apply IH.
Qed.

Lemma frame_call {A} (g : N -> prog N A) : preserves R (call_ngh conf g : M session A).
Proof. apply preserves_bind; [apply _|apply frame_get_ngh|]. intros n. apply frame_run_prog. Qed.

End Calls.

(** ** Reading *)

Ltac frame_leaf := idtac; first
  [ apply rf_pending | apply rf_dead | apply rf_buffer | apply df_count | apply df_cursor | apply df_aborted
  | apply (frame_upd _); by intros ? _
  | case_match; [apply rf_buffer|reflexivity] ].

Ltac frame_look := idtac; first
  [ apply (frame_get _) | apply (frame_use _) | apply (frame_on_env _) | apply (frame_call _)
  | match goal with IH : _ |- _ => apply IH end ].

Ltac solve_frame := solve_preserves frame_leaf frame_look.

Lemma frame_feed_fin R {RF : ReadFrame R} p : preserves R (feed_stream_fin conf p : M session unit).
Proof. unfold feed_stream_fin, mark_ngh3_dead. solve_frame. Qed.

Section Draining.
Context R {DF : DrainFrame R}.

Lemma frame_drain_reads p buf reads left read : preserves R (drain_reads conf io p buf reads left read : M session _).
Proof.
  pose proof (frame_feed_fin R p). revert left read.
  induction reads; intros; cbn [drain_reads]; unfold q_read, count_read, mark_ngh3_dead; solve_frame.
Qed.

Lemma frame_drain_one p reads left read : preserves R (drain_one_stream conf io p reads left read : M session _).
Proof.
  pose proof (frame_feed_fin R p). pose proof (frame_drain_reads p).
  unfold drain_one_stream, q_is_read_finished. solve_frame.
Qed.

Lemma frame_snapshot total it walk acc : preserves R (take_snapshot total it walk acc : M session _).
Proof. revert it acc. induction walk as [|[sid p] walk IH]; intros; cbn [take_snapshot]; solve_frame. Qed.

Lemma frame_drain_pass snap start off todo reads left read acc :
  preserves R (drain_pass conf io snap start off todo reads left read acc : M session _).
Proof.
  pose proof frame_drain_one. revert off reads left read acc.
  induction todo as [|k IH]; intros; cbn [drain_pass]; solve_frame.
Qed.

End Draining.

End Frame.
