(* ===== verification/Toy.v ===== *)
(** * Instances of the interfaces

    A small nghttp3 and a small httpd that meet [Nghttp3Spec] and [HttpdSpec]; the
    transport is [h3q] on [toy_openssl].  They are what the witnesses of the session's
    theorems run on. *)

From S2P Require Import Prelude Effects LinkedQueue RespQueue Config Body Quic Stream.
From S2P Require Import Session SessionInv Request.

(** ** nghttp3: the first read of a stream is its header block; the head of a response is one
    byte, and what is read of its body follows as it is; it is drained when every stream has
    a response *)

Record toy_ngh := ToyNgh {
  tn_user : gmap Z sptr;
  tn_submitted : list Z;
  tn_out : gmap Z bytes;        (** what is still to be sent *)
  tn_closed : gset Z;
  tn_fed : gmap Z bytes }.       (** what was read *)

Definition toy_unsent (n : toy_ngh) (sid : Z) : bytes := default [] (tn_out n !! sid).

Definition toy_set_out (sid : Z) (b : bytes) (n : toy_ngh) : toy_ngh :=
  ToyNgh (tn_user n) (tn_submitted n) (<[sid := b]> (tn_out n)) (tn_closed n) (tn_fed n).

Definition toy_close (sid : Z) (n : toy_ngh) : toy_ngh :=
  ToyNgh (delete sid (tn_user n)) (tn_submitted n) (tn_out n) ({[sid]} ∪ tn_closed n) (tn_fed n).

Definition toy_given (n : toy_ngh) (sid : Z) : bytes := default [] (tn_fed n !! sid).

Definition toy_feed (sid : Z) (d : bytes) (n : toy_ngh) : toy_ngh :=
  ToyNgh (tn_user n) (tn_submitted n) (tn_out n) (tn_closed n) (<[sid := toy_given n sid ++ d]> (tn_fed n)).

Definition toy_read (n : toy_ngh) (sid : Z) (d : bytes) (fin : bool) : prog toy_ngh Z :=
  let n := toy_feed sid d n in
  match tn_user n !! sid with
  | Some p => Done n (blen d)
  | None =>
      Call n (CbBeginHeaders sid) None (fun n1 _ =>
      Call n1 (CbRecvHeader TOKEN__METHOD (text ":method") (text "GET")) (tn_user n1 !! sid) (fun n2 _ =>
      Call n2 (CbEndHeaders fin) (tn_user n2 !! sid) (fun n3 _ => Done n3 (blen d))))
  end.

(** The response submitted last is the one that is sent. *)
Definition toy_writev (n : toy_ngh) : prog toy_ngh wv_result :=
  match tn_submitted n with
  | [] => Done n (WvStream (-1) false [])
  | sid :: _ =>
      Call n (CbReadData 16) (tn_user n !! sid) (fun n1 r =>
        let b := toy_unsent n1 sid ++ match r with ReplyData d => reply_bytes d | Reply _ => [] end in
        Done (toy_set_out sid b n1)
             (if bool_decide (b = []) then WvStream (-1) false [] else WvStream sid false [take 4096 b]))
  end.

Definition toy_submit (n : toy_ngh) (sid : Z) : toy_ngh :=
  ToyNgh (tn_user n) (sid :: tn_submitted n) (<[sid := toy_unsent n sid ++ text "H"]> (tn_out n)) (tn_closed n) (tn_fed n).

#[export] Instance toy_nghttp3 : Nghttp3 toy_ngh := {
  ngh_server_new := Some (ToyNgh ∅ [] ∅ ∅ ∅);
  ngh_set_max_streams n _ := n;
  ngh_bind_control_stream n _ := (n, true);
  ngh_bind_qpack_streams n _ _ := (n, true);
  ngh_read_stream := toy_read;
  ngh_writev_stream := toy_writev;
  ngh_add_write_offset n sid z := toy_set_out sid (bdrop z (toy_unsent n sid)) n;
  ngh_add_ack_offset n _ _ := Done n tt;
  ngh_block_stream n _ := n;
  ngh_unblock_stream n _ := n;
  ngh_resume_stream n _ := n;
  ngh_close_stream n sid := Call n (CbStreamClose sid) (tn_user n !! sid) (fun n' _ => Done (toy_close sid n') tt);
  ngh_submit_response n sid _ := (toy_submit n sid, 0);
  ngh_set_stream_user_data n sid p :=
    ToyNgh (<[sid := p]> (tn_user n)) (tn_submitted n) (tn_out n) (tn_closed n) (tn_fed n);
  ngh_submit_shutdown_notice n := n;
  ngh_shutdown n := n;
  ngh_is_drained n := forallb (fun x => bool_decide (fst x ∈ tn_submitted n)) (map_to_list (tn_user n));
  ngh_err_code e := e;
  ngh_strerror _ := "error"%string;
  ngh_user_data n sid := tn_user n !! sid;
  ngh_unacked _ _ := 0 }.

#[export] Instance toy_nghttp3_spec : Nghttp3Spec toy_ngh toy_nghttp3.
Proof.
  assert (Hsame : forall n : toy_ngh, ngh_same n n) by (by split).
  split; intros; try apply Hsame; try done.
  - injection H as <-. split; [|done]. intros sid. apply lookup_empty.
  - simpl in *. destruct (decide (sid' = sid)) as [->|].
    + rewrite lookup_insert_eq in H. left. split; congruence.
    + rewrite lookup_insert_ne in H by done. by right.
  - apply still_nil in H as Hk. cbn [ngh_read_stream toy_nghttp3]. unfold toy_read. cbn [tn_user toy_feed].
    destruct (tn_user n !! sid) eqn:Eu; [by split|].
    split_and!; [exact Hk|done|by intros i _ ?%elem_of_nil|done|].
    intros n1 r1 K1 _. split_and!; [done|intros p Hp; exists sid; split; [by apply K1|done]|done|done|].
    intros n2 r2 K2 _. split_and!; [done|intros p Hp; exists sid; split; [by apply K2|done]|done|done|].
    intros n3 r3 K3 _. by split; [|intros p; destruct r1, r2, r3].
  - apply still_nil in H as Hk. simpl. unfold toy_writev. destruct (tn_submitted n) as [|sid l]; [by split|].
    split_and!; [done|intros p Hp; exists sid; split; [by apply Hk|done]|done|done|].
    intros n' r K' _. split; [done|]. intros p. simpl.
    destruct (tn_user n !! sid) as [q|], r as [|d]; try done. unfold bump.
    pose proof (blen_nonneg (reply_bytes d)). case_decide; simpl; lia.
  - apply still_nil in H as Hk. by split.
  - apply still_nil in H as Hk. split_and!; [done|intros p Hp; exists sid; split; [by apply Hk|done]|done|done|].
    intros n' r K' _. split; [|by destruct (tn_user n !! sid)]. intros i p. simpl.
    intros [Hne Hp]%lookup_delete_Some. split; [by apply (K' i p Hp)|]. set_solver.
Qed.

(** ** httpd: tables as lists *)

Definition caseeq (a b : bytes) : bool := bool_decide (map lower a = map lower b).

Abbreviation toy_table := (list (bytes * bytes)).

Fixpoint toy_get (t : toy_table) (k : bytes) : option bytes :=
  match t with [] => None | (k', v) :: t' => if caseeq k' k then Some v else toy_get t' k end.

Definition toy_setn (t : toy_table) (k v : bytes) : toy_table :=
  filter (fun x => caseeq (fst x) k = false) t ++ [(k, v)].

#[export] Instance toy_httpd : Httpd := {
  ap_cstr_caseeq := caseeq;
  ap_find_token := caseeq;
  apr_table := toy_table;
  table_empty := [];
  table_get := toy_get;
  table_elts t := map (fun x => (Some (fst x), Some (snd x))) t;
  table_setn := toy_setn;
  table_add t k v := t ++ [(k, v)];
  table_overlap_set t l := foldl (fun t x => toy_setn t (fst x) (snd x)) t l;
  ap_parse_uri p := p }.

Lemma caseeq_true a b : caseeq a b = true <-> map lower a = map lower b.
Proof. unfold caseeq. apply bool_decide_eq_true. Qed.

Lemma toy_get_app t k v k' :
  toy_get (t ++ [(k, v)]) k' =
  match toy_get t k' with Some w => Some w | None => if caseeq k k' then Some v else None end.
Proof. induction t as [|[a w] t IH]; simpl; [done|]. by destruct (caseeq a k'). Qed.

Lemma toy_get_filter t k k' :
  toy_get (filter (fun x => caseeq (fst x) k = false) t) k' =
  if caseeq k k' then None else toy_get t k'.
Proof.
  induction t as [|[a w] t IH]; simpl; [by destruct (caseeq k k')|].
  destruct (caseeq a k) eqn:Ea.
  - rewrite filter_cons_False by (simpl; congruence). rewrite IH.
    destruct (caseeq k k') eqn:Ek, (caseeq a k') eqn:Eak; try done.
    apply caseeq_true in Ea, Eak. assert (caseeq k k' = true) by (apply caseeq_true; congruence). congruence.
  - rewrite filter_cons_True by done. simpl. rewrite IH.
    destruct (caseeq k k') eqn:Ek, (caseeq a k') eqn:Eak; try done.
    apply caseeq_true in Ek, Eak. assert (caseeq a k = true) by (apply caseeq_true; congruence). congruence.
Qed.

Lemma toy_get_setn t k v k' :
  toy_get (toy_setn t k v) k' = if caseeq k k' then Some v else toy_get t k'.
Proof.
  unfold toy_setn. rewrite toy_get_app, toy_get_filter. destruct (caseeq k k'); [done|].
  by destruct (toy_get t k').
Qed.

#[export] Instance toy_httpd_spec : HttpdSpec toy_httpd.
Proof.
  split.
  - done.
  - done.
  - apply toy_get_setn.
  - done.
  - intros t k v. simpl. by rewrite map_app.
  - intros t l k. simpl. induction l as [|[a v] l IH] using rev_ind; [done|].
    rewrite foldl_snoc, filter_app. simpl. rewrite toy_get_setn, IH.
    destruct (caseeq a k) eqn:Ea.
    + rewrite filter_cons_True by done. by rewrite filter_nil, last_snoc.
    + rewrite filter_cons_False by (simpl; congruence). by rewrite filter_nil, app_nil_r.
Qed.

(** ** A session on them *)

#[export] Instance toy_streams : QuicStreams toy_ssl := h3q_streams (O := toy_openssl).
#[export] Instance toy_streams_spec : QuicStreamsSpec toy_ssl toy_streams := h3q_streams_spec.
#[export] Instance toy_conns : QuicConns toy_ssl := h3q_conns (O := toy_openssl).
#[export] Instance toy_conns_spec : QuicConnsSpec toy_ssl toy_conns := h3q_conns_spec.

(** The defaults. *)
Definition toy_conf : h3_server_conf :=
  resolve_defaults [443] (upd_key_path (Some "key"%string) (upd_cert_path (Some "cert"%string) h3_create_server_config)).

(** The connection is object 1 and the peer opens one stream with two bytes; after the
    control streams its handle is 8 and its id 32. *)
Definition toy_env : toy_ssl := ToySSL 100 [] [] [Byte.x41; Byte.x42] 1 [].

Definition toy_created (env : toy_ssl) : option (@h3_session toy_ngh toy_ssl) :=
  fst (h3_session_create toy_conf APR_SUCCESS 5%positive env 1%positive).

Definition toy_spawned (env : toy_ssl) : option (@h3_session toy_ngh toy_ssl) :=
  s ← toy_created env;
  match h3_session_create_control_streams toy_conf (true, true) (true, true) (true, true) s with
  | Ret APR_SUCCESS s' => Some s'
  | _ => None
  end.

Definition toy_session : option (@h3_session toy_ngh toy_ssl) := toy_spawned toy_env.

(** A worker whose handler answers with a status and three bytes. *)
Definition toy_worker : @worker_calls toy_ngh toy_ssl toy_httpd :=
  WorkerCalls true true (fun m => caseeq m (text "GET")) (fun _ => 200)
    (fun _ _ => [FC_in AP_MODE_READBYTES 10;
                 FC_out true (RequestOut 200 None)
                   [OB_response (Response 200 (Some [(text "Connection", text "close");
                                                      (text "Server", text "x")]));
                    OB_data (APR_SUCCESS, Some [Byte.x61; Byte.x62; Byte.x63]); OB_eos]])
    (RequestOut 200 None)
    (AppendCalls (fun _ => true) (fun _ => APR_TIMEUP)).
