(* ===== verification/Drain.v ===== *)
(** * A pass over the streams (h3_stream.c)

    What [drain_ready_streams] promises the other sessions and the streams: a pass reads at
    most [H3_STREAM_DRAIN_READ_BUDGET] times and [H3_STREAM_DRAIN_BYTE_BUDGET] bytes, and
    visits the streams in a round robin: it is equal to a walk over the table rotated to the
    stored cursor, and when a budget is used up the next pass begins with the streams that
    were left out. *)

From S2P Require Import Prelude Effects LinkedQueue RespQueue Config Body Quic Stream.
From S2P Require Import Session SessionInv Request Frame Toy.

Section Drain.
Context {N E : Type} {NG : Nghttp3 N} {QS : QuicStreams E} {QSS : QuicStreamsSpec E QS}.
Context {QC : QuicConns E} {AH : AprHash}.
Context (conf : h3_server_conf).
Abbreviation session := (@h3_session N E).
Implicit Types (s : session) (p : sptr).

(** ** The bytes read *)

(** Only [drain_reads] counts. *)
Definition same_read : relation session := fun s s' => ss_bytes_read s' = ss_bytes_read s.

#[local] Instance same_read_preorder : PreOrder same_read.
Proof. split; unfold same_read; [done|]. intros x y z. congruence. Qed.

#[local] Instance same_read_frame : ReadFrame same_read.
Proof. repeat (split; try apply _); done. Qed.

Ltac same_read := preserves ltac:(by repeat case_match).

Lemma reclaim_same p : preserves same_read (reclaim p : M session unit).
Proof. unfold reclaim, get_stream. same_read. Qed.

Lemma take_snapshot_same total it walk acc :
  preserves same_read (take_snapshot total it walk acc : M session (list sptr)).
Proof.
  revert it acc. induction walk as [|[sid p] walk IH]; intros it acc; cbn [take_snapshot]; [same_read|].
  repeat first [apply IH | progress same_read].
Qed.

(** [ns] are the sizes of the reads, the count of bytes going from [c] to [c']. *)
Definition counted (c : Z) (ns : list Z) : Z := foldl (fun c n => c +64 n) c ns.

Definition total (ns : list Z) : Z := foldr Z.add 0 ns.

(** What a part of a pass that had [reads] and [left] in its budgets spends: [r] is what is
    left of them and whether anything has been read. *)
Definition spends (buf : Z) (reads : nat) (left : Z) (dr : bool) s (r : nat * Z * bool) s' : Prop :=
  exists ns, reads = (length ns + fst (fst r))%nat /\ snd (fst r) = left - total ns /\ 0 <= snd (fst r)
    /\ Forall (fun n => 0 < n <= buf) ns /\ snd r = dr || negb (bool_decide (ns = []))
    /\ ss_bytes_read s' = counted (ss_bytes_read s) ns.

Lemma spends_nil buf reads left dr s s' :
  0 <= left -> same_read s s' -> spends buf reads left dr s (reads, left, dr) s'.
Proof.
  intros Hl Hs. exists []. cbn. split_and!; [done|lia|done|constructor|by destruct dr|done].
Qed.

Lemma total_app ns1 ns2 : total (ns1 ++ ns2) = total ns1 + total ns2.
Proof. unfold total. induction ns1 as [|n ns1 IH]; simpl; [done|]. rewrite IH. lia. Qed.

Lemma total_nonneg b ns : Forall (fun n => 0 < n <= b) ns -> 0 <= total ns.
Proof. unfold total. induction 1; simpl; lia. Qed.

Lemma spends_trans buf reads left dr s r s1 r' s' :
  spends buf reads left dr s r s1 -> spends buf (fst (fst r)) (snd (fst r)) (snd r) s1 r' s' ->
  spends buf reads left dr s r' s'.
Proof.
  intros (ns1 & A1 & A2 & A3 & A4 & A5 & A6) (ns2 & B1 & B2 & B3 & B4 & B5 & B6).
  exists (ns1 ++ ns2). rewrite total_app, length_app. split_and!.
  - lia.
  - lia.
  - done.
  - by apply Forall_app.
  - rewrite B5, A5, <- orb_assoc. by destruct ns1, ns2.
  - unfold counted. by rewrite foldl_app, B6, A6.
Qed.

Lemma spends_same_l buf reads left dr s s1 r s' :
  same_read s s1 -> spends buf reads left dr s1 r s' -> spends buf reads left dr s r s'.
Proof. intros Hs (ns & H1 & H2 & H3 & H4 & H5 & H6). exists ns. by rewrite <- Hs. Qed.

Lemma spends_same_r buf reads left dr s r s1 s' :
  spends buf reads left dr s r s1 -> same_read s1 s' -> spends buf reads left dr s r s'.
Proof. intros (ns & H1 & H2 & H3 & H4 & H5 & H6) Hs. exists ns. by rewrite Hs. Qed.

Context (Hbuf : 0 < h3_stream_buffer_size conf).
Abbreviation buf := (h3_stream_buffer_size conf).

(** One read. *)
Lemma spends_one reads left dr s s' n :
  0 < n <= buf -> n <= left -> left <= SIZE_MAX -> ss_bytes_read s' = ss_bytes_read s +64 n ->
  spends buf (S reads) left dr s (reads, left -64 n, true) s'.
Proof.
  intros Hn Hl Hm Hs. exists [n]. cbn. rewrite wrap64_small by lia.
  split_and!; [lia|lia|lia|by constructor|by destruct dr|done].
Qed.

Lemma q_read_bounded h n s rd s' :
  q_read h n s = Ret rd s' -> 0 <= n -> same_read s s' /\ blen (rd_bytes rd) <= n.
Proof. intros (e & He & ->)%q_read_inv Hn. split; [done|]. by eapply qs_read_bound. Qed.

Lemma drain_reads_spends p reads left dr s r s' :
  0 <= left <= SIZE_MAX -> drain_reads conf true p buf reads left dr s = Ret r s' ->
  spends buf reads left dr s r s'.
Proof.
  revert left dr s. induction reads as [|reads IH]; intros left dr s Hl He; cbn [drain_reads] in He.
  { injection He as <- <-. by apply spends_nil; [lia|]. }
  destruct (Z.leb_spec left 0). { injection He as <- <-. by apply spends_nil; [lia|]. }
  binv He st s1 E1. apply get_stream_inv in E1 as [_ ->]. destruct (st_qstream st) as [h|].
  2: { binv He u s1 E2. injection E2 as <- <-. injection He as <- <-. by apply spends_nil; [lia|]. }
  binv He rd s1 E2. apply q_read_bounded in E2 as [Hs1 Hrd]; [|destruct (buf <? left); lia].
  destruct (rd_ok rd && (0 <? blen (rd_bytes rd))) eqn:Eok.
  2: { binv He u s2 E3. injection He as <- <-. apply spends_nil; [lia|]. etrans; [exact Hs1|].
       unfold when in E3. destruct (rd_fin rd); [by eapply (frame_feed_fin conf same_read)|by injection E3 as _ <-]. }
  apply andb_true_iff in Eok as [_ Hpos%Z.ltb_lt]. set (n := blen (rd_bytes rd)) in *.
  assert (Hn : 0 < n <= buf /\ n <= left) by (destruct (Z.ltb_spec buf left); lia).
  binv He u s2 E3. injection E3 as <- <-. binv He u2 s3 E4. injection E4 as <- <-.
  binv He rv s4 E5. apply (frame_call conf same_read) in E5. binv He u5 s5 E6. injection E6 as <- <-.
  set (s3 := set_ss_pending _ _) in E5.
  assert (Hone : forall s'', same_read s4 s'' -> spends buf (S reads) left dr s (reads, left -64 n, true) s'').
  { intros s'' Hs''. apply spends_one; [lia|lia|lia|]. rewrite Hs'', E5. simpl. by rewrite Hs1. }
  destruct (rv <? 0).
  - binv He u6 s6 E7. injection E7 as <- <-. binv He u7 s7 E8. injection E8 as <- <-. injection He as <- <-.
    by apply Hone.
  - binv He st2 s6 E7. apply get_stream_inv in E7 as [_ ->]. destruct (st_done st2).
    + injection He as <- <-. by apply Hone.
    + eapply spends_trans; [by apply (Hone (set_ss_pending (-1, None) s4))|]. simpl. apply IH; [|exact He].
      rewrite wrap64_small by lia. lia.
Qed.

Lemma drain_one_spends p reads left dr s ready r s' :
  0 <= left <= SIZE_MAX -> drain_one_stream conf true p reads left dr s = Ret (ready, r) s' ->
  spends buf reads left dr s r s'.
Proof.
  intros Hl He. unfold drain_one_stream in He. binv He u s1 E1.
  assert (Hs1 : same_read s s1) by (injection E1 as _ <-; by case_match).
  eapply spends_same_l; [exact Hs1|]. clear Hs1 E1.
  binv He st s2 E2. apply get_stream_inv in E2 as [_ ->]. binv He fins s2 E3.
  assert (s2 = s1) as ->.
  { destruct (st_qstream st) as [h|]; [|by injection E3]. unfold q_is_read_finished, use in E3.
    binv E3 u0 s3 E4. binv E4 fr s4 E5. injection E5 as <- <-. injection E3 as _ <-.
    destruct (bool_decide _); [by injection E4|done]. }
  destruct (fst fins).
  - binv He u1 s3 E4. assert (H3 : same_read s1 s3).
    { destruct (negb _); [by eapply (frame_feed_fin conf same_read)|by injection E4 as _ <-]. }
    binv He st2 s4 E5. apply get_stream_inv in E5 as [_ ->]. binv He u2 s5 E6. assert (H5 : same_read s3 s5).
    { destruct (_ && _); [by eapply (frame_call conf same_read)|by injection E6 as _ <-]. }
    binv He st3 s6 E7. apply get_stream_inv in E7 as [_ ->]. injection He as _ <- <-.
    apply spends_nil; [lia|]. by etrans.
  - binv He lft s3 E4. apply drain_reads_spends in E4; [|done].
    binv He st3 s6 E7. apply get_stream_inv in E7 as [_ ->]. by injection He as _ <- <-.
Qed.

Lemma drain_pass_spends snapshot start offset todo reads left dr completed s c dr' s' :
  0 <= left <= SIZE_MAX ->
  drain_pass conf true snapshot start offset todo reads left dr completed s = Ret (c, dr') s' ->
  exists reads' left', spends buf reads left dr s (reads', left', dr') s'.
Proof.
  revert offset reads left dr completed s. induction todo as [|todo IH]; intros offset reads left dr completed s Hl He;
    cbn [drain_pass] in He.
  { injection He as _ <- <-. exists reads, left. by apply spends_nil; [lia|]. }
  binv He dead s1 E1. injection E1 as <- <-. destruct (ss_ngh3_dead s).
  { injection He as _ <- <-. exists reads, left. by apply spends_nil; [lia|]. }
  binv He q s1 E1. destruct (snapshot !! _) as [q'|]; [|done]. injection E1 as -> <-.
  binv He st s1 E1. apply get_stream_inv in E1 as [_ ->]. destruct (_ || _ || _); [by eapply IH|].
  binv He r s1 E1. destruct r as [ready [[reads1 left1] dr1]].
  pose proof (drain_one_spends _ _ _ _ _ _ _ _ Hl E1) as H1.
  binv He dead s2 E2. injection E2 as <- <-. destruct (_ || _).
  - binv He u s2 E2. injection E2 as <- <-. injection He as _ <- <-. exists reads1, left1.
    by eapply spends_same_r.
  - apply IH in He as (reads2 & left2 & H2).
    + exists reads2, left2. by eapply spends_trans.
    + destruct H1 as (ns & _ & H1 & H2 & H3 & _). simpl in *.
      pose proof (total_nonneg _ _ H3). lia.
Qed.

Lemma drain_ready_spends s completed dr s' :
  drain_ready_streams conf true s = Ret (completed, dr) s' ->
  exists reads left, spends buf H3_STREAM_DRAIN_READ_BUDGET H3_STREAM_DRAIN_BYTE_BUDGET false s (reads, left, dr) s'.
Proof.
  intros He. unfold drain_ready_streams in He. binv He table s1 E1. injection E1 as <- <-.
  binv He snapshot s1 E1. apply take_snapshot_same in E1. binv He cursor s2 E2. injection E2 as <- <-.
  binv He r s2 E2. destruct r as [c dr']. binv He u s3 E3. injection He as <- <- <-.
  apply (preserves_for_each same_read) in E3; [|intros; apply reclaim_same].
  apply drain_pass_spends in E2 as (reads & left & H2); [|done]. exists reads, left.
  eapply spends_same_l; [exact E1|]. by eapply spends_same_r.
Qed.

End Drain.

(** ** The order of the streams *)

Section RoundRobin.
Context {N E : Type} {NG : Nghttp3 N} {QS : QuicStreams E} {QC : QuicConns E} {AH : AprHash}.
Context (conf : h3_server_conf) (io : bool).
Abbreviation session := (@h3_session N E).
Abbreviation sess := (M session).
Implicit Types (s : session) (p : sptr).

(** The walk over a list of streams; with the result come the streams left out when a
    budget is used up. *)
Fixpoint walk_streams (ps : list sptr) (reads : nat) (left : Z) (dr : bool) (completed : list sptr)
    : sess (list sptr * bool * option (list sptr)) :=
  match ps with
  | [] => mret (completed, dr, None)
  | p :: ps' =>
      dead ← gets ss_ngh3_dead;
      if (dead : bool) then mret (completed, dr, None)
      else
        st ← get_stream p;
        if st_done st || bool_decide (st_qstream st = None) || H3_SID_IS_SERVER (st_stream_id st)
        then walk_streams ps' reads left dr completed
        else
          r ← drain_one_stream conf io p reads left dr;
          let '(ready, (reads', left', dr')) := r in
          dead ← gets ss_ngh3_dead;
          let completed' := if (ready : bool) && negb dead then completed ++ [p] else completed in
          if (reads' =? 0)%nat || (left' =? 0) then mret (completed', dr', Some ps')
          else walk_streams ps' reads' left' dr' completed'
  end.

(** The cursor is put on the first stream left out. *)
Definition next_cursor (snapshot : list sptr) (start : Z) (ps : list sptr) : Z :=
  (start + Z.of_nat (length snapshot - length ps)) mod Z.of_nat (length snapshot).

Definition finish_walk (snapshot : list sptr) (start : Z) (r : list sptr * bool * option (list sptr))
    : sess (list sptr * bool) :=
  match snd r with
  | None => mret (fst r)
  | Some ps => modify (set_ss_cursor (next_cursor snapshot start ps)) ;; mret (fst r)
  end.

Lemma rotate_lookup (snapshot : list sptr) (start : Z) visited p ps :
  0 <= start -> rotate (Z.to_nat start) snapshot = visited ++ p :: ps ->
  snapshot !! Z.to_nat ((start + Z.of_nat (length visited)) mod Z.of_nat (length snapshot)) = Some p.
Proof.
  intros Hs Hr. assert (Hp : rotate (Z.to_nat start) snapshot !! length visited = Some p)
    by (by rewrite Hr, lookup_app_r, Nat.sub_diag).
  apply lookup_rotate_r_Some in Hp as [Hp Hl]. rewrite <- Hp. f_equal.
  unfold rotate_nat_add. by rewrite Z2Nat.id.
Qed.

Lemma rotate_app (v ps : list sptr) : rotate (length v) (v ++ ps) = ps ++ v.
Proof.
  unfold rotate. destruct ps as [|p ps].
  - rewrite !app_nil_r. destruct v as [|p v]; [done|]. rewrite Nat.Div0.mod_same by done.
    by rewrite drop_0, app_nil_r.
  - rewrite Nat.mod_small by (rewrite length_app; simpl; lia). by rewrite drop_app_length, take_app_length.
Qed.

Lemma rotate_twice (l : list sptr) (a b : nat) : rotate b (rotate a l) = rotate (a + b) l.
Proof.
  apply list_eq_same_length with (length l); rewrite ?length_rotate; [done..|].
  intros i x y Hi Hx Hy. rewrite lookup_rotate_r in Hx by (by rewrite length_rotate).
  rewrite length_rotate in Hx. rewrite lookup_rotate_r in Hx.
  2: { unfold rotate_nat_add. apply Nat2Z.inj_lt. rewrite Z2Nat.id; [apply Z.mod_pos_bound|apply Z.mod_pos]; lia. }
  rewrite lookup_rotate_r in Hy by done. enough (Some x = Some y) by congruence. rewrite <- Hx, <- Hy. f_equal.
  unfold rotate_nat_add. rewrite Z2Nat.id by (apply Z.mod_pos; lia). f_equal.
  rewrite Zplus_mod_idemp_r. f_equal. lia.
Qed.

Lemma next_cursor_rotates (snapshot : list sptr) (start : Z) visited ps :
  0 <= start -> rotate (Z.to_nat start) snapshot = visited ++ ps -> visited <> [] ->
  rotate (Z.to_nat (next_cursor snapshot start ps)) snapshot = ps ++ visited.
Proof.
  intros Hs Hr Hv. assert (Hl : length snapshot = (length visited + length ps)%nat)
    by (by rewrite <- length_app, <- Hr, length_rotate).
  rewrite <- rotate_app, <- Hr, rotate_twice. unfold rotate, next_cursor.
  assert (0 < length visited)%nat by (destruct visited; simpl; [done|lia]).
  replace (length snapshot - length ps)%nat with (length visited) by lia.
  assert (Z.to_nat ((start + Z.of_nat (length visited)) mod Z.of_nat (length snapshot)) mod length snapshot
    = (Z.to_nat start + length visited) mod length snapshot)%nat as ->; [|done].
  apply Nat2Z.inj. rewrite !Nat2Z.inj_mod, Z2Nat.id by (apply Z.mod_pos; lia). rewrite Zmod_mod. f_equal. lia.
Qed.

Lemma drain_pass_walk (snapshot : list sptr) start visited ps reads left dr completed s :
  0 <= start -> rotate (Z.to_nat start) snapshot = visited ++ ps ->
  drain_pass conf io snapshot start (Z.of_nat (length visited)) (length ps) reads left dr completed s
  = (walk_streams ps reads left dr completed ≫= finish_walk snapshot start) s.
Proof.
  intros Hs. revert visited reads left dr completed s.
  induction ps as [|p ps IH]; intros visited reads left dr completed s Hr; [done|].
  cbn [length drain_pass walk_streams]. rewrite (rotate_lookup snapshot start visited p ps Hs Hr).
  assert (Hnext : forall reads left dr completed s,
    drain_pass conf io snapshot start (Z.of_nat (length visited) + 1) (length ps) reads left dr completed s
    = (walk_streams ps reads left dr completed ≫= finish_walk snapshot start) s).
  { intros. rewrite <- (IH (visited ++ [p])) by (by rewrite <- app_assoc). rewrite length_app.
    f_equal. simpl. lia. }
  clear IH. unfold mbind, M_bind, gets, nonnull, mret, M_ret in *. cbn beta iota in *.
  destruct (ss_ngh3_dead s); [done|]. destruct (get_stream p s) as [st s1| |]; [|done|done].
  destruct (st_done st || _ || _); [apply Hnext|].
  destruct (drain_one_stream conf io p reads left dr s1) as [[ready [[reads' left'] dr']] s2| |]; [|done|done].
  destruct ((reads' =? 0)%nat || (left' =? 0)); [|apply Hnext].
  unfold finish_walk, modify, mbind, M_bind, mret, M_ret, next_cursor. cbn [snd fst]. do 2 f_equal.
  assert (Hl : length snapshot = (length visited + S (length ps))%nat)
    by (by rewrite <- (length_rotate snapshot (Z.to_nat start)), Hr, length_app).
  rewrite Zplus_mod_idemp_l. f_equal. lia.
Qed.

(** The walk stops at a stream it has served. *)
Lemma walk_suffix ps reads left dr completed s res rest s' :
  walk_streams ps reads left dr completed s = Ret (res, Some rest) s' ->
  exists visited, visited <> [] /\ ps = visited ++ rest.
Proof.
  revert reads left dr completed s. induction ps as [|p ps IH]; intros reads left dr completed s He;
    cbn [walk_streams] in He; [done|].
  assert (Hgo : forall reads left dr completed s, walk_streams ps reads left dr completed s = Ret (res, Some rest) s' ->
    exists visited, visited <> [] /\ p :: ps = visited ++ rest).
  { intros ? ? ? ? ? Hg. destruct (IH _ _ _ _ _ Hg) as (v & Hv & ->). by exists (p :: v). }
  binv He dead s1 E1. injection E1 as <- <-. destruct (ss_ngh3_dead s); [done|].
  binv He st s1 E1. destruct (_ || _ || _); [by eapply Hgo|].
  binv He r s2 E2. destruct r as [ready [[reads1 left1] dr1]]. binv He dead s3 E3. injection E3 as <- <-.
  destruct (_ || _); [|by eapply Hgo]. injection He as _ <- _. by exists [p].
Qed.

(** *** The whole pass *)

(** The streams of the table in the order of a walk over it, and the order in which a pass
    serves them. *)
Definition listed_streams s : list sptr := snd <$> hash_walk (ss_streams s).
Definition pass_order s : list sptr := rotate (Z.to_nat (ss_cursor s)) (listed_streams s).

Lemma take_snapshot_all total walk it acc s :
  it + Z.of_nat (length walk) <= total + 100 -> take_snapshot total it walk acc s = Ret (acc ++ (snd <$> walk)) s.
Proof.
  revert it acc. induction walk as [|[k p] walk IH]; intros it acc Hl; cbn [take_snapshot].
  { by rewrite app_nil_r. }
  simpl in Hl. rewrite (proj2 (Z.ltb_ge _ _)) by lia. rewrite IH by lia. by rewrite <- app_assoc.
Qed.

Lemma rotate_mod (l : list sptr) (c : Z) :
  0 <= c -> l <> [] -> rotate (Z.to_nat (c mod Z.of_nat (length l))) l = rotate (Z.to_nat c) l.
Proof.
  intros Hc Hl. assert (0 < length l)%nat by (destruct l; simpl; [done|lia]). unfold rotate.
  rewrite Z2Nat.inj_mod, Nat2Z.id by lia. by rewrite Nat.Div0.mod_mod.
Qed.

(** What is done with the result of the walk. *)
Definition finish_pass (snapshot : list sptr) (cursor : Z) (r : list sptr * bool * option (list sptr))
    : sess (list sptr * bool) :=
  (match snd r with
   | Some rest => modify (set_ss_cursor (next_cursor snapshot cursor rest))
   | None => mret tt
   end) ;;
  for_each reclaim snapshot ;; mret (fst r).

Lemma finish_walk_pass snapshot cursor r s :
  (x ← finish_walk snapshot (cursor mod Z.of_nat (length snapshot)) r; for_each reclaim snapshot ;; mret x) s
  = finish_pass snapshot cursor r s.
Proof.
  destruct r as [res [rest|]]; [|done]. unfold finish_walk, finish_pass, next_cursor. cbn [snd fst].
  by rewrite Zplus_mod_idemp_l.
Qed.

Lemma drain_is_walk s :
  0 <= ss_cursor s ->
  drain_ready_streams conf io s
  = (r ← walk_streams (pass_order s) H3_STREAM_DRAIN_READ_BUDGET H3_STREAM_DRAIN_BYTE_BUDGET false [];
     finish_pass (listed_streams s) (ss_cursor s) r) s.
Proof.
  intros Hc. unfold drain_ready_streams.
  rewrite (bind_ret (gets ss_streams) _ s s (ss_streams s)) by done.
  rewrite (bind_ret _ _ s s (listed_streams s)).
  2:{ rewrite take_snapshot_all; [done|]. rewrite hash_walk_perm, length_map_to_list. lia. }
  rewrite (bind_ret (gets ss_cursor) _ s s (ss_cursor s)) by done.
  unfold pass_order. set (snap := listed_streams s).
  destruct (decide (snap = [])) as [->|Hne].
  { replace (rotate (Z.to_nat (ss_cursor s)) []) with ([] : list sptr); [done|].
    unfold rotate. by rewrite drop_nil, take_nil. }
  rewrite bool_decide_false by done.
  set (start := ss_cursor s mod Z.of_nat (length snap)).
  assert (Hst : 0 <= start) by (apply Z.mod_pos_bound; destruct snap; simpl; [done|lia]).
  assert (Hr : rotate (Z.to_nat start) snap = rotate (Z.to_nat (ss_cursor s)) snap) by (by apply rotate_mod).
  pose proof (drain_pass_walk snap start [] (rotate (Z.to_nat start) snap) H3_STREAM_DRAIN_READ_BUDGET
    H3_STREAM_DRAIN_BYTE_BUDGET false [] s Hst eq_refl) as Hw.
  rewrite length_rotate in Hw. change (Z.of_nat (length [])) with 0 in Hw. rewrite Hr in Hw.
  unfold mbind at 1, M_bind at 1. rewrite Hw. unfold mbind at 3, M_bind at 3. unfold mbind at 1, M_bind at 1.
  destruct (walk_streams _ _ _ _ _ s) as [r s1| |s1]; [|done|done].
  rewrite <- (finish_walk_pass snap (ss_cursor s) r s1). done.
Qed.

(** Reclaiming keeps the cursor. *)
Definition same_cursor : relation session := fun s s' => ss_cursor s' = ss_cursor s.

#[export] Instance same_cursor_preorder : PreOrder same_cursor.
Proof. split; unfold same_cursor; [done|]. intros x y z. congruence. Qed.

Lemma reclaim_cursor p : preserves same_cursor (reclaim p : M session unit).
Proof. unfold reclaim, get_stream. preserves ltac:(by repeat case_match). Qed.

End RoundRobin.

(** ** The claims *)

Section Claims.
Context {N E : Type} {NG : Nghttp3 N} {QS : QuicStreams E} {QSS : QuicStreamsSpec E QS}.
Context {QC : QuicConns E} {AH : AprHash}.
Abbreviation session := (@h3_session N E).

(** C21 (bounds): a pass over the streams of a session makes at most 256 reads that return
    data, of at most a stream buffer each and 1 MiB together, counts each of them, and
    reports that data was read exactly when one of them was. *)
Theorem drain_within_budget conf (s : session) completed read s' :
  0 < h3_stream_buffer_size conf ->
  drain_ready_streams conf true s = Ret (completed, read) s' ->
  exists sizes, (length sizes <= H3_STREAM_DRAIN_READ_BUDGET)%nat
    /\ total sizes <= H3_STREAM_DRAIN_BYTE_BUDGET
    /\ Forall (fun n => 0 < n <= h3_stream_buffer_size conf) sizes
    /\ ss_bytes_read s' = counted (ss_bytes_read s) sizes
    /\ (read = true <-> sizes <> []).
Proof.
  intros Hb He. destruct (drain_ready_spends conf Hb s completed read s' He)
    as (reads & left & ns & H1 & H2 & H3 & H4 & H5 & H6). simpl in *.
  exists ns. split_and!; [lia|lia|done|done|]. rewrite H5. destruct (bool_decide_reflect (ns = [])); naive_solver.
Qed.

(** C20 (equivalence): a pass over the streams of a session equals a walk over the streams
    of the table, beginning at the stored cursor, that serves each in turn until a budget is
    used up, followed by the reclaiming of closed requests.  When a budget is used up at a
    stream, and the pass has left the table as it was, the next pass begins with the streams
    this one left out, in order, and ends with those it has visited. *)
Theorem drain_round_robin conf io (s : session) :
  0 <= ss_cursor s ->
  let serve := walk_streams conf io (pass_order s) H3_STREAM_DRAIN_READ_BUDGET H3_STREAM_DRAIN_BYTE_BUDGET false [] in
  drain_ready_streams conf io s
  = (r ← serve;
     (match snd r with
      | Some rest => modify (set_ss_cursor (next_cursor (listed_streams s) (ss_cursor s) rest))
      | None => mret tt
      end) ;;
     for_each reclaim (listed_streams s) ;; mret (fst r)) s
  /\ forall res rest s1 s', serve s = Ret (res, Some rest) s1 -> drain_ready_streams conf io s = Ret res s' ->
     ss_streams s' = ss_streams s ->
     exists visited, visited <> [] /\ pass_order s = visited ++ rest /\ pass_order s' = rest ++ visited.
Proof.
  intros Hs serve. pose proof (drain_is_walk conf io s Hs) as Heq. split; [exact Heq|].
  intros res rest s1 s' Hw Hd Ht. destruct (walk_suffix conf io _ _ _ _ _ _ _ _ _ Hw) as (visited & Hv & Hr).
  exists visited. split_and!; [done|done|]. rewrite Heq in Hd. fold serve in Hd.
  rewrite (bind_ret _ _ _ _ _ Hw) in Hd. binv Hd u s2 H2. injection H2 as _ <-. binv Hd v s3 H3. injection Hd as <-.
  apply (preserves_for_each same_cursor) in H3; [|intros; apply reclaim_cursor].
  unfold pass_order, listed_streams in *. rewrite Ht, H3. by apply next_cursor_rotates.
Qed.

End Claims.

(** ** A pass of the small session

    Its peer has opened one stream, on which two bytes have arrived. *)

Definition with_request (o : option (@h3_session toy_ngh toy_ssl)) : option (@h3_session toy_ngh toy_ssl) :=
  s ← o; match track_stream toy_conf true true 0 4%positive s with Ret _ s' => Some s' | _ => None end.

Definition pass_once (o : option (@h3_session toy_ngh toy_ssl)) :=
  s ← with_request o;
  match drain_ready_streams toy_conf true s with Ret r s' => Some (s, r, s') | _ => None end.

Definition check_drained (o : option (@h3_session toy_ngh toy_ssl * (list sptr * bool) * @h3_session toy_ngh toy_ssl))
  : bool := match o with Some (_, (_, read), _) => read | None => false end.

Lemma toy_drained : check_drained (pass_once toy_session) = true.
Proof. vm_cast_no_check (eq_refl true). Qed.

Lemma drained_inv o s r s' : pass_once o = Some (s, r, s') -> drain_ready_streams toy_conf true s = Ret r s'.
Proof.
  unfold pass_once. destruct (with_request o) as [s0|]; [|done]. simpl.
  destruct (drain_ready_streams toy_conf true s0) as [r0 s1| |] eqn:Ed; [|done|done]. intros [= <- <- <-]. done.
Qed.

Lemma drain_within_budget_witness :
  exists s r s', drain_ready_streams toy_conf true s = Ret (r, true) s'
    /\ exists sizes, sizes <> [] /\ total sizes <= 1048576 /\ ss_bytes_read s' = counted (ss_bytes_read s) sizes.
Proof.
  pose proof toy_drained as Hc. destruct (pass_once toy_session) as [[[s [r read]] s']|] eqn:Ed; [|done].
  simpl in Hc. subst read. apply drained_inv in Ed. exists s, r, s'. split; [exact Ed|].
  destruct (drain_within_budget toy_conf s r true s' ltac:(reflexivity) Ed) as (sizes & _ & H2 & _ & H4 & H5).
  exists sizes. split_and!; [by apply H5|exact H2|exact H4].
Defined.

(** A stream buffer of one byte, 300 bytes on the stream and the cursor at the third of the
    four streams: the budget of reads is used up at the one that is served. *)
Definition narrow_conf : h3_server_conf := upd_stream_buffer_size 1 toy_conf.

Definition long_body (o : option (@h3_session toy_ngh toy_ssl)) : option (@h3_session toy_ngh toy_ssl) :=
  s ← with_request o; Some (set_ss_cursor 2 (set_ss_env (ToySSL 100 [] [] (repeat Byte.x41 300) 0 []) s)).

Definition cut_short (o : option (@h3_session toy_ngh toy_ssl)) :=
  s ← long_body o;
  match walk_streams narrow_conf true (pass_order s) H3_STREAM_DRAIN_READ_BUDGET H3_STREAM_DRAIN_BYTE_BUDGET false [] s,
        drain_ready_streams narrow_conf true s with
  | Ret (res, Some rest) s1, Ret res' s' => Some (s, res, rest, s1, res', s')
  | _, _ => None
  end.

Definition check_cut_short (o : option (@h3_session toy_ngh toy_ssl * (list sptr * bool) * list sptr
    * @h3_session toy_ngh toy_ssl * (list sptr * bool) * @h3_session toy_ngh toy_ssl)) : bool :=
  match o with
  | Some (s, res, rest, s1, res', s') =>
      bool_decide (0 <= ss_cursor s) && bool_decide (rest <> []) && bool_decide (res = res')
      && bool_decide (ss_streams s' = ss_streams s)
  | None => false
  end.

Lemma toy_cut_short : check_cut_short (cut_short toy_session) = true.
Proof. vm_cast_no_check (eq_refl true). Qed.

Lemma cut_short_inv o s res rest s1 res' s' :
  cut_short o = Some (s, res, rest, s1, res', s') ->
  walk_streams narrow_conf true (pass_order s) H3_STREAM_DRAIN_READ_BUDGET H3_STREAM_DRAIN_BYTE_BUDGET false [] s
    = Ret (res, Some rest) s1 /\ drain_ready_streams narrow_conf true s = Ret res' s'.
Proof.
  unfold cut_short. destruct (long_body o) as [s0|]; [|done]. cbn [mbind option_bind].
  destruct (walk_streams _ _ _ _ _ _ _ _) as [[r [rs|]] s2| |] eqn:Ew; try done.
  destruct (drain_ready_streams _ _ _) as [r' s3| |] eqn:Ed; try done.
  intros Heq. injection Heq as -> -> -> -> -> ->. by split.
Qed.

Lemma drain_round_robin_witness :
  exists s res s' rest visited, drain_ready_streams narrow_conf true s = Ret res s'
    /\ rest <> [] /\ visited <> [] /\ pass_order s = visited ++ rest /\ pass_order s' = rest ++ visited.
Proof.
  pose proof toy_cut_short as Hc. destruct (cut_short toy_session) as [[[[[[s res] rest] s1] res'] s']|] eqn:Ed; [|done].
  cbn [check_cut_short] in Hc. rewrite !andb_true_iff, !bool_decide_eq_true in Hc.
  destruct Hc as [[[Hs Hne] Hres] Ht]. apply cut_short_inv in Ed as [Hw Hd]. rewrite <- Hres in Hd.
  destruct (proj2 (drain_round_robin narrow_conf true s Hs) res rest s1 s' Hw Hd Ht) as (visited & Hv & H1 & H2).
  exists s, res, s', rest, visited. exact (conj Hd (conj Hne (conj Hv (conj H1 H2)))).
Defined.
