(* ===== verification/Heads.v ===== *)
(** * Request and response heads (h3_request.c)

    What httpd's handlers see of a request's fields, and what is sent of a response's. *)

From S2P Require Import Prelude Effects LinkedQueue RespQueue Config Body Quic Stream.
From S2P Require Import Session SessionInv Request Toy.

Section Heads.
Context {H : Httpd} {HS : HttpdSpec H}.

(** ** Responses *)

(** The fields that only concern one connection (RFC 9110 7.6.1), in lower case. *)
Definition hop_by_hop : list string :=
  ["connection"; "keep-alive"; "proxy-connection"; "transfer-encoding"; "upgrade"; "te"].

(** A name that must not be sent: a pseudo-header's, one of those fields', in whatever case,
    or one that the response's [Connection] lists. *)
Definition withheld (conn_hdr : option bytes) (k : bytes) : Prop :=
  head k = Some Byte.x3a
  \/ map lower k ∈ (map Byte.to_N ∘ text <$> hop_by_hop)
  \/ exists c, conn_hdr = Some c /\ ap_find_token c k = true.

#[local] Instance withheld_dec conn_hdr k : Decision (withheld conn_hdr k).
Proof.
  unfold withheld. destruct conn_hdr as [c|]; [destruct (ap_find_token c k) eqn:E|].
  - left. right. right. by exists c.
  - destruct (decide (head k = Some Byte.x3a)); [left; tauto|].
    destruct (decide (map lower k ∈ (map Byte.to_N ∘ text <$> hop_by_hop))); [left; tauto|].
    right. intros [?|[?|(c' & [= <-] & ?)]]; congruence.
  - destruct (decide (head k = Some Byte.x3a)); [left; tauto|].
    destruct (decide (map lower k ∈ (map Byte.to_N ∘ text <$> hop_by_hop))); [left; tauto|].
    right. intros [?|[?|(c' & [=] & ?)]]; tauto.
Qed.

(** What is sent of a table entry, which may lack its key or its value. *)
Definition forwarded (conn_hdr : option bytes) (e : option bytes * option bytes)
    : option (bytes * bytes) :=
  k ← fst e; v ← snd e; if decide (withheld conn_hdr k) then None else Some (k, v).

(** The code's tests on a name are those. *)
Lemma withheld_tests conn_hdr k :
  withheld conn_hdr k <->
  starts_with_colon k || (is_connection_specific k
    || match conn_hdr with Some c => ap_find_token c k | None => false end) = true.
Proof.
  assert (Hc : starts_with_colon k = true <-> head k = Some Byte.x3a).
  { destruct k as [|b k]; [done|]. cbn [starts_with_colon head]. rewrite bool_decide_eq_true. naive_solver. }
  assert (Hs : is_connection_specific k = true <-> map lower k ∈ (map Byte.to_N ∘ text <$> hop_by_hop)).
  { unfold is_connection_specific. rewrite !caseeq_lower, !orb_true_iff, !bool_decide_eq_true.
    unfold hop_by_hop. cbn [fmap list_fmap]. rewrite !elem_of_cons, elem_of_nil.
    repeat match goal with |- context [map lower (text ?x)] =>
      let y := eval vm_compute in (map lower (text x)) in change (map lower (text x)) with y end.
    repeat match goal with |- context [compose ?f ?g ?x] =>
      let y := eval vm_compute in (compose f g x) in change (compose f g x) with y end.
    tauto. }
  unfold withheld. rewrite !orb_true_iff, Hc, Hs. destruct conn_hdr as [c|]; naive_solver.
Qed.

Lemma add_headers_spec conn_hdr cap nva elts :
  (length nva <= cap)%nat ->
  add_headers conn_hdr cap nva elts = nva ++ take (cap - length nva) (omap (forwarded conn_hdr) elts).
Proof.
  revert nva. induction elts as [|[ok ov] elts IH]; intros nva Hlen; cbn [add_headers omap list_omap].
  { by rewrite take_nil, app_nil_r. }
  destruct (Nat.ltb_spec (length nva) cap) as [Hlt|Hge].
  2:{ replace (cap - length nva)%nat with O by lia. simpl. by rewrite app_nil_r. }
  destruct ok as [k|]; [|by apply IH]. destruct ov as [v|]; [|by apply IH].
  unfold forwarded at 1. cbn [fst snd mbind option_bind]. pose proof (withheld_tests conn_hdr k) as Hw.
  destruct (decide (withheld conn_hdr k)) as [Hd|Hd].
  - apply Hw in Hd. destruct (starts_with_colon k); [by apply IH|]. simpl in Hd. rewrite Hd. by apply IH.
  - rewrite Hw, not_true_iff_false, orb_false_iff in Hd. destruct Hd as [-> ->].
    rewrite IH by (rewrite length_app; simpl; lia). rewrite length_app, <- app_assoc. simpl.
    replace (cap - length nva)%nat with (S (cap - (length nva + 1))) by lia. done.
Qed.

(** C35 (functional): the head of a response is the status, that of the response bucket if
    there is one and it has a status and else the request's, in decimal, followed by the
    entries of the header table, the bucket's if it has one and else the request's, in
    order, as many as the array has room for, without those that must not be sent: entries
    without a key or a value, names that begin with a colon, [Connection], [Keep-Alive],
    [Proxy-Connection], [Transfer-Encoding], [Upgrade] and [TE] in whatever case, and what
    the table's [Connection] field lists.  So none of those is ever sent. *)
Theorem response_head_exact cap r resp :
  let status := match resp with
                | Some (Response code _) => if decide (code = 0) then ro_status r else code
                | None => ro_status r
                end in
  let headers := match resp with
                 | Some (Response _ (Some hdrs)) => Some hdrs
                 | _ => ro_headers_out r
                 end in
  build_response_nva (S cap) r resp =
  (text ":status", text (pretty status))
    :: match headers with
       | Some hdrs => take cap (omap (forwarded (table_get hdrs (text "Connection"))) (table_elts hdrs))
       | None => []
       end
  /\ forall k v, (k, v) ∈ tail (build_response_nva (S cap) r resp) ->
       head k <> Some Byte.x3a
       /\ map lower k ∉ (map Byte.to_N ∘ text <$>
            ["connection"; "keep-alive"; "proxy-connection"; "transfer-encoding"; "upgrade"; "te"])
       /\ forall hdrs c, headers = Some hdrs -> table_get hdrs (text "Connection") = Some c ->
            ap_find_token c k = false.
Proof.
  intros status headers.
  assert (Hst : response_status r resp = status).
  { unfold response_status, status. destruct resp as [[code ?]|]; [|done]. simpl.
    destruct (Z.eqb_spec code 0), (decide (code = 0)); done. }
  assert (Hhd : response_headers r resp = headers).
  { unfold response_headers, headers. by destruct resp as [[? [?|]]|]. }
  unfold build_response_nva. rewrite Hst, Hhd. clearbody status headers. destruct headers as [hdrs|].
  2:{ split; [done|]. intros k v Hin. by apply elem_of_nil in Hin. }
  rewrite add_headers_spec by (simpl; lia). cbn [length app tail].
  replace (S cap - 1)%nat with cap by lia. split; [done|].
  intros k v (i & Hi & _)%elem_of_take.
  apply list_elem_of_lookup_2, list_elem_of_omap in Hi as ([[k'|] [v'|]] & _ & He); try done.
  unfold forwarded in He. simpl in He. destruct (decide _) as [|Hn]; [done|]. injection He as -> ->.
  split_and!; [by intros ?; apply Hn; left|by intros ?; apply Hn; right; left|].
  intros hdrs' c [= <-] Hc. apply not_true_is_false. intros Ht. apply Hn. right. right. by exists c.
Qed.

(** ** Requests *)

Lemma get_set_opt t k v k' :
  table_get (set_opt t k v) k' =
  match v with
  | Some x => if ap_cstr_caseeq k k' then Some x else table_get t k'
  | None => table_get t k'
  end.
Proof. destruct v; [|done]. apply table_get_setn. Qed.

(** The value of the last field of that name in the stream's table. *)
Definition last_field (headers : option (list (bytes * bytes))) (k : bytes) : option bytes :=
  match headers with
  | Some l => snd <$> last (filter (fun kv => ap_cstr_caseeq (fst kv) k = true) l)
  | None => None
  end.

(** C36 (functional): what a handler finds under a name in the request's headers: the
    length of the body that was received under [Content-Length] whenever there is a body,
    whatever the peer sent; else the last field of that name in the header block; else the
    [:scheme] under [Scheme] and the [:authority] under [Host]; else nothing. *)
Theorem request_headers_exact is_get st k :
  table_get (rq_headers_in (build_request is_get st)) k =
  if (0 <? rb_len (st_body st)) && ap_cstr_caseeq (text "Content-Length") k
  then Some (fmt_d (rb_len (st_body st)))
  else match last_field (rh_headers (st_head st)) k with
       | Some v => Some v
       | None =>
           match rh_scheme (st_head st) with
           | Some v => if ap_cstr_caseeq (text "Scheme") k then Some v
                       else match rh_authority (st_head st) with
                            | Some a => if ap_cstr_caseeq (text "Host") k then Some a else None
                            | None => None
                            end
           | None => match rh_authority (st_head st) with
                     | Some a => if ap_cstr_caseeq (text "Host") k then Some a else None
                     | None => None
                     end
           end
       end.
Proof.
  set (t1 := set_opt (set_opt table_empty (text "Host") (rh_authority (st_head st)))
               (text "Scheme") (rh_scheme (st_head st))).
  assert (Ht1 : table_get t1 k =
    match rh_scheme (st_head st) with
    | Some v => if ap_cstr_caseeq (text "Scheme") k then Some v
                else match rh_authority (st_head st) with
                     | Some a => if ap_cstr_caseeq (text "Host") k then Some a else None
                     | None => None
                     end
    | None => match rh_authority (st_head st) with
              | Some a => if ap_cstr_caseeq (text "Host") k then Some a else None
              | None => None
              end
    end).
  { unfold t1. rewrite !get_set_opt, table_get_empty. done. }
  set (t2 := match rh_headers (st_head st) with Some h => table_overlap_set t1 h | None => t1 end).
  assert (Ht2 : table_get t2 k = match last_field (rh_headers (st_head st)) k with
                                 | Some v => Some v | None => table_get t1 k end).
  { unfold t2, last_field. destruct (rh_headers (st_head st)) as [h|]; [|done].
    rewrite table_get_overlap. by destruct (last _). }
  unfold build_request. cbn [rq_headers_in]. fold t1. fold t2. rewrite <- Ht1, <- Ht2.
  destruct (0 <? rb_len (st_body st)); simpl; [|done]. apply table_get_setn.
Qed.

End Heads.

(** ** Witnesses *)

(** A response with a field that [Connection] lists, one that is never sent, a pseudo-header
    and a status of its own. *)
Definition toy_response : response (H := toy_httpd) :=
  Response 404 (Some ([(text "Connection", text "X-Hop"); (text "X-Hop", text "1"); (text "kEEP-Alive", text "5");
                       (text ":path", text "/"); (text "X-A", text "2"); (text "tE", text "trailers");
                       (text "X-B", text "3")] : list (bytes * bytes))).

Lemma response_head_exact_witness :
  build_response_nva 64 (RequestOut 200 None) (Some toy_response)
    = [(text ":status", text "404"); (text "X-A", text "2"); (text "X-B", text "3")]
  /\ build_response_nva 2 (RequestOut 200 None) (Some toy_response)
    = [(text ":status", text "404"); (text "X-A", text "2")]
  /\ (text "tE", text "trailers") ∉ tail (build_response_nva 64 (RequestOut 200 None) (Some toy_response)).
Proof.
  split; [by vm_compute|]. split; [by vm_compute|]. intros Hin.
  apply (proj2 (response_head_exact (HS := toy_httpd_spec) 63 (RequestOut 200 None) (Some toy_response))) in Hin.
  destruct Hin as (_ & Hin & _). apply Hin. do 5 apply list_elem_of_further. apply list_elem_of_here.
Defined.

(** A stream whose peer claimed another length. *)
Definition toy_posted : h3_stream :=
  set_st_body (ReqBody [Byte.x61; Byte.x62] 2 0 4096 false)
    (set_st_head (ReqHead (Some (text "POST")) (Some (text "https")) (Some (text "h")) (Some (text "/"))
                          (Some [(text "content-length", text "7"); (text "Accept", text "*")]))
      (new_stream 0 1%positive 65536)).

Lemma request_headers_exact_witness :
  table_get (rq_headers_in (build_request (fun _ => false) toy_posted)) (text "content-length")
    = Some (text "2")
  /\ table_get (rq_headers_in (build_request (fun _ => false) toy_posted)) (text "HOST")
    = Some (text "h").
Proof.
  split; rewrite (request_headers_exact (HS := toy_httpd_spec)); by vm_compute.
Defined.
