(* ===== verification/Hooks.v ===== *)
(** * Hooks and synthesized connections (h3_hooks.c, h3_request.c)

    The hooks httpd runs on a request, whichever protocol it came by, the [conn_rec] made
    for a session, and the copy of it that a worker runs its request on.  A request is the
    part of [request_rec] the hooks look at or change. *)

From S2P Require Import Prelude Effects LinkedQueue RespQueue Config AddrQueue Engine Body Quic Stream.
From S2P Require Import Session SessionInv Request Toy.

Section Hooks.
Context {H : Httpd}.

(** ** The connection of a session *)

(** An [apr_sockaddr_t]: an address and a port. *)
Record sockaddr_info := SockInfo { si_host : bytes; si_port : Z }.

(** The numeric name lookups: [getnameinfo], [strtoul] with whether it stopped at the end,
    [apr_sockaddr_info_get] and [apr_sockaddr_ip_get]. *)
Record name_calls := NameCalls {
  nc_nameinfo : sockaddr -> option (bytes * bytes);
  nc_strtoul : bytes -> Z * bool;
  nc_info : bytes -> Z -> option sockaddr_info;
  nc_ip : sockaddr_info -> option bytes }.

Definition peer_addr_resolve (nc : name_calls) (peer : option sockaddr)
    : option (sockaddr_info * bytes) :=
  match peer with
  | None => None
  | Some sa =>
      match nc_nameinfo nc sa with
      | None => None
      | Some (host, serv) =>
          let '(port, at_end) := nc_strtoul nc serv in
          if bool_decide (serv = []) || negb at_end || (65535 <? port) then None
          else
            resolved ← nc_info nc host port;
            ip ← nc_ip nc resolved;
            Some (resolved, ip)
      end
  end.

(** What mod_logio keeps per connection. *)
Record h3_logio_config := LogioConfig { lo_bytes_in : Z; lo_bytes_out : Z; lo_bytes_last_request : Z }.

(** A [conn_rec]; pools are handles, and a connection is named by the pool it is in. *)
Record conn_rec := ConnRec {
  c_pool : handle;
  c_master : handle;
  c_bucket_alloc : handle;                (** the pool of [bucket_alloc] *)
  c_id : Z;
  c_local_ip : bytes;
  c_client_ip : bytes;
  c_remote_host : option bytes;
  c_client_addr : option sockaddr_info;
  c_local_addr : option sockaddr_info;
  c_requests : nat;                       (** entries of [requests] *)
  c_logio : option h3_logio_config;       (** mod_logio's part of [conn_config] *)
  c_notes : apr_table;
  c_output_filters : list string }.       (** in the order they were added *)

(** A zeroed configuration, if mod_logio is loaded. *)
Definition logio_config (loaded : bool) : option h3_logio_config :=
  if loaded then Some (LogioConfig 0 0 0) else None.

(** [IS_H3_CONN]. *)
Definition IS_H3_CONN (c : conn_rec) : bool :=
  match table_get (c_notes c) (text "IS_mod_http3") with Some _ => true | None => false end.

(** [seq] is [h3_conn_id_seq], [pool] the new pool, [logio] whether mod_logio is loaded;
    [peer] is what [h3q_engine_peer_addr] reports, [None] also when there is no
    [child_h3_io]. *)
Definition h3_synth_conn (nc : name_calls) (pool : option handle) (logio : bool)
    (conf : option h3_server_conf) (seq : Z) (peer : option sockaddr) : option conn_rec * Z :=
  match pool with
  | None => (None, seq)
  | Some cpool =>
      let any := text "0.0.0.0" in
      let vhost_port := match conf with
                        | Some c => if negb (host_port c =? 0) then host_port c else h3_port c
                        | None => 0
                        end in
      let notes := table_setn (table_setn table_empty (text "IS_mod_http3") (text "1"))
                     (text "ssl-bypass") (text "1") in
      let local := nc_info nc any vhost_port in
      let make ip host addr := ConnRec cpool cpool cpool seq any ip host addr local 0 (logio_config logio) notes [] in
      (Some (match peer_addr_resolve nc peer with
             | Some (addr, ip) => make ip None (Some addr)
             | None => make any (Some (text "unknown")) (nc_info nc any 0)
             end), wrap32 (seq + 1))
  end.

(** The copy of the session's connection that [h3_process_request] gives a worker, in the
    worker's own pool. *)
Definition worker_conn (cpool : handle) (logio : bool) (c : conn_rec) : conn_rec :=
  ConnRec cpool (c_pool c) cpool (c_id c) (c_local_ip c) (c_client_ip c) (c_remote_host c) (c_client_addr c)
    (c_local_addr c) 0 (logio_config logio) (c_notes c) (c_output_filters c).

(** ** Requests *)

(** The stream's flags the access checker looks at. *)
Record body_flags := BodyFlags { bf_overflow : bool; bf_truncated : bool }.

Record hreq := HReq {
  hr_connection : conn_rec;
  hr_initial : bool;                       (** [ap_is_initial_req] *)
  hr_main : bool;                          (** no [main]: not a subrequest *)
  hr_conf : option h3_server_conf;         (** [r->server]'s configuration *)
  hr_stream : option body_flags;           (** the stream of its context *)
  hr_handler : bytes;
  hr_is_get : bool;                        (** [method_number == M_GET] *)
  hr_env : apr_table;                      (** [subprocess_env] *)
  hr_headers_out : apr_table;
  hr_protocol : bytes;
  hr_proto_num : Z;
  hr_filters : list string;                (** the filters added *)
  hr_output_filters : list string;         (** [output_filters] *)
  hr_proto_output_filters : list string;   (** [proto_output_filters] *)
  hr_content_type : option bytes;
  hr_written : bytes }.                    (** what handlers have written *)

Definition set_hr_env (t : apr_table) (r : hreq) : hreq :=
  HReq (hr_connection r) (hr_initial r) (hr_main r) (hr_conf r) (hr_stream r) (hr_handler r) (hr_is_get r) t
    (hr_headers_out r) (hr_protocol r) (hr_proto_num r) (hr_filters r) (hr_output_filters r)
    (hr_proto_output_filters r) (hr_content_type r) (hr_written r).
Definition set_hr_headers_out (t : apr_table) (r : hreq) : hreq :=
  HReq (hr_connection r) (hr_initial r) (hr_main r) (hr_conf r) (hr_stream r) (hr_handler r) (hr_is_get r)
    (hr_env r) t (hr_protocol r) (hr_proto_num r) (hr_filters r) (hr_output_filters r)
    (hr_proto_output_filters r) (hr_content_type r) (hr_written r).
Definition set_hr_protocol (p : bytes) (n : Z) (r : hreq) : hreq :=
  HReq (hr_connection r) (hr_initial r) (hr_main r) (hr_conf r) (hr_stream r) (hr_handler r) (hr_is_get r)
    (hr_env r) (hr_headers_out r) p n (hr_filters r) (hr_output_filters r) (hr_proto_output_filters r)
    (hr_content_type r) (hr_written r).
(** The filters that were added, with the connection's chain and the request's two views of it. *)
Definition set_hr_filters (l : list string) (c : conn_rec) (outs protos : list string) (r : hreq) : hreq :=
  HReq c (hr_initial r) (hr_main r) (hr_conf r) (hr_stream r) (hr_handler r) (hr_is_get r) (hr_env r)
    (hr_headers_out r) (hr_protocol r) (hr_proto_num r) l outs protos (hr_content_type r) (hr_written r).
Definition set_hr_content_type (ct : option bytes) (r : hreq) : hreq :=
  HReq (hr_connection r) (hr_initial r) (hr_main r) (hr_conf r) (hr_stream r) (hr_handler r) (hr_is_get r)
    (hr_env r) (hr_headers_out r) (hr_protocol r) (hr_proto_num r) (hr_filters r) (hr_output_filters r)
    (hr_proto_output_filters r) ct (hr_written r).
Definition set_hr_written (w : bytes) (r : hreq) : hreq :=
  HReq (hr_connection r) (hr_initial r) (hr_main r) (hr_conf r) (hr_stream r) (hr_handler r) (hr_is_get r)
    (hr_env r) (hr_headers_out r) (hr_protocol r) (hr_proto_num r) (hr_filters r) (hr_output_filters r)
    (hr_proto_output_filters r) (hr_content_type r) w.

Definition set_c_output_filters (l : list string) (c : conn_rec) : conn_rec :=
  ConnRec (c_pool c) (c_master c) (c_bucket_alloc c) (c_id c) (c_local_ip c) (c_client_ip c) (c_remote_host c)
    (c_client_addr c) (c_local_addr c) (c_requests c) (c_logio c) (c_notes c) l.

(** [IS_H3_REQUEST]. *)
Definition IS_H3_REQUEST (r : hreq) : bool := IS_H3_CONN (hr_connection r).

Definition quote : bytes := [Byte.x22].

(** [HTTP_VERSION(3, 0)] and [APR_URI_HTTPS_DEFAULT_PORT]. *)
Definition HTTP_VERSION_3_0 : Z := 3000.
Definition APR_URI_HTTPS_DEFAULT_PORT : Z := 443.

Definition h3_hook_http_scheme (r : hreq) : option bytes :=
  if IS_H3_REQUEST r then Some (text "https") else None.

Definition h3_hook_default_port (r : hreq) : Z :=
  if IS_H3_REQUEST r then APR_URI_HTTPS_DEFAULT_PORT else 0.

Definition h3_hook_ssl_conn_is_ssl (c : conn_rec) : hook_rv := if IS_H3_CONN c then OK else DECLINED.

(** [h3=":%d"; ma=%u; persist=1]. *)
Definition alt_svc (conf : h3_server_conf) : bytes :=
  text "h3=" ++ quote ++ text ":" ++ fmt_d (h3_port conf) ++ quote
    ++ text "; ma=" ++ text (fmt_u (h3_alt_svc_max_age conf)) ++ text "; persist=1".

Definition h3_hook_fixups (r : hreq) : hook_rv * hreq :=
  if negb (hr_initial r) then (DECLINED, r)
  else
    let r1 := if IS_H3_REQUEST r then set_hr_env (table_setn (hr_env r) (text "HTTPS") (text "on")) r else r in
    match hr_conf r1 with
    | None => (DECLINED, r1)
    | Some conf =>
        if bool_decide (h3_cert_path conf = None) || bool_decide (h3_key_path conf = None)
           || (h3_port conf =? 0) then (DECLINED, r1)
        else if bool_decide (h3_alt_svc conf = H3_FLAG_OFF) then (DECLINED, r1)
        else
          match table_get (hr_headers_out r1) (text "Alt-Svc") with
          | Some _ => (DECLINED, r1)
          | None =>
              (OK, set_hr_headers_out (table_setn (hr_headers_out r1) (text "Alt-Svc") (alt_svc conf)) r1)
          end
    end.

Definition h3_hook_post_read_request (r : hreq) : hook_rv * hreq :=
  if negb (IS_H3_REQUEST r) then (DECLINED, r)
  else (OK, set_hr_protocol (text "HTTP/3.0") HTTP_VERSION_3_0 r).

(** The body of the pre-read hook is empty. *)
Definition h3_hook_pre_read_request (r : hreq) : hreq := r.

Definition h3_hook_access_checker (r : hreq) : hook_rv :=
  if negb (IS_H3_REQUEST r) then DECLINED
  else match hr_stream r with
       | Some st => if bf_overflow st then HTTP_REQUEST_ENTITY_TOO_LARGE
                    else if bf_truncated st then HTTP_BAD_REQUEST else OK
       | None => OK
       end.

Definition h3_hook_http_create_request (r : hreq) : hook_rv * hreq :=
  if negb (IS_H3_REQUEST r) || negb (hr_main r) then (DECLINED, r)
  else
    let outs := c_output_filters (hr_connection r) ++ ["H3_NET_OUT"] in
    (OK, set_hr_filters (hr_filters r ++ ["H3_NET_IN_PROTO"; "H3_NET_IN"; "H3_NET_OUT"])
           (set_c_output_filters outs (hr_connection r)) outs outs r).

(** The counters of [child_h3_io]. *)
Record io_stats := IoStats {
  is_live : Z; is_conns : Z; is_streams : Z; is_bytes_in : Z; is_bytes_out : Z }.

Definition json_line (name : string) (v : Z) (rest : bytes) : bytes :=
  text "  " ++ quote ++ text name ++ quote ++ text ": " ++ text (fmt_u v) ++ rest.

Definition newline : bytes := [Byte.x0a].

(** What the handler writes. *)
Definition status_body (io : option io_stats) : bytes :=
  match io with
  | None =>
      text "{" ++ quote ++ text "error" ++ quote ++ text ": " ++ quote
        ++ text "HTTP/3 not enabled or initialized on this child process" ++ quote ++ text "}" ++ newline
  | Some x =>
      text "{" ++ newline
        ++ json_line "live_workers" (is_live x) (text "," ++ newline)
        ++ json_line "total_connections" (is_conns x) (text "," ++ newline)
        ++ json_line "total_streams" (is_streams x) (text "," ++ newline)
        ++ json_line "total_bytes_read" (is_bytes_in x) (text "," ++ newline)
        ++ json_line "total_bytes_written" (is_bytes_out x) newline
        ++ text "}" ++ newline
  end.

(** The response is written to the request, with its content type. *)
Definition h3_status_handler (io : option io_stats) (r : hreq) : hook_rv * hreq :=
  if negb (bool_decide (hr_handler r = text "http3-status")) then (DECLINED, r)
  else if negb (hr_is_get r) then (DECLINED, r)
  else
    let r1 := set_hr_content_type (Some (text "application/json")) r in
    (OK, set_hr_written (hr_written r1 ++ status_body io) r1).

(** ** Properties *)

(** The fixups leave the headers of the response to an initial request as they are, or set
    [Alt-Svc]. *)
Lemma fixups_headers (r : hreq) conf :
  hr_initial r = true -> hr_conf r = Some conf ->
  let advertises := match h3_cert_path conf, h3_key_path conf with Some _, Some _ => true | _, _ => false end
    && negb (h3_port conf =? 0) && negb (bool_decide (h3_alt_svc conf = H3_FLAG_OFF))
    && match table_get (hr_headers_out r) (text "Alt-Svc") with Some _ => false | None => true end in
  fst (h3_hook_fixups r) = (if advertises then OK else DECLINED)
  /\ hr_headers_out (snd (h3_hook_fixups r))
     = if advertises then table_setn (hr_headers_out r) (text "Alt-Svc") (alt_svc conf) else hr_headers_out r.
Proof.
  intros Hi Hc. unfold h3_hook_fixups. rewrite Hi. cbn [negb].
  assert (Hr1 : forall r1, r1 = (if IS_H3_REQUEST r then set_hr_env (table_setn (hr_env r) (text "HTTPS") (text "on")) r
      else r) -> hr_conf r1 = Some conf /\ hr_headers_out r1 = hr_headers_out r)
    by (intros ? ->; by destruct (IS_H3_REQUEST r)).
  destruct (Hr1 _ eq_refl) as [-> Hho]. generalize dependent (if IS_H3_REQUEST r then
    set_hr_env (table_setn (hr_env r) (text "HTTPS") (text "on")) r else r). intros r1 _ Hho. rewrite Hho.
  destruct (h3_cert_path conf), (h3_key_path conf), (h3_port conf =? 0); try done; simpl.
  destruct (bool_decide (h3_alt_svc conf = H3_FLAG_OFF)); [done|]. simpl. by destruct (table_get _ _).
Qed.

(** C40 (functional): a first request to a server whose configuration has been resolved and
    that does not switch it off is answered with the [Alt-Svc] header
    [h3=":<port>"; ma=<age>; persist=1], with the listener's port and the configured age, at
    least a second, in decimal, unless the response already has an [Alt-Svc], which is kept;
    a server without certificate, key or port, or that switches it off, gets none. *)
Theorem alt_svc_advertised (HS : HttpdSpec H) (r : hreq) conf :
  hr_initial r = true -> hr_conf r = Some conf ->
  (conf_ready conf -> h3_port conf <> 0 -> h3_alt_svc conf <> H3_FLAG_OFF ->
     table_get (hr_headers_out r) (text "Alt-Svc") = None ->
     fst (h3_hook_fixups r) = OK
     /\ table_get (hr_headers_out (snd (h3_hook_fixups r))) (text "Alt-Svc")
        = Some (text "h3=" ++ [Byte.x22] ++ text ":" ++ text (pretty (h3_port conf)) ++ [Byte.x22]
                  ++ text "; ma=" ++ text (pretty (h3_alt_svc_max_age conf)) ++ text "; persist=1")
     /\ 1 <= h3_alt_svc_max_age conf)
  /\ (is_Some (table_get (hr_headers_out r) (text "Alt-Svc")) \/ h3_cert_path conf = None
      \/ h3_key_path conf = None \/ h3_port conf = 0 \/ h3_alt_svc conf = H3_FLAG_OFF ->
     fst (h3_hook_fixups r) = DECLINED
     /\ hr_headers_out (snd (h3_hook_fixups r)) = hr_headers_out r).
Proof.
  intros Hi Hc. destruct (fixups_headers r conf Hi Hc) as [-> ->]. split.
  - intros Hready Hp Ha Hn. pose proof (rd_cert _ Hready) as [cp ->]. pose proof (rd_key _ Hready) as [kp ->].
    pose proof (rd_age _ Hready) as Hage.
    rewrite (proj2 (Z.eqb_neq _ _) Hp), (bool_decide_false (h3_alt_svc conf = _)), Hn by done. simpl.
    rewrite table_get_setn, caseeq_refl. split_and!; [done| |lia]. unfold alt_svc, quote, fmt_d, fmt_u.
    destruct (h3_alt_svc_max_age conf) as [|age|age]; [lia|done|lia].
  - intros Hor. enough (_ && _ = false) as -> by done. apply not_true_iff_false.
    rewrite !andb_true_iff, !negb_true_iff, bool_decide_eq_false, Z.eqb_neq. intros [[[Hck Hp] Ha] Hn].
    destruct Hor as [[v Hv]|[Hx|[Hx|[?|?]]]]; [by rewrite Hv in Hn|rewrite Hx in Hck..|done|done]; [done|].
    by destruct (h3_cert_path conf).
Qed.

(** Only the first server with a certificate and a key is given defaults;
    a later one that sets a port and leaves its age unset advertises the listener with an
    age of zero, which tells clients to forget it. *)
Theorem later_server_advertises_zero (HS : HttpdSpec H) vs1 vs2 (r : hreq) :
  has_cert_and_key (sv_conf vs1) = true -> has_cert_and_key (sv_conf vs2) = true ->
  h3_port (sv_conf vs2) <> 0 -> h3_alt_svc_max_age (sv_conf vs2) = 0 ->
  h3_alt_svc (sv_conf vs2) <> H3_FLAG_OFF ->
  hr_initial r = true -> hr_conf r = sv_conf <$> fst (resolve_listener [vs1; vs2]) !! 1%nat ->
  table_get (hr_headers_out r) (text "Alt-Svc") = None ->
  table_get (hr_headers_out (snd (h3_hook_fixups r))) (text "Alt-Svc")
  = Some (text "h3=" ++ quote ++ text ":" ++ fmt_d (h3_port (sv_conf vs2)) ++ quote
            ++ text "; ma=0; persist=1").
Proof.
  intros H1 H2 Hp Hage Ha Hi Hc Hn. cbn [resolve_listener] in Hc. rewrite H1 in Hc. simpl in Hc.
  rewrite (proj2 (fixups_headers r (sv_conf vs2) Hi Hc)), Hn. unfold has_cert_and_key in H2.
  destruct (h3_cert_path (sv_conf vs2)); [|done]. destruct (h3_key_path (sv_conf vs2)); [|done].
  rewrite (proj2 (Z.eqb_neq _ _) Hp), (bool_decide_false (h3_alt_svc (sv_conf vs2) = _)) by done. simpl.
  rewrite table_get_setn, caseeq_refl. unfold alt_svc. by rewrite Hage.
Qed.

Lemma synth_notes (HS : HttpdSpec H) :
  table_get (table_setn (table_setn table_empty (text "IS_mod_http3") (text "1"))
               (text "ssl-bypass") (text "1")) (text "IS_mod_http3") = Some (text "1").
Proof. rewrite !table_get_setn, !caseeq_lower. by vm_compute. Qed.

(** Where the client's address comes from. *)
Definition peer_looked_up (nc : name_calls) (peer : option sockaddr) (c : conn_rec) : Prop :=
  match c_remote_host c with
  | None => exists sa host serv port addr, peer = Some sa /\ nc_nameinfo nc sa = Some (host, serv)
      /\ nc_strtoul nc serv = (port, true) /\ port <= 65535 /\ nc_info nc host port = Some addr
      /\ c_client_addr c = Some addr /\ nc_ip nc addr = Some (c_client_ip c)
  | Some h => h = text "unknown" /\ c_client_ip c = text "0.0.0.0"
  end.

Lemma synth_conn_spec (HS : HttpdSpec H) nc pool logio conf seq peer c seq' :
  h3_synth_conn nc (Some pool) logio conf seq peer = (Some c, seq') ->
  c_pool c = pool /\ c_id c = seq /\ seq' = wrap32 (seq + 1) /\ IS_H3_CONN c = true
  /\ peer_looked_up nc peer c.
Proof.
  unfold h3_synth_conn, IS_H3_CONN, peer_looked_up. intros [= <- <-]. pose proof (synth_notes HS) as Hnotes.
  destruct (peer_addr_resolve nc peer) as [[addr ip]|] eqn:Er; cbn -[wrap32 table_get text]; rewrite Hnotes;
    [|by split_and!].
  split_and!; [done..|]. unfold peer_addr_resolve in Er.
  destruct peer as [sa|]; [|done]. destruct (nc_nameinfo nc sa) as [[host serv]|] eqn:En; [|done].
  destruct (nc_strtoul nc serv) as [port at_end] eqn:Ep.
  destruct (bool_decide (serv = [])); [done|]. destruct at_end; [|done]. simpl in Er.
  destruct (Z.ltb_spec 65535 port); [done|]. apply bind_Some in Er as (a & Ha & Er).
  apply bind_Some in Er as (i & Hip & Er). injection Er as -> ->.
  exists sa, host, serv, port, addr. split_and!; try done; lia.
Qed.

(** C39 (functional): the connection a worker gets is a copy of the one made for its session:
    it has the session's number, and the client's address only if every step of the lookup
    has succeeded, with a port that fits sixteen bits, else the unspecified address and an
    unknown host; it lives in the worker's own pool below the session's connection and
    starts its own byte counts.  It is still marked as this module's, so on a request of
    the worker every hook recognises HTTP/3: the scheme is https on port 443, the connection
    counts as TLS, the protocol becomes HTTP/3.0, a main request gets the module's filters
    and a body that is too large or incomplete is refused. *)
Theorem worker_requests_are_http3 (HS : HttpdSpec H) nc pool logio conf seq peer c seq' cpool logio' r :
  h3_synth_conn nc (Some pool) logio conf seq peer = (Some c, seq') ->
  hr_connection r = worker_conn cpool logio' c ->
  (c_id (hr_connection r) = seq /\ peer_looked_up nc peer (hr_connection r)
   /\ c_pool (hr_connection r) = cpool /\ c_master (hr_connection r) = pool
   /\ c_logio (hr_connection r) = if logio' then Some (LogioConfig 0 0 0) else None)
  /\ h3_hook_http_scheme r = Some (text "https") /\ h3_hook_default_port r = 443
  /\ h3_hook_ssl_conn_is_ssl (hr_connection r) = OK
  /\ (fst (h3_hook_post_read_request r) = OK
      /\ hr_protocol (snd (h3_hook_post_read_request r)) = text "HTTP/3.0"
      /\ hr_proto_num (snd (h3_hook_post_read_request r)) = 3000)
  /\ (hr_main r = true -> hr_filters (snd (h3_hook_http_create_request r))
                         = hr_filters r ++ ["H3_NET_IN_PROTO"; "H3_NET_IN"; "H3_NET_OUT"])
  /\ h3_hook_access_checker r
     = match hr_stream r with
       | Some (BodyFlags true _) => HTTP_REQUEST_ENTITY_TOO_LARGE
       | Some (BodyFlags false true) => HTTP_BAD_REQUEST
       | _ => OK
       end.
Proof.
  intros Hc Hr. destruct (synth_conn_spec HS _ _ _ _ _ _ _ _ Hc) as (Hp & Hid & _ & Hm & Hpeer).
  assert (Hw : IS_H3_CONN (hr_connection r) = true) by (by rewrite Hr).
  assert (Hq : IS_H3_REQUEST r = true) by exact Hw.
  unfold h3_hook_http_scheme, h3_hook_default_port, h3_hook_ssl_conn_is_ssl, h3_hook_post_read_request,
    h3_hook_http_create_request, h3_hook_access_checker. rewrite Hw, Hq, Hr. simpl. split_and!; try done.
  - by intros ->.
  - by destruct (hr_stream r) as [[[] []]|].
Qed.

End Hooks.

(** ** Witnesses *)

Definition toy_names : name_calls :=
  NameCalls (fun _ => Some (text "192.0.2.1", text "4433")) (fun _ => (4433, true))
    (fun h p => Some (SockInfo h p)) (fun a => Some (si_host a)).

(** A connection of this module, as a worker gets it, and another one. *)
Definition toy_session_conn : conn_rec :=
  default (ConnRec 1 1 1 0 [] [] None None None 0 None table_empty [])
    (fst (h3_synth_conn toy_names (Some 1%positive) true (Some toy_conf) 7 (Some (SockAddr AF_INET [] 4433)))).

Definition toy_conn (h3 : bool) : conn_rec :=
  if h3 then worker_conn 2 true toy_session_conn else ConnRec 1 1 1 0 [] [] None None None 0 None table_empty [].

Definition toy_request (h3 : bool) (conf : h3_server_conf) : hreq :=
  HReq (toy_conn h3) true true (Some conf) None (text "") true ([] : list (bytes * bytes)) [] (text "HTTP/1.1") 1001 []
    [] [] None [].

Lemma toy_conf_ok : conf_ready toy_conf.
Proof. apply resolve_defaults_ready; [by split; vm_compute|done]. Qed.

(** The text a client reads, and a response that already names another service. *)
Lemma alt_svc_advertised_witness :
  table_get (hr_headers_out (snd (h3_hook_fixups (toy_request true toy_conf)))) (text "Alt-Svc")
    = Some (text "h3=" ++ [Byte.x22] ++ text ":443" ++ [Byte.x22] ++ text "; ma=86400; persist=1")
  /\ let r := set_hr_headers_out ([(text "alt-svc", text "clear")] : list (bytes * bytes)) (toy_request true toy_conf) in
     hr_headers_out (snd (h3_hook_fixups r)) = [(text "alt-svc", text "clear")].
Proof.
  split.
  - destruct (alt_svc_advertised toy_httpd_spec (toy_request true toy_conf) toy_conf eq_refl eq_refl) as [Ha _].
    destruct Ha as (_ & Ha & _); [apply toy_conf_ok|by vm_compute..|]. rewrite Ha. by vm_compute.
  - set (r := set_hr_headers_out _ _).
    destruct (alt_svc_advertised toy_httpd_spec r toy_conf eq_refl eq_refl) as [_ Ha].
    apply Ha. left. by eexists.
Defined.

Definition toy_later : server_rec :=
  ServerRec [8443] (upd_port 8443 (upd_key_path (Some "k"%string)
                     (upd_cert_path (Some "c"%string) h3_create_server_config))).

Lemma later_server_advertises_zero_witness :
  table_get (hr_headers_out (snd (h3_hook_fixups (toy_request true (sv_conf toy_later))))) (text "Alt-Svc")
  = Some (text "h3=" ++ quote ++ text ":8443" ++ quote ++ text "; ma=0; persist=1").
Proof.
  apply (later_server_advertises_zero toy_httpd_spec toy_later toy_later
    (toy_request true (sv_conf toy_later))); by vm_compute.
Defined.

Lemma worker_requests_are_http3_witness :
  h3_hook_http_scheme (toy_request true toy_conf) = Some (text "https")
  /\ peer_looked_up toy_names (Some (SockAddr AF_INET [] 4433)) (toy_conn true)
  /\ c_remote_host (toy_conn true) = None /\ c_master (toy_conn true) = 1%positive.
Proof.
  destruct (worker_requests_are_http3 toy_httpd_spec toy_names 1%positive true (Some toy_conf) 7
    (Some (SockAddr AF_INET [] 4433)) toy_session_conn 8 2%positive true (toy_request true toy_conf))
    as ((_ & Hpeer & _ & Hm & _) & Hs & _); [by vm_compute|done|].
  split_and!; [exact Hs|exact Hpeer|by vm_compute|exact Hm].
Defined.
