(* ===== verification/Registration.v ===== *)
(** * The module (mod_http3.c)

    What the module hands to httpd: its configuration functions, its directives, its hooks
    and its filters.  Properties of the module as a whole are stated on these tables: what
    its hooks do to a request of another protocol, in whatever order httpd runs them, and
    what configuration a child is started with, whatever the configuration file says. *)

From S2P Require Import Prelude Effects LinkedQueue RespQueue Config AddrQueue Engine Socket Lifecycle Body Quic Stream.
From S2P Require Import Session SessionInv Request Toy Hooks.

(** ** The tables *)

(** [APR_HOOK_REALLY_FIRST] and [APR_HOOK_MIDDLE]. *)
Definition APR_HOOK_REALLY_FIRST : Z := -10.
Definition APR_HOOK_MIDDLE : Z := 10.

(** The filters, and where [AP_FTYPE_PROTOCOL] and [AP_FTYPE_NETWORK] put them. *)
Inductive filter_func := F_h3_filter_out | F_h3_filter_in | F_h3_filter_out_proto | F_h3_filter_in_proto.
Inductive filter_dir := InputFilter | OutputFilter.
Inductive ap_filter_type := AP_FTYPE_PROTOCOL | AP_FTYPE_NETWORK.

Record filter_reg := FilterReg { fr_dir : filter_dir; fr_name : string; fr_func : filter_func; fr_type : ap_filter_type }.

Section Module.
Context {H : Httpd}.

(** A hook with the function that is run for it. *)
Inductive hook :=
  | ap_hook_handler (f : hreq -> hook_rv * hreq)
  | ap_hook_post_config (f : bool -> (string -> bool) -> list server_rec -> hook_rv * list server_rec)
  | ap_hook_create_request (f : hreq -> hook_rv * hreq)
  | ap_hook_pre_read_request (f : hreq -> hreq)
  | ap_hook_post_read_request (f : hreq -> hook_rv * hreq)
  | ap_hook_access_checker (f : hreq -> hook_rv)
  | ap_hook_fixups (f : hreq -> hook_rv * hreq)
  | ap_hook_http_scheme (f : hreq -> option bytes)
  | ap_hook_default_port (f : hreq -> Z)
  | ap_hook_ssl_conn_is_ssl (f : conn_rec -> hook_rv)
  | ap_hook_child_init (f : list server_rec -> socket_calls -> start_calls -> bool -> child -> option child)
  | ap_hook_child_stopping (f : child -> option child).

(** What the status handler reports on, and APR's parsers, which the directives use. *)
Context (io : option io_stats) (apr_cstr_atoi64 apr_cstr_atoui64 : string -> apr_status * Z).

Definition register_hooks : list (hook * Z) * list filter_reg :=
  ([ (ap_hook_handler (h3_status_handler io), APR_HOOK_MIDDLE);
     (ap_hook_post_config h3_post_config, APR_HOOK_MIDDLE);
     (ap_hook_create_request h3_hook_http_create_request, APR_HOOK_REALLY_FIRST);
     (ap_hook_pre_read_request h3_hook_pre_read_request, APR_HOOK_MIDDLE);
     (ap_hook_post_read_request h3_hook_post_read_request, APR_HOOK_REALLY_FIRST);
     (ap_hook_access_checker h3_hook_access_checker, APR_HOOK_REALLY_FIRST);
     (ap_hook_fixups h3_hook_fixups, APR_HOOK_MIDDLE);
     (ap_hook_http_scheme h3_hook_http_scheme, APR_HOOK_MIDDLE);
     (ap_hook_default_port h3_hook_default_port, APR_HOOK_MIDDLE);
     (ap_hook_ssl_conn_is_ssl h3_hook_ssl_conn_is_ssl, APR_HOOK_MIDDLE);
     (ap_hook_child_init h3_child_init, APR_HOOK_MIDDLE);
     (ap_hook_child_stopping h3_c1_child_stopping, APR_HOOK_MIDDLE) ],
   [ FilterReg OutputFilter "H3_NET_OUT" F_h3_filter_out AP_FTYPE_NETWORK;
     FilterReg InputFilter "H3_NET_IN" F_h3_filter_in AP_FTYPE_NETWORK;
     FilterReg OutputFilter "H3_NET_OUT_PROTO" F_h3_filter_out_proto AP_FTYPE_PROTOCOL;
     FilterReg InputFilter "H3_NET_IN_PROTO" F_h3_filter_in_proto AP_FTYPE_PROTOCOL ]).

(** httpd's [module]; the flags are [AP_MODULE_FLAG_NONE]. *)
Record ap_module := ApModule {
  am_create_dir_config : Z;
  am_merge_dir_config : Z -> Z -> Z;
  am_create_server_config : h3_server_conf;
  am_merge_server_config : h3_server_conf -> h3_server_conf -> h3_server_conf;
  am_cmds : list (string * cmd_func);
  am_register_hooks : list (hook * Z) * list filter_reg }.

Definition http3_module : ap_module :=
  ApModule h3_create_dir_config h3_merge_dir_config h3_create_server_config h3_merge_server_config
    (h3_cmds apr_cstr_atoi64 apr_cstr_atoui64) register_hooks.

Definition module_hooks : list hook := fst <$> fst (am_register_hooks http3_module).

(** ** Requests of other protocols *)

(** What running a hook does to the request. *)
Definition run_hook (r : hreq) (h : hook) : hreq :=
  match h with
  | ap_hook_handler f | ap_hook_create_request f | ap_hook_post_read_request f | ap_hook_fixups f => snd (f r)
  | ap_hook_pre_read_request f => f r
  | _ => r
  end.

(** The hook leaves the request to other modules. *)
Definition declines (h : hook) (r : hreq) : Prop :=
  match h with
  | ap_hook_handler f | ap_hook_create_request f | ap_hook_post_read_request f | ap_hook_fixups f =>
      f r = (DECLINED, r)
  | ap_hook_pre_read_request f => f r = r
  | ap_hook_access_checker f => f r = DECLINED
  | ap_hook_http_scheme f => f r = None
  | ap_hook_default_port f => f r = 0
  | ap_hook_ssl_conn_is_ssl f => f (hr_connection r) = DECLINED
  | ap_hook_post_config _ | ap_hook_child_init _ | ap_hook_child_stopping _ => True
  end.

Definition is_fixups (h : hook) : Prop := exists f, h = ap_hook_fixups f.
Definition is_handler (h : hook) : Prop := match h with ap_hook_handler _ => True | _ => False end.

#[local] Instance is_handler_dec h : Decision (is_handler h).
Proof. destruct h; apply _. Defined.

(** A request for the status page. *)
Definition for_status (r : hreq) : Prop := hr_handler r = text "http3-status" /\ hr_is_get r = true.

#[local] Instance for_status_dec r : Decision (for_status r) := and_dec _ _.

(** How often the module has answered in that run of hooks. *)
Definition answers (r : hreq) (run : list hook) : nat :=
  if decide (for_status r) then length (filter is_handler run) else 0.

(** Equal but for the [Alt-Svc] response header and the [n] answers of the status page. *)
Definition answered (n : nat) (r r' : hreq) : Prop :=
  (exists t, r' = set_hr_written (hr_written r ++ concat (replicate n (status_body io)))
      (set_hr_content_type (if decide (n = 0%nat) then hr_content_type r else Some (text "application/json"))
        (set_hr_headers_out t r)))
  /\ forall k, ap_cstr_caseeq (text "Alt-Svc") k = false ->
       table_get (hr_headers_out r') k = table_get (hr_headers_out r) k.

Lemma answered_refl r : answered 0 r r.
Proof. split; [|done]. exists (hr_headers_out r). destruct r. cbn. by rewrite app_nil_r. Qed.

Lemma answered_trans n m r1 r2 r3 : answered n r1 r2 -> answered m r2 r3 -> answered (n + m) r1 r3.
Proof.
  intros [[t1 ->] G1] [[t2 ->] G2]. split; [|intros k Hk; by rewrite G2, G1].
  exists t2. rewrite replicate_add, concat_app, app_assoc.
  destruct r1, n, m; cbn; by rewrite ?Nat.add_0_r.
Qed.

Lemma fixups_other (HS : HttpdSpec H) (r : hreq) :
  IS_H3_REQUEST r = false -> answered 0 r (snd (h3_hook_fixups r)).
Proof.
  intros Hh. unfold h3_hook_fixups. rewrite Hh. repeat case_match; try apply answered_refl.
  split; [|intros k Hk; cbn -[text]; by rewrite table_get_setn, Hk].
  eexists. unfold set_hr_written. cbn -[text]. rewrite app_nil_r. reflexivity.
Qed.

Lemma status_answers (r : hreq) :
  answered (if decide (for_status r) then 1 else 0) r (snd (h3_status_handler io r)).
Proof.
  unfold h3_status_handler, for_status. destruct (decide _) as [[-> ->]|Hn].
  - rewrite bool_decide_true by done. cbn [negb snd]. split; [|done].
    exists (hr_headers_out r). destruct r. cbn. by rewrite app_nil_r.
  - case_bool_decide; [|apply answered_refl]. destruct (hr_is_get r); [tauto|apply answered_refl].
Qed.

(** Every hook declines, but for the fixups and the status handler. *)
Lemma hooks_decline (r : hreq) h :
  IS_H3_REQUEST r = false -> h ∈ module_hooks ->
  declines h r \/ is_fixups h \/ (is_handler h /\ for_status r).
Proof.
  intros Hh Hin. unfold IS_H3_REQUEST in Hh.
  repeat (apply elem_of_cons in Hin as [->|Hin]); [..|by apply elem_of_nil in Hin]; cbn [declines fst];
    try (by left); try (left; unfold h3_hook_http_scheme, h3_hook_default_port, h3_hook_post_read_request, h3_hook_access_checker,
           h3_hook_http_create_request, h3_hook_ssl_conn_is_ssl, IS_H3_REQUEST; by rewrite Hh);
    [|by right; left; eexists].
  unfold h3_status_handler, for_status. case_bool_decide; [|by left]. destruct (hr_is_get r); [|by left].
  right. right. by split.
Qed.

Lemma run_hook_other (HS : HttpdSpec H) (r : hreq) h :
  IS_H3_REQUEST r = false -> h ∈ module_hooks -> answered (answers r [h]) r (run_hook r h).
Proof.
  intros Hh Hin. unfold IS_H3_REQUEST in Hh. unfold answers.
  repeat (apply elem_of_cons in Hin as [->|Hin]); [apply status_answers|..|by apply elem_of_nil in Hin];
    cbn [run_hook fst]; (rewrite filter_cons_False by (by intros []));
    (replace (if decide (for_status r) then _ else _) with O by (by case_decide));
    try apply answered_refl; try (by apply fixups_other);
    unfold h3_hook_http_create_request, h3_hook_post_read_request, IS_H3_REQUEST; rewrite Hh; apply answered_refl.
Qed.

Lemma answers_cons (r r1 : hreq) h run :
  (for_status r1 <-> for_status r) -> (answers r [h] + answers r1 run)%nat = answers r (h :: run).
Proof.
  intros Hf. unfold answers. destruct (decide (for_status r1)), (decide (for_status r)); try tauto.
  by rewrite <- length_app, <- filter_app.
Qed.

(** C38 (safety): whatever hooks of the module httpd runs on a request that did not come by
    HTTP/3, in any order and however often, the request is left as it was but for an
    [Alt-Svc] response header, unless it is a GET for the status page: then each run of
    the handler writes the page once, as JSON.  Each hook leaves the request to other
    modules, except the fixups, which set that header, and the status handler on a GET for
    its page. *)
Theorem other_requests_untouched (HS : HttpdSpec H) (r : hreq) (run : list hook) :
  IS_H3_REQUEST r = false -> Forall (fun h => h ∈ module_hooks) run ->
  let r' := foldl run_hook r run in
  answered (answers r run) r r'
  /\ forall h, h ∈ module_hooks -> declines h r' \/ is_fixups h \/ (is_handler h /\ for_status r).
Proof.
  intros Hh Hrun r'.
  assert (Hs : answered (answers r run) r r').
  { unfold r'. clear r'. revert r Hh. induction Hrun as [|h l Hin _ IH]; intros r Hh; simpl.
    { unfold answers. case_decide; apply answered_refl. }
    pose proof (run_hook_other HS r h Hh Hin) as H1.
    replace (answers r (h :: l)) with (answers r [h] + answers (run_hook r h) l)%nat.
    - eapply answered_trans; [exact H1|]. apply IH. by destruct H1 as [[t ->] _].
    - apply answers_cons. destruct H1 as [[t ->] _]. done. }
  split; [done|]. intros h Hin. destruct Hs as [[t Ht] _].
  assert (Hf : for_status r' -> for_status r) by (rewrite Ht; exact id).
  assert (Hi : IS_H3_REQUEST r' = false) by (rewrite Ht; exact Hh).
  destruct (hooks_decline r' h Hi Hin) as [?|[?|[? ?]]]; auto.
Qed.

(** The filters that a request of the module is given are registered, as what they are. *)
Lemma installed_filters_registered (r : hreq) name :
  name ∈ hr_filters (snd (h3_hook_http_create_request r)) -> name ∉ hr_filters r ->
  name ∈ (fr_name <$> snd (am_register_hooks http3_module)).
Proof.
  unfold h3_hook_http_create_request. case_match; [done|]. simpl.
  rewrite elem_of_app. intros [?|Hin] Hn; [done|]. set_solver.
Qed.

(** ** From the configuration file to a child *)

(** What a configuration file holds for the main server and for each virtual host: its
    addresses' ports and its directives. *)
Record server_block := ServerBlock { sb_addrs : list Z; sb_directives : list directive }.

(** httpd gives each server a configuration of the module and runs its directives on it;
    then each virtual host's is merged onto the main server's. *)
Definition read_block (b : server_block) : option server_rec :=
  c ← run_directives apr_cstr_atoi64 apr_cstr_atoui64 (sb_directives b) (am_create_server_config http3_module);
  Some (ServerRec (sb_addrs b) c).

Definition inherit (main vhost : server_rec) : server_rec :=
  ServerRec (sv_addrs vhost) (am_merge_server_config http3_module (sv_conf main) (sv_conf vhost)).

Definition read_config (main : server_block) (vhosts : list server_block) : option (list server_rec) :=
  m ← read_block main;
  vs ← mapM read_block vhosts;
  Some (m :: (inherit m <$> vs)).

Lemma read_block_wf b s : read_block b = Some s -> conf_wf (sv_conf s).
Proof.
  unfold read_block. destruct (run_directives _ _ _ _) as [c|] eqn:Er; [|done]. intros [= <-].
  eapply run_directives_wf; [apply create_wf|exact Er].
Qed.

Lemma read_config_wf main vhosts servers :
  read_config main vhosts = Some servers -> Forall (fun v => conf_wf (sv_conf v)) servers.
Proof.
  intros (m & Hm & (vs & Hvs & [= <-])%bind_Some)%bind_Some. apply read_block_wf in Hm.
  apply Forall_cons. split; [done|]. apply Forall_fmap.
  apply mapM_Some_1 in Hvs. clear -Hm Hvs. induction Hvs as [|b v bs vs Hb _ IH]; [by apply Forall_nil|].
  apply Forall_cons. split; [|done]. simpl. apply read_block_wf in Hb. by apply merge_wf.
Qed.

Lemma find_resolved pre vs post :
  Forall (fun v => has_cert_and_key (sv_conf v) = false) pre -> has_cert_and_key (sv_conf vs) = true ->
  find_h3_server (pre ++ ServerRec (sv_addrs vs) (resolve_defaults (sv_addrs vs) (sv_conf vs)) :: post)
  = Some (resolve_defaults (sv_addrs vs) (sv_conf vs)).
Proof.
  intros Hpre Hvs. induction Hpre as [|v l Hv _ IH]; cbn [find_h3_server app]; [|by rewrite Hv].
  unfold has_cert_and_key in *. simpl. by rewrite Hvs.
Qed.

Lemma post_config_first readable pre vs post cert key :
  Forall (fun v => has_cert_and_key (sv_conf v) = false) pre ->
  h3_cert_path (sv_conf vs) = Some cert -> h3_key_path (sv_conf vs) = Some key ->
  h3_post_config false readable (pre ++ vs :: post)
  = (if readable cert && readable key then OK else HTTP_INTERNAL_SERVER_ERROR,
     pre ++ ServerRec (sv_addrs vs) (resolve_defaults (sv_addrs vs) (sv_conf vs)) :: post).
Proof.
  intros Hpre Hc Hk. unfold h3_post_config.
  rewrite resolve_listener_split by (done || (apply has_cert_and_key_spec; eauto)).
  simpl. rewrite Hc, Hk. by destruct (readable cert), (readable key).
Qed.

(** C31 (functional): whatever the directives of the main server and the virtual hosts are,
    if they are accepted, the post-config hook accepts exactly when the first server with a
    certificate and a key has readable files for both; then every child is started with the
    configuration of that server, which has every limit set and within its range: what the
    rest of the module is written for. *)
Theorem children_start_ready main vhosts readable servers hook_fn :
  read_config main vhosts = Some servers -> ap_hook_post_config hook_fn ∈ module_hooks ->
  let '(rv, servers') := hook_fn false readable servers in
  let accepted vs := exists pre post cert key, servers = pre ++ vs :: post
    /\ Forall (fun v => has_cert_and_key (sv_conf v) = false) pre
    /\ h3_cert_path (sv_conf vs) = Some cert /\ h3_key_path (sv_conf vs) = Some key
    /\ readable cert = true /\ readable key = true in
  (rv = OK <-> exists vs, accepted vs)
  /\ (rv = OK -> exists vs conf, accepted vs /\ find_h3_server servers' = Some conf /\ conf_ready conf
        /\ conf = resolve_defaults (sv_addrs vs) (sv_conf vs)).
Proof.
  intros Hwf%read_config_wf Hin.
  assert (hook_fn = h3_post_config) as -> by (unfold module_hooks in Hin; set_solver).
  pose proof (post_config_selects_first readable servers) as Hpc.
  destruct (h3_post_config false readable servers) as [rv servers'] eqn:Ep. destruct Hpc as [Hiff _]. split.
  - rewrite Hiff. split; [intros (pre & vs & post & cert & key & ?); exists vs, pre, post, cert, key; tauto|].
    intros (vs & pre & post & cert & key & -> & Hpre & Hc & Hk & Rc & Rk).
    rewrite (post_config_first readable pre vs post cert key Hpre Hc Hk), Rc, Rk in Ep. injection Ep as <- <-.
    by exists pre, vs, post, cert, key.
  - intros (pre & vs & post & cert & key & -> & Hpre & Hc & Hk & Rc & Rk & ->)%Hiff.
    assert (Hvs : has_cert_and_key (sv_conf vs) = true) by (apply has_cert_and_key_spec; eauto).
    exists vs, (resolve_defaults (sv_addrs vs) (sv_conf vs)). split_and!; [by exists pre, post, cert, key| | |done].
    + by apply find_resolved.
    + apply Forall_app in Hwf as [_ [Hv _]%Forall_cons]. by apply resolve_defaults_ready.
Qed.

End Module.

(** ** Witnesses *)

(** Every hook once, on a request for a page and on one for the status page. *)
Definition toy_status_request : hreq :=
  let r := toy_request false toy_conf in
  HReq (hr_connection r) true true (hr_conf r) None (text "http3-status") true (hr_env r) (hr_headers_out r)
    (hr_protocol r) (hr_proto_num r) [] [] [] None [].

Lemma other_requests_untouched_witness :
  let hooks := module_hooks None sample_atoui64 sample_atoui64 in
  (let r := toy_request false toy_conf in
   hr_env (foldl run_hook r hooks) = [] /\ hr_written (foldl run_hook r hooks) = []
   /\ table_get (hr_headers_out (foldl run_hook r hooks)) (text "Server") = None)
  /\ hr_written (foldl run_hook toy_status_request hooks) = status_body None
  /\ hr_content_type (foldl run_hook toy_status_request hooks) = Some (text "application/json").
Proof.
  intros hooks. split.
  - destruct (other_requests_untouched None sample_atoui64 sample_atoui64 toy_httpd_spec (toy_request false toy_conf)
      hooks) as [[[t Ht] Hk] _]; [by vm_compute|by apply Forall_forall|].
    split; [by rewrite Ht|]. split; [rewrite Ht; by vm_compute|]. rewrite Hk; by vm_compute.
  - destruct (other_requests_untouched None sample_atoui64 sample_atoui64 toy_httpd_spec toy_status_request
      hooks) as [[[t Ht] _] _]; [by vm_compute|by apply Forall_forall|].
    rewrite Ht. by vm_compute.
Defined.

(** A main server with a certificate, and a virtual host that sets a limit. *)
Definition sample_main : server_block := ServerBlock [443] sample_directives.
Definition sample_vhost : server_block := ServerBlock [8443] [Directive "H3MaxConnections" (Some "9") false].

Lemma children_start_ready_witness :
  exists servers conf, read_config None sample_atoui64 sample_atoui64 sample_main [sample_vhost] = Some servers
    /\ find_h3_server (snd (h3_post_config false (fun _ => true) servers)) = Some conf
    /\ conf_ready conf /\ h3_max_connections conf = 7.
Proof.
  destruct (read_config None sample_atoui64 sample_atoui64 sample_main [sample_vhost]) as [servers|] eqn:Er; [|done].
  pose proof (children_start_ready None sample_atoui64 sample_atoui64 sample_main [sample_vhost]
    (fun _ => true) servers h3_post_config Er ltac:(unfold module_hooks; set_solver)) as Hc.
  exists servers. vm_compute in Er. injection Er as <-.
  destruct (h3_post_config false _ _) as [rv servers'] eqn:Ep. destruct Hc as [_ Hc].
  destruct Hc as (vs & conf & _ & Hf & Hr & _); [vm_compute in Ep; by injection Ep|].
  exists conf. split_and!; [done|done|done|]. vm_compute in Ep. injection Ep as _ <-. vm_compute in Hf. by injection Hf as <-.
Defined.
