(* ===== verification/Workers.v ===== *)
(** * Workers and the event thread (h3_request.c, h3_filter.c)

    Every atomic step of a worker keeps the session invariant, and a worker lowers
    [active_tasks] exactly once, as its last step; so while a worker has steps left the
    counter is not zero, and the event thread, which destroys the session only when the
    counter is zero, never does so under a running worker. *)

From S2P Require Import Prelude Effects LinkedQueue RespQueue Config Body Quic Stream.
From S2P Require Import Session SessionInv SessionSafe Request.

Section Workers.
Context {N E : Type} {NG : Nghttp3 N} {NGS : Nghttp3Spec N NG}.
Context {QS : QuicStreams E} {QSS : QuicStreamsSpec E QS}.
Context {QC : QuicConns E} {QCS : QuicConnsSpec E QC} {AH : AprHash} {H : Httpd}.
Context (conf : h3_server_conf) (io : bool).
Context (Hbody : rb_max_ok (h3_max_request_body_size conf)).
Context (Hbuf : 0 < h3_stream_buffer_size conf <= SIZE_MAX).
Abbreviation session := (@h3_session N E).
Abbreviation swp := (wp (sess_inv conf) sess_le).
Abbreviation thread := (thread session).
Abbreviation T := (T session).
Implicit Types (s : session) (st : h3_stream) (p q : sptr).

Ltac wbind := apply (wp_bind (sess_inv conf) sess_le).
Ltac wret := apply (wp_ret (sess_inv conf) sess_le).
Ltac wgets := apply (wp_gets (sess_inv conf) sess_le).

(** ** Atomic steps *)

(** The stream is one a worker may use. *)
Definition busy_at s p : Prop := exists st, ss_heap s !! p = Some st /\ busy st.

Lemma busy_at_le s s' p : sess_le s s' -> busy_at s p -> busy_at s' p.
Proof.
  intros Hle (st & Hp & Hb). destruct (sl_heap _ _ Hle _ _ Hp) as (st' & Hp' & Hst).
  exists st'. split; [done|]. by apply Hst.
Qed.

Lemma wp_get_live s p st (Q : h3_stream -> session -> Prop) :
  sess_inv conf s -> ss_heap s !! p = Some st -> busy st -> Q st s -> swp s (get_live p) Q.
Proof.
  intros Hs Hp (_ & _ & Hl) HQ. unfold get_live. wbind. eapply wp_get_stream; [done|exact Hp|].
  wbind. rewrite Hl. wret; [done|]. by wret.
Qed.

(** Replacing the response queue of a stream. *)
Lemma inv_set_resp s p st rq :
  sess_inv conf s -> ss_heap s !! p = Some st -> resp_ok conf (unacked_of s p) rq ->
  (rq_cancelled (st_resp st) = true -> rq_cancelled rq = true) ->
  sess_inv conf (set_ss_heap (<[p := set_st_resp rq st]> (ss_heap s)) s)
  /\ sess_le s (set_ss_heap (<[p := set_st_resp rq st]> (ss_heap s)) s).
Proof.
  intros Hs Hp Hr Hcan. destruct (ci_stream _ _ (si_core _ _ Hs) _ _ Hp) as (Hok1 & Hok2 & Hok3 & Hok4).
  destruct (inv_upd conf s p st (set_st_resp rq st) Hs Hp) as (H1 & H2 & _); try done.
  split_and!; simpl; auto.
Qed.

Lemma wp_submit s p nva :
  sess_inv conf s -> busy_at s p -> swp s (submit_locked p nva) (fun _ _ => True).
Proof.
  intros Hs (st & Hp & Hb). unfold submit_locked. wbind.
  eapply wp_get_live; [done|exact Hp|done|].
  destruct (rq_submitted (st_resp st)); [by wret|]. wbind. wgets; [done|].
  destruct (_ || _ || _ || _); [by wret|].
  destruct (si_ngh _ _ Hs) as (n & Hn & _).
  pose proof (wp_on_ngh conf s (fun n => fst (ngh_submit_response n (st_stream_id st) nva)) Hs
    (fun n => ngh_submit_same n _ _)) as W. unfold wp, on_ngh in W.
  rewrite (bind_ret _ _ _ _ _ (get_ngh_ret _ _ Hn)) in W. simpl in W.
  wbind. unfold wp at 1. rewrite (get_ngh_ret _ _ Hn). split_and!; [done|done|].
  destruct (ngh_submit_response n (st_stream_id st) nva) as [n' rv]. simpl in W.
  destruct W as (W1 & W2 & _). wbind. apply wp_modify; [done|done|].
  assert (Hp' : ss_heap (set_ss_ngh3 (Some n') s) !! p = Some st) by done.
  pose proof (si_acct _ _ W1 _ _ Hp') as Hr. destruct (rv =? 0); wbind.
  - destruct (inv_set_resp _ p st (rq_set_submitted (st_resp st)) W1 Hp') as [H1 H2];
      [by apply resp_ok_submitted|done|].
    apply wp_modify; rewrite (upd_stream_eq _ _ _ _ Hp'); [done|done|]. by wret.
  - destruct (inv_set_resp _ p st (h3_stream_response_cancel_locked (st_resp st)) W1 Hp') as [H1 H2];
      [by apply resp_ok_cancel|done|].
    apply wp_modify; rewrite (upd_stream_eq _ _ _ _ Hp'); [done|done|]. by wret.
Qed.

Lemma wp_wake s : sess_inv conf s -> swp s wake_event (fun _ _ => True).
Proof.
  intros Hs. destruct (inv_ext conf s (set_ss_wakes (ss_wakes s + 1) s) Hs) as [H1 H2]; [by split|].
  by apply wp_modify.
Qed.

Lemma resp_ok_append n fl m rq data offset :
  resp_ok conf n rq -> 0 <= offset < blen data -> blen data <= SIZE_MAX ->
  exists rq' r, response_append_locked fl m rq data offset = Some (rq', r) /\ resp_ok conf n rq'
    /\ (rq_cancelled rq = true -> rq_cancelled rq' = true)
    /\ (forall k b, r = AppendQueued k b -> 0 < k <= blen data - offset).
Proof.
  intros (a & [Ha Hl] & Hn) Hoff Hmax.
  destruct (append_refines fl m rq a data offset Ha Hoff Hmax) as (rq' & r & He & Hr).
  exists rq', r. split; [done|]. destruct r as [|rv|k b].
  - destruct Hr as [-> _]. split_and!; [by exists a|done|done].
  - destruct Hr as (_ & [->|(a' & Hs & Ha')]); [split_and!; [by exists a|done|done]|].
    pose proof (refines_cancelled _ _ Ha') as Hc'. inversion Hs; subst; simpl in *.
    split_and!; [|by rewrite <- Hc'|done]. eexists. split; [exact (conj Ha' Hl)|]. simpl. naive_solver.
  - destruct Hr as (Hk1 & Hk2 & a' & Hs & Ha'). pose proof (refines_cancelled _ _ Ha) as Hc.
    inversion Hs; subst; simpl in *. split_and!; [|by rewrite <- Hc|].
    + eexists. split; [exact (conj Ha' Hl)|]. simpl. left. destruct Hn as [?|(? & _)]; [lia|done].
    + intros k' b' Heq. simplify_eq. lia.
Qed.

Lemma wp_append_round s p m w data offset :
  sess_inv conf s -> busy_at s p -> 0 <= offset < blen data -> blen data <= SIZE_MAX ->
  swp s (append_round p m w data offset) (fun o _ => forall r, o = Some r ->
    r <> AppendBlocked /\ forall k b, r = AppendQueued k b -> 0 < k <= blen data - offset).
Proof.
  intros Hs (st & Hp & Hb) Hoff Hmax. unfold append_round. wbind.
  eapply wp_get_live; [done|exact Hp|done|].
  wbind. wgets; [done|]. set (fl := SessFlags _ _ _).
  destruct (resp_ok_append _ fl m _ data offset (si_acct _ _ Hs _ _ Hp) Hoff Hmax)
    as (rq & r & -> & Hr & Hcan & Hk).
  wbind. wret; [done|]. wbind. destruct (inv_set_resp s p st rq Hs Hp Hr Hcan) as [H1 H2].
  apply wp_modify; rewrite (upd_stream_eq _ _ _ _ Hp); [done|done|].
  set (s1 := set_ss_heap _ s). destruct r as [|rv|k b].
  - wbind. wgets; [done|]. destruct (wait_ok _); wret; [done|done|done|]. by intros r [= <-].
  - wret; [done|]. by intros r [= <-].
  - destruct b.
    + wbind. eapply wp_mono; [apply wp_on_ngh; [done|intros; apply ngh_resume_same]|].
      intros [] s2 Hs2 _ _. wret; [done|]. intros r [= <-]. split; [done|exact Hk].
    + wret; [done|]. intros r [= <-]. split; [done|exact Hk].
Qed.

Lemma wp_response_complete s p :
  sess_inv conf s -> busy_at s p -> swp s (response_complete p) (fun _ _ => True).
Proof.
  intros Hs (st & Hp & Hb). unfold response_complete. wbind. eapply wp_get_live; [done|exact Hp|done|].
  wbind. wgets; [done|]. set (fl := SessFlags _ _ _). cbn [h3_stream_response_complete].
  destruct (inv_set_resp s p st (rq_set_complete (st_resp st)) Hs Hp) as [H1 H2];
    [by apply resp_ok_complete, (si_acct _ _ Hs _ _ Hp)|done|].
  wbind. apply wp_modify; rewrite (upd_stream_eq _ _ _ _ Hp); [done|done|].
  destruct (_ && _ && _); simpl; [|by wret].
  eapply wp_mono; [apply wp_on_ngh; [done|intros; apply ngh_resume_same]|done].
Qed.

Lemma wp_serve_body s p mode n :
  sess_inv conf s -> busy_at s p -> off_ok n -> swp s (serve_body p mode n) (fun _ _ => True).
Proof.
  intros Hs (st & Hp & Hb) Hn. unfold serve_body. wbind. eapply wp_get_live; [done|exact Hp|done|].
  destruct (ci_stream _ _ (si_core _ _ Hs) _ _ Hp) as (Hok1 & Hok2 & Hok3 & Hok4).
  destruct (serve_request_body (st_body st) [] mode n) as [[b bb] rv] eqn:Eb.
  destruct (serve_step _ Hbody _ _ _ _ _ _ Hok1 Hn Eb) as (_ & Hbb & _).
  destruct (inv_upd conf s p st (set_st_body b st) Hs Hp) as (I1 & I2 & I3); try done.
  { exact (si_acct _ _ Hs _ _ Hp). }
  wbind. apply wp_modify; rewrite (upd_stream_eq _ _ _ _ Hp); [done|done|]. by wret.
Qed.

(** ** Threads

    What a worker on stream [p] does while the stream is its own: each step keeps the
    invariant, until one gives the stream back; all that is left then is to lower the
    counter. *)

Definition leaving : thread := Atomic (dec_tasks ;; mret (Some Finished)).

(** Giving the stream back: the worker is done, or the stream may be dispatched again. *)
Definition gives_back st st' : Prop :=
  st' = set_st_worker_done true st \/ st' = set_st_dispatched false st.

Inductive ok_thread (p : sptr) : thread -> Prop :=
  | ok_step m :
      (forall s, sess_inv conf s -> busy_at s p -> swp s m (fun _ _ => True)) ->
      (forall s t s', sess_inv conf s -> busy_at s p -> m s = Ret (Some t) s' -> ok_thread p t) ->
      ok_thread p (Atomic m)
  | ok_last m :
      (forall s st, sess_inv conf s -> ss_heap s !! p = Some st ->
         exists st', gives_back st st'
           /\ m s = Ret (Some leaving) (set_ss_heap (<[p := st']> (ss_heap s)) s)) ->
      ok_thread p (Atomic m).

(** A computation of the thread whose results satisfy [Q]. *)
Definition ok_T {A} (p : sptr) (c : T A) (Q : A -> Prop) : Prop :=
  forall k, (forall a, Q a -> ok_thread p (k a)) -> ok_thread p (c k).

Lemma ok_ret {A} p (a : A) (Q : A -> Prop) : Q a -> ok_T p (mret a) Q.
Proof. intros HQ k Hk. by apply Hk. Qed.

Lemma ok_bind {A B} p (c : T A) (f : A -> T B) (Q : A -> Prop) (Q' : B -> Prop) :
  ok_T p c Q -> (forall a, Q a -> ok_T p (f a) Q') -> ok_T p (c ≫= f) Q'.
Proof. intros Hc Hf k Hk. apply Hc. intros a Ha. by apply (Hf a Ha). Qed.

Lemma ok_await {A} p (m : M session (option A)) (Q : A -> Prop) :
  (forall s, sess_inv conf s -> busy_at s p -> swp s m (fun o _ => forall a, o = Some a -> Q a)) ->
  ok_T p (await m) Q.
Proof.
  intros Hm k Hk. apply ok_step.
  - intros s Hs Hv. wbind. eapply wp_mono; [by apply Hm|]. intros o s' Hs' _ HQ. by wret.
  - intros s t s' Hs Hv He. specialize (Hm s Hs Hv). unfold wp, mbind, M_bind in *.
    destruct (m s) as [[a|] s1| |]; try done. injection He as <- _. apply Hk. naive_solver.
Qed.

Lemma ok_atomic {A} p (m : M session A) (Q : A -> Prop) :
  (forall s, sess_inv conf s -> busy_at s p -> swp s m (fun a _ => Q a)) -> ok_T p (atomic m) Q.
Proof.
  intros Hm k Hk. apply ok_step.
  - intros s Hs Hv. wbind. eapply wp_mono; [by apply Hm|]. intros a s' Hs' _ HQ. by wret.
  - intros s t s' Hs Hv He. specialize (Hm s Hs Hv). unfold wp, mbind, M_bind in *.
    destruct (m s) as [a s1| |]; try done. injection He as <- _. apply Hk. naive_solver.
Qed.

(** The end of a worker. *)
Lemma ok_exit p g (f : unit -> thread) :
  (forall st, gives_back st (g st)) ->
  ok_thread p ((atomic (get_stream p ;; modify (upd_stream p g)) ;; exit_thread dec_tasks) f).
Proof.
  intros Hg. apply ok_last. intros s st Hs Hp. exists (g st). split; [done|].
  unfold mbind at 1, M_bind at 1. rewrite (bind_ret _ _ _ _ _ (get_stream_ret _ _ _ Hp)).
  unfold modify. by rewrite (upd_stream_eq _ _ _ _ Hp).
Qed.

(** ** The worker *)

Lemma ok_wake p : ok_T p (atomic wake_event) (fun _ => True).
Proof. apply ok_atomic. intros. by apply wp_wake. Qed.

Lemma ok_append_loop fuel p ac data offset :
  blen data <= SIZE_MAX -> 0 <= offset <= blen data -> blen data - offset < Z.of_nat fuel ->
  ok_T p (append_loop fuel p ac data offset) (fun _ => True).
Proof.
  intros Hmax. revert offset. induction fuel as [|w IH]; intros offset Hoff Hf; cbn [append_loop]; [lia|].
  destruct (Z.ltb_spec offset (blen data)); [|by apply ok_ret].
  eapply ok_bind; [apply ok_await; intros s Hs Hv; by apply wp_append_round; [..|lia|]|].
  intros r [Hne Hr]. destruct r as [|rv|k b]; [done|by apply ok_ret|].
  specialize (Hr k b eq_refl). rewrite wrap64_small by (unfold SIZE_MAX in *; lia).
  eapply ok_bind; [apply ok_wake|]. intros _ _. apply IH; lia.
Qed.

Lemma ok_append p ac data :
  blen data <= SIZE_MAX -> ok_T p (response_append p ac data) (fun _ => True).
Proof.
  intros. apply ok_append_loop; [done|pose proof (blen_nonneg data); lia|]. unfold blen. lia.
Qed.

Lemma ok_submit p nva : ok_T p (submit_response_nva p nva) (fun _ => True).
Proof.
  eapply (ok_bind _ _ _ (fun _ => True)); [apply ok_atomic; intros; by apply wp_submit|]. intros [rv []] _;
    (eapply (ok_bind _ _ _ (fun _ => True)); [|intros _ _; by apply ok_ret]); [apply ok_wake|by apply ok_ret].
Qed.

Lemma ok_complete p : ok_T p (complete_response p) (fun _ => True).
Proof.
  eapply (ok_bind _ _ _ (fun _ => True)); [apply ok_atomic; intros; by apply wp_response_complete|].
  intros _ _. apply ok_wake.
Qed.

(** What the buckets carry fits in memory. *)
Definition bucket_ok (b : out_bucket) : Prop :=
  match b with OB_data (_, Some d) => blen d <= SIZE_MAX | _ => True end.

Definition call_ok (c : filter_call) : Prop :=
  match c with FC_out _ _ bb => Forall bucket_ok bb | FC_in _ n => off_ok n end.

Context (Hresp : h3_max_response_body_size conf = H3_MAX_RESPONSE_BODY_SIZE_DEFAULT
                 \/ rc_limit_ok (h3_max_response_body_size conf)).

Definition ctx_ok (ctx : h3_conn_ctx) : Prop :=
  cx_streaming ctx = (h3_max_response_body_size conf =? H3_MAX_RESPONSE_BODY_SIZE_DEFAULT)
  /\ rc_len (cx_capture ctx) = blen (rc_heap (cx_capture ctx))
  /\ (cx_streaming ctx = false -> rc_inv (h3_max_response_body_size conf) (cx_capture ctx)).

Lemma limit_ok ctx : ctx_ok ctx -> cx_streaming ctx = false -> rc_limit_ok (h3_max_response_body_size conf).
Proof.
  intros (He & _) Hf. destruct Hresp as [Hd|]; [|done]. rewrite Hd, Z.eqb_refl in He. congruence.
Qed.

Lemma capture_total ctx read :
  ctx_ok ctx -> cx_streaming ctx = false -> bucket_ok (OB_data read) ->
  exists c, capture_body_bucket (h3_max_response_body_size conf) (cx_capture ctx) read = Some c
    /\ rc_inv (h3_max_response_body_size conf) c.
Proof.
  intros Hc Hf Hb. pose proof (limit_ok ctx Hc Hf) as Hl. destruct Hc as (_ & _ & Hi).
  specialize (Hi Hf). destruct read as [rv [d|]].
  - destruct (decide (rv = APR_SUCCESS)) as [->|Hne].
    + destruct (capture_step _ _ d Hl Hi Hb) as (c & He & Hi' & _). by exists c.
    + exists (cx_capture ctx). split; [|done]. unfold capture_body_bucket.
      destruct (rc_too_large _); [done|]. by destruct rv.
  - exists (cx_capture ctx). split; [|done]. unfold capture_body_bucket.
    destruct (rc_too_large _); [done|]. by destruct rv.
Qed.

Lemma ok_filter_data p ac r ctx read :
  ctx_ok ctx -> bucket_ok (OB_data read) ->
  ok_T p (filter_data conf p ac r ctx read) (fun x => ctx_ok (fst x)).
Proof.
  intros Hc Hb. unfold filter_data. destruct (cx_streaming ctx) eqn:Es.
  - eapply ok_bind; [apply ok_submit|]. intros rv _.
    destruct rv; try by apply ok_ret. destruct read as [rv [d|]]; [|destruct rv; by apply ok_ret].
    destruct rv; try by apply ok_ret. destruct (0 <? blen d); [|by apply ok_ret].
    eapply ok_bind; [by apply ok_append|]. intros rv _. by apply ok_ret.
  - destruct (capture_total ctx read Hc Es Hb) as (c & -> & Hi). apply ok_ret.
    destruct Hc as (H1 & _ & _). split_and!; simpl; [by rewrite <- Es|by destruct Hi|done].
Qed.

Lemma ok_filter_buckets p ac r ctx bb :
  ctx_ok ctx -> Forall bucket_ok bb ->
  ok_T p (filter_buckets conf p ac r ctx bb) (fun x => ctx_ok (fst x)).
Proof.
  intros Hc Hb. revert ctx Hc. induction Hb as [|b bb Hb Hbb IH]; intros ctx Hc;
    cbn [filter_buckets]; [by apply ok_ret|].
  assert (Hcont : forall ctx rv, ctx_ok ctx -> ok_T p
    match rv with
    | APR_SUCCESS => filter_buckets conf p ac r ctx bb
    | _ => mret (ctx, FR_status rv)
    end (fun x => ctx_ok (fst x))).
  { intros ctx0 rv H0. destruct rv; try by apply ok_ret. by apply IH. }
  destruct b as [|x|read| | |].
  - by apply ok_ret.
  - assert (Hc' : ctx_ok (ConnCtx (Some (dup_response x)) (cx_streaming ctx) (cx_capture ctx))).
    { by destruct Hc as (? & ? & ?); split_and!. }
    simpl. destruct (cx_streaming ctx); [|by apply IH].
    eapply ok_bind; [apply ok_submit|]. intros rv _. by apply Hcont.
  - eapply ok_bind; [by apply ok_filter_data|]. intros [ctx' rv] Hc'. by apply Hcont.
  - destruct (cx_streaming ctx); [|by apply IH].
    eapply ok_bind; [apply ok_submit|]. intros rv _. destruct rv; try by apply ok_ret.
    eapply ok_bind; [apply ok_complete|]. intros _ _. by apply IH.
  - destruct (cx_streaming ctx); [|by apply IH].
    eapply ok_bind; [apply ok_submit|]. intros rv _. by apply Hcont.
  - by apply IH.
Qed.

Lemma ok_run_filters ac p ctx calls :
  ctx_ok ctx -> Forall call_ok calls -> ok_T p (run_filters conf ac p ctx calls) ctx_ok.
Proof.
  intros Hc Hcs. revert ctx Hc. induction Hcs as [|c cs Hcall Hcs IH]; intros ctx Hc;
    cbn [run_filters]; [by apply ok_ret|]. destruct c as [main r bb|mode n].
  - eapply (ok_bind _ _ _ (fun x => ctx_ok (fst x))).
    + unfold h3_filter_out_proto. destruct main; simpl; [by apply ok_filter_buckets|by apply ok_ret].
    + intros [ctx' rv] Hc'. by apply IH.
  - eapply ok_bind; [apply ok_atomic; intros; by apply wp_serve_body|]. intros _ _. by apply IH.
Qed.

Lemma ok_finish_response wc p ctx :
  ctx_ok ctx -> ok_T p (finish_response wc p ctx) (fun _ => True).
Proof.
  intros Hc. unfold finish_response. eapply (ok_bind _ _ _ (fun x => blen (snd x) <= SIZE_MAX)).
  - destruct (rc_too_large (cx_capture ctx)).
    + eapply ok_bind; [apply ok_submit|]. intros rv _. by apply ok_ret.
    + eapply ok_bind; [apply ok_submit|]. intros rv _. apply ok_ret. simpl.
      destruct (cx_streaming ctx) eqn:Es; simpl; [done|].
      destruct (0 <? rc_len (cx_capture ctx)); [|done].
      pose proof (limit_ok ctx Hc Es) as Hl. destruct Hc as (_ & Hlen & Hi).
      destruct (Hi Es) as [_ Hlim _]. unfold rc_limit_ok in Hl. rewrite <- Hlen. etrans; [exact Hlim|].
      etrans; [apply Hl|]. done.
  - intros [rv body] Hb. simpl in Hb. eapply (ok_bind _ _ _ (fun _ => True)).
    + destruct rv; try by apply ok_ret. simpl. destruct (0 <? blen body); [by apply ok_append|by apply ok_ret].
    + intros rv' _. eapply ok_bind; [apply ok_complete|]. intros _ _. by apply ok_ret.
Qed.

Lemma ctx_ok_new : ctx_ok (new_ctx conf).
Proof.
  split_and!; [done|done|]. intros Hs. unfold new_ctx in Hs. cbn [cx_streaming] in Hs.
  assert (rc_limit_ok (h3_max_response_body_size conf)) as Hl.
  { destruct Hresp as [Hd|]; [|done]. by rewrite Hd, Z.eqb_refl in Hs. }
  unfold rc_limit_ok in Hl. split; simpl; [done|lia|]. unfold H3_BODY_BUF_INIT_CAP. lia.
Qed.

(** Every filter call of the worker passes data that fits in memory. *)
Definition worker_ok (wc : @worker_calls N E H) : Prop :=
  forall r a, Forall call_ok (wc_filters wc r a).

Lemma ok_worker wc p k : worker_ok wc -> ok_thread p (stream_worker conf wc p k).
Proof.
  intros Hwc. assert (Hfail : ok_thread p (worker_fail p k)).
  { apply ok_exit. intros st. by right. }
  unfold stream_worker. destruct (wc_create_request wc); [|done]. cbn [negb].
  assert (Hlive : ok_T p (atomic (get_live p)) (fun _ => True)).
  { apply ok_atomic. intros s Hs (st & Hp & Hb). by eapply wp_get_live. }
  apply Hlive. intros st _. destruct (wc_pool wc); [|done]. cbn [negb].
  apply (ok_run_filters _ p _ _ ctx_ok_new (Hwc _ _)). intros ctx Hc.
  apply (ok_finish_response wc p ctx Hc). intros _ _. apply ok_exit. intros st'. by left.
Qed.

End Workers.
