(* ===== verification/Service.v ===== *)
(** * Servicing a session (h3_io.c, h3_threads.c, h3_request.c)

    The event thread services each session in turns: it accepts the streams the peer has
    opened, drains them, flushes nghttp3, hands the requests that became complete to the
    worker pool, and, once the session is aborted, shuts the connection down and destroys
    the session when no task is active.  A turn is a [thread] on the [system], the session
    with the tasks that have been pushed; [sys_step] interleaves it with the workers.

    A step is what the code does under the session lock.  Calls on the connection, which
    only the event thread uses, are part of the step around them. *)

From S2P Require Import Prelude Effects LinkedQueue RespQueue Config Body Quic Stream Session Request.

Definition H3_GOAWAY_GRACE_SECS : Z := 3.
Definition apr_time_from_sec (sec : Z) : Z := sec * 1000000.

Section Service.
Context {N E : Type} {NG : Nghttp3 N} {QS : QuicStreams E} {QC : QuicConns E} {AH : AprHash}.
Context {H : Httpd}.
Context (conf : h3_server_conf) (io : bool).
Abbreviation session := (@h3_session N E).
Abbreviation sess := (M session).

(** ** The system *)

Record system := System {
  sy_sess : session;
  sy_workers : list (sptr * thread session);   (** the tasks, each with its stream *)
  sy_alive : bool;                             (** the session has not been destroyed *)
  sy_total_streams : Z;                        (** [io->total_streams] *)
  sy_work : bool }.                            (** the last turn wants another pass at once *)

Definition set_sy_sess (s : session) (y : system) : system :=
  System s (sy_workers y) (sy_alive y) (sy_total_streams y) (sy_work y).
Definition set_sy_workers (w : list (sptr * thread session)) (y : system) : system :=
  System (sy_sess y) w (sy_alive y) (sy_total_streams y) (sy_work y).
Definition set_sy_alive (b : bool) (y : system) : system :=
  System (sy_sess y) (sy_workers y) b (sy_total_streams y) (sy_work y).
Definition set_sy_total_streams (n : Z) (y : system) : system :=
  System (sy_sess y) (sy_workers y) (sy_alive y) n (sy_work y).
Definition set_sy_work (b : bool) (y : system) : system :=
  System (sy_sess y) (sy_workers y) (sy_alive y) (sy_total_streams y) b.

(** A use of the session, which must not have been destroyed. *)
Definition on_sess {A} (m : sess A) : M system A := fun y =>
  if sy_alive y then
    match m (sy_sess y) with
    | Ret a s => Ret a (set_sy_sess s y)
    | Abort => Abort
    | OutOfFuel s => OutOfFuel (set_sy_sess s y)
    end
  else Abort.

Definition locked {A} (m : sess A) : T system A := atomic (on_sess m).

Definition running {S} (t : thread S) : bool := match t with Finished => false | _ => true end.

Definition unfinished (w : list (sptr * thread session)) : nat :=
  length (filter (fun x => running (snd x) = true) w).

(** ** Dispatching *)

Record dispatch_calls := DispatchCalls {
  dc_pools : bool;        (** the connection's allocator and pool are created *)
  dc_push : bool }.       (** the task is queued *)

(** [apr_thread_pool_push]; fewer than [UINT32_MAX] tasks fit in memory. *)
Definition apr_thread_pool_push (ok : bool) (p : sptr) (t : thread session) : M system bool := fun y =>
  if ok && (Z.of_nat (unfinished (sy_workers y)) <? UINT32_MAX)
  then Ret true (set_sy_workers (sy_workers y ++ [(p, t)]) y)
  else Ret false y.

(** The stream is reserved before the task is queued. *)
Definition reserve_stream (p : sptr) : sess bool :=
  st ← get_stream p;
  if st_dispatched st then mret false
  else modify (upd_stream p (set_st_dispatched true)) ;; mret true.

Definition h3_process_request (dc : dispatch_calls) (wc : worker_calls) (p : sptr)
    : T system unit :=
  reserved ← locked (reserve_stream p);
  if negb reserved then mret tt
  else if negb (dc_pools dc) then locked (set_stream_dispatched p false)
  else
    locked inc_tasks ;;
    ok ← atomic (apr_thread_pool_push (dc_push dc) p (stream_worker conf wc p (fun _ => Finished)));
    if (ok : bool) then mret tt
    else locked (set_stream_dispatched p false) ;; locked dec_tasks.

(** ** A turn *)

(** What a turn meets. *)
Record pass_calls := PassCalls {
  pc_running : bool;                   (** [io->thread_running], as the pass reads it *)
  pc_running1 : bool;                  (** and as it is read before the shutdown *)
  pc_now0 : Z;                         (** [apr_time_now], when the deadline is set *)
  pc_now1 : Z;                         (** and when it is tested *)
  pc_scratch : bool;                   (** the scratch pool is created *)
  pc_accepts : nat;                    (** rounds of the accept loop *)
  pc_track : Z -> bool * bool;         (** a stream's pool is created, and its condition variable *)
  pc_flush : nat;                      (** rounds of a flush *)
  pc_dispatch : sptr -> dispatch_calls * @worker_calls N E H }.

Definition q_conn : sess handle := c ← gets ss_qconn; c ← nonnull c; use c ;; mret c.
Definition q_conn_is_closed : sess bool := c ← q_conn; gets (fun s => qc_is_closed (ss_env s) c).
Definition q_accept_stream : sess (option handle) :=
  c ← q_conn; q_create (fun e f => qc_accept_stream e c f).
Definition q_stream_id (h : handle) : sess Z := use h ;; gets (fun s => qc_stream_id (ss_env s) h).
Definition q_conn_shutdown (rapid : bool) : sess bool :=
  c ← q_conn;
  dead ← gets ss_ngh3_dead; code ← gets ss_abort_code; reason ← gets ss_abort_reason;
  on_env (fun e => qc_shutdown e c rapid code (if (dead : bool) then reason else None)).

(** While the listener stops: announce it, and give the streams in flight some time;
    whether the session ends here. *)
Definition notify_goaway (fuel : nat) : sess bool :=
  deadline ← gets ss_goaway_deadline;
  (if deadline =? 0 then on_ngh ngh_submit_shutdown_notice else mret tt) ;;
  flush_nghttp3 conf io fuel ;;
  n ← get_ngh; mret (ngh_is_drained n).

Definition set_deadline (now : Z) : sess unit :=
  modify (fun s => if ss_goaway_deadline s =? 0
                   then set_ss_goaway_deadline (now + apr_time_from_sec H3_GOAWAY_GRACE_SECS) s
                   else s).

Definition goaway_pass (pc : pass_calls) : T system bool :=
  drained ← locked (notify_goaway (pc_flush pc));
  locked (set_deadline (pc_now0 pc)) ;;
  deadline ← locked (gets ss_goaway_deadline);
  if (drained : bool) || (deadline <=? pc_now1 pc) then
    locked (on_ngh ngh_shutdown ;; flush_nghttp3 conf io (pc_flush pc)) ;;
    locked (modify (set_ss_aborted true)) ;; mret true
  else mret false.

Definition count_stream : M system unit :=
  modify (fun y => set_sy_total_streams (wrap32 (sy_total_streams y + 1)) y).

(** A stream the connection returned is tracked, or freed if it has no id or cannot be. *)
Definition accept_stream (ok : Z -> bool * bool) (h : handle) : sess unit :=
  sid ← q_stream_id h;
  if sid <? 0 then q_stream_free h
  else
    t ← track_stream conf (fst (ok sid)) (snd (ok sid)) sid h;
    match t with None => q_stream_free h | Some _ => mret tt end.

(** One round of the accept loop; whether the connection had a stream. *)
Definition accept_round (ok : Z -> bool * bool) : M system bool :=
  o ← on_sess q_accept_stream;
  match o with
  | None => mret false
  | Some h => count_stream ;; on_sess (accept_stream ok h) ;; mret true
  end.

Fixpoint accept_streams (fuel : nat) (ok : Z -> bool * bool) : T system unit :=
  match fuel with
  | O => atomic out_of_fuel
  | S k =>
      more ← atomic (accept_round ok);
      if (more : bool) then accept_streams k ok else mret tt
  end.

Fixpoint process_completed (dispatch : sptr -> dispatch_calls * worker_calls) (completed : list sptr)
    : T system unit :=
  match completed with
  | [] => mret tt
  | p :: ps =>
      h3_process_request (fst (dispatch p)) (snd (dispatch p)) p ;; process_completed dispatch ps
  end.

(** The part of the pass that serves an open connection. *)
Definition serve_pass (pc : pass_calls) : T system bool :=
  if negb (pc_scratch pc) then mret false
  else
    accept_streams (pc_accepts pc) (pc_track pc) ;;
    r ← locked (r ← drain_ready_streams conf io; flush_nghttp3 conf io (pc_flush pc) ;; mret r);
    dead ← locked (gets ss_ngh3_dead);
    if (dead : bool) then locked (modify (set_ss_aborted true)) ;; mret false
    else
      process_completed (pc_dispatch pc) (fst r) ;;
      locked (flush_nghttp3 conf io (pc_flush pc)) ;;
      mret (snd r).

Definition service_session_pass (pc : pass_calls) : T system bool :=
  aborted ← locked (gets ss_aborted);
  if (aborted : bool) then mret false
  else
    ended ← (if negb (pc_running pc) then goaway_pass pc else mret false);
    if (ended : bool) then mret false
    else
      closed ← locked q_conn_is_closed;
      if (closed : bool) then locked (modify (set_ss_aborted true)) ;; mret false
      else serve_pass pc.

Definition destroy_session : M system unit :=
  on_sess h3_session_destroy ;; modify (set_sy_alive false).

(** The body of the loop over the active sessions: the result is whether another pass
    should run at once, and whether the session was destroyed. *)
Definition session_turn (pc : pass_calls) : T system (bool * bool) :=
  progress ← service_session_pass pc;
  aborted ← locked (gets ss_aborted);
  if negb aborted then mret (progress, false)
  else
    shutdown_done ← locked (q_conn_shutdown (negb (pc_running1 pc)));
    tasks ← locked (gets ss_active_tasks);
    if (shutdown_done : bool) && (tasks =? 0)
    then atomic destroy_session ;; mret (progress, true)
    else mret (progress, false).

(** ** All interleavings *)

(** The event thread keeps what the turn returned. *)
Definition turn_end (r : bool * bool) : thread system :=
  Atomic (modify (set_sy_work (fst r)) ;; mret (Some Finished)).

(** The event thread starts a turn or takes a step, or the task with the given number
    takes one. *)
Inductive sys_lstep (pc_ok : pass_calls -> Prop)
    : option nat -> system * thread system -> system * thread system -> Prop :=
  | step_turn y pc :
      sy_alive y = true -> pc_ok pc ->
      sys_lstep pc_ok None (y, Finished) (y, session_turn pc turn_end)
  | step_event y m o y' :
      m y = Ret o y' -> sys_lstep pc_ok None (y, Atomic m) (y', default (Atomic m) o)
  | step_worker y ev w1 p m w2 o y' :
      sy_workers y = w1 ++ (p, Atomic m) :: w2 ->
      on_sess m y = Ret o y' ->
      sys_lstep pc_ok (Some (length w1)) (y, ev)
        (set_sy_workers (w1 ++ (p, default (Atomic m) o) :: w2) y', ev).

Definition sys_step (pc_ok : pass_calls -> Prop) (x x' : system * thread system) : Prop :=
  exists l, sys_lstep pc_ok l x x'.

(** A session as [spawn_serviced_session] leaves it. *)
Definition serviced (s : session) : Prop :=
  exists fresh env qconn s0 k0 k1 k2,
    (qconn < fresh)%positive
    /\ h3_session_create conf APR_SUCCESS fresh env qconn = (Some s0, APR_SUCCESS)
    /\ h3_session_create_control_streams conf k0 k1 k2 s0 = Ret APR_SUCCESS s.

(** A serviced session as it starts. *)
Definition sys_start (s : session) : system * thread system := (System s [] true 0 false, Finished).

(** No step that can be taken next follows a dangling or null pointer, fails a [CHECK],
    or uses a session or a QUIC object that is gone. *)
Definition no_fault (x : system * thread system) : Prop :=
  (forall p m, (p, Atomic m) ∈ sy_workers (fst x) -> on_sess m (fst x) <> Abort)
  /\ (forall m, snd x = Atomic m -> m (fst x) <> Abort).

(** ** The steps of a turn *)

(** What the event thread does in a turn, each under the lock where it takes it; setting the
    deadline is apart. *)
Inductive turn_op : forall {A}, M system A -> Prop :=
  | to_read {A} (f : session -> A) : turn_op (on_sess (gets f))
  | to_notify fuel : turn_op (on_sess (notify_goaway fuel))
  | to_shutdown fuel : turn_op (on_sess (on_ngh ngh_shutdown ;; flush_nghttp3 conf io fuel))
  | to_set_aborted : turn_op (on_sess (modify (set_ss_aborted true)))
  | to_closed : turn_op (on_sess q_conn_is_closed)
  | to_accept ok : turn_op (accept_round ok)
  | to_accept_more : turn_op (out_of_fuel : M system unit)
  | to_drain fuel :
      turn_op (on_sess (r ← drain_ready_streams conf io; flush_nghttp3 conf io fuel ;; mret r))
  | to_reserve p : turn_op (on_sess (reserve_stream p))
  | to_release p : turn_op (on_sess (set_stream_dispatched p false))
  | to_inc : turn_op (on_sess inc_tasks)
  | to_dec : turn_op (on_sess dec_tasks)
  | to_push ok wc p : turn_op (apr_thread_pool_push ok p (stream_worker conf wc p (fun _ => Finished)))
  | to_flush fuel : turn_op (on_sess (flush_nghttp3 conf io fuel))
  | to_conn_shutdown rapid : turn_op (on_sess (q_conn_shutdown rapid))
  | to_destroy : turn_op destroy_session
  | to_work b : turn_op (modify (set_sy_work b)).

Section TurnSteps.
Context (P : M system (option (thread system)) -> Prop).
Context (Hop : forall A (m : M system A) (k : A -> thread system), turn_op m -> P (a ← m; mret (Some (k a)))).

Ltac turn_steps := unfold locked; solve_each ltac:(apply Hop; constructor).

Lemma serve_pass_steps pc : each P (serve_pass pc).
Proof.
  assert (Ha : forall n f, each P (accept_streams n f)).
  { intros n f. induction n; cbn [accept_streams]; turn_steps. }
  assert (Hp : forall d ps, each P (process_completed d ps)).
  { intros d ps. induction ps; cbn [process_completed]; unfold h3_process_request; turn_steps. }
  unfold serve_pass. turn_steps.
Qed.

(** What a turn does after the goaway pass, which says whether it has aborted the session. *)
Definition turn_rest (pc : pass_calls) (ended : bool) : T system (bool * bool) :=
  progress ← (if ended then mret false
              else
                closed ← locked q_conn_is_closed;
                if (closed : bool) then locked (modify (set_ss_aborted true)) ;; mret false
                else serve_pass pc);
  aborted ← locked (gets ss_aborted);
  if negb aborted then mret (progress, false)
  else
    shutdown_done ← locked (q_conn_shutdown (negb (pc_running1 pc)));
    tasks ← locked (gets ss_active_tasks);
    if (shutdown_done : bool) && (tasks =? 0)
    then atomic destroy_session ;; mret (progress, true)
    else mret (progress, false).

Lemma turn_end_steps r : all_steps P (turn_end r).
Proof.
  apply all_step; [apply (Hop _ _ (fun _ => Finished)); constructor|].
  intros y t y' [= <- _]. constructor.
Qed.

Lemma turn_rest_steps pc ended : all_steps P (turn_rest pc ended turn_end).
Proof.
  pose proof (serve_pass_steps pc) as Hs.
  assert (Ht : each P (turn_rest pc ended)) by (unfold turn_rest; turn_steps).
  apply Ht, turn_end_steps.
Qed.

(** A property of these operations holds of every step of a turn. *)
Lemma turn_steps_all pc :
  (forall now (k : unit -> thread system), P (a ← on_sess (set_deadline now); mret (Some (k a)))) ->
  all_steps P (session_turn pc turn_end).
Proof.
  intros Hd. pose proof (serve_pass_steps pc) as Hs.
  assert (Ht : each P (session_turn pc)).
  { unfold session_turn, service_session_pass, goaway_pass, locked.
    solve_each ltac:(first [apply Hd | apply Hop; constructor]). }
  apply Ht, turn_end_steps.
Qed.

End TurnSteps.

(** A relation that the operations preserve. *)
Lemma turn_preserves (R : relation system) `{!PreOrder R} pc :
  (forall A (m : M system A), turn_op m -> preserves R m) ->
  (forall now, preserves R (on_sess (set_deadline now))) ->
  all_steps (preserves R) (session_turn pc turn_end).
Proof.
  intros Hop Hd. apply turn_steps_all; intros; (apply preserves_bind; [apply _|auto|]); intros ?; apply preserves_ret, _.
Qed.

(** ** Turns end *)

(** The event thread is in a loop that goes on for longer than was considered. *)
Definition looping (x : system * thread system) : Prop :=
  exists m y, snd x = Atomic m /\ m (fst x) = OutOfFuel y.

(** The event thread takes a step of its turn. *)
Definition event_step : relation (system * thread system) := sys_lstep (fun _ => False) None.

Lemma session_turn_no_wait pc : no_wait (session_turn pc turn_end).
Proof. apply turn_steps_all; intros; apply moves_some. Qed.

Lemma no_wait_steps (P : pass_calls -> Prop) x x' :
  (forall pc, P pc -> False) -> rtc (sys_step P) x x' -> no_wait (snd x) -> no_wait (snd x').
Proof.
  intros HP. induction 1 as [|x1 x2 x3 [lb Hs] _ IH]; [done|]. intros Hw. apply IH.
  destruct Hs as [y pc _ Hpc|y m o y' He|]; [by destruct (HP pc)| |done]. simpl in *.
  inversion Hw as [|m' H1 H2]; subst. destruct o as [t|]; [by eapply H2|by destruct (H1 y y')].
Qed.

(** As long as its steps do not fault, the event thread comes to the end of its turn on its
    own, whatever the workers are doing. *)
Lemma no_wait_ends x :
  no_wait (snd x) -> (forall x', rtc event_step x x' -> no_fault x') ->
  exists x', rtc event_step x x' /\ (snd x' = Finished \/ looping x').
Proof.
  destruct x as [y t]. simpl. intros Hw. revert y. induction Hw as [|m Hn _ IH]; intros y Hf.
  { exists (y, Finished). split; [done|by left]. }
  destruct (m y) as [[t|] y'| |y'] eqn:Em.
  - assert (Hst : event_step (y, Atomic m) (y', t)) by by apply (step_event _ y m (Some t)).
    destruct (IH _ _ _ Em y') as (x' & Hr & He).
    { intros x' Hr. apply Hf. by eapply rtc_l. }
    exists x'. split; [by eapply rtc_l|done].
  - by destruct (Hn y y').
  - destruct (Hf (y, Atomic m)) as [_ Hm]; [done|]. by destruct (Hm m).
  - exists (y, Atomic m). split; [done|]. right. by exists m, y'.
Qed.

(** ** Steps that returned *)

Lemma on_sess_inv {A} (m : sess A) y a y' :
  on_sess m y = Ret a y' -> exists s', m (sy_sess y) = Ret a s' /\ y' = set_sy_sess s' y.
Proof.
  unfold on_sess. destruct (sy_alive y); [|done]. destruct (m (sy_sess y)) as [b s'| |]; [|done|done].
  intros [= <- <-]. by exists s'.
Qed.

Lemma q_conn_inv s c s' : q_conn s = Ret c s' -> s' = s.
Proof.
  unfold q_conn. intros He. binv He o s1 H1. injection H1 as <- <-. binv He c1 s2 H2.
  destruct (ss_qconn s); [|done]. injection H2 as <- <-. binv He u s3 H3. injection He as _ <-. by apply use_inv in H3.
Qed.

(** ** The tasks

    Every task is a worker, so what holds of the steps of all workers holds of the tasks. *)

Section Tasks.
Context (P : M session (option (thread session)) -> Prop).
Context (HP : forall wc p, all_steps P (stream_worker conf wc p (fun _ => Finished))).

Definition tasks_all (y : system) : Prop := Forall (fun w => all_steps P (snd w)) (sy_workers y).

Abbreviation keeps_tasks := (fun y y' : system => tasks_all y -> tasks_all y').

#[export] Instance keeps_tasks_preorder : PreOrder keeps_tasks.
Proof. split; [by intros y|]. intros y1 y2 y3 H1 H2 Hy. by apply H2, H1. Qed.

Lemma sess_keeps_tasks {A} (m : sess A) : preserves keeps_tasks (on_sess m).
Proof.
  intros y a y'. unfold on_sess. destruct (sy_alive y); [|done]. by destruct (m (sy_sess y)); [intros [= _ <-]|..].
Qed.

Lemma op_keeps_tasks {A} (m : M system A) : turn_op m -> preserves keeps_tasks m.
Proof.
  destruct 1; try apply sess_keeps_tasks; try (by intros y a y' [= _ <-]).
  - unfold accept_round. apply preserves_bind; [apply _|apply sess_keeps_tasks|]. intros [h|]; [|apply preserves_ret, _].
    repeat (apply preserves_bind; [apply _| |intros ?]);
      [by intros y a y' [= _ <-]|apply sess_keeps_tasks|apply preserves_ret, _].
  - intros y b y'. unfold apr_thread_pool_push. destruct (_ && _); intros [= _ <-]; [|done].
    intros Hy. apply Forall_app. split; [done|]. apply Forall_singleton, HP.
  - unfold destroy_session. apply preserves_bind; [apply _|apply sess_keeps_tasks|]. intros _.
    by intros y a y' [= _ <-].
Qed.

Lemma turn_keeps_tasks pc : all_steps (preserves keeps_tasks) (session_turn pc turn_end).
Proof. apply turn_preserves; [apply _|apply @op_keeps_tasks|intros; apply sess_keeps_tasks]. Qed.

(** The tasks of a state, and of those that follow. *)
Definition task_state (x : system * thread system) : Prop :=
  all_steps (preserves keeps_tasks) (snd x) /\ tasks_all (fst x).

Lemma task_state_step Q x x' : sys_step Q x x' -> task_state x -> task_state x'.
Proof.
  intros [l Hs] [He Hw]. destruct Hs as [y pc Ha Hpc|y m o y' Hm|y ev w1 p m w2 o y' Hl Hm]; simpl in *.
  - split; [apply turn_keeps_tasks|done].
  - inversion He as [|m' H1 H2]; subst. split; [|by eapply H1]. destruct o as [t|]; [by eapply H2|done].
  - split; [done|]. unfold tasks_all in *. rewrite Hl in Hw. apply Forall_app in Hw as [Hw1 Hw2].
    apply Forall_cons in Hw2 as [Hp Hw2]. apply Forall_app. split; [done|]. apply Forall_cons. split; [|done].
    simpl in *. inversion Hp as [|m' H1 H2]; subst. destruct o as [t|]; [|done]. unfold on_sess in Hm.
    destruct (sy_alive y); [|done]. destruct (m (sy_sess y)) eqn:Em; try done. injection Hm as -> _. by eapply H2.
Qed.

Lemma task_state_steps Q x x' : rtc (sys_step Q) x x' -> task_state x -> task_state x'.
Proof. induction 1; eauto using task_state_step. Qed.

Lemma task_state_start s : task_state (sys_start s).
Proof. split; [constructor|by apply Forall_nil]. Qed.

End Tasks.

End Service.
