(* ===== verification/System.v ===== *)
(** * Sessions under concurrent workers

    In every interleaving of the event thread's turns with the workers no step follows a
    dangling pointer, uses a freed QUIC object or touches a destroyed session, and a stream
    pool that was destroyed is used only in callbacks for streams that nghttp3 had asked to
    stop ([session_runs_safely]); [active_tasks] counts the workers that are running, so
    the event thread destroys a session only after the last of them.

    A stream belongs to at most one worker from the time it is reserved until the worker
    gives it back; [phase] tells where a worker is, and [ghost] what the event thread is
    in the middle of. *)

From S2P Require Import Prelude Effects LinkedQueue RespQueue Config Body Quic Stream.
From S2P Require Import Session SessionInv SessionSafe Request Toy Workers Service.

Section System.
Context {N E : Type} {NG : Nghttp3 N} {NGS : Nghttp3Spec N NG}.
Context {QS : QuicStreams E} {QSS : QuicStreamsSpec E QS}.
Context {QC : QuicConns E} {QCS : QuicConnsSpec E QC} {AH : AprHash} {H : Httpd}.
Context (conf : h3_server_conf) (io : bool).
Context (Hbody : rb_max_ok (h3_max_request_body_size conf)).
Context (Hbuf : 0 < h3_stream_buffer_size conf <= SIZE_MAX).
Context (Hresp : h3_max_response_body_size conf = H3_MAX_RESPONSE_BODY_SIZE_DEFAULT
                 \/ rc_limit_ok (h3_max_response_body_size conf)).
Context (conn : handle).   (** the session's connection *)
Abbreviation session := (@h3_session N E).
Abbreviation system := (@system N E).
Abbreviation swp := (wp (sess_inv conf) sess_le).
Implicit Types (s : session) (y : system) (st : h3_stream) (p q : sptr).

Ltac wbind := apply (wp_bind (sess_inv conf) sess_le).
Ltac wret := apply (wp_ret (sess_inv conf) sess_le).
Ltac wgets := apply (wp_gets (sess_inv conf) sess_le).

(** ** Single steps outside [sess_le] *)

Lemma inv_tasks s z : sess_inv conf s -> sess_inv conf (set_ss_active_tasks z s).
Proof.
  intros [Hc (n & Hn & Hk) Hcn Ha Hpn]. split; [by eapply core_ext| |done|done|done].
  exists n. split; [done|]. apply (ngh_ok_le s); [done|]. by apply good_le_same.
Qed.

(** A store to the fields that say what has become of the worker. *)
Lemma inv_flag s p st st' :
  sess_inv conf s -> ss_heap s !! p = Some st ->
  st_stream_id st' = st_stream_id st -> st_write_blocked st' = st_write_blocked st ->
  st_qstream st' = st_qstream st -> st_body_truncated st' = st_body_truncated st ->
  st_pool st' = st_pool st -> st_resp st' = st_resp st -> stream_ok conf st' ->
  sess_inv conf (set_ss_heap (<[p := st']> (ss_heap s)) s).
Proof.
  intros [Hc (n & Hn & Hk) Hcn Ha Hpn] Hp Hid Hw Hq Htr Hpl Hr Hok.
  split; [apply (core_upd conf s p st st'); try done; by rewrite Htr| |done| |done].
  - exists n. split; [done|]. apply (ngh_ok_le s); [done|].
    eapply (good_le_store s _ p st st'); [done|done|done|]. unfold good. by rewrite Hq, Htr.
  - eapply (acct_store conf s _ p st st' (unacked_of s)); [done|done|done| |done].
    rewrite Hr. by apply (Ha _ _ Hp).
Qed.

Lemma busy_insert s p st' q :
  busy_at s q -> q <> p -> busy_at (set_ss_heap (<[p := st']> (ss_heap s)) s) q.
Proof. intros (st & Hq & Hb) Hne. exists st. split; [|done]. simpl. by rewrite lookup_insert_ne. Qed.

(** ** The invariant *)

Inductive phase := Using | Leaving | Gone.

Definition worker_inv s (x : sptr * thread session * phase) : Prop :=
  match snd x with
  | Using => ok_thread conf (fst (fst x)) (snd (fst x)) /\ busy_at s (fst (fst x))
  | Leaving => snd (fst x) = leaving
  | Gone => snd (fst x) = Finished
  end.

Definition users (ts : list (sptr * thread session * phase)) : list sptr :=
  omap (fun x => match snd x with Using => Some (fst (fst x)) | _ => None end) ts.

(** What the event thread is in the middle of: a stream it has reserved, a task counted
    and not pushed, and whether it has seen that no task is active; or the session has
    been destroyed. *)
Inductive ghost := Live (reserved : option sptr) (counted : Z) (quiet : bool) | Dead.

Record live_inv (r : option sptr) (i : Z) (quiet : bool) y : Prop := {
  lv_alive : sy_alive y = true;
  lv_sess : sess_inv conf (sy_sess y);
  lv_conn : ss_qconn (sy_sess y) = Some conn;
  lv_workers : exists ts, sy_workers y = fst <$> ts /\ Forall (worker_inv (sy_sess y)) ts
                          /\ NoDup (option_list r ++ users ts);
  lv_reserved : forall p, r = Some p -> busy_at (sy_sess y) p;
  lv_tasks : ss_active_tasks (sy_sess y) = wrap32 (Z.of_nat (unfinished (sy_workers y)) + i);
  lv_bound : Z.of_nat (unfinished (sy_workers y)) <= UINT32_MAX;
  lv_quiet : quiet = true -> unfinished (sy_workers y) = O }.

Definition sys_inv (g : ghost) y : Prop :=
  match g with
  | Live r i quiet => live_inv r i quiet y
  | Dead => sy_alive y = false /\ unfinished (sy_workers y) = O /\ core_inv conf (sy_sess y)
            /\ ss_qconn (sy_sess y) = None /\ ss_pending_free (sy_sess y) = []
            /\ conn ∈ ss_freed (sy_sess y)
  end.

Lemma users_app ts1 ts2 : users (ts1 ++ ts2) = users ts1 ++ users ts2.
Proof. apply omap_app. Qed.

Lemma workers_keep s s' ts :
  (forall p, p ∈ users ts -> busy_at s p -> busy_at s' p) ->
  Forall (worker_inv s) ts -> Forall (worker_inv s') ts.
Proof.
  intros Hk Hf. rewrite Forall_forall in *. intros [[p t] ph] Hx. specialize (Hf _ Hx).
  destruct ph; [|done|done]. destruct Hf as [H1 H2]. split; [done|]. apply Hk; [|done].
  apply list_elem_of_omap. by exists (p, t, Using).
Qed.

Lemma unfinished_app w1 w2 :
  unfinished (w1 ++ w2 : list (sptr * thread session)) = (unfinished w1 + unfinished w2)%nat.
Proof. unfold unfinished. by rewrite filter_app, length_app. Qed.

Lemma unfinished_cons p (t : thread session) w :
  unfinished ((p, t) :: w) = ((if running t then 1 else 0) + unfinished w)%nat.
Proof.
  unfold unfinished. destruct (running t) eqn:Et.
  - by rewrite filter_cons_True by done.
  - rewrite filter_cons_False by (simpl; congruence). done.
Qed.

Lemma conn_le s s' :
  ss_qconn s = Some conn -> sess_inv conf s' -> sess_le s s' -> ss_qconn s' = Some conn.
Proof.
  intros Hc Hs Hle. destruct (si_qconn _ _ Hs) as [c' Hc']. pose proof (sl_qconn _ _ Hle _ Hc'). congruence.
Qed.

(** Steps of the session that respect [sess_le] and leave the workers where they are. *)
Lemma live_le r i quiet y s' :
  live_inv r i quiet y -> sess_inv conf s' -> sess_le (sy_sess y) s' ->
  live_inv r i quiet (set_sy_sess s' y).
Proof.
  intros [L1 L2 Lc (ts & T1 & T2 & T3) L4 L5 L6 L7] Hs Hle. split; simpl; try done.
  - by apply (conn_le (sy_sess y)).
  - exists ts. split_and!; [done| |done]. eapply workers_keep; [|exact T2].
    intros p _. by apply busy_at_le.
  - intros p Hp. eapply busy_at_le; [done|by apply L4].
  - by rewrite (sl_tasks _ _ Hle).
Qed.

Lemma ok_running p (t : thread session) : ok_thread conf p t -> running t = true.
Proof. by intros []. Qed.

Lemma sess_inv_valid_le s s' p : sess_le s s' -> valid s p -> valid s' p.
Proof. intros Hle [st Hp]. destruct (sl_heap _ _ Hle _ _ Hp) as (st' & ? & _). by exists st'. Qed.

(** ** A step of a worker *)

(** The worker at one place of the list goes from [x] to [x']. *)
Lemma live_replace r i quiet y ts1 x x' ts2 s' :
  live_inv r i quiet y -> sy_workers y = fst <$> (ts1 ++ x :: ts2) ->
  Forall (worker_inv (sy_sess y)) (ts1 ++ x :: ts2) ->
  NoDup (option_list r ++ users (ts1 ++ x :: ts2)) ->
  fst (fst x') = fst (fst x) -> (snd x' = Using -> snd x = Using) ->
  sess_inv conf s' -> ss_qconn s' = Some conn -> worker_inv s' x' ->
  (forall q, q ∈ option_list r ++ users (ts1 ++ ts2) -> busy_at (sy_sess y) q -> busy_at s' q) ->
  ss_active_tasks s' = wrap32 (Z.of_nat (unfinished (fst <$> (ts1 ++ x' :: ts2))) + i) ->
  (unfinished (fst <$> (ts1 ++ x' :: ts2)) <= unfinished (sy_workers y))%nat ->
  live_inv r i quiet (set_sy_workers (fst <$> (ts1 ++ x' :: ts2)) (set_sy_sess s' y)).
Proof.
  intros [L1 L2 Lc _ L4 L5 L6 L7] Hw Hf Hnd Hp Hu Hs Hcn Hx' Hk Ht Hn. split; simpl; try done.
  - exists (ts1 ++ x' :: ts2). split_and!; [done| |].
    + apply Forall_app in Hf as [Hf1 Hf2]. apply Forall_cons in Hf2 as [_ Hf2].
      apply Forall_app. split; [|apply Forall_cons; split; [done|]];
        (eapply workers_keep; [|done]); intros q Hq; apply Hk; rewrite users_app; set_solver.
    + eapply NoDup_sub; [|exact Hnd]. apply submseteq_app; [done|]. rewrite !users_app.
      apply submseteq_app; [done|]. unfold users. simpl. destruct (snd x') eqn:E'.
      * rewrite (Hu eq_refl), Hp. done.
      * destruct (snd x); [by apply submseteq_cons|done|done].
      * destruct (snd x); [by apply submseteq_cons|done|done].
  - intros q ->. apply Hk; [simpl; set_solver|]. by apply L4.
  - lia.
  - intros Hq. specialize (L7 Hq). lia.
Qed.

(** A worker that gives its stream back. *)
Lemma inv_give_back s p st st' :
  sess_inv conf s -> ss_heap s !! p = Some st -> busy st -> gives_back st st' ->
  sess_inv conf (set_ss_heap (<[p := st']> (ss_heap s)) s).
Proof.
  intros Hs Hp (B1 & B2 & B3) Hg.
  destruct (ci_stream _ _ (si_core _ _ Hs) _ _ Hp) as (H1 & H2 & H3 & H4).
  destruct Hg as [-> | ->]; apply (inv_flag s p st); try done; split_and!; simpl; try done; intros; congruence.
Qed.

Lemma unfinished_at (ts1 ts2 : list (sptr * thread session * phase)) x :
  unfinished (fst <$> (ts1 ++ x :: ts2))
  = (unfinished (fst <$> ts1) + ((if running (snd (fst x)) then 1 else 0) + unfinished (fst <$> ts2)))%nat.
Proof. destruct x as [[p t] ph]. rewrite fmap_app, unfinished_app. simpl. by rewrite unfinished_cons. Qed.

Section WorkerStep.
Context (r : option sptr) (i : Z) (quiet : bool) (y : system).
Context (ts1 ts2 : list (sptr * thread session * phase)) (p : sptr) (m : M session (option (thread session))).
Context (HL : live_inv r i quiet y).

(** The worker goes on using its stream. *)
Lemma using_step t' s' :
  sy_workers y = fst <$> (ts1 ++ (p, Atomic m, Using) :: ts2) ->
  Forall (worker_inv (sy_sess y)) (ts1 ++ (p, Atomic m, Using) :: ts2) ->
  NoDup (option_list r ++ users (ts1 ++ (p, Atomic m, Using) :: ts2)) ->
  busy_at (sy_sess y) p -> ok_thread conf p t' -> sess_inv conf s' -> sess_le (sy_sess y) s' ->
  live_inv r i quiet (set_sy_workers (fst <$> (ts1 ++ (p, t', Using) :: ts2)) (set_sy_sess s' y)).
Proof.
  intros Hw T2 T3 Hb Ho Hs' Hle. apply (live_replace r i quiet y ts1 (p, Atomic m, Using)); try done.
  - apply (conn_le (sy_sess y)); [apply (lv_conn _ _ _ _ HL)|done|done].
  - split; [done|]. by eapply busy_at_le.
  - intros q _. by apply busy_at_le.
  - rewrite (sl_tasks _ _ Hle), (lv_tasks _ _ _ _ HL), Hw, !unfinished_at. simpl. by rewrite (ok_running _ _ Ho).
  - rewrite Hw, !unfinished_at. simpl. by rewrite (ok_running _ _ Ho).
Qed.

(** It gives its stream back. *)
Lemma give_back_step st st' :
  sy_workers y = fst <$> (ts1 ++ (p, Atomic m, Using) :: ts2) ->
  Forall (worker_inv (sy_sess y)) (ts1 ++ (p, Atomic m, Using) :: ts2) ->
  NoDup (option_list r ++ users (ts1 ++ (p, Atomic m, Using) :: ts2)) ->
  ss_heap (sy_sess y) !! p = Some st -> busy st -> gives_back st st' ->
  live_inv r i quiet (set_sy_workers (fst <$> (ts1 ++ (p, leaving, Leaving) :: ts2))
    (set_sy_sess (set_ss_heap (<[p := st']> (ss_heap (sy_sess y))) (sy_sess y)) y)).
Proof.
  intros Hw T2 T3 Hp Hb Hg. apply (live_replace r i quiet y ts1 (p, Atomic m, Using)); try done.
  - eapply inv_give_back; [apply (lv_sess _ _ _ _ HL)|done..].
  - apply (lv_conn _ _ _ _ HL).
  - intros q Hq Hbq. apply busy_insert; [done|]. intros ->. rewrite users_app in T3.
    unfold users in T3 at 2. simpl in T3. rewrite users_app in Hq.
    assert (Hperm : option_list r ++ users ts1 ++ p :: users ts2
                    ≡ₚ p :: (option_list r ++ users ts1 ++ users ts2)) by solve_Permutation.
    fold (users ts2) in T3. rewrite Hperm in T3. by apply NoDup_cons in T3 as [? _].
  - simpl. by rewrite (lv_tasks _ _ _ _ HL), Hw, !unfinished_at.
  - by rewrite Hw, !unfinished_at.
Qed.

(** It takes itself off the count and ends. *)
Lemma leaving_step :
  sy_workers y = fst <$> (ts1 ++ (p, leaving, Leaving) :: ts2) ->
  Forall (worker_inv (sy_sess y)) (ts1 ++ (p, leaving, Leaving) :: ts2) ->
  NoDup (option_list r ++ users (ts1 ++ (p, leaving, Leaving) :: ts2)) ->
  live_inv r i quiet (set_sy_workers (fst <$> (ts1 ++ (p, Finished, Gone) :: ts2))
    (set_sy_sess (set_ss_active_tasks (wrap32 (ss_active_tasks (sy_sess y) - 1)) (sy_sess y)) y)).
Proof.
  intros Hw T2 T3. apply (live_replace r i quiet y ts1 (p, leaving, Leaving)); try done.
  - apply inv_tasks, (lv_sess _ _ _ _ HL).
  - apply (lv_conn _ _ _ _ HL).
  - simpl. rewrite (lv_tasks _ _ _ _ HL), Hw, !unfinished_at. simpl.
    unfold wrap32. rewrite Zminus_mod_idemp_l. f_equal. lia.
  - rewrite Hw, !unfinished_at. simpl. lia.
Qed.

End WorkerStep.

Lemma worker_step r i quiet y w1 p m w2 :
  live_inv r i quiet y -> sy_workers y = w1 ++ (p, Atomic m) :: w2 ->
  match m (sy_sess y) with
  | Ret o s' =>
      live_inv r i quiet (set_sy_workers (w1 ++ (p, default (Atomic m) o) :: w2) (set_sy_sess s' y))
      /\ forall q, valid (sy_sess y) q -> valid s' q
  | Abort => False
  | OutOfFuel s' => sess_inv conf s'
  end.
Proof.
  intros HL Hw. pose proof HL as [L1 L2 Lc (ts & T1 & T2 & T3) L4 L5 L6 L7]. pose proof T1 as Hts.
  rewrite Hw in T1. symmetry in T1. apply fmap_app_inv in T1 as (ts1 & ts2' & -> & T1 & ->).
  symmetry in T1. apply fmap_cons_inv in T1 as ([[p' t'] ph] & ts2 & Hx & -> & ->).
  simpl in Hx. injection Hx as <- <-.
  assert (Hrep : forall t0 ph0, (fst <$> ts1) ++ (p, t0) :: (fst <$> ts2) = fst <$> (ts1 ++ (p, t0, ph0) :: ts2))
    by (intros; by rewrite fmap_app).
  assert (Hx : worker_inv (sy_sess y) (p, Atomic m, ph)).
  { apply Forall_app in T2 as [_ T2]. by apply Forall_cons in T2 as [? _]. }
  destruct ph; unfold worker_inv in Hx; simpl in Hx; [|injection Hx as ->|done].
  - destruct Hx as [Hok Hb]. inversion Hok as [m' Hwp Hnext|m' Hlast]; subst m'.
    + specialize (Hwp _ L2 Hb). specialize (Hnext (sy_sess y)). unfold wp in Hwp.
      destruct (m (sy_sess y)) as [o s'| |s']; [|done|by destruct Hwp].
      destruct Hwp as (Hs' & Hle & _). split; [|intros q; by apply sess_inv_valid_le].
      assert (Ho : ok_thread conf p (default (Atomic m) o)) by (destruct o; [by eapply Hnext|done]).
      rewrite (Hrep _ Using). by apply (using_step r i quiet y ts1 ts2 p m).
    + destruct Hb as (st & Hp & Hb). destruct (Hlast _ _ L2 Hp) as (st' & Hg & ->).
      split; [|intros q [st0 Hq]; apply (insert_is_Some _ _ _ st' q Hp); by eexists].
      simpl. rewrite (Hrep _ Leaving). by apply (give_back_step r i quiet y ts1 ts2 p m HL st).
  - simpl. split; [|done]. rewrite (Hrep _ Gone). by apply leaving_step.
Qed.

(** ** The event thread *)

(** The streams there are stay. *)
Definition mono s s' : Prop := forall p, valid s p -> valid s' p.

Lemma mono_trans s1 s2 s3 : mono s1 s2 -> mono s2 s3 -> mono s1 s3.
Proof. unfold mono. auto. Qed.

Lemma mono_le s s' : sess_le s s' -> mono s s'.
Proof. intros Hle p. by apply sess_inv_valid_le. Qed.

Definition idle : ghost := Live None 0 false.

(** What the event thread may do from a state of the invariant that has at least the
    streams of [s0]; it only ever adds tasks. *)
Inductive ok_ev : ghost -> session -> thread system -> Prop :=
  | ev_idle s0 : ok_ev idle s0 Finished
  | ev_dead s0 : ok_ev Dead s0 Finished
  | ev_step g s0 m :
      (forall y, sys_inv g y -> mono s0 (sy_sess y) ->
         match m y with
         | Ret o _ => is_Some o
         | Abort => False
         | OutOfFuel y' => sys_inv g y'
         end) ->
      (forall y t y', sys_inv g y -> mono s0 (sy_sess y) -> m y = Ret (Some t) y' ->
         sy_workers y `prefix_of` sy_workers y'
         /\ exists g', sys_inv g' y' /\ ok_ev g' (sy_sess y') t) ->
      ok_ev g s0 (Atomic m).

Definition ev_T {A} (g : ghost) s0 (c : T system A) (Q : A -> ghost -> session -> Prop) : Prop :=
  forall k, (forall a g' s', Q a g' s' -> ok_ev g' s' (k a)) -> ok_ev g s0 (c k).

Lemma ev_ret {A} g s0 (a : A) (Q : A -> ghost -> session -> Prop) :
  Q a g s0 -> ev_T g s0 (mret a) Q.
Proof. intros HQ k Hk. by apply Hk. Qed.

Lemma ev_bind {A B} g s0 (c : T system A) (f : A -> T system B) Q Q' :
  ev_T g s0 c Q -> (forall a g' s', Q a g' s' -> ev_T g' s' (f a) Q') -> ev_T g s0 (c ≫= f) Q'.
Proof. intros Hc Hf k Hk. apply Hc. intros a g' s' Ha. by apply (Hf a g' s' Ha). Qed.

Lemma ev_mono {A} g s0 (c : T system A) (Q Q' : A -> ghost -> session -> Prop) :
  ev_T g s0 c Q -> (forall a g' s', Q a g' s' -> Q' a g' s') -> ev_T g s0 c Q'.
Proof. intros Hc HQ k Hk. apply Hc. auto. Qed.

Lemma ev_atomic {A} g s0 (m : M system A) (Q : A -> ghost -> session -> Prop) :
  (forall y, sys_inv g y -> mono s0 (sy_sess y) ->
     match m y with
     | Ret a y' => sy_workers y `prefix_of` sy_workers y'
                   /\ exists g', sys_inv g' y' /\ Q a g' (sy_sess y')
     | Abort => False
     | OutOfFuel y' => sys_inv g y'
     end) ->
  ev_T g s0 (atomic m) Q.
Proof.
  intros Hm k Hk. apply ev_step.
  - intros y Hy Hv. specialize (Hm y Hy Hv). unfold mbind, M_bind. destruct (m y); [|done|done].
    by eexists.
  - intros y t y' Hy Hv He. specialize (Hm y Hy Hv). unfold mbind, M_bind in He.
    destruct (m y) as [a y1| |]; [|done|done]. injection He as <- <-.
    destruct Hm as (Hw & g' & Hg & HQ). split; [done|]. exists g'. split; [done|]. by apply Hk.
Qed.

(** A step on the session alone. *)
Lemma ev_sess {A} r i quiet s0 (m : M session A) (Q : A -> session -> Prop) :
  (forall s, sess_inv conf s -> mono s0 s -> swp s m Q) ->
  ev_T (Live r i quiet) s0 (locked m)
    (fun a g' s' => g' = Live r i quiet /\ mono s0 s' /\ Q a s').
Proof.
  intros Hm. apply ev_atomic. intros y Hy Hv. unfold on_sess. rewrite (lv_alive _ _ _ _ Hy).
  specialize (Hm _ (lv_sess _ _ _ _ Hy) Hv). unfold wp in Hm.
  destruct (m (sy_sess y)) as [a s'| |s']; [|done|].
  - destruct Hm as (H1 & H2 & HQ). split; [done|]. exists (Live r i quiet).
    split_and!; [by apply live_le|done|eapply mono_trans; [done|by apply mono_le]|done].
  - destruct Hm as [H1 H2]. by apply live_le.
Qed.

(** The same for a step whose result does not matter. *)
Lemma ev_sess' {A} r i quiet s0 (m : M session A) :
  (forall s, sess_inv conf s -> swp s m (fun _ _ => True)) ->
  ev_T (Live r i quiet) s0 (locked m) (fun _ g' s' => g' = Live r i quiet /\ mono s0 s').
Proof.
  intros Hm. eapply ev_mono; [apply (ev_sess r i quiet s0 m (fun _ _ => True)); auto|]. naive_solver.
Qed.

(** *** Dispatching *)

Lemma ev_reserve s0 p :
  valid s0 p ->
  ev_T idle s0 (locked (reserve_stream p))
    (fun b g' s' => g' = Live (if b then Some p else None) 0 false /\ mono s0 s').
Proof.
  intros Hv0. apply ev_atomic. intros y Hy Hv. pose proof Hy as [L1 L2 Lc (ts & T1 & T2 & T3) L4 L5 L6 L7].
  unfold on_sess. rewrite L1. destruct (Hv p Hv0) as [st Hp]. unfold reserve_stream.
  rewrite (bind_ret _ _ _ _ _ (get_stream_ret _ _ _ Hp)).
  destruct (st_dispatched st) eqn:Ed; simpl.
  { split; [done|]. exists idle. split_and!; [by destruct y|done|done]. }
  rewrite (upd_stream_eq _ _ _ _ Hp). set (st' := set_st_dispatched true st).
  destruct (ci_stream _ _ (si_core _ _ L2) _ _ Hp) as (H1 & H2 & H3 & H4).
  split; [done|]. exists (Live (Some p) 0 false). split_and!; [|done|].
  - assert (Hb : busy st').
    { split_and!; [done| |]; simpl.
      - destruct (st_worker_done st); [|done]. by rewrite H4 in Ed.
      - destruct (st_pool st); [done|]. by rewrite (H4 (proj1 (H3 eq_refl))) in Ed. }
    assert (Hno : forall q, busy_at (sy_sess y) q -> q <> p).
    { intros q (st0 & Hq & Hb0) ->. simplify_eq. destruct Hb0. congruence. }
    split; simpl; try done.
    + by apply (inv_flag _ p st).
    + exists ts. split_and!; [done| |].
      * eapply workers_keep; [|exact T2]. intros q _ Hq. by apply busy_insert; [|apply Hno].
      * simpl. constructor; [|done]. intros Hin. apply list_elem_of_omap in Hin as ([[q t] ph] & Hx & He).
        rewrite Forall_forall in T2. specialize (T2 _ Hx). destruct ph; simplify_eq/=.
        destruct T2 as [_ Hq]. by apply (Hno p).
    + intros q [= <-]. exists st'. split; [|done]. simpl. by rewrite lookup_insert_eq.
  - eapply mono_trans; [done|]. intros q Hq. by apply (insert_is_Some _ _ _ st' q Hp).
Qed.

Lemma ev_release s0 p i :
  ev_T (Live (Some p) i false) s0 (locked (set_stream_dispatched p false))
    (fun _ g' s' => g' = Live None i false /\ mono s0 s').
Proof.
  apply ev_atomic. intros y Hy Hv. pose proof Hy as [L1 L2 Lc (ts & T1 & T2 & T3) L4 L5 L6 L7].
  unfold on_sess. rewrite L1. destruct (L4 p eq_refl) as (st & Hp & Hb). unfold set_stream_dispatched.
  rewrite (bind_ret _ _ _ _ _ (get_stream_ret _ _ _ Hp)). simpl. rewrite (upd_stream_eq _ _ _ _ Hp).
  split; [done|]. exists (Live None i false). split_and!; [|done|].
  - split; simpl; try done.
    + eapply inv_give_back; [done|done|done|by right].
    + exists ts. apply NoDup_cons in T3 as [Hno T3]. split_and!; [done| |done].
      eapply workers_keep; [|exact T2]. intros q Hq Hbq. apply busy_insert; [done|]. by intros ->.
  - eapply mono_trans; [done|]. intros q Hq. by apply (insert_is_Some _ _ _ _ q Hp).
Qed.

Lemma ev_count r s0 i j m :
  (forall s, m s = Ret tt (set_ss_active_tasks (wrap32 (ss_active_tasks s + j)) s)) ->
  ev_T (Live r i false) s0 (locked m) (fun _ g' s' => g' = Live r (i + j) false /\ mono s0 s').
Proof.
  intros Hm. apply ev_atomic. intros y Hy Hv. pose proof Hy as [L1 L2 Lc (ts & T1 & T2 & T3) L4 L5 L6 L7].
  unfold on_sess. rewrite L1, Hm. split; [done|]. exists (Live r (i + j) false). split_and!; [|done|done].
  split; simpl; try done.
  - by apply inv_tasks.
  - exists ts. by split_and!.
  - rewrite L5. unfold wrap32. rewrite Zplus_mod_idemp_l. f_equal. lia.
Qed.

Lemma ev_push ok s0 p t :
  ok_thread conf p t ->
  ev_T (Live (Some p) 1 false) s0 (atomic (apr_thread_pool_push ok p t))
    (fun b g' s' => g' = (if b then idle else Live (Some p) 1 false) /\ mono s0 s').
Proof.
  intros Ht. apply ev_atomic. intros y Hy Hv. pose proof Hy as [L1 L2 Lc (ts & T1 & T2 & T3) L4 L5 L6 L7].
  unfold apr_thread_pool_push. destruct (ok && _) eqn:Eok; [|by split; [|exists (Live (Some p) 1 false)]].
  apply andb_true_iff in Eok as [_ Hlt%Z.ltb_lt]. split; [by apply prefix_app_r|]. exists idle. split_and!; [|done|done].
  assert (Hun : unfinished (sy_workers y ++ [(p, t)]) = S (unfinished (sy_workers y))).
  { rewrite unfinished_app, unfinished_cons, (ok_running _ _ Ht). change (unfinished []) with O. lia. }
  split; simpl; try done.
  - exists (ts ++ [(p, t, Using)]). rewrite fmap_app, <- T1. split_and!; [done| |].
    + apply Forall_app. split; [done|]. apply Forall_singleton. split; [done|]. by apply L4.
    + rewrite users_app. simpl in *. by rewrite (Permutation_app_comm (users ts)).
  - rewrite L5, Hun. f_equal. lia.
  - lia.
Qed.

Lemma ev_process_request dc wc s0 p :
  worker_ok wc -> valid s0 p ->
  ev_T idle s0 (h3_process_request conf dc wc p) (fun _ g' s' => g' = idle /\ mono s0 s').
Proof.
  intros Hwc Hv. unfold h3_process_request. eapply ev_bind; [by apply ev_reserve|].
  intros b g1 s1 [-> Hm1]. destruct b; simpl; [|by apply ev_ret].
  destruct (dc_pools dc); simpl.
  2:{ eapply ev_mono; [apply ev_release|]. intros _ g2 s2 [-> Hm2]. split; [done|by eapply mono_trans]. }
  eapply ev_bind; [by apply (ev_count _ _ 0 1)|]. intros _ g2 s2 [-> Hm2].
  eapply ev_bind; [by apply ev_push, (ok_worker conf Hbody Hbuf Hresp)|]. intros ok g3 s3 [-> Hm3].
  assert (Hm : mono s0 s3) by (do 2 (eapply mono_trans; [done|]); done).
  destruct ok; [by apply ev_ret|].
  eapply ev_bind; [apply ev_release|]. intros _ g4 s4 [-> Hm4].
  eapply ev_mono; [by apply (ev_count _ _ 1 (-1))|]. intros _ g5 s5 [-> Hm5].
  split; [done|]. by do 2 (eapply mono_trans; [done|]).
Qed.

(** *** Steps on the connection *)

Lemma wp_q_conn s : sess_inv conf s -> swp s q_conn (fun c s' => s' = s /\ ss_qconn s = Some c).
Proof.
  intros Hs. destruct (si_qconn _ _ Hs) as [c Hc]. unfold q_conn. wbind. wgets; [done|].
  rewrite Hc. wbind. wret; [done|]. wbind. unfold wp at 1. rewrite use_ret; [split_and!; [done|done|]|].
  - by wret.
  - pose proof (ci_owned _ _ (si_core _ _ Hs)) as Hnd. unfold owned in Hnd. rewrite Hc in Hnd. simpl in Hnd.
    apply NoDup_app in Hnd as (_ & _ & Hnd). apply NoDup_app in Hnd as (_ & _ & Hnd).
    apply NoDup_app in Hnd as (_ & Hnd & _). intros Hin. apply (Hnd c Hin). by left.
Qed.

Lemma wp_is_closed s : sess_inv conf s -> swp s q_conn_is_closed (fun _ _ => True).
Proof.
  intros Hs. unfold q_conn_is_closed. wbind. eapply wp_mono; [by apply wp_q_conn|].
  intros c s' Hs' _ _. by wgets.
Qed.

Lemma wp_conn_shutdown s b : sess_inv conf s -> swp s (q_conn_shutdown b) (fun _ _ => True).
Proof.
  intros Hs. unfold q_conn_shutdown. wbind. eapply wp_mono; [by apply wp_q_conn|].
  intros c s' Hs' _ _. do 3 (wbind; wgets; [done|]).
  eapply wp_mono; [by apply wp_on_env|done].
Qed.

Lemma wp_accept s :
  sess_inv conf s -> swp s q_accept_stream (fun o s' => forall h, o = Some h -> unowned s' h).
Proof.
  intros Hs. unfold q_accept_stream. wbind. eapply wp_mono; [by apply wp_q_conn|].
  intros c s' _ _ [-> Hc]. unfold wp, q_create.
  destruct (qc_accept_stream (ss_env s) c (ss_fresh s)) as [e o] eqn:Eo.
  pose proof Hs as [[C1 C2 C3 C4 C5 C6 C7 C8] (n & Hn & Hk) Hcn Ha Hpn].
  assert (Hf : Forall (fun h => (h < Pos.succ (ss_fresh s))%positive) (owned s))
    by (eapply Forall_impl; [exact C6|]; simpl; lia).
  split_and!.
  - split; [by split| |done|done|done]. by exists n.
  - split; [|done|done|done|simpl; lia]. intros p st Hp. by exists st.
  - intros h ->. apply qc_accept_fresh in Eo as ->. split; [|simpl; lia].
    change (owned _) with (owned s). intros Hin. rewrite Forall_forall in C6.
    specialize (C6 _ Hin). simpl in C6. lia.
Qed.

Lemma wp_accept_stream s ok h :
  (forall sid, fst (ok sid) = true) ->
  sess_inv conf s -> unowned s h -> swp s (accept_stream conf ok h) (fun _ _ => True).
Proof.
  intros Hpool Hs Hu. unfold accept_stream.
  assert (Hfree : swp s (q_stream_free h) (fun _ _ => True))
    by (eapply wp_mono; [by apply wp_q_stream_free|done]).
  wbind. unfold q_stream_id. wbind. unfold wp at 1.
  rewrite use_ret by (intros Hin; destruct Hu as [[] _]; unfold owned; set_solver).
  split_and!; [done|done|]. wgets; [done|]. destruct (_ <? 0); [exact Hfree|].
  rewrite Hpool. wbind. eapply wp_mono; [by apply (wp_track_stream conf Hbody Hbuf)|].
  intros [p|] s2 Hs2 _ [Ht _]; [by wret|]. subst s2. exact Hfree.
Qed.

Lemma wp_flush fuel s : sess_inv conf s -> swp s (flush_nghttp3 conf io fuel) (fun _ _ => True).
Proof. intros Hs. eapply wp_mono; [by apply wp_flush_nghttp3|done]. Qed.

Lemma wp_drain_flush s fuel :
  sess_inv conf s ->
  swp s (r ← drain_ready_streams conf io; flush_nghttp3 conf io fuel ;; mret r)
    (fun r s' => forall p, p ∈ fst r -> valid s' p).
Proof.
  intros Hs. wbind. eapply wp_mono; [by apply wp_drain_ready_streams|].
  intros r s1 Hs1 _ Hr. wbind. eapply wp_mono; [by apply wp_flush|].
  intros [] s2 Hs2 Hle _. wret; [done|]. intros p Hp. eapply sess_inv_valid_le; [done|by apply Hr].
Qed.

Lemma wp_notify s fuel : sess_inv conf s -> swp s (notify_goaway conf io fuel) (fun _ _ => True).
Proof.
  intros Hs. unfold notify_goaway. wbind. wgets; [done|]. wbind.
  eapply (wp_mono _ _ _ _ (fun _ _ => True)).
  { destruct (_ =? _); [|by wret].
    eapply wp_mono; [apply wp_on_ngh; [done|intros; apply ngh_notice_same]|done]. }
  intros [] s1 Hs1 _ _. wbind. eapply wp_mono; [by apply wp_flush|]. intros [] s2 Hs2 _ _.
  destruct (si_ngh _ _ Hs2) as (n & Hn & _). wbind. unfold wp at 1. rewrite (get_ngh_ret _ _ Hn).
  split_and!; [done|done|]. by wret.
Qed.

Lemma wp_shutdown s fuel :
  sess_inv conf s -> swp s (on_ngh ngh_shutdown ;; flush_nghttp3 conf io fuel) (fun _ _ => True).
Proof.
  intros Hs. wbind. eapply wp_mono; [apply wp_on_ngh; [done|intros; apply ngh_shutdown_same]|].
  intros [] s1 Hs1 _ _. by apply wp_flush.
Qed.

Lemma wp_set_aborted s b : sess_inv conf s -> swp s (modify (set_ss_aborted b)) (fun _ _ => True).
Proof. intros Hs. eapply wp_mono; [by apply wp_ext; [|split]|done]. Qed.

Lemma wp_set_deadline s now : sess_inv conf s -> swp s (set_deadline now) (fun _ _ => True).
Proof.
  intros Hs. eapply wp_mono; [apply wp_ext; [done|]|done].
  destruct (ss_goaway_deadline s =? 0); by split.
Qed.

Lemma wp_gets_any {A} (f : session -> A) s : sess_inv conf s -> swp s (gets f) (fun _ _ => True).
Proof. intros. by wgets. Qed.

(** *** A turn *)

Lemma ev_accept_round ok s0 :
  (forall sid, fst (ok sid) = true) ->
  ev_T idle s0 (atomic (accept_round conf ok)) (fun _ g' s' => g' = idle /\ mono s0 s').
Proof.
  intros Hpool. apply ev_atomic. intros y Hy Hv. unfold accept_round, mbind, M_bind. unfold on_sess at 1.
  rewrite (lv_alive _ _ _ _ Hy). pose proof (wp_accept _ (lv_sess _ _ _ _ Hy)) as W. unfold wp in W.
  destruct (q_accept_stream (sy_sess y)) as [o s1| |s1]; [|done|]; swap 1 2.
  { destruct W as [I1 L1]. by apply live_le. }
  destruct W as (I1 & L1 & Hu).
  pose proof (live_le _ _ _ _ _ Hy I1 L1) as Hy1.
  assert (Hm1 : mono s0 s1) by (eapply mono_trans; [done|by apply mono_le]).
  destruct o as [h|]; [|by split; [|exists idle]]. cbn.
  assert (Hy2 : live_inv None 0 false (set_sy_total_streams (wrap32 (sy_total_streams y + 1))
                                        (set_sy_sess s1 y)))
    by (destruct Hy1 as [K1 K2 Kc K3 K4 K5 K6 K7]; by split).
  unfold on_sess. rewrite (lv_alive _ _ _ _ Hy2).
  pose proof (wp_accept_stream s1 ok h Hpool I1 (Hu h eq_refl)) as W2. unfold wp in W2. cbn.
  destruct (accept_stream conf ok h s1) as [[] s2| |s2]; [|done|].
  - destruct W2 as (I2 & L2 & _). split; [done|]. exists idle. split_and!; [by apply (live_le _ _ _ _ _ Hy2)|done|].
    eapply mono_trans; [done|by apply mono_le].
  - destruct W2 as [I2 L2]. by apply (live_le _ _ _ _ _ Hy2).
Qed.

Lemma ev_accept_streams fuel ok s0 :
  (forall sid, fst (ok sid) = true) ->
  ev_T idle s0 (accept_streams conf fuel ok) (fun _ g' s' => g' = idle /\ mono s0 s').
Proof.
  intros Hpool. revert s0. induction fuel as [|k IH]; intros s0; cbn [accept_streams].
  { apply ev_atomic. intros y Hy Hv. done. }
  eapply ev_bind; [by apply ev_accept_round|]. intros more g1 s1 [-> Hm1].
  destruct more; [|by apply ev_ret]. eapply ev_mono; [apply IH|]. intros _ g2 s2 [-> Hm2].
  split; [done|]. by eapply mono_trans.
Qed.

(** The calls of a turn are fit to be made: those of the workers are, and the pool of every
    stream it accepts can be created, without which the process ends at the [CHECK] of
    [h3_stream_track]. *)
Definition pc_ok (pc : @pass_calls N E H) : Prop :=
  (forall p, worker_ok (snd (pc_dispatch pc p))) /\ forall sid, fst (pc_track pc sid) = true.

Lemma ev_process_completed dispatch completed s0 :
  (forall p, worker_ok (snd (dispatch p))) -> (forall p, p ∈ completed -> valid s0 p) ->
  ev_T idle s0 (process_completed conf dispatch completed) (fun _ g' s' => g' = idle /\ mono s0 s').
Proof.
  intros Hd. revert s0. induction completed as [|p ps IH]; intros s0 Hv; cbn [process_completed].
  { apply ev_ret. split; [done|by intros q]. }
  eapply ev_bind; [apply ev_process_request; [apply Hd|apply Hv; by left]|].
  intros _ g1 s1 [-> Hm1]. eapply ev_mono; [apply IH|].
  - intros q Hq. apply Hm1, Hv. by right.
  - intros _ g2 s2 [-> Hm2]. split; [done|by eapply mono_trans].
Qed.

Lemma ev_serve_pass pc s0 :
  pc_ok pc -> ev_T idle s0 (serve_pass conf io pc) (fun _ g' _ => g' = idle).
Proof.
  intros [Hpc Hpool]. unfold serve_pass. destruct (pc_scratch pc); simpl; [|by apply ev_ret].
  eapply ev_bind; [by apply ev_accept_streams|]. intros _ g1 s1 [-> _].
  eapply ev_bind; [apply ev_sess; intros; by apply wp_drain_flush|]. intros r g2 s2 (-> & _ & Hr).
  eapply (ev_bind _ _ _ _ (fun _ g' s' => g' = idle /\ mono s2 s'));
    [apply ev_sess'; intros; by apply wp_gets_any|].
  intros dead g3 s3 [-> Hm3]. destruct dead.
  - eapply ev_bind; [apply ev_sess'; intros; by apply wp_set_aborted|]. intros _ g4 s4 [-> _].
    by apply ev_ret.
  - eapply ev_bind; [apply ev_process_completed; [exact Hpc|auto]|]. intros _ g4 s4 [-> _].
    eapply ev_bind; [apply ev_sess'; intros; by apply wp_flush|]. intros _ g5 s5 [-> _]. by apply ev_ret.
Qed.

Lemma ev_goaway pc s0 : ev_T idle s0 (goaway_pass conf io pc) (fun _ g' _ => g' = idle).
Proof.
  unfold goaway_pass. eapply ev_bind; [apply ev_sess'; intros; by apply wp_notify|].
  intros drained g1 s1 [-> _]. eapply ev_bind; [apply ev_sess'; intros; by apply wp_set_deadline|].
  intros _ g2 s2 [-> _]. eapply ev_bind; [apply ev_sess'; intros; by apply wp_gets_any|].
  intros dl g3 s3 [-> _]. destruct (_ || _); [|by apply ev_ret].
  eapply ev_bind; [apply ev_sess'; intros; by apply wp_shutdown|]. intros _ g4 s4 [-> _].
  eapply ev_bind; [apply ev_sess'; intros; by apply wp_set_aborted|]. intros _ g5 s5 [-> _]. by apply ev_ret.
Qed.

Lemma ev_service_pass pc s0 :
  pc_ok pc -> ev_T idle s0 (service_session_pass conf io pc) (fun _ g' _ => g' = idle).
Proof.
  intros Hpc. unfold service_session_pass.
  eapply ev_bind; [apply ev_sess'; intros; by apply wp_gets_any|]. intros ab g1 s1 [-> _].
  destruct ab; [by apply ev_ret|].
  eapply (ev_bind _ _ _ _ (fun _ g' _ => g' = idle)).
  { destruct (pc_running pc); simpl; [by apply ev_ret|apply ev_goaway]. }
  intros ended g2 s2 ->. destruct ended; [by apply ev_ret|].
  eapply ev_bind; [apply ev_sess'; intros; by apply wp_is_closed|]. intros closed g3 s3 [-> _].
  destruct closed; [|by apply ev_serve_pass].
  eapply ev_bind; [apply ev_sess'; intros; by apply wp_set_aborted|]. intros _ g4 s4 [-> _]. by apply ev_ret.
Qed.

(** Reading zero from [active_tasks] shows that no worker is left. *)
Lemma ev_read_tasks (b : bool) s0 :
  ev_T idle s0 (locked (gets ss_active_tasks)) (fun n g' _ => g' = Live None 0 (b && (n =? 0))).
Proof.
  apply ev_atomic. intros y Hy Hv. pose proof Hy as [L1 L2 Lc L3 L4 L5 L6 L7].
  unfold on_sess. rewrite L1. simpl. split; [done|]. eexists. split; [|done]. split; try done.
  intros [_ Hz%Z.eqb_eq]%andb_true_iff. rewrite L5, Z.add_0_r, wrap32_small in Hz by lia. simpl. lia.
Qed.

Lemma control_fuel_free k0 k1 k2 :
  fuel_free (h3_session_create_control_streams (N := N) (E := E) conf k0 k1 k2).
Proof.
  unfold h3_session_create_control_streams, bind_control, free_opt, track_opt, track_stream, q_stream_free,
    q_open_uni, q_create, use, get_stream, get_ngh, put_ngh, h3_stream_find.
  fuel_free; intros s0 s1; by destruct (qc_open_uni _ _ _).
Qed.

Lemma destroy_fuel_free : fuel_free (h3_session_destroy (N := N) (E := E)).
Proof.
  unfold h3_session_destroy, destroy_stream, free_pending, q_stream_free, q_conn_free, use, get_live, get_stream.
  fuel_free.
Qed.

Lemma ev_destroy s0 :
  ev_T (Live None 0 true) s0 (atomic destroy_session) (fun _ g' _ => g' = Dead).
Proof.
  apply ev_atomic. intros y Hy Hv. pose proof Hy as [L1 L2 Lc L3 L4 L5 L6 L7].
  pose proof (wp_session_destroy conf Hbody Hbuf (sy_sess y) conn (sess_closed conf _ L2) Lc) as W.
  unfold destroy_session, mbind, M_bind, on_sess. rewrite L1. unfold wp in W.
  destruct (h3_session_destroy (sy_sess y)) as [[] s'| |s'] eqn:Ed; [|done|].
  - destruct W as ((Hco & _) & _ & _ & Hq & Hpe & Hpf). split; [done|]. exists Dead. split; [|done].
    split_and!; simpl; try done; [by apply L7|]. destruct Hpf as [Hfr _]. rewrite Hfr. by left.
  - by destruct (destroy_fuel_free (sy_sess y) s').
Qed.

Lemma ev_turn pc s0 : pc_ok pc -> ok_ev idle s0 (session_turn conf io pc turn_end).
Proof.
  intros Hpc. revert s0. assert (Ht : forall s0, ev_T idle s0 (session_turn conf io pc)
    (fun r g' _ => g' = idle \/ g' = Dead)).
  { intros s0. unfold session_turn. eapply ev_bind; [by apply ev_service_pass|]. intros pr g1 s1 ->.
    eapply ev_bind; [apply ev_sess'; intros; by apply wp_gets_any|]. intros ab g2 s2 [-> _].
    destruct ab; simpl; [|by apply ev_ret; left].
    eapply ev_bind; [apply ev_sess'; intros; by apply wp_conn_shutdown|]. intros dn g3 s3 [-> _].
    eapply ev_bind; [apply (ev_read_tasks dn)|]. intros n g4 s4 ->.
    destruct (dn && (n =? 0)); [|by apply ev_ret; left].
    eapply ev_bind; [apply ev_destroy|]. intros _ g5 s5 ->. apply ev_ret. by right. }
  intros s0. apply Ht. intros r g s Hg.
  apply (ev_atomic g s (modify (set_sy_work (fst r))) (fun _ g' _ => g' = g)).
  - intros y Hy _. split; [done|]. exists g. split; [|done]. by destruct Hg as [-> | ->]; destruct Hy.
  - intros [] g' s' ->. destruct Hg as [-> | ->]; constructor.
Qed.

(** ** All interleavings *)

Abbreviation step := (sys_step conf io pc_ok).

Definition sys_ok (x : system * thread system) : Prop :=
  exists g s0, sys_inv g (fst x) /\ mono s0 (sy_sess (fst x)) /\ ok_ev g s0 (snd x).

Lemma step_worker_ok y ev w1 p m w2 :
  sys_ok (y, ev) -> sy_workers y = w1 ++ (p, Atomic m) :: w2 ->
  match on_sess m y with
  | Ret o y' => sys_ok (set_sy_workers (w1 ++ (p, default (Atomic m) o) :: w2) y', ev)
  | Abort => False
  | OutOfFuel y' => True
  end.
Proof.
  intros (g & s0 & Hg & Hm & Hev) Hw. simpl in *. destruct g as [r i quiet|].
  - pose proof (worker_step r i quiet y w1 p m w2 Hg Hw) as W. unfold on_sess.
    rewrite (lv_alive _ _ _ _ Hg). destruct (m (sy_sess y)) as [o s'| |s']; [|done|done].
    destruct W as [W1 W2]. exists (Live r i quiet), s0. split_and!; [done| |done].
    intros q Hq. by apply W2, Hm.
  - destruct Hg as (_ & Hun & _). rewrite Hw, unfinished_app, unfinished_cons in Hun. simpl in Hun. lia.
Qed.

Lemma sys_step_ok x x' : step x x' -> sys_ok x -> sys_ok x'.
Proof.
  intros [l Hstep] Hx. destruct Hstep as [y pc Ha Hpc|y m o y' He|y ev w1 p m w2 o y' Hw He].
  - destruct Hx as (g & s0 & Hg & Hm & Hev). simpl in *. inversion Hev; subst.
    + exists idle, s0. split_and!; [done|done|]. by apply ev_turn.
    + destruct Hg as [Hd _]. congruence.
  - destruct Hx as (g & s0 & Hg & Hm & Hev). simpl in *. inversion Hev as [| |g' s0' m' H1 H2]; subst.
    specialize (H1 y Hg Hm). rewrite He in H1. destruct H1 as [t ->].
    destruct (H2 y t y' Hg Hm He) as (_ & g' & Hg' & Hok). exists g', (sy_sess y'). simpl.
    split_and!; [done|by intros q|done].
  - pose proof (step_worker_ok y ev w1 p m w2 Hx Hw) as W. by rewrite He in W.
Qed.

Lemma steps_ok x x' : rtc step x x' -> sys_ok x -> sys_ok x'.
Proof. induction 1; eauto using sys_step_ok. Qed.

(** Creating the control streams returns only when their pools are created. *)
Lemma track_pool ok o s u s' :
  track_opt conf ok o s = Ret u s' -> track_opt conf (true, snd ok) o s = Ret u s'.
Proof.
  destruct ok as [[|] cond], o as [[h id]|]; try done. simpl. unfold track_stream, mbind, M_bind. simpl.
  by destruct (ss_streams s !! id).
Qed.

Lemma control_pools k0 k1 k2 s rv s' :
  h3_session_create_control_streams conf k0 k1 k2 s = Ret rv s' ->
  h3_session_create_control_streams conf (true, snd k0) (true, snd k1) (true, snd k2) s = Ret rv s'.
Proof.
  unfold h3_session_create_control_streams. intros He. binv He b s1 H1. rewrite (bind_ret _ _ _ _ _ H1).
  destruct b; [done|]. binv He c0 s2 H2. binv He c1 s3 H3. binv He c2 s4 H4. binv He ok s5 H5.
  rewrite (bind_ret _ _ _ _ _ H2), (bind_ret _ _ _ _ _ H3), (bind_ret _ _ _ _ _ H4), (bind_ret _ _ _ _ _ H5).
  destruct ok; simpl in *; [|done]. binv He u0 s6 H6. binv He u1 s7 H7. binv He u2 s8 H8.
  apply track_pool in H6, H7, H8.
  by rewrite (bind_ret _ _ _ _ _ H6), (bind_ret _ _ _ _ _ H7), (bind_ret _ _ _ _ _ H8).
Qed.

Lemma serviced_inv s :
  serviced conf s -> sess_inv conf s /\ ss_active_tasks s = 0.
Proof.
  intros (fresh & env & qconn & s0 & k0 & k1 & k2 & Hlt & Hcr & Hct).
  destruct (session_create_inv conf fresh env qconn s0 _ Hlt Hcr) as (Hs0 & Hq0 & _).
  apply control_pools in Hct.
  pose proof (wp_create_control conf Hbody Hbuf s0 qconn (true, snd k0) (true, snd k1) (true, snd k2)
    Hs0 Hq0 eq_refl eq_refl eq_refl) as W. unfold wp in W. rewrite Hct in W. destruct W as (_ & Hle & Hs & _). split; [done|]. rewrite (sl_tasks _ _ Hle).
  unfold h3_session_create in Hcr. destruct ngh_server_new; [|done]. by injection Hcr as <-.
Qed.

Lemma start_ok s : serviced conf s -> ss_qconn s = Some conn -> sys_ok (sys_start s).
Proof.
  intros [Hs Ht]%serviced_inv Hc. exists idle, s. simpl. split_and!; [|by intros q|constructor].
  split; simpl; try done. exists []. split_and!; [done|done|constructor].
Qed.

Lemma reach_ok s x :
  serviced conf s -> ss_qconn s = Some conn -> rtc step (sys_start s) x -> sys_ok x.
Proof. intros Hs Hc Hr. eapply steps_ok; [done|by apply start_ok]. Qed.

Lemma sys_ok_no_fault x : sys_ok x -> no_fault x.
Proof.
  intros Hx. split.
  - intros p m Hin He. destruct x as [y ev]. apply list_elem_of_split in Hin as (w1 & w2 & Hw).
    pose proof (step_worker_ok y ev w1 p m w2 Hx Hw) as W. simpl in He. by rewrite He in W.
  - intros m Hm He. destruct Hx as (g & s0 & Hg & Hmo & Hev). rewrite Hm in Hev.
    inversion Hev as [| |g' s0' m' H1 H2]; subst. specialize (H1 _ Hg Hmo). by rewrite He in H1.
Qed.

Lemma sys_ok_core x : sys_ok x -> core_inv conf (sy_sess (fst x)).
Proof.
  intros ([r i quiet|] & s0 & Hg & _); [apply (si_core _ _ (lv_sess _ _ _ _ Hg))|by destruct Hg as (_ & _ & ? & _)].
Qed.

Lemma unfinished_none (w : list (sptr * thread session)) p t :
  unfinished w = O -> (p, t) ∈ w -> t = Finished.
Proof.
  intros Hun Hin. apply list_elem_of_split in Hin as (w1 & w2 & ->).
  rewrite unfinished_app, unfinished_cons in Hun. destruct t; [done|simpl in Hun; lia].
Qed.

End System.

(** A resolved configuration is what the sessions need. *)
Lemma ready_conf conf :
  conf_ready conf -> rb_max_ok (h3_max_request_body_size conf)
  /\ 0 < h3_stream_buffer_size conf <= SIZE_MAX
  /\ (h3_max_response_body_size conf = H3_MAX_RESPONSE_BODY_SIZE_DEFAULT
      \/ rc_limit_ok (h3_max_response_body_size conf)).
Proof.
  intros [_ _ _ _ Hb Hr Hp _ _ _ _ _]. unfold rb_max_ok, rc_limit_ok. split; [exact Hr|split; [|destruct Hp; auto]].
  unfold H3_STREAM_BUFFER_SIZE_MAX, SIZE_MAX in *. lia.
Qed.

(** ** What the sessions promise *)

Section Claims.
Context {N E : Type} {NG : Nghttp3 N} {NGS : Nghttp3Spec N NG}.
Context {QS : QuicStreams E} {QSS : QuicStreamsSpec E QS}.
Context {QC : QuicConns E} {QCS : QuicConnsSpec E QC} {AH : AprHash} {H : Httpd}.
Abbreviation session := (@h3_session N E).

Lemma serviced_conn conf (s : session) :
  rb_max_ok (h3_max_request_body_size conf) -> 0 < h3_stream_buffer_size conf <= SIZE_MAX ->
  serviced conf s -> is_Some (ss_qconn s).
Proof. intros H1 H2 Hs. destruct (serviced_inv conf H1 H2 s Hs) as [Hi _]. by eapply si_qconn. Qed.

(** C1 (safety): from a session as it is spawned, in every interleaving of the event
    thread's turns with the workers it starts, and as long as the pools of the streams that
    are accepted can be created, no step of either aborts: none follows a dangling or null
    pointer, fails a [CHECK], calls a QUIC object that was freed (so none is freed twice), or
    touches the session after it was destroyed, and neither the workers nor the session's
    own functions use a stream's pool after it was destroyed.  A callback of nghttp3 has used
    a destroyed pool only for a stream that nghttp3 had asked to stop: such a stream loses its
    QUIC stream, and with it its claim to its pool, while nghttp3 keeps its pointer. *)
Theorem session_runs_safely conf io (s : session) x :
  conf_ready conf -> serviced conf s -> rtc (sys_step conf io pc_ok) (sys_start s) x ->
  no_fault x
  /\ forall p, p ∈ ss_stale (sy_sess (fst x)) ->
       exists st, ss_heap (sy_sess (fst x)) !! p = Some st /\ st_body_truncated st = true.
Proof.
  intros (H1 & H2 & H3)%ready_conf Hs Hr. destruct (serviced_conn conf s H1 H2 Hs) as [c Hc].
  pose proof (reach_ok conf io H1 H2 H3 c s x Hs Hc Hr) as Hok.
  split; [by apply (sys_ok_no_fault conf H1 H2 H3 c)|]. by eapply ci_stale, sys_ok_core.
Qed.

(** C10 (invariant): in every reachable state [active_tasks] is the number of tasks that
    have not finished whenever the event thread is between two turns, and once the session
    has been destroyed no task is left that could use it. *)
Theorem tasks_counted conf io (s : session) x :
  conf_ready conf -> serviced conf s -> rtc (sys_step conf io pc_ok) (sys_start s) x ->
  (sy_alive (fst x) = true -> snd x = Finished ->
     ss_active_tasks (sy_sess (fst x)) = Z.of_nat (unfinished (sy_workers (fst x))))
  /\ (sy_alive (fst x) = false -> forall p t, (p, t) ∈ sy_workers (fst x) -> t = Finished).
Proof.
  intros (H1 & H2 & H3)%ready_conf Hs Hr.
  destruct (serviced_conn conf s H1 H2 Hs) as [c Hcn].
  destruct (reach_ok conf io H1 H2 H3 c s x Hs Hcn Hr) as (g & s0 & Hg & Hm & Hev). split.
  - intros Ha Hf. rewrite Hf in Hev. inversion Hev; subst; [|by destruct Hg; congruence].
    destruct Hg as [L1 L2 Lc L3 L4 L5 L6 L7]. rewrite L5, Z.add_0_r. apply wrap32_small. lia.
  - intros Ha p t. destruct g as [r i quiet|]; [by rewrite (lv_alive _ _ _ _ _ _ Hg) in Ha|].
    apply unfinished_none. by destruct Hg as (_ & ? & _).
Qed.

(** C8 (invariant): in every reachable state of a session that is alive the count of
    write-blocked streams is the number of tracked streams marked so, every tracked id
    leads to the stream of that id, and no QUIC object has two owners: those the streams
    hold, those waiting to be freed, those freed and the connection are all different. *)
Theorem session_bookkeeping conf io (s : session) x :
  conf_ready conf -> serviced conf s -> rtc (sys_step conf io pc_ok) (sys_start s) x ->
  sy_alive (fst x) = true ->
  let s' := sy_sess (fst x) in
  ss_blocked s' = Z.of_nat (size (blocked_map s'))
  /\ (forall sid p, ss_streams s' !! sid = Some p ->
        exists st, ss_heap s' !! p = Some st /\ st_stream_id st = sid)
  /\ NoDup (held (ss_heap s') ++ ss_pending_free s' ++ ss_freed s' ++ option_list (ss_qconn s')).
Proof.
  intros (H1 & H2 & H3)%ready_conf Hs Hr Ha.
  destruct (serviced_conn conf s H1 H2 Hs) as [c Hcn].
  destruct (reach_ok conf io H1 H2 H3 c s x Hs Hcn Hr) as (g & s0 & Hg & Hm & Hev).
  destruct g as [r i quiet|]; [|by destruct Hg; congruence].
  destruct (si_core _ _ (lv_sess _ _ _ _ _ _ Hg)) as [C1 C2 C3 C4 C5 C6 C7 C8]. by split_and!.
Qed.

(** What a stream's buffers hold. *)
Lemma stream_buffers conf (s : session) p st :
  conf_ready conf -> sess_inv conf s -> ss_heap s !! p = Some st ->
  exists sub pend, rq_inv (st_resp st) sub pend /\ rq_limit (st_resp st) = h3_stream_buffer_size conf.
Proof.
  intros Hr Hs Hp. destruct (si_acct _ _ Hs _ _ Hp) as (a & [(sub & pend & Hi & ->) Hl] & _).
  exists sub, pend. split; [done|]. simpl in Hl. rewrite Hl. unfold stream_limit.
  destruct (Z.eqb_spec (h3_stream_buffer_size conf) 0); [|done]. pose proof (rd_buffer _ Hr). lia.
Qed.

(** C9 (type): in every reachable state of a session that is alive each of its streams is
    well formed.  Its request body has the length recorded, read up to an offset within it,
    in a buffer of at most [H3MaxRequestBodySize]; its response chunks are linked from head
    to tail without a cycle and nothing else is allocated for it, the next to submit is the
    first that was not handed out, and [response_buffered] is the number of bytes not yet
    acknowledged, at most [H3StreamBufferSize]; a stream without a QUIC stream is
    cancelled, and its pool is destroyed only after a worker was given it and returned. *)
Theorem streams_well_formed conf io (s : session) x p st :
  conf_ready conf -> serviced conf s -> rtc (sys_step conf io pc_ok) (sys_start s) x ->
  sy_alive (fst x) = true -> ss_heap (sy_sess (fst x)) !! p = Some st ->
  let b := st_body st in
  let q := st_resp st in
  (rb_len b = blen (rb_data b) /\ 0 <= rb_offset b <= rb_len b
     /\ rb_len b <= rb_capacity b <= h3_max_request_body_size conf)
  /\ (exists sent pending, lq_rep (rq_q q) (sent ++ pending)
        /\ rq_submit_chunk q = fst <$> head pending
        /\ rq_buffered q = blen (queue_bytes (sent ++ pending))
        /\ rq_buffered q <= h3_stream_buffer_size conf /\ 0 <= rq_len q <= SIZE_MAX)
  /\ (st_qstream st = None -> rq_cancelled q = true)
  /\ (st_pool st = false -> st_worker_done st = true /\ st_dispatched st = true).
Proof.
  intros Hready Hs Hr Ha Hp b q. destruct (ready_conf _ Hready) as (H1 & H2 & H3).
  destruct (serviced_conn conf s H1 H2 Hs) as [c Hcn].
  destruct (reach_ok conf io H1 H2 H3 c s x Hs Hcn Hr) as (g & s0 & Hg & Hm & Hev).
  destruct g as [r i quiet|]; [|by destruct Hg; congruence]. pose proof (lv_sess _ _ _ _ _ _ Hg) as Hi.
  destruct (ci_stream _ _ (si_core _ _ Hi) _ _ Hp) as ([B1 B2 B3] & O2 & O3 & O4).
  destruct (stream_buffers conf _ p st Hready Hi Hp) as (sub & pend & [Q1 Q2 _ _ _ Q6 Q7 _ Q9] & Hl).
  split; [exact (conj B1 (conj B2 B3))|]. split; [|split; [done|]; intros Hpl; destruct (O3 Hpl); auto].
  rewrite Hl in Q7. exists sub, pend. exact (conj Q1 (conj Q2 (conj Q6 (conj Q7 Q9)))).
Qed.

(** C26 (functional): destroying a session frees its connection and the QUIC streams queued
    to be freed, and the response chunks of every tracked stream; a QUIC stream that a
    stream still holds, as the control streams do until the end, is not freed. *)
Theorem session_destroy_frees conf (s : session) c :
  conf_ready conf -> sess_inv conf s -> ss_qconn s = Some c ->
  exists s', h3_session_destroy s = Ret tt s'
    /\ ss_ngh3 s' = None /\ ss_qconn s' = None /\ ss_pending_free s' = []
    /\ c ∈ ss_freed s' /\ (forall h, h ∈ ss_pending_free s -> h ∈ ss_freed s')
    /\ (forall p, tracked s p -> exists st', ss_heap s' !! p = Some st' /\ drained st')
    /\ (forall p st h, ss_heap s !! p = Some st -> st_qstream st = Some h -> h ∉ ss_freed s').
Proof.
  intros (H1 & H2 & H3)%ready_conf Hs Hc.
  pose proof (wp_session_destroy conf H1 H2 s c (sess_closed conf _ Hs) Hc) as W. unfold wp in W.
  destruct (h3_session_destroy s) as [[] s'| |s'] eqn:Ed; [|done|by destruct (destroy_fuel_free s s')].
  destruct W as (_ & _ & W1 & W2 & W3 & W4 & W5).
  assert (Hrev : rev (ss_pending_free s) ≡ₚ ss_pending_free s) by (symmetry; apply Permutation_rev).
  exists s'. split_and!; try done.
  - rewrite W4. by left.
  - intros h Hh. rewrite W4, Hrev. set_solver.
  - intros p (st & Hp & Ht). destruct (W5 p st Hp) as (st' & Hp' & _ & Hd). exists st'.
    split; [done|]. apply Hd. by exists st.
  - intros p st h Hp Hq Hin. rewrite W4 in Hin.
    pose proof (ci_owned _ _ (si_core _ _ Hs)) as Hnd. unfold owned in Hnd. rewrite Hc in Hnd.
    apply NoDup_app in Hnd as (_ & Hno & _). apply (Hno h).
    + rewrite (held_lookup _ _ _ Hp), Hq. by left.
    + simpl. rewrite Hrev in Hin. set_solver.
Qed.

End Claims.

(** ** A run

    One session on the small instances: the peer's stream is accepted, drained and
    dispatched, its worker answers, and the session is shut down and destroyed. *)

Abbreviation toy_state := (@system toy_ngh toy_ssl * thread (@system toy_ngh toy_ssl))%type.

(** Runs the event thread, or the last task, until it has finished. *)
Fixpoint run_event (fuel : nat) (x : toy_state) : toy_state :=
  match fuel, snd x with
  | S k, Atomic m =>
      match m (fst x) with Ret o y' => run_event k (y', default (Atomic m) o) | _ => x end
  | _, _ => x
  end.

Fixpoint run_worker (fuel : nat) (x : toy_state) : toy_state :=
  match fuel, sy_workers (fst x) with
  | S k, [(p, Atomic m)] =>
      match on_sess m (fst x) with
      | Ret o y' => run_worker k (set_sy_workers [(p, default (Atomic m) o)] y', snd x)
      | _ => x
      end
  | _, _ => x
  end.

Definition toy_pass (running : bool) : @pass_calls toy_ngh toy_ssl toy_httpd :=
  PassCalls running running 1 2 true 5 (fun _ => (true, true)) 5 (fun _ => (DispatchCalls true true, toy_worker)).

Definition start_turn (running : bool) (x : toy_state) : toy_state :=
  (fst x, session_turn toy_conf true (toy_pass running) turn_end).

Abbreviation toy_step := (sys_step toy_conf true (pc_ok (N := toy_ngh) (E := toy_ssl))).

Lemma run_event_steps P fuel x : rtc (sys_step toy_conf true P) x (run_event fuel x).
Proof.
  revert x. induction fuel as [|k IH]; intros [y ev]; [done|]. simpl. destruct ev as [|m]; [done|].
  destruct (m y) as [o y'| |] eqn:Em; [|done|done]. eapply rtc_l; [eexists; by apply step_event|apply IH].
Qed.

Lemma run_worker_steps P fuel x : rtc (sys_step toy_conf true P) x (run_worker fuel x).
Proof.
  revert x. induction fuel as [|k IH]; intros [y ev]; [done|]. cbn [run_worker fst snd].
  destruct (sy_workers y) as [|[p [|m]] [|]] eqn:Ew; try done.
  destruct (on_sess m y) as [o y'| |] eqn:Em; [|done|done].
  eapply rtc_l; [eexists; by apply (step_worker _ _ _ y ev [] p m [] o y')|apply IH].
Qed.

Lemma toy_pass_ok running : pc_ok (toy_pass running).
Proof.
  split; [|done]. intros p r a. simpl. repeat first [apply Forall_cons_2|apply Forall_nil_2|done].
Qed.

Lemma start_turn_steps running x :
  snd x = Finished -> sy_alive (fst x) = true -> rtc toy_step x (start_turn running x).
Proof.
  destruct x as [y ev]. simpl. intros -> Ha. apply rtc_once. eexists. apply step_turn; [done|apply toy_pass_ok].
Qed.

(** The session as it is spawned, after the turn that dispatches the request, after its
    worker, and after the turn that ends it. *)
Definition run_states (o : option (@h3_session toy_ngh toy_ssl))
    : option (toy_state * toy_state * toy_state * toy_state) :=
  s ← o;
  let x0 := sys_start s in
  let x1 := run_event 50 (start_turn true x0) in
  let x2 := run_worker 50 x1 in
  Some (x0, x1, x2, run_event 50 (start_turn false x2)).

Lemma toy_conf_ready : conf_ready toy_conf.
Proof. apply resolve_defaults_ready; [by split; vm_compute|done]. Qed.

Lemma toy_spawned_serviced env s : toy_spawned env = Some s -> serviced toy_conf s.
Proof.
  unfold toy_spawned, toy_created. destruct (h3_session_create _ _ _ _ _) as [[s0|] rv] eqn:Ec; [|done].
  cbn [fst mbind option_bind]. destruct (h3_session_create_control_streams _ _ _ _ s0) as [r s1| |] eqn:Ect;
    [|done|done].
  destruct r; try done. intros [= <-]. exists 5%positive, env, 1%positive, s0, (true, true), (true, true), (true, true).
  split_and!; [done| |done]. rewrite Ec. f_equal. unfold h3_session_create in Ec.
  destruct ngh_server_new; by injection Ec.
Qed.

Lemma toy_session_serviced s : toy_session = Some s -> serviced toy_conf s.
Proof. apply toy_spawned_serviced. Qed.

(** The states are as described. *)
Definition check_states (o : option (toy_state * toy_state * toy_state * toy_state)) : bool :=
  match o with
  | Some (x0, x1, x2, x3) =>
      sy_alive (fst x1) && (unfinished (sy_workers (fst x1)) =? 1)%nat && negb (running (snd x1))
      && sy_alive (fst x2) && negb (running (snd x2))
      && bool_decide (tn_submitted <$> ss_ngh3 (sy_sess (fst x2)) = Some [32])
      && negb (sy_alive (fst x3)) && bool_decide (ss_freed (sy_sess (fst x3)) = [1%positive])
  | None => false
  end.

Lemma toy_states_checked : check_states (run_states toy_session) = true.
Proof. vm_cast_no_check (eq_refl true). Qed.

Lemma check_states_some o : check_states o = true -> is_Some o.
Proof. by destruct o; [eexists|]. Qed.

Lemma running_false {S} (t : thread S) : running t = false -> t = Finished.
Proof. by destruct t. Qed.

Lemma check_states_facts x0 x1 x2 x3 :
  check_states (Some (x0, x1, x2, x3)) = true ->
  (sy_alive (fst x1) = true /\ unfinished (sy_workers (fst x1)) = 1%nat /\ snd x1 = Finished)
  /\ (sy_alive (fst x2) = true /\ snd x2 = Finished) /\ sy_alive (fst x3) = false.
Proof.
  intros Hc. cbn [check_states] in Hc.
  rewrite !andb_true_iff, Nat.eqb_eq, !negb_true_iff in Hc.
  destruct Hc as [[[[[[[A B] C] D] F] _] G] _]. split_and!; try done; by apply running_false.
Qed.

Lemma some_inj4 {A B C D} (a a' : A) (b b' : B) (c c' : C) (d d' : D) :
  Some (a, b, c, d) = Some (a', b', c', d') -> a = a' /\ b = b' /\ c = c' /\ d = d'.
Proof. intros Heq. by simplify_eq. Qed.

Lemma run_states_reach s x0 x1 x2 x3 :
  run_states (Some s) = Some (x0, x1, x2, x3) -> check_states (Some (x0, x1, x2, x3)) = true ->
  rtc toy_step (sys_start s) x1 /\ rtc toy_step (sys_start s) x2 /\ rtc toy_step (sys_start s) x3.
Proof.
  intros He Hc. destruct (check_states_facts _ _ _ _ Hc) as (_ & (Ha & Hf) & _).
  unfold run_states, mbind, option_bind in He. cbv zeta in He. apply some_inj4 in He as (E0 & E1 & E2 & E3).
  assert (H1 : rtc toy_step (sys_start s) x1).
  { rewrite <- E1. etrans; [by apply (start_turn_steps true)|apply run_event_steps]. }
  assert (H2 : rtc toy_step (sys_start s) x2).
  { rewrite <- E2, E1. etrans; [exact H1|apply run_worker_steps]. }
  split_and!; [done|done|].
  rewrite <- E3, E2. etrans; [exact H2|]. etrans; [by apply (start_turn_steps false)|apply run_event_steps].
Qed.

(** The states of the run exist and are reached from a spawned session. *)
Lemma toy_run :
  exists s x0 x1 x2 x3, run_states toy_session = Some (x0, x1, x2, x3) /\ serviced toy_conf s
    /\ rtc toy_step (sys_start s) x1 /\ rtc toy_step (sys_start s) x2 /\ rtc toy_step (sys_start s) x3
    /\ check_states (Some (x0, x1, x2, x3)) = true.
Proof.
  pose proof toy_states_checked as Hc. pose proof toy_session_serviced as Hs.
  revert Hc Hs. generalize toy_session. intros o Hc Hs.
  destruct (check_states_some _ Hc) as [[[[x0 x1] x2] x3] He]. rewrite He in Hc.
  destruct o as [s|]; [|done]. exists s, x0, x1, x2, x3.
  destruct (run_states_reach s x0 x1 x2 x3 He Hc) as (H1 & H2 & H3). split_and!; auto.
Qed.

Lemma session_runs_safely_witness :
  exists x0 x1 x2 x3, run_states toy_session = Some (x0, x1, x2, x3)
    /\ no_fault x1 /\ no_fault x2 /\ no_fault x3
    /\ forall p, p ∈ ss_stale (sy_sess (fst x3)) -> is_Some (ss_heap (sy_sess (fst x3)) !! p).
Proof.
  destruct toy_run as (s & x0 & x1 & x2 & x3 & He & Hs & H1 & H2 & H3 & _). exists x0, x1, x2, x3.
  split_and!; [exact He|by apply (session_runs_safely toy_conf true s _ toy_conf_ready Hs)..|].
  intros p Hp. destruct (session_runs_safely toy_conf true s x3 toy_conf_ready Hs H3) as [_ Hst].
  destruct (Hst p Hp) as (st & Hst' & _). by exists st.
Defined.

Lemma tasks_counted_witness :
  exists x0 x1 x2 x3, run_states toy_session = Some (x0, x1, x2, x3)
    /\ ss_active_tasks (sy_sess (fst x1)) = 1
    /\ forall p t, (p, t) ∈ sy_workers (fst x3) -> t = Finished.
Proof.
  destruct toy_run as (s & x0 & x1 & x2 & x3 & He & Hs & H1 & H2 & H3 & Hc). exists x0, x1, x2, x3.
  destruct (check_states_facts _ _ _ _ Hc) as ((Ha & Hu & Hf) & _ & Hd). split_and!; [exact He|..].
  - destruct (tasks_counted toy_conf true s x1 toy_conf_ready Hs H1) as [Ht _]. by rewrite Ht, Hu.
  - by apply (tasks_counted toy_conf true s x3 toy_conf_ready Hs H3).
Defined.

Lemma session_bookkeeping_witness :
  exists x0 x1 x2 x3, run_states toy_session = Some (x0, x1, x2, x3)
    /\ NoDup (held (ss_heap (sy_sess (fst x2))) ++ ss_pending_free (sy_sess (fst x2))
              ++ ss_freed (sy_sess (fst x2)) ++ option_list (ss_qconn (sy_sess (fst x2)))).
Proof.
  destruct toy_run as (s & x0 & x1 & x2 & x3 & He & Hs & H1 & H2 & H3 & Hc). exists x0, x1, x2, x3.
  destruct (check_states_facts _ _ _ _ Hc) as (_ & (Ha & _) & _). split; [exact He|].
  apply (session_bookkeeping toy_conf true s x2 toy_conf_ready Hs H2 Ha).
Defined.

(** The objects of a session that has just been spawned. *)
Definition check_session (o : option (@h3_session toy_ngh toy_ssl)) : bool :=
  match o with
  | Some s => bool_decide (ss_qconn s = Some 1%positive)
      && bool_decide (st_qstream <$> ss_heap s !! 1%positive = Some (Some 5%positive))
      && bool_decide (st_qstream <$> ss_heap s !! 2%positive = Some (Some 6%positive))
  | None => false
  end.

Lemma toy_session_checked : check_session toy_session = true.
Proof. vm_cast_no_check (eq_refl true). Qed.

Lemma toy_session_objects :
  exists s st1 st2, toy_session = Some s /\ serviced toy_conf s /\ ss_qconn s = Some 1%positive
    /\ (ss_heap s !! 1%positive = Some st1 /\ st_qstream st1 = Some 5%positive)
    /\ (ss_heap s !! 2%positive = Some st2 /\ st_qstream st2 = Some 6%positive).
Proof.
  pose proof toy_session_checked as Hf. pose proof toy_session_serviced as Hs.
  revert Hf Hs. generalize toy_session. intros [s|] Hf Hs; [|done]. cbn [check_session] in Hf.
  rewrite !andb_true_iff, !bool_decide_eq_true in Hf. destruct Hf as ((Hq & F1) & F2).
  apply fmap_Some in F1 as (st1 & Hp1 & Hq1). apply fmap_Some in F2 as (st2 & Hp2 & Hq2).
  exists s, st1, st2. split_and!; auto.
Qed.

Lemma streams_well_formed_witness :
  exists s st, toy_session = Some s /\ ss_heap s !! 1%positive = Some st
    /\ rq_buffered (st_resp st) <= h3_stream_buffer_size toy_conf
    /\ rb_capacity (st_body st) <= h3_max_request_body_size toy_conf.
Proof.
  destruct toy_session_objects as (s & st1 & st2 & Es & Hsv & _ & [Hp1 _] & _).
  destruct (streams_well_formed toy_conf true s (sys_start s) 1%positive st1 toy_conf_ready Hsv
    (rtc_refl _ _) eq_refl Hp1) as ((_ & _ & Hb) & (sub & pend & _ & _ & _ & Hq & _) & _).
  exists s, st1. exact (conj Es (conj Hp1 (conj Hq (proj2 Hb)))).
Defined.

Lemma session_destroy_frees_witness :
  exists s s', toy_session = Some s /\ h3_session_destroy s = Ret tt s' /\ 1%positive ∈ ss_freed s'
    /\ 5%positive ∉ ss_freed s' /\ 6%positive ∉ ss_freed s'.
Proof.
  destruct toy_session_objects as (s & st1 & st2 & Es & Hsv & Hq & [Hp1 Hq1] & Hp2 & Hq2).
  destruct (ready_conf _ toy_conf_ready) as (R1 & R2 & _).
  destruct (serviced_inv toy_conf R1 R2 s Hsv) as [Hs _].
  destruct (session_destroy_frees toy_conf s 1%positive toy_conf_ready Hs Hq)
    as (s' & He & _ & _ & _ & Hc & _ & _ & Hn).
  exists s, s'. split_and!; [exact Es|done|done|exact (Hn _ _ _ Hp1 Hq1)|exact (Hn _ _ _ Hp2 Hq2)].
Defined.
