(* ===== verification/Complete.v ===== *)
(** * Which requests a pass hands on (h3_stream.c)

    [drain_ready_streams] returns the requests that have become complete, and the event
    thread queues a task for each.  Shown here: a pass always returns, and what it returns
    are distinct requests of the table, each with its head and its body complete and not
    dispatched.  A request counts as complete when reading its QUIC stream has ended, for
    whatever reason: also when the peer has reset it.  After the pass exactly the closed
    requests whose worker has returned are gone from the table, with their pools. *)

From S2P Require Import Prelude Effects LinkedQueue RespQueue Config Body Quic Stream.
From S2P Require Import Session SessionInv SessionSafe Request Frame Toy Drain Workers Service System.

Lemma reclaimable_spec st :
  reclaimable st = true <->
  st_is_bidi st = true /\ H3_SID_IS_SERVER (st_stream_id st) = false /\ st_done st = true
  /\ st_qstream st = None /\ st_dispatched st = true /\ st_worker_done st = true.
Proof. unfold reclaimable. rewrite !andb_true_iff, negb_true_iff, bool_decide_eq_true. tauto. Qed.

Section Complete.
Context {N E : Type} {NG : Nghttp3 N} {QS : QuicStreams E} {QC : QuicConns E} {AH : AprHash}.
Context (conf : h3_server_conf) (io : bool).
Abbreviation session := (@h3_session N E).
Implicit Types (s : session) (st : h3_stream) (p : sptr).

(** ** A pass returns *)

Lemma fuel_free_env {A} (f : E -> E * A) : fuel_free (on_env f : M session A).
Proof. intros s s'. unfold on_env. by destruct (f (ss_env s)). Qed.

Lemma fuel_free_call {R} (g : N -> prog N R) : fuel_free (call_ngh conf g : M session R).
Proof.
  unfold call_ngh, get_ngh. apply fuel_free_bind; [fuel_free|]. intros n. generalize (g n). intros pr.
  induction pr as [n1 r|n1 cb ud k IH]; cbn [run_prog]; unfold put_ngh, get_ngh; [fuel_free|].
  apply fuel_free_bind; [fuel_free|]. intros _. apply fuel_free_bind.
  - unfold callback, on_begin_headers, on_ngh, get_ngh, put_ngh, get_stream, q_reset, use. fuel_free.
  - intros r. apply fuel_free_bind; [fuel_free|]. intros n'. apply IH.
Qed.

(** By the structure of the code, as [solve_preserves]. *)
Ltac drain_fuel_free :=
  repeat lazymatch goal with
  | |- fuel_free (call_ngh _ _) => apply fuel_free_call
  | |- fuel_free (on_env _) => apply fuel_free_env
  | |- fuel_free (mbind _ _) => apply fuel_free_bind; [|intros ?]
  | |- fuel_free (for_each _ _) => apply fuel_free_for_each; intros ?
  | |- fuel_free (if ?b then _ else _) => destruct b
  | |- fuel_free (match ?x with _ => _ end) => destruct x
  | |- fuel_free _ =>
      first [ apply fuel_free_ret | apply fuel_free_gets | apply fuel_free_modify | apply fuel_free_nonnull
            | apply fuel_free_check | match goal with IH : _ |- _ => apply IH end ]
  end.

Lemma fuel_free_feed_fin p : fuel_free (feed_stream_fin conf p : M session unit).
Proof. unfold feed_stream_fin, get_stream, mark_ngh3_dead, when. drain_fuel_free. Qed.

Lemma fuel_free_drain_one p reads left read : fuel_free (drain_one_stream conf io p reads left read : M session _).
Proof.
  pose proof (fuel_free_feed_fin p) as Hf.
  assert (Hr : forall buf reads left read, fuel_free (drain_reads conf io p buf reads left read : M session _)).
  { intros buf reads0. induction reads0 as [|k IH]; intros; cbn [drain_reads];
      unfold get_stream, q_read, use, count_read, mark_ngh3_dead, when; drain_fuel_free. }
  unfold drain_one_stream, get_stream, q_is_read_finished, use. drain_fuel_free.
Qed.

Lemma fuel_free_drain : fuel_free (drain_ready_streams conf io : M session _).
Proof.
  assert (Hs : forall total walk it acc, fuel_free (take_snapshot total it walk acc : M session _)).
  { intros total walk. induction walk as [|[sid p] walk IH]; intros; cbn [take_snapshot]; drain_fuel_free. }
  pose proof fuel_free_drain_one as Ho.
  assert (Hp : forall snap start todo off reads left read acc,
    fuel_free (drain_pass conf io snap start off todo reads left read acc : M session _)).
  { intros snap start todo. induction todo as [|k IH]; intros; cbn [drain_pass]; unfold get_stream; drain_fuel_free. }
  unfold drain_ready_streams, reclaim, get_stream. drain_fuel_free.
Qed.

(** ** What it reports *)

(** Every stream goes forward. *)
Definition progresses s s' : Prop :=
  forall p st, ss_heap s !! p = Some st -> exists st', ss_heap s' !! p = Some st' /\ advances st st'.

#[export] Instance progresses_preorder : PreOrder progresses.
Proof.
  split; [intros s p st Hp; by exists st|]. intros s1 s2 s3 H1 H2 p st Hp.
  destruct (H1 _ _ Hp) as (st2 & Hp2 & A2), (H2 _ _ Hp2) as (st3 & Hp3 & A3). exists st3. split; [done|by etrans].
Qed.

Lemma progresses_same s s' : ss_heap s' = ss_heap s -> progresses s s'.
Proof. intros Hh p st Hp. exists st. by rewrite Hh. Qed.

Lemma progresses_store s s' p st st' :
  ss_heap s !! p = Some st -> ss_heap s' = <[p := st']> (ss_heap s) -> advances st st' -> progresses s s'.
Proof.
  intros Hp Hh Ha q x Hq. rewrite Hh. destruct (decide (q = p)) as [->|Hne].
  - rewrite lookup_insert_eq. exists st'. split; [done|]. congruence.
  - rewrite lookup_insert_ne by done. by exists x.
Qed.

#[export] Instance progresses_frame : DrainFrame progresses.
Proof.
  split; [split; [split|..]|..]; try apply _; try (intros; by apply progresses_same).
  intros s p st st' Hp Ha. by eapply progresses_store.
Qed.

Definition ready_in s p : Prop := exists st, ss_heap s !! p = Some st /\ ready_to_dispatch st = true.

Lemma ready_progresses s s' p : progresses s s' -> ready_in s p -> ready_in s' p.
Proof.
  intros Hs (st & Hp & Hr). destruct (Hs _ _ Hp) as (st' & Hp' & Ha). exists st'. split; [done|].
  by eapply advances_ready.
Qed.

(** What [drain_one_stream] answers is read off the stream it leaves. *)
Lemma drain_one_ready p reads left read s ready r s' :
  drain_one_stream conf io p reads left read s = Ret (ready, r) s' ->
  exists st', ss_heap s' !! p = Some st' /\ ready = ready_to_dispatch st'.
Proof.
  intros He. unfold drain_one_stream in He. binv He u s1 H1. binv He st s2 H2. binv He fins s3 H3.
  destruct (fst fins).
  - binv He v s4 H4. binv He st4 s5 H5. binv He w s6 H6. binv He st7 s7 H7. apply get_stream_inv in H7 as [Hp ->].
    injection He as <- _ <-. by exists st7.
  - binv He lft s4 H4. binv He st5 s5 H5. apply get_stream_inv in H5 as [Hp ->]. injection He as <- _ <-. by exists st5.
Qed.

Lemma walk_reports ps reads left read acc s c read' rest s' :
  walk_streams conf io ps reads left read acc s = Ret (c, read', rest) s' -> Forall (ready_in s) acc ->
  progresses s s' /\ Forall (ready_in s') c /\ exists l, c = acc ++ l /\ l `sublist_of` ps.
Proof.
  revert reads left read acc s. induction ps as [|p ps IH]; intros reads left read acc s He Ha; cbn [walk_streams] in He.
  { injection He as <- _ _ <-. split_and!; [reflexivity|done|]. exists []. by rewrite app_nil_r. }
  binv He dead s1 H1. injection H1 as <- <-. destruct (ss_ngh3_dead s).
  { injection He as <- _ _ <-. split_and!; [reflexivity|done|]. exists []. rewrite app_nil_r. split; [done|apply sublist_nil_l]. }
  binv He st s1 H1. apply get_stream_inv in H1 as [_ ->]. destruct (_ || _ || _).
  { destruct (IH _ _ _ _ _ He Ha) as (H1 & H2 & l & -> & Hl). split_and!; [done|done|]. exists l. by split; [|constructor]. }
  binv He o s1 H1. destruct o as [ready [[reads1 left1] read1]].
  pose proof (frame_drain_one conf io progresses _ _ _ _ _ _ _ H1) as Hp1. apply drain_one_ready in H1 as (st1 & Hst1 & ->).
  binv He dead s2 H2. injection H2 as <- <-.
  assert (Ha1 : Forall (ready_in s1) acc) by (eapply Forall_impl; [exact Ha|]; intros q; by apply ready_progresses).
  set (acc' := if _ && _ then acc ++ [p] else acc) in He.
  assert (Forall (ready_in s1) acc' /\ exists l1, acc' = acc ++ l1 /\ l1 `sublist_of` [p]) as [Ha' (l1 & El1 & Hl1)].
  { subst acc'. destruct (ready_to_dispatch st1) eqn:Er; simpl; [destruct (ss_ngh3_dead s1); simpl|].
    - split; [done|]. exists []. rewrite app_nil_r. split; [done|apply sublist_nil_l].
    - split; [|by exists [p]]. apply Forall_app_2; [done|]. apply Forall_singleton. by exists st1.
    - split; [done|]. exists []. rewrite app_nil_r. split; [done|apply sublist_nil_l]. }
  clearbody acc'. subst acc'. destruct (_ || _).
  - injection He as <- _ _ <-. split_and!; [done|done|]. exists l1. split; [done|]. etrans; [exact Hl1|].
    apply sublist_skip, sublist_nil_l.
  - destruct (IH _ _ _ _ _ He Ha') as (H2 & H3 & l & -> & Hl). split_and!; [by etrans|done|]. exists (l1 ++ l).
    split; [by rewrite app_assoc|]. change (p :: ps) with ([p] ++ ps). by apply sublist_app.
Qed.

Lemma pass_reports (snap : list sptr) start reads left read s c read' s' :
  0 <= start -> drain_pass conf io snap start 0 (length snap) reads left read [] s = Ret (c, read') s' ->
  Forall (ready_in s') c /\ exists l, c `sublist_of` l /\ l ≡ₚ snap.
Proof.
  intros Hs He. set (l := rotate (Z.to_nat start) snap).
  pose proof (drain_pass_walk conf io snap start [] l reads left read [] s Hs eq_refl) as Hw.
  assert (Hlen : length l = length snap) by apply length_rotate.
  rewrite Hlen in Hw. change (Z.of_nat (length [])) with 0 in Hw. rewrite He in Hw.
  symmetry in Hw. binv Hw o s1 H1. destruct o as [[c1 read1] rest].
  destruct (walk_reports _ _ _ _ _ _ _ _ _ _ H1) as (_ & Hr & l1 & -> & Hl); [by apply Forall_nil|].
  assert (c = l1 /\ ss_heap s' = ss_heap s1) as [-> Hh].
  { unfold finish_walk in Hw. destruct rest; simpl in Hw; by injection Hw as <- _ <-. }
  split.
  - eapply Forall_impl; [exact Hr|]. intros p. apply ready_progresses. by apply progresses_same.
  - exists l. split; [done|]. unfold l, rotate. rewrite (Permutation_app_comm (drop _ _)). by rewrite take_drop.
Qed.

Lemma progresses_reclaim p : preserves progresses (reclaim p : M session unit).
Proof.
  intros s u s' He. unfold reclaim in He. binv He st s1 H1. apply get_stream_inv in H1 as [Hp ->].
  destruct (negb _); [by injection He as _ <-|]. binv He q s1 H1.
  destruct (h3_stream_response_cleanup_locked _) as [q'|]; [|done].
  injection H1 as <- <-. injection He as _ <-.
  eapply (progresses_store _ _ p st); [exact Hp| |].
  - destruct (st_write_blocked st).
    + by rewrite (upd_stream_eq (set_ss_blocked (ss_blocked s - 1) s) p st _ Hp).
    + by rewrite (upd_stream_eq s p st _ Hp).
  - by split.
Qed.

(** A request that is ready is not reclaimed. *)
Lemma ready_not_reclaimable s p st :
  ss_heap s !! p = Some st -> ready_in s p -> reclaimable st = false.
Proof.
  intros Hp (st' & Hp' & Hr). assert (st' = st) as -> by congruence. unfold ready_to_dispatch in Hr.
  rewrite !andb_true_iff, negb_true_iff in Hr. destruct Hr as [_ Hd]. unfold reclaimable.
  by rewrite Hd, andb_false_r.
Qed.

(** What [drain_one_stream] makes of a stream that cannot be read any more. *)
Lemma drain_finished p reads left read s st h ready r s' :
  ss_heap s !! p = Some st -> st_qstream st = Some h -> fst (qs_read_finished (ss_env s) h) = true ->
  drain_one_stream conf io p reads left read s = Ret (ready, r) s' ->
  r = (reads, left, read) /\ exists st', ss_heap s' !! p = Some st' /\ st_body_complete st' = true.
Proof.
  intros Hp Hq Hf He. unfold drain_one_stream in He. binv He u s1 H1. injection H1 as _ <-.
  set (s1 := if _ || _ then _ else _) in He.
  assert (ss_heap s1 = ss_heap s /\ ss_env s1 = ss_env s) as [Hh1 He1] by (unfold s1; by case_match). clearbody s1.
  rewrite <- Hh1 in Hp. rewrite <- He1 in Hf. binv He st1 s2 H2. apply get_stream_inv in H2 as [Hp1 ->].
  assert (st1 = st) as -> by congruence. rewrite Hq in He. binv He fins s2 H2.
  unfold q_is_read_finished in H2. binv H2 v s3 H3. apply use_inv in H3 as ->. injection H2 as <- <-.
  rewrite Hf in He. binv He v2 s2 H2.
  assert (Hb : exists st2, ss_heap s2 !! p = Some st2 /\ st_body_complete st2 = true).
  { destruct (st_body_complete st) eqn:Eb; simpl in H2; [injection H2 as _ <-; by exists st|].
    unfold feed_stream_fin in H2. binv H2 st3 s4 H4. binv H2 c s5 H5. binv H2 w s6 H6. injection H2 as _ <-.
    apply get_stream_inv in H4 as [_ ->].
    destruct (frame_call conf progresses _ _ _ _ H5 _ _ Hp) as (st5 & Hp5 & _).
    assert (Hp6 : ss_heap s6 !! p = Some st5) by (unfold when in H6; destruct (c <? 0); by injection H6 as _ <-).
    exists (set_st_body_complete true st5). rewrite (upd_stream_eq _ _ _ _ Hp6). simpl. by rewrite lookup_insert_eq. }
  destruct Hb as (st2 & Hp2 & Hb2). binv He st3 s3 H3. apply get_stream_inv in H3 as [_ ->]. binv He w s3 H3.
  assert (Hpr : progresses s2 s3).
  { destruct (_ && _); [by eapply (frame_call conf progresses)|by injection H3 as _ <-]. }
  destruct (Hpr _ _ Hp2) as (st4 & Hp4 & Ha4). binv He st5 s5 H5. apply get_stream_inv in H5 as [_ ->].
  injection He as _ <- <-. split; [done|]. exists st4. split; [done|]. by apply (av_body _ _ Ha4).
Qed.

Context (Hbuf : 0 < h3_stream_buffer_size conf <= SIZE_MAX).

(** *** Reclaiming *)

(** What becomes of a stream that is reclaimed. *)
Definition reclaimed st st' : Prop :=
  exists rq, st' = set_st_pool false (set_st_resp rq (set_st_write_blocked false st)) /\ drained st'.

Lemma reclaim_one s p st u s' :
  sess_inv conf s -> ss_heap s !! p = Some st -> reclaim p s = Ret u s' ->
  if reclaimable st then
    ss_streams s' = delete (st_stream_id st) (ss_streams s)
    /\ exists st', reclaimed st st' /\ ss_heap s' = <[p := st']> (ss_heap s)
  else s' = s.
Proof.
  intros Hs Hp He. unfold reclaim in He. rewrite (bind_ret _ _ _ _ _ (get_stream_ret _ _ _ Hp)) in He.
  destruct (reclaimable st) eqn:Er; simpl in He; [|by injection He as _ <-].
  destruct (resp_ok_cleanup conf _ _ (si_acct _ _ Hs _ _ Hp)) as (rq & Hcl & _ & _ & _). rewrite Hcl in He.
  injection He as _ <-. split; [by destruct (st_write_blocked st)|].
  exists (set_st_pool false (set_st_resp rq (set_st_write_blocked false st))). split.
  - exists rq. split; [done|]. apply (cleanup_drained conf (st_resp st)); [|done].
    eexists. by apply (si_acct _ _ Hs _ _ Hp).
  - unfold upd_stream. destruct (st_write_blocked st); simpl; by apply (alter_insert_eq (ss_heap s) p st).
Qed.

(** Reclaiming a list of streams decides about each of them and touches no other. *)
Definition settles s s' p st : Prop :=
  exists st', ss_heap s' !! p = Some st'
    /\ if reclaimable st then reclaimed st st' /\ ss_streams s' !! st_stream_id st = None
       else st' = st /\ ss_streams s' !! st_stream_id st = Some p.

Lemma reclaim_all_exact l s u s' :
  sess_inv conf s -> NoDup l -> Forall (tracked s) l -> for_each reclaim l s = Ret u s' ->
  (forall q, q ∉ l -> ss_heap s' !! q = ss_heap s !! q)
  /\ (forall sid, (forall p, ss_streams s !! sid = Some p -> p ∉ l) -> ss_streams s' !! sid = ss_streams s !! sid)
  /\ forall p st, p ∈ l -> ss_heap s !! p = Some st -> settles s s' p st.
Proof.
  revert s. induction l as [|q l IH]; intros s Hs Hnd Hl He; cbn [for_each] in He.
  { injection He as _ <-. split_and!; [done|done|]. by intros p st ?%elem_of_nil. }
  apply NoDup_cons in Hnd as [Hno Hnd]. apply Forall_cons in Hl as [Hq Hl]. binv He v s1 H1.
  pose proof (wp_reclaim conf Hbuf s q Hs Hq) as Hw. unfold wp in Hw. rewrite H1 in Hw. destruct Hw as (Hs1 & _ & Hk).
  destruct Hq as (stq & Hstq & Htq). pose proof (reclaim_one s q stq v s1 Hs Hstq H1) as Hone.
  assert (Hl1 : Forall (tracked s1) l).
  { rewrite Forall_forall in *. intros x Hx. apply Hk; [|by apply Hl]. by intros ->. }
  destruct (IH s1 Hs1 Hnd Hl1 He) as (IH1 & IH2 & IH3).
  assert (Hheap : forall x, x <> q -> ss_heap s1 !! x = ss_heap s !! x).
  { intros x Hx. destruct (reclaimable stq); [|by rewrite Hone].
    destruct Hone as (_ & st' & _ & ->). by rewrite lookup_insert_ne. }
  split_and!.
  - intros x [Hx1 Hx2]%not_elem_of_cons. rewrite IH1 by done. by apply Hheap.
  - intros sid Hsid. assert (Hst : ss_streams s1 !! sid = ss_streams s !! sid).
    { destruct (reclaimable stq); [|by rewrite Hone]. destruct Hone as [-> _]. apply lookup_delete_ne.
      intros <-. apply (Hsid q Htq). by left. }
    rewrite <- Hst. apply IH2. intros p. rewrite Hst. intros Hp%Hsid. set_solver.
  - intros p st [->|Hp]%elem_of_cons Hst.
    + assert (stq = st) as -> by congruence. unfold settles. rewrite IH1 by done.
      destruct (reclaimable st).
      * destruct Hone as (E1 & st' & Hr & ->). exists st'. rewrite lookup_insert_eq. split_and!; [done|done|].
        rewrite IH2; rewrite E1, lookup_delete_eq; done.
      * subst s1. exists st. split_and!; [done|done|]. rewrite IH2; [done|]. intros p'. rewrite Htq. by intros [= <-].
    + assert (p <> q) by (by intros ->). apply IH3; [done|]. by rewrite Hheap.
Qed.

Lemma reclaim_keeps l s u s' p :
  sess_inv conf s -> NoDup l -> Forall (tracked s) l -> for_each reclaim l s = Ret u s' ->
  ready_in s p -> tracked s p -> ready_in s' p /\ tracked s' p.
Proof.
  revert s. induction l as [|q l IH]; intros s Hs Hnd Hl He Hr Ht; cbn [for_each] in He.
  { by injection He as _ <-. }
  apply NoDup_cons in Hnd as [Hno Hnd]. apply Forall_cons in Hl as [Hq Hl]. binv He v s1 H1.
  pose proof (wp_reclaim conf Hbuf s q Hs Hq) as Hw. unfold wp in Hw. rewrite H1 in Hw. destruct Hw as (Hs1 & _ & Hk).
  pose proof (progresses_reclaim q s v s1 H1) as Hp1. eapply (IH s1); [done|done| |exact He| |].
  - rewrite Forall_forall in *. intros x Hx. apply Hk; [|by apply Hl]. by intros ->.
  - by eapply ready_progresses.
  - destruct (decide (p = q)) as [->|Hne]; [|by apply Hk]. unfold reclaim in H1. binv H1 st s2 H2.
    apply get_stream_inv in H2 as [Hst ->]. rewrite (ready_not_reclaimable s q st Hst Hr) in H1. by injection H1 as _ <-.
Qed.

End Complete.

(** ** The claims *)

Section Claims.
Context {N E : Type} {NG : Nghttp3 N} {NGS : Nghttp3Spec N NG}.
Context {QS : QuicStreams E} {QSS : QuicStreamsSpec E QS} {QC : QuicConns E} {QCS : QuicConnsSpec E QC}.
Context {AH : AprHash} {H : Httpd}.
Implicit Types (s : @h3_session N E).

(** A pass over the streams, then the reclaiming. *)
Lemma pass_split conf io s r s' :
  conf_ready conf -> sess_inv conf s -> drain_ready_streams conf io s = Ret r s' ->
  let snap := snd <$> hash_walk (ss_streams s) in
  exists start s2 u, 0 <= start
    /\ drain_pass conf io snap start 0 (length snap) H3_STREAM_DRAIN_READ_BUDGET H3_STREAM_DRAIN_BYTE_BUDGET false [] s
       = Ret r s2
    /\ for_each reclaim snap s2 = Ret u s' /\ sess_inv conf s2 /\ ss_streams s2 = ss_streams s
    /\ NoDup snap /\ Forall (tracked s) snap /\ Forall (tracked s2) snap /\ forall p, p ∈ fst r -> p ∈ snap.
Proof.
  intros (Hb1 & Hb2 & _)%ready_conf Hs He snap.
  destruct (snapshot_tracked conf s (si_core _ _ Hs)) as [Hnd Htr]. fold snap in Hnd, Htr.
  unfold drain_ready_streams in He. rewrite (bind_ret (gets ss_streams) _ s s (ss_streams s)) in He by done.
  rewrite (bind_ret _ _ s s snap) in He.
  2:{ rewrite take_snapshot_all; [done|]. rewrite hash_walk_perm, length_map_to_list. lia. }
  rewrite (bind_ret (gets ss_cursor) _ s s (ss_cursor s)) in He by done.
  binv He r1 s2 H2. binv He u s3 H3. injection He as -> <-.
  match type of H2 with drain_pass _ _ _ ?x _ _ _ _ _ _ _ = _ => set (start := x) in * end.
  assert (Hv : forall p, p ∈ snap -> valid s p).
  { intros p Hp. rewrite Forall_forall in Htr. destruct (Htr p Hp) as (st & ? & _). by eexists. }
  pose proof (wp_drain_pass conf io Hb1 Hb2 snap start 0 (length snap) H3_STREAM_DRAIN_READ_BUDGET
    H3_STREAM_DRAIN_BYTE_BUDGET false [] s Hs Hv) as Hw.
  unfold wp in Hw. rewrite H2 in Hw. destruct Hw as (Hs2 & Hle & Ht2 & Hin); [done|done|by intros p ?%elem_of_nil|].
  exists start, s2, u. split_and!; try done.
  - unfold start. case_bool_decide as Hsn; [done|]. apply Z.mod_pos_bound. destruct snap; [done|]. simpl. lia.
  - eapply Forall_impl; [exact Htr|]. intros p. by apply tracked_le.
Qed.

Lemma pass_returns conf io s :
  conf_ready conf -> sess_inv conf s ->
  exists r s', drain_ready_streams conf io s = Ret r s' /\ sess_inv conf s'.
Proof.
  intros (Hb1 & Hb2 & _)%ready_conf Hs. pose proof (wp_drain_ready_streams conf io Hb1 Hb2 s Hs) as Hw. unfold wp in Hw.
  destruct (drain_ready_streams conf io s) as [r s'| |s'] eqn:He; [|done|by destruct (fuel_free_drain conf io s s')].
  destruct Hw as (Hs' & _ & _). by exists r, s'.
Qed.

Lemma pass_exact conf io s :
  conf_ready conf -> sess_inv conf s ->
  exists completed read s', drain_ready_streams conf io s = Ret (completed, read) s'
    /\ sess_inv conf s' /\ NoDup completed
    /\ forall p, p ∈ completed -> ready_in s' p /\ tracked s' p /\ tracked s p.
Proof.
  intros Hc Hs. destruct (pass_returns conf io s Hc Hs) as ([completed read] & s' & He & Hs').
  exists completed, read, s'. split_and!; [done|done|..]; pose proof (ready_conf _ Hc) as (_ & Hb2 & _);
    destruct (pass_split conf io s _ s' Hc Hs He) as (start & s2 & u & Hst & H2 & H3 & Hs2 & Ht2 & Hnd & Htr & Htr2 & Hin);
    apply pass_reports in H2 as [Hr (l & Hsub & Hperm)]; try done; rewrite Forall_forall in Hr, Htr.
  - eapply sublist_NoDup; [|exact Hsub]. by rewrite Hperm.
  - intros p Hp. pose proof (proj1 (Forall_forall _ _) Htr2) as Htl.
    destruct (reclaim_keeps conf Hb2 _ s2 u s' p Hs2 Hnd Htr2 H3) as [K1 K2]; [by apply Hr|by apply Htl, Hin|].
    split_and!; [done|done|]. by apply Htr, Hin.
Qed.

Lemma reach_sess_inv conf io s x :
  conf_ready conf -> serviced conf s -> rtc (sys_step conf io pc_ok) (sys_start s) x ->
  sy_alive (fst x) = true -> sess_inv conf (sy_sess (fst x)).
Proof.
  intros (H1 & H2 & H3)%ready_conf Hs Hr Ha. destruct (serviced_conn conf s H1 H2 Hs) as [c Hcn].
  destruct (reach_ok conf io H1 H2 H3 c s x Hs Hcn Hr) as (g & s0 & Hg & Hm & Hev).
  destruct g as [r i quiet|]; [|by destruct Hg; congruence]. exact (lv_sess _ _ _ _ _ _ Hg).
Qed.

(** C22 (functional): in every reachable state a pass over the streams returns, and the
    requests it hands on are distinct streams of the table that the client opened in both
    directions, with head and body complete, none of them dispatched before; so no request
    is dispatched in parts and none twice by one pass. *)
Theorem pass_hands_on_complete conf io s x :
  conf_ready conf -> serviced conf s -> rtc (sys_step conf io pc_ok) (sys_start s) x ->
  sy_alive (fst x) = true ->
  exists completed read s', drain_ready_streams conf io (sy_sess (fst x)) = Ret (completed, read) s'
    /\ NoDup completed
    /\ forall p, p ∈ completed -> exists st, ss_heap s' !! p = Some st /\ ss_streams s' !! st_stream_id st = Some p
         /\ st_is_bidi st = true /\ st_headers_complete st = true /\ st_body_complete st = true
         /\ st_dispatched st = false.
Proof.
  intros Hc Hs Hr Ha. pose proof (reach_sess_inv conf io s x Hc Hs Hr Ha) as Hi.
  destruct (pass_exact conf io _ Hc Hi) as (completed & read & s' & He & _ & Hnd & Hp).
  exists completed, read, s'. split_and!; [done|done|]. intros p Hin.
  destruct (Hp p Hin) as ((st & Hst & Hrd) & (st' & Hst' & Ht) & _). assert (st' = st) as -> by congruence.
  unfold ready_to_dispatch in Hrd. rewrite !andb_true_iff, negb_true_iff in Hrd.
  destruct Hrd as [[[B1 B2] B3] B4]. exists st. by split_and!.
Qed.

(** C25 (functional): in every reachable state a pass over the streams returns, and after it
    a stream of the table has left the table exactly when it is a request of the peer that is
    done, has given up its QUIC stream, was dispatched and whose worker has returned; then
    its response chunks are freed, its pool is destroyed and it is not marked write-blocked.
    Any other stream is still in the table with its pool, also one that was closed before it
    was dispatched or whose worker has not returned; and no stream is added. *)
Theorem reclaim_exact conf io s x :
  conf_ready conf -> serviced conf s -> rtc (sys_step conf io pc_ok) (sys_start s) x ->
  sy_alive (fst x) = true ->
  exists r s', drain_ready_streams conf io (sy_sess (fst x)) = Ret r s'
    /\ (forall sid, ss_streams (sy_sess (fst x)) !! sid = None -> ss_streams s' !! sid = None)
    /\ forall sid p, ss_streams (sy_sess (fst x)) !! sid = Some p ->
       exists st, ss_heap s' !! p = Some st /\ st_stream_id st = sid
         /\ let finished := st_is_bidi st = true /\ H3_SID_IS_SERVER sid = false /\ st_done st = true
                 /\ st_qstream st = None /\ st_dispatched st = true /\ st_worker_done st = true in
            (finished -> ss_streams s' !! sid = None /\ st_pool st = false
                         /\ lq_heap (rq_q (st_resp st)) = ∅ /\ st_write_blocked st = false)
            /\ (~ finished -> ss_streams s' !! sid = Some p /\ st_pool st = true).
Proof.
  intros Hc Hsv Hr Ha. pose proof (reach_sess_inv conf io s x Hc Hsv Hr Ha) as Hs.
  set (s0 := sy_sess (fst x)) in *. destruct (pass_returns conf io s0 Hc Hs) as (r & s' & He & Hs').
  exists r, s'. split; [done|].
  destruct (pass_split conf io s0 r s' Hc Hs He) as (start & s2 & u & _ & _ & H3 & Hs2 & Ht2 & Hnd & Htr & Htr2 & _).
  pose proof (ready_conf _ Hc) as (_ & Hb2 & _).
  destruct (reclaim_all_exact conf Hb2 _ s2 u s' Hs2 Hnd Htr2 H3) as (_ & Hoth & Hall). split.
  { intros sid Hsid. rewrite <- Hsid, <- Ht2. apply Hoth. rewrite Ht2, Hsid. done. }
  intros sid p Hp. rewrite <- Ht2 in Hp. destruct (ci_table _ _ (si_core _ _ Hs2) _ _ Hp) as (st2 & Hst2 & Hid).
  assert (Hin : p ∈ snd <$> hash_walk (ss_streams s0)).
  { rewrite <- Ht2. apply list_elem_of_fmap. exists (sid, p). split; [done|]. rewrite hash_walk_perm.
    by apply elem_of_map_to_list. }
  destruct (Hall p st2 Hin Hst2) as (st' & Hst' & Hsplit). exists st'. split; [done|].
  pose proof (reclaimable_spec st2) as Hspec. rewrite Hid in Hspec, Hsplit. destruct (reclaimable st2).
  - destruct Hsplit as [(rq & -> & Hdr) Htab]. split; [done|]. cbn. split; [done|].
    intros Hn. destruct Hn. by apply Hspec.
  - destruct Hsplit as [-> Htab]. split; [done|]. cbn. split; [intros Hf; by apply Hspec in Hf|]. intros _.
    split; [done|]. by apply (ci_pool _ _ (si_core _ _ Hs2) sid p).
Qed.

End Claims.

(** ** Streams that were reset *)

Section Reset.
Context {N : Type} {NG : Nghttp3 N} {NGS : Nghttp3Spec N NG}.
Context {L : OpenSSL} {LS : OpenSSLSpec L}.
Implicit Types (s : @h3_session N ossl).

(** C28 (error): a request whose client resets the stream is handled as one that has ended.
    Whatever has arrived of its body, once the head is complete the next visit of the stream
    reads nothing, tells nghttp3 that the stream has ended, takes the body for complete and
    reports the request as ready to be dispatched. *)
Theorem reset_request_dispatched conf io s p st h reads left read :
  conf_ready conf -> sess_inv conf s -> 0 <= left <= SIZE_MAX ->
  ss_heap s !! p = Some st -> st_qstream st = Some h ->
  SSL_get_stream_read_state (ss_env s) h = SSL_STREAM_STATE_RESET_REMOTE ->
  st_is_bidi st = true -> st_headers_complete st = true -> st_dispatched st = false ->
  exists s', drain_one_stream conf io p reads left read s = Ret (true, (reads, left, read)) s'
    /\ exists st', ss_heap s' !! p = Some st' /\ st_body_complete st' = true.
Proof.
  intros (Hb1 & Hb2 & _)%ready_conf Hs Hl Hp Hq Hreset B1 B2 B3.
  pose proof (wp_drain_one_stream conf io Hb1 Hb2 p reads left read s st Hs Hp Hl) as Hw. unfold wp in Hw.
  destruct (drain_one_stream conf io p reads left read s) as [[ready r] s'| |s'] eqn:He; [|done|].
  2:{ by destruct (fuel_free_drain_one conf io p reads left read s s'). }
  assert (Hf : fst (qs_read_finished (ss_env s) h) = true).
  { simpl. by rewrite Hreset. }
  pose proof (frame_drain_one conf io progresses _ _ _ _ _ _ _ He _ _ Hp) as (st' & Hp' & Ha).
  destruct (drain_finished conf io p reads left read s st h ready r s' Hp Hq Hf He) as (-> & st1 & Hp1 & Hb').
  destruct (drain_one_ready _ _ _ _ _ _ _ _ _ _ He) as (st2 & Hp2 & ->).
  assert (st1 = st') as -> by congruence. assert (st2 = st') as -> by congruence.
  exists s'. split; [|by exists st']. do 2 f_equal. unfold ready_to_dispatch.
  by rewrite (av_bidi _ _ Ha), (av_dispatched _ _ Ha), (av_headers _ _ Ha B2), Hb', B1, B3.
Qed.

End Reset.

(** ** A run *)

(** The first turn of a session, stopped after [k] of its steps. *)
Definition turn_state (k : nat) (o : option (@h3_session toy_ngh toy_ssl)) : option toy_state :=
  s ← o; Some (run_event k (start_turn true (sys_start s))).

Lemma turn_state_reach k o x :
  turn_state k o = Some x -> (forall s, o = Some s -> serviced toy_conf s) ->
  exists s, serviced toy_conf s /\ rtc toy_step (sys_start s) x.
Proof.
  destruct o as [s|]; [|done]. unfold turn_state, mbind, option_bind. intros He Hs. injection He as <-. exists s.
  split; [auto|]. etrans; [by apply (start_turn_steps true)|apply run_event_steps].
Qed.

(** The streams that a pass reports, and the request's state before it: the stream is the
    fourth one and its QUIC stream 8. *)
Definition check_pass (o : option toy_state) : bool :=
  match o with
  | Some x =>
      sy_alive (fst x)
      && match drain_ready_streams toy_conf true (sy_sess (fst x)) with
         | Ret r _ => bool_decide (fst r = [4%positive])
         | _ => false
         end
      && bool_decide ((fun st => (st_qstream st, st_is_bidi st, st_dispatched st, st_body_complete st))
                      <$> ss_heap (sy_sess (fst x)) !! 4%positive = Some (Some 8%positive, true, false, false))
  | None => false
  end.

Lemma pass_checked : check_pass (turn_state 4 toy_session) = true.
Proof. vm_cast_no_check (eq_refl true). Qed.

Lemma check_pass_facts o :
  check_pass o = true -> exists x st, o = Some x /\ sy_alive (fst x) = true
    /\ (forall r s', drain_ready_streams toy_conf true (sy_sess (fst x)) = Ret r s' -> fst r = [4%positive])
    /\ ss_heap (sy_sess (fst x)) !! 4%positive = Some st /\ st_qstream st = Some 8%positive
    /\ st_is_bidi st = true /\ st_dispatched st = false /\ st_body_complete st = false.
Proof.
  destruct o as [x|]; [|done]. cbn [check_pass]. rewrite !andb_true_iff, bool_decide_eq_true. intros [[Ha Hd] Hh].
  destruct (ss_heap (sy_sess (fst x)) !! 4%positive) as [st|] eqn:Hst; [|done]. injection Hh as K1 K2 K3 K4.
  exists x, st. split_and!; try done; try exact Hst. intros r s' He. rewrite He in Hd. by apply bool_decide_eq_true in Hd.
Qed.

Lemma pass_hands_on_complete_witness :
  exists x read s' st, turn_state 4 toy_session = Some x
    /\ drain_ready_streams toy_conf true (sy_sess (fst x)) = Ret ([4%positive], read) s'
    /\ ss_heap s' !! 4%positive = Some st /\ st_body_complete st = true.
Proof.
  destruct (check_pass_facts _ pass_checked) as (x & st0 & Hx & Ha & Hd & _).
  destruct (turn_state_reach _ _ _ Hx toy_session_serviced) as (s & Hs & Hr).
  destruct (pass_hands_on_complete toy_conf true s x toy_conf_ready Hs Hr Ha) as (c & read & s' & He & _ & Hp).
  pose proof (Hd _ _ He) as Hc. simpl in Hc. subst c. destruct (Hp 4%positive) as (st & Hst & _ & _ & _ & Hb & _); [by left|].
  exists x, read, s', st. exact (conj Hx (conj He (conj Hst Hb))).
Defined.

(** A session whose peer resets the stream once the four bytes of the response have been
    sent: the turn that dispatches the request, its worker, and the turn that sends the
    response come before the pass. *)
Definition closed_states (n : nat) (o : option (@h3_session toy_ngh toy_ssl)) : option (toy_state * toy_state * toy_state) :=
  s ← o;
  let x1 := run_event n (start_turn true (sys_start s)) in
  let x2 := run_worker n x1 in
  Some (x1, x2, run_event n (start_turn true x2)).

Definition closing_session : option (@h3_session toy_ngh toy_ssl) :=
  toy_spawned (ToySSL 4 [] [] [Byte.x41; Byte.x42] 1 []).

Definition check_closed (o : option (toy_state * toy_state * toy_state)) : bool :=
  match o with
  | Some (x1, x2, x3) =>
      sy_alive (fst x2) && negb (running (snd x2)) && sy_alive (fst x3)
      && bool_decide (ss_streams (sy_sess (fst x3)) !! 32 = Some 4%positive)
      && match drain_ready_streams toy_conf true (sy_sess (fst x3)) with
         | Ret _ s' => bool_decide (ss_streams s' !! 32 = None)
         | _ => false
         end
  | None => false
  end.

Lemma closed_checked : check_closed (closed_states 50 closing_session) = true.
Proof. vm_cast_no_check (eq_refl true). Qed.

Lemma closed_facts n o :
  check_closed (closed_states n o) = true -> (forall s, o = Some s -> serviced toy_conf s) ->
  exists s x, serviced toy_conf s /\ rtc toy_step (sys_start s) x /\ sy_alive (fst x) = true
    /\ ss_streams (sy_sess (fst x)) !! 32 = Some 4%positive
    /\ forall r s', drain_ready_streams toy_conf true (sy_sess (fst x)) = Ret r s' -> ss_streams s' !! 32 = None.
Proof.
  intros Hc Hs. destruct o as [s|]; [|done]. cbn [closed_states mbind option_bind check_closed] in Hc.
  set (x1 := run_event n (start_turn true (sys_start s))) in Hc. set (x2 := run_worker n x1) in Hc.
  set (x3 := run_event n (start_turn true x2)) in Hc. cbv zeta in Hc. cbn [check_closed] in Hc.
  rewrite !andb_true_iff, negb_true_iff, bool_decide_eq_true in Hc.
  destruct Hc as ((((A1 & A2) & A3) & A4) & A5). apply running_false in A2. exists s, x3.
  split_and!; [auto| |exact A3|exact A4|].
  - etrans; [by apply (start_turn_steps true)|]. etrans; [apply (run_event_steps _ n)|]. fold x1.
    etrans; [apply (run_worker_steps _ n)|]. fold x2. etrans; [by apply (start_turn_steps true)|].
    apply (run_event_steps _ n).
  - intros r s' He. rewrite He in A5. by apply bool_decide_eq_true in A5.
Qed.

Lemma reclaim_exact_witness :
  exists s x r s' st, serviced toy_conf s /\ rtc toy_step (sys_start s) x
    /\ drain_ready_streams toy_conf true (sy_sess (fst x)) = Ret r s'
    /\ ss_streams (sy_sess (fst x)) !! 32 = Some 4%positive /\ ss_streams s' !! 32 = None
    /\ ss_heap s' !! 4%positive = Some st /\ st_worker_done st = true /\ st_pool st = false.
Proof.
  destruct (closed_facts 50 _ closed_checked (toy_spawned_serviced _)) as (s & x & Hs & Hr & Ha & Ht & Hd).
  destruct (reclaim_exact toy_conf true s x toy_conf_ready Hs Hr Ha) as (r & s' & He & _ & Hall).
  destruct (Hall 32 4%positive Ht) as (st & Hst & _ & Hfin & Hno). pose proof (Hd r s' He) as Hgone.
  assert (Hf : st_worker_done st = true /\ st_pool st = false).
  { destruct (decide (st_worker_done st = true /\ st_pool st = false)) as [|Hn]; [done|exfalso].
    destruct Hno as [Hk _]; [|congruence]. intros Hf. apply Hn. split; [apply Hf|by apply Hfin]. }
  exists s, x, r, s', st. split_and!; [exact Hs|exact Hr|exact He|exact Ht|exact Hgone|exact Hst|apply Hf..].
Defined.

(** The same session when the head of the request has come and the client resets the stream. *)
Definition reset_state (s : @h3_session toy_ngh toy_ssl) : @h3_session toy_ngh toy_ssl :=
  set_ss_env (ToySSL (-1) [] [] [] 0 []) (upd_stream 4%positive (set_st_headers_complete true) s).

Lemma reset_state_inv s st :
  sess_inv toy_conf s -> ss_heap s !! 4%positive = Some st -> sess_inv toy_conf (reset_state s).
Proof.
  intros Hs Hp. destruct (ci_stream _ _ (si_core _ _ Hs) _ _ Hp) as (Hok1 & Hok2 & Hok3).
  destruct (inv_upd toy_conf s 4%positive st (set_st_headers_complete true st) Hs Hp) as [Hi _];
    [done|by split_and!|exact (conj Hok1 (conj Hok2 Hok3))|done|done|exact (si_acct _ _ Hs _ _ Hp)|].
  unfold reset_state. rewrite (upd_stream_eq _ _ _ _ Hp). eapply inv_ext; [exact Hi|]. by split.
Qed.

Lemma reset_request_dispatched_witness :
  exists x s', turn_state 4 toy_session = Some x
    /\ drain_one_stream toy_conf true 4%positive 256 100 false (reset_state (sy_sess (fst x)))
       = Ret (true, (256%nat, 100, false)) s'.
Proof.
  destruct (check_pass_facts _ pass_checked) as (x & st & Hx & Ha & _ & Hp & Hq & B1 & B2 & _).
  destruct (turn_state_reach _ _ _ Hx toy_session_serviced) as (s & Hs & Hr).
  pose proof (reach_sess_inv toy_conf true s x toy_conf_ready Hs Hr Ha) as Hi.
  destruct (reset_request_dispatched (L := toy_openssl) toy_conf true (reset_state (sy_sess (fst x))) 4%positive
    (set_st_headers_complete true st) 8%positive 256 100 false) as (s' & He & _).
  - exact toy_conf_ready.
  - by eapply reset_state_inv.
  - clear. unfold SIZE_MAX. lia.
  - unfold reset_state. rewrite (upd_stream_eq _ _ _ _ Hp). simpl. by rewrite lookup_insert_eq.
  - exact Hq.
  - reflexivity.
  - exact B1.
  - reflexivity.
  - exact B2.
  - exists x, s'. exact (conj Hx He).
Defined.
