(* ===== verification/Flow.v ===== *)
(** * Bytes between nghttp3 and QUIC: what all code leaves alone

    The session moves bytes in two directions: [drain_ready_streams] from QUIC to nghttp3,
    [flush_nghttp3] from nghttp3 to QUIC.  In each direction something is to be shown of
    every stream in every interleaving, although only one of the two functions does the
    work.  This file holds what the directions share: a [flow] says what is watched of
    nghttp3 and of the transport and how it may change; all code but the two functions is
    shown to leave it alone ([calm]), and once the two are dealt with, [flow_run] gives the
    property over all executions.  [Wire] and [Feed] are the directions. *)

From S2P Require Import Prelude Effects LinkedQueue RespQueue Config Body Quic Stream.
From S2P Require Import Session SessionInv SessionSafe Request Frame Workers Service System.

(** A call of nghttp3 with its callbacks, which may themselves call nghttp3, changes it
    within [le], and [Q] holds of its result. *)
Fixpoint prog_within {N R} (le : relation N) (Q : N -> R -> Prop) (n : N) (pr : prog N R) : Prop :=
  match pr with
  | Done n' r => le n n' /\ Q n' r
  | Call n' _ _ k => le n n' /\ forall n2 r, le n' n2 -> prog_within le Q n2 (k n2 r)
  end.

(** What is watched: [fl_ngh] relates the states of nghttp3 between which nothing moved,
    [fl_env f] those of the transport between which nothing moved but on [f], and [fl_link]
    is what shall hold of a stream and its QUIC stream between two states of the two. *)
Record flow (N E : Type) := Flow {
  fl_ngh : relation N;
  fl_env : option handle -> relation E;
  fl_link : E -> N -> E -> N -> Z -> handle -> Prop }.
Arguments fl_ngh {N E}.
Arguments fl_env {N E}.
Arguments fl_link {N E}.

(** The calls that belong to neither direction move nothing. *)
Class FlowSpec {N E : Type} (NG : Nghttp3 N) (QS : QuicStreams E) (QC : QuicConns E) (F : flow N E) := {
  fl_ngh_preorder :: PreOrder (fl_ngh F);
  fl_env_preorder f :: PreOrder (fl_env F f);
  fl_link_trans e1 n1 e2 n2 e3 n3 sid h :
    fl_link F e1 n1 e2 n2 sid h -> fl_link F e2 n2 e3 n3 sid h -> fl_link F e1 n1 e3 n3 sid h;
  fl_link_same f e n e' n' sid h :
    fl_env F f e e' -> fl_ngh F n n' -> Some h <> f -> fl_link F e n e' n' sid h;
  fl_block n sid : fl_ngh F n (ngh_block_stream n sid);
  fl_unblock n sid : fl_ngh F n (ngh_unblock_stream n sid);
  fl_resume n sid : fl_ngh F n (ngh_resume_stream n sid);
  fl_submit n sid nva : fl_ngh F n (fst (ngh_submit_response n sid nva));
  fl_user_data n sid p : fl_ngh F n (ngh_set_stream_user_data n sid p);
  fl_notice n : fl_ngh F n (ngh_submit_shutdown_notice n);
  fl_shutdown n : fl_ngh F n (ngh_shutdown n);
  fl_close n sid : prog_within (fl_ngh F) (fun _ _ => True) n (ngh_close_stream n sid);
  fl_ack n sid z : prog_within (fl_ngh F) (fun _ _ => True) n (ngh_add_ack_offset n sid z);
  fl_read_fin n sid : prog_within (fl_ngh F) (fun _ _ => True) n (ngh_read_stream n sid [] true);
  fl_reset e h err : fl_env F None e (qs_reset e h err);
  fl_free e h : fl_env F None e (qs_free e h);
  fl_accept e c f : fl_env F (Some f) e (fst (qc_accept_stream e c f));
  fl_conn_shutdown e c rapid code reason : fl_env F None e (fst (qc_shutdown e c rapid code reason));
  fl_conn_free e c : fl_env F None e (qc_free e c) }.

(** ** The streams and their QUIC streams *)

Section Streams.
Context {N E : Type} {NG : Nghttp3 N} {QS : QuicStreams E} {QC : QuicConns E}.
Abbreviation session := (@h3_session N E).
Implicit Types (s : session) (st : h3_stream) (p : sptr) (h : handle) (n : N).

(** The stream with this id is tracked and has this QUIC stream. *)
Definition holds s (sid : Z) h : Prop :=
  exists p st, ss_streams s !! sid = Some p /\ ss_heap s !! p = Some st /\ st_qstream st = Some h.

(** The QUIC stream of an id. *)
Definition quic_of s (sid : Z) : option handle :=
  p ← ss_streams s !! sid; st ← ss_heap s !! p; st_qstream st.

Lemma quic_holds s sid h : quic_of s sid = Some h -> holds s sid h.
Proof.
  unfold quic_of. destruct (ss_streams s !! sid) as [p|] eqn:Hp; [|done]. simpl.
  destruct (ss_heap s !! p) as [st|] eqn:Hs; [|done]. simpl. intros Hq. by exists p, st.
Qed.

(** No QUIC stream has two users, no stream two ids, and all exist. *)
Record tied s : Prop := {
  td_id : forall sid p st, ss_streams s !! sid = Some p -> ss_heap s !! p = Some st -> st_stream_id st = sid;
  td_inj : forall sid sid' p, ss_streams s !! sid = Some p -> ss_streams s !! sid' = Some p -> sid = sid';
  td_next : forall sid p, ss_streams s !! sid = Some p -> (p < ss_next s)%positive;
  td_one : forall sid sid' h, holds s sid h -> holds s sid' h -> sid = sid';
  td_old : forall sid h, holds s sid h -> (h < ss_fresh s)%positive }.

(** The QUIC stream of an id is unique. *)
Lemma holds_fun s sid h h' : holds s sid h -> holds s sid h' -> h = h'.
Proof. intros (p & st & H1 & H2 & H3) (p' & st' & H1' & H2' & H3'). congruence. Qed.

(** No stream is added, and none gets another id or another QUIC stream. *)
Record settled s s' : Prop := {
  se_fresh : ss_fresh s' = ss_fresh s;
  se_next : ss_next s' = ss_next s;
  se_table : forall sid p, ss_streams s' !! sid = Some p -> ss_streams s !! sid = Some p;
  se_heap : forall p st', ss_heap s' !! p = Some st' -> exists st, ss_heap s !! p = Some st
    /\ st_stream_id st' = st_stream_id st /\ forall h, st_qstream st' = Some h -> st_qstream st = Some h }.

#[export] Instance settled_preorder : PreOrder settled.
Proof.
  split; [intros s; split; eauto|]. intros s1 s2 s3 [A1 A2 A3 A4] [B1 B2 B3 B4].
  split; [congruence|congruence|auto|]. intros p st3 H3.
  destruct (B4 _ _ H3) as (st2 & H2 & I2 & K2), (A4 _ _ H2) as (st1 & H1 & I1 & K1).
  exists st1. split_and!; [done|congruence|auto].
Qed.

Lemma settled_holds s s' sid h : settled s s' -> holds s' sid h -> holds s sid h.
Proof.
  intros [_ _ A3 A4] (p & st' & H1 & H2 & H3). destruct (A4 _ _ H2) as (st & Hst & _ & Hk).
  exists p, st. auto.
Qed.

Lemma settled_tied s s' : settled s s' -> tied s -> tied s'.
Proof.
  intros Hs [T1 T2 T3 T4 T5]. pose proof (settled_holds s s') as Hh. destruct Hs as [A1 A2 A3 A4]. split.
  - intros sid p st' Hp Hst. destruct (A4 _ _ Hst) as (st & H1 & -> & _). eauto.
  - eauto.
  - intros sid p Hp. rewrite A2. eauto.
  - intros sid sid' h H1 H2. apply (T4 _ _ h); by apply Hh.
  - intros sid h Hx. rewrite A1. apply (T5 sid), Hh; done.
Qed.

(** The fields the streams are found by are the same. *)
Lemma settled_same s s' :
  ss_fresh s' = ss_fresh s -> ss_next s' = ss_next s ->
  ss_streams s' = ss_streams s -> ss_heap s' = ss_heap s -> settled s s'.
Proof. intros H1 H2 H3 H4. split; rewrite ?H1, ?H2, ?H3, ?H4; eauto. Qed.

Lemma core_tied conf s : core_inv conf s -> tied s.
Proof.
  intros [C1 C2 C3 C4 C5 C6 C7]. unfold owned in *. apply NoDup_app in C5 as [Hnd _].
  rewrite Forall_app in C6. destruct C6 as [Hfr _].
  assert (Hid : forall sid p st, ss_streams s !! sid = Some p -> ss_heap s !! p = Some st -> st_stream_id st = sid).
  { intros sid p st H1 H2. destruct (C1 _ _ H1) as (x & Hx & <-). congruence. }
  split; [done|..].
  - intros sid sid' p H1 H2. destruct (C1 _ _ H1) as (st & Hs & <-), (C1 _ _ H2) as (st' & Hs' & <-). congruence.
  - intros sid p H1. destruct (C1 _ _ H1) as (st & Hs & _). apply C2. by exists st.
  - intros sid sid' h (p & st & H1 & Hs & Hh) (p' & st' & H1' & Hs' & Hh').
    assert (p' = p) as ->.
    { destruct (decide (p' = p)) as [|Hne]; [done|].
      rewrite (held_lookup (ss_heap s) p st Hs), Hh in Hnd. simpl in Hnd. apply NoDup_cons in Hnd as [Hni _].
      destruct Hni. apply (held_elem _ p' st'); [|done]. by rewrite lookup_delete_ne. }
    rewrite <- (Hid _ _ _ H1 Hs). by apply (Hid _ p).
  - intros sid h (p & st & H1 & Hs & Hh). rewrite Forall_forall in Hfr. apply Hfr. by eapply held_elem.
Qed.

(** ** Calm code and flows *)

Context (F : flow N E) {FS : FlowSpec NG QS QC F}.

(** A connection object of nghttp3 is not created anew. *)
Definition ngh_le (o o' : option N) : Prop :=
  match o', o with Some n', Some n => fl_ngh F n n' | Some _, None => False | None, _ => True end.

Record calm s s' : Prop := {
  cm_settled : settled s s';
  cm_env : fl_env F None (ss_env s) (ss_env s');
  cm_ngh : ngh_le (ss_ngh3 s) (ss_ngh3 s') }.

(** Every stream that keeps its QUIC stream is linked, as long as there is an nghttp3. *)
Record flow_le s s' : Prop := {
  fw_fresh : (ss_fresh s <= ss_fresh s')%positive;
  fw_holds : forall sid h, holds s' sid h -> (h < ss_fresh s)%positive -> holds s sid h;
  fw_link : forall n', ss_ngh3 s' = Some n' -> exists n, ss_ngh3 s = Some n /\
    forall sid h, holds s' sid h -> (h < ss_fresh s)%positive -> fl_link F (ss_env s) n (ss_env s') n' sid h }.

Definition flows s s' : Prop := tied s -> tied s' /\ flow_le s s'.

Lemma flow_le_trans s1 s2 s3 : flow_le s1 s2 -> flow_le s2 s3 -> flow_le s1 s3.
Proof.
  intros [A1 A3 A4] [B1 B3 B4]. split; [lia| |].
  - intros sid h Hh Hlt. apply A3; [|done]. apply B3; [done|lia].
  - intros n3 Hn3. destruct (B4 n3 Hn3) as (n2 & Hn2 & Hb). destruct (A4 n2 Hn2) as (n1 & Hn1 & Ha).
    exists n1. split; [done|]. intros sid h Hh Hlt. assert (Hlt2 : (h < ss_fresh s2)%positive) by lia.
    eapply fl_link_trans; [apply Ha|apply Hb]; auto.
Qed.

#[export] Instance flows_preorder : PreOrder flows.
Proof.
  split.
  - intros s Ht. split; [done|]. split; [done|done|]. intros n' Hn. exists n'. split; [done|].
    intros sid h _ _. by apply (fl_link_same None).
  - intros s1 s2 s3 H1 H2 Ht1. destruct (H1 Ht1) as [Ht2 W1]. destruct (H2 Ht2) as [Ht3 W2].
    split; [done|by eapply flow_le_trans].
Qed.

Lemma ngh_le_refl o : ngh_le o o.
Proof. destruct o; simpl; [reflexivity|done]. Qed.

#[export] Instance calm_preorder : PreOrder calm.
Proof.
  split.
  - intros s. split; [reflexivity|reflexivity|apply ngh_le_refl].
  - intros s1 s2 s3 [A1 A2 A3] [B1 B2 B3]. split; [by etrans|by etrans|].
    destruct (ss_ngh3 s1), (ss_ngh3 s2), (ss_ngh3 s3); simpl in *; try done. by etrans.
Qed.

(** A step that moves bytes: it is enough to link the streams that have a QUIC stream. *)
Lemma settled_flows s s' n n' :
  settled s s' -> ss_ngh3 s = Some n -> ss_ngh3 s' = Some n' ->
  (tied s -> forall sid h, holds s sid h -> fl_link F (ss_env s) n (ss_env s') n' sid h) -> flows s s'.
Proof.
  intros Hs Hn Hn' Hl Ht. split; [by eapply settled_tied|].
  split; [rewrite (se_fresh _ _ Hs); lia|intros sid h Hh _; by eapply settled_holds|].
  intros n2 Hn2. exists n. split; [done|]. intros sid h Hh _. assert (n2 = n') as -> by congruence.
  apply Hl; [done|by eapply settled_holds].
Qed.

Lemma calm_flows s s' : calm s s' -> flows s s'.
Proof.
  intros [Hs He Hn]. destruct (ss_ngh3 s') as [n'|] eqn:En'.
  - destruct (ss_ngh3 s) as [n|] eqn:En; [|done]. eapply settled_flows; [done..|]. intros _ sid h _.
    by apply (fl_link_same None).
  - intros Ht. split; [by eapply settled_tied|].
    split; [rewrite (se_fresh _ _ Hs); lia|intros sid h Hh _; by eapply settled_holds|]. by rewrite En'.
Qed.

Lemma preserves_flows {A} (m : M session A) : preserves calm m -> preserves flows m.
Proof. intros Hm s a s' He. by eapply calm_flows, Hm. Qed.

(** The table and the streams are the same, or lose QUIC streams. *)
Lemma calm_same s s' :
  ss_fresh s' = ss_fresh s -> ss_next s' = ss_next s -> ss_env s' = ss_env s ->
  ss_streams s' = ss_streams s -> ss_heap s' = ss_heap s -> ss_ngh3 s' = ss_ngh3 s -> calm s s'.
Proof.
  intros H1 H6 H2 H3 H4 H5. split; [by apply settled_same|by rewrite H2|rewrite H5; apply ngh_le_refl].
Qed.

Definition keeps_q st st' : Prop :=
  st_stream_id st' = st_stream_id st /\ forall h, st_qstream st' = Some h -> st_qstream st = Some h.

Lemma calm_store s p st st' :
  ss_heap s !! p = Some st -> keeps_q st st' -> calm s (set_ss_heap (<[p := st']> (ss_heap s)) s).
Proof.
  intros Hp Hk. split; [|reflexivity|apply ngh_le_refl]. split; simpl; [done|done|done|].
  intros q x [[<- <-]|[Hne Hx]]%lookup_insert_Some; [by exists st|by exists x].
Qed.

Lemma calm_upd s p (g : h3_stream -> h3_stream) :
  (forall st, ss_heap s !! p = Some st -> keeps_q st (g st)) -> calm s (upd_stream p g s).
Proof.
  intros Hg. destruct (ss_heap s !! p) as [st|] eqn:Hp.
  - rewrite (upd_stream_eq _ _ _ _ Hp). apply (calm_store _ _ st); auto.
  - apply calm_same; try done. simpl. apply alter_id. intros x. by rewrite Hp.
Qed.

End Streams.

Create HintDb calm.

Ltac calm_same := apply calm_same; [apply _|done..].
Ltac calm_field := first [ calm_same | apply calm_upd; [apply _|done] ].

Ltac solve_calm :=
  solve_preserves ltac:(idtac; first [calm_field | solve [eauto with calm]])
    ltac:(idtac; solve [eauto with calm | match goal with IH : forall _, _ |- _ => apply IH end]).

(** ** Code that belongs to neither direction *)

Section Code.
Context {N E : Type} {NG : Nghttp3 N} {QS : QuicStreams E} {QC : QuicConns E} {QCS : QuicConnsSpec E QC} {AH : AprHash}.
Context (F : flow N E) {FS : FlowSpec NG QS QC F} (conf : h3_server_conf) (io : bool).
Abbreviation session := (@h3_session N E).
Abbreviation calm := (calm F).
Abbreviation flows := (flows F).
Implicit Types (s : session) (st : h3_stream) (p : sptr) (h : handle) (n : N).

(** A stream that is read before it is stored. *)
Lemma calm_get_stream {A} p (f : h3_stream -> M session A) :
  (forall st s a s', ss_heap s !! p = Some st -> f st s = Ret a s' -> calm s s') ->
  preserves calm (get_stream p ≫= f).
Proof.
  intros Hf s a s' He. binv He st s1 Hg. apply get_stream_inv in Hg as [Hg ->]. by eapply Hf.
Qed.

(** The same for one whose pool is used. *)
Lemma calm_noted s p b : calm s (note_stale p b s).
Proof. destruct b; [calm_same|reflexivity]. Qed.

Lemma calm_pool_user {A} p u (f : h3_stream -> M session A) :
  (forall st s a s', ss_heap s !! p = Some st -> f st s = Ret a s' -> calm s s') ->
  preserves calm (pool_user p u ≫= f).
Proof.
  intros Hf s a s' He. binv He st s1 Hg. apply pool_user_inv in Hg as [Hg ->].
  etrans; [apply calm_noted|]. eapply Hf; [|exact He]. by rewrite noted_heap.
Qed.

Lemma calm_put_ngh s n n' : ss_ngh3 s = Some n -> fl_ngh F n n' -> calm s (set_ss_ngh3 (Some n') s).
Proof. intros Hn Ho. split; [by apply settled_same|reflexivity|]. simpl. by rewrite Hn. Qed.

Lemma calm_on_ngh (g : N -> N) : (forall n, fl_ngh F n (g n)) -> preserves calm (on_ngh g : M session unit).
Proof.
  intros Hg s [] s' He. unfold on_ngh in He. binv He n s1 Hn. apply get_ngh_inv in Hn as [Hn ->].
  injection He as <-. by apply (calm_put_ngh s n).
Qed.

Lemma calm_set_env s e : fl_env F None (ss_env s) e -> calm s (set_ss_env e s).
Proof. intros He. split; [by apply settled_same|done|apply ngh_le_refl, _]. Qed.

Lemma calm_env {A} (g : E -> E * A) :
  (forall e, fl_env F None e (fst (g e))) -> preserves calm (on_env g : M session A).
Proof.
  intros Hg s a s'. unfold on_env. specialize (Hg (ss_env s)). destruct (g (ss_env s)) as [e b].
  intros [= _ <-]. by apply calm_set_env.
Qed.

Lemma calm_use h : preserves calm (use h : M session unit).
Proof. unfold use. solve_calm. Qed.

Lemma calm_get p : preserves calm (get_stream p : M session h3_stream).
Proof. unfold get_stream. solve_calm. Qed.

#[local] Hint Resolve calm_get : calm.

Lemma calm_get_live p : preserves calm (get_live p : M session h3_stream).
Proof. unfold get_live. solve_calm. Qed.

Lemma calm_get_ngh : preserves calm (get_ngh : M session N).
Proof. unfold get_ngh. solve_calm. Qed.

#[local] Hint Resolve calm_use calm_get_live calm_get_ngh : calm.

Lemma calm_q_reset h err : preserves calm (q_reset h err : M session unit).
Proof. unfold q_reset. solve_calm. apply preserves_modify. intros s. apply calm_set_env, fl_reset. Qed.

Lemma calm_queue_free s o : calm s (h3_session_queue_free o s).
Proof. destruct o; [calm_same|reflexivity]. Qed.

Lemma keeps_recv_header t nm v st : keeps_q st (snd (on_recv_header t nm v st)).
Proof. destruct (recv_header_frame t nm v st) as [hd ->]. by split. Qed.

(** A new state of the stream that was read. *)
Lemma calm_answer s p st st' o (r a : cb_reply) s' :
  ss_heap s !! p = Some st -> keeps_q st st' ->
  (modify (fun s => upd_stream p (fun _ => st') (h3_session_queue_free o s)) ;; mret r) s = Ret a s' ->
  calm s s'.
Proof.
  intros Hp Hk [= _ <-]. etrans; [apply (calm_queue_free s o)|]. apply calm_upd; [done|]. intros x Hx.
  assert (x = st) as -> by (destruct o; simpl in Hx; congruence). done.
Qed.

Lemma calm_begin_headers sid ud : preserves calm (on_begin_headers sid ud : M session cb_reply).
Proof.
  assert (Hb : forall p, preserves calm (modify (upd_stream p begin_headers) : M session unit)).
  { intros p. apply preserves_modify. intros s. apply calm_upd; [done|]. intros st _.
    destruct (begin_headers_frame st) as [hd ->]. by split. }
  assert (Hu : forall p, preserves calm (on_ngh (fun n => ngh_set_stream_user_data n sid p) : M session unit)).
  { intros p. apply calm_on_ngh. intros n. apply fl_user_data. }
  unfold on_begin_headers. apply preserves_bind; [apply _|solve_calm|]. intros pend.
  destruct (match ud with Some p => _ | None => _ end) as [p|]; [|solve_calm].
  apply calm_pool_user. intros st s a s' _ He. revert s a s' He. fold (preserves (A := cb_reply) calm).
  repeat (apply preserves_bind; [apply _| |intros []]); solve_calm. all: auto.
Qed.

Lemma calm_callback cb ud : preserves calm (callback conf cb ud : M session cb_reply).
Proof.
  destruct cb as [sid|t nm v|fin|d|z| |code| |cnt]; [apply calm_begin_headers|..];
    (destruct ud as [p|]; [|apply preserves_ret, _]); cbn [callback];
    first [apply calm_get_stream|apply calm_pool_user]; intros st s a s' Hp.
  - pose proof (keeps_recv_header t nm v st) as Hk. destruct (on_recv_header t nm v st) as [rv st'].
    by apply (calm_answer s p st st' None).
  - intros [= _ <-]. apply calm_upd; [done|]. intros x _. unfold on_end_headers. by destruct (st_is_bidi x), fin.
  - unfold on_recv_data. destruct (body_recv_data _ _ _ _) as [b|]; [|done].
    intros He. binv He st' s1 H1. injection H1 as <- <-. by apply (calm_answer s p st _ None _ _ _ Hp) in He.
  - unfold on_acked_stream_data. destruct (h3_stream_response_ack_locked _ _) as [r|]; [|done].
    intros He. binv He st' s1 H1. injection H1 as <- <-. by apply (calm_answer s p st _ None _ _ _ Hp) in He.
  - cbn [on_stop_sending]. by apply (calm_answer s p st).
  - cbn [on_reset_stream]. intros He. destruct (st_qstream st) as [h|] eqn:Eq.
    + binv He u s1 H1. etrans; [by eapply calm_q_reset|].
      assert (Hp1 : ss_heap s1 !! p = Some st).
      { unfold q_reset in H1. binv H1 v s2 H2. apply use_inv in H2 as ->. by injection H1 as _ <-. }
      by apply (calm_answer s1 p st _ None _ _ _ Hp1) in He.
    + by apply (calm_answer s p st _ None _ _ _ Hp) in He.
  - cbn [on_stream_close]. by apply (calm_answer s p st).
  - unfold stream_read_data. destruct (h3_session_read_data _ _) as [r|]; [|done].
    intros He. binv He st' s1 H1. injection H1 as <- <-. by apply (calm_answer s p st _ None _ _ _ Hp) in He.
Qed.

(** A call of nghttp3 with its callbacks. *)
Lemma run_prog_calm {R} (Q : N -> R -> Prop) (pr : prog N R) s n r s' :
  ss_ngh3 s = Some n -> prog_within (fl_ngh F) Q n pr -> run_prog conf pr s = Ret r s' ->
  calm s s' /\ exists n', ss_ngh3 s' = Some n' /\ Q n' r.
Proof.
  revert s n. induction pr as [n1 r1|n1 cb ud k IH]; intros s n Hn; cbn [prog_within run_prog].
  - intros [Ho HQ] [= <- <-]. split; [by apply (calm_put_ngh s n)|]. by exists n1.
  - intros [Ho Hk] He. binv He u s1 H1. injection H1 as _ <-. binv He a s2 H2. binv He n2 s3 H3.
    apply get_ngh_inv in H3 as [H3 ->]. pose proof (calm_callback _ _ _ _ _ H2) as Hc.
    destruct (IH n2 a s2 n2 H3) as [Hc2 HQ]; [|done|].
    { apply Hk. pose proof (cm_ngh _ _ _ Hc) as Hl. rewrite H3 in Hl. exact Hl. }
    split; [|done]. etrans; [by apply (calm_put_ngh s n)|]. by etrans.
Qed.

Lemma calm_call {R} (Q : N -> R -> Prop) (g : N -> prog N R) :
  (forall n, prog_within (fl_ngh F) Q n (g n)) -> preserves calm (call_ngh conf g : M session R).
Proof.
  intros Hg s r s' He. unfold call_ngh in He. binv He n s1 H1. apply get_ngh_inv in H1 as [H1 ->].
  by destruct (run_prog_calm Q (g n) s n r s') as [Hc _].
Qed.

#[local] Hint Resolve calm_q_reset calm_callback calm_same calm_set_env : calm.

Lemma calm_count_written z : preserves calm (count_written io z : M session unit).
Proof. unfold count_written. solve_calm. Qed.

Lemma calm_count_read z : preserves calm (count_read io z : M session unit).
Proof. unfold count_read. solve_calm. Qed.

Lemma calm_mark_dead z : preserves calm (mark_ngh3_dead z : M session unit).
Proof. unfold mark_ngh3_dead. solve_calm. Qed.

Lemma calm_q_stream_free h : preserves calm (q_stream_free h : M session unit).
Proof.
  unfold q_stream_free. solve_calm. apply preserves_modify. intros s.
  etrans; [apply calm_set_env, fl_free|calm_same].
Qed.

Lemma calm_q_conn_free h : preserves calm (q_conn_free h : M session unit).
Proof.
  unfold q_conn_free. solve_calm. apply preserves_modify. intros s.
  etrans; [apply calm_set_env, fl_conn_free|calm_same].
Qed.

Lemma calm_q_fins h : preserves calm (q_is_read_finished h : M session (bool * bool)).
Proof. unfold q_is_read_finished. solve_calm. Qed.

Lemma calm_q_blocked h : preserves calm (q_is_write_blocked h : M session bool).
Proof. unfold q_is_write_blocked. solve_calm. Qed.

Lemma calm_unblock sid : preserves calm (on_ngh (fun n => ngh_unblock_stream n sid) : M session unit).
Proof. apply calm_on_ngh. intros n. apply fl_unblock. Qed.

Lemma calm_block sid : preserves calm (on_ngh (fun n => ngh_block_stream n sid) : M session unit).
Proof. apply calm_on_ngh. intros n. apply fl_block. Qed.

Lemma calm_resume sid : preserves calm (on_ngh (fun n => ngh_resume_stream n sid) : M session unit).
Proof. apply calm_on_ngh. intros n. apply fl_resume. Qed.

Lemma calm_ack sid z : preserves calm (call_ngh conf (fun g => ngh_add_ack_offset g sid z) : M session unit).
Proof. eapply calm_call. intros n. apply fl_ack. Qed.

Lemma calm_read_fin sid : preserves calm (call_ngh conf (fun g => ngh_read_stream g sid [] true) : M session Z).
Proof. eapply calm_call. intros n. apply fl_read_fin. Qed.

Lemma calm_close_stream sid : preserves calm (call_ngh conf (fun g => ngh_close_stream g sid) : M session unit).
Proof. eapply calm_call. intros n. apply fl_close. Qed.

#[local] Hint Resolve calm_count_written calm_count_read calm_mark_dead calm_q_stream_free calm_q_conn_free
  calm_q_fins calm_q_blocked calm_unblock calm_block calm_resume calm_ack calm_read_fin
  calm_close_stream : calm.

(** Storing a flag of a stream together with a counter. *)
Lemma calm_upd_blocked z p b s :
  calm s (set_ss_blocked z (upd_stream p (set_st_write_blocked b) s)).
Proof. etrans; [by apply (calm_upd F s p (set_st_write_blocked b))|calm_same]. Qed.

#[local] Hint Resolve calm_upd_blocked : calm.

Lemma calm_unblock_all : preserves calm (unblock_writable_streams : M session unit).
Proof. unfold unblock_writable_streams, unblock_stream. solve_calm. Qed.

Lemma calm_free_pending : preserves calm (free_pending : M session unit).
Proof. unfold free_pending. solve_calm. Qed.

Lemma calm_feed_fin p : preserves calm (feed_stream_fin conf p : M session unit).
Proof. unfold feed_stream_fin. solve_calm. Qed.

Lemma calm_snapshot total it walk acc : preserves calm (take_snapshot total it walk acc : M session _).
Proof.
  revert it acc. induction walk as [|[sid p] walk IH]; intros; cbn [take_snapshot]; solve_calm.
Qed.

(** Forgetting a stream. *)
Lemma calm_forget s sid z p (g : h3_stream -> h3_stream) :
  (forall st, keeps_q st (g st)) ->
  calm s (set_ss_streams (delete sid (ss_streams s)) (upd_stream p g (set_ss_blocked z s))).
Proof.
  intros Hg. transitivity (set_ss_blocked z s); [calm_same|].
  transitivity (upd_stream p g (set_ss_blocked z s)); [by apply calm_upd; auto|].
  split; [|reflexivity|apply ngh_le_refl, _]. split; simpl; [done|done| |eauto].
  intros sid1 p1. by intros [_ ?]%lookup_delete_Some.
Qed.

Lemma calm_reclaim p : preserves calm (reclaim p : M session unit).
Proof.
  unfold reclaim. solve_calm. apply preserves_modify. intros s.
  pose proof (fun z => calm_forget s (st_stream_id a) z p
    (fun x => set_st_pool false (set_st_resp a0 (set_st_write_blocked false x)))) as Hf.
  destruct (st_write_blocked a); [by apply (Hf (ss_blocked s - 1))|].
  specialize (Hf (ss_blocked s)). replace (set_ss_blocked (ss_blocked s) s) with s in Hf by (by destruct s).
  by apply Hf.
Qed.

#[local] Hint Resolve calm_unblock_all calm_free_pending calm_feed_fin calm_snapshot calm_reclaim : calm.

Lemma calm_destroy : preserves calm (h3_session_destroy : M session unit).
Proof.
  unfold h3_session_destroy, destroy_stream. solve_calm; apply preserves_modify; intros s.
  split; [by apply settled_same|reflexivity|done].
Qed.
(** *** Accepting a stream *)

(** A new QUIC stream, or none. *)
Lemma flows_accept_stream s o s' :
  q_accept_stream s = Ret o s' -> flows s s' /\ (forall sid h, holds s' sid h -> holds s sid h)
    /\ (forall h, o = Some h -> (ss_fresh s <= h)%positive /\ (h < ss_fresh s')%positive).
Proof.
  unfold q_accept_stream. intros He. binv He c s1 H1. apply q_conn_inv in H1 as ->.
  unfold q_create in He. pose proof (fl_accept (F := F) (ss_env s) c (ss_fresh s)) as Hw.
  destruct (qc_accept_stream (ss_env s) c (ss_fresh s)) as [e o'] eqn:Ea. injection He as <- <-. simpl in Hw.
  split_and!; [|done|].
  - intros [T0 T3 T4 T1 T2]. split.
    { split; [done|done|done|done|]. intros sid h Hh. specialize (T2 sid h Hh). simpl. lia. }
    split; [simpl; lia|done|]. intros n' Hn'. exists n'. split; [done|]. intros sid h Hh Hlt.
    apply (fl_link_same (Some (ss_fresh s))); [done|reflexivity|]. intros [= ->]. lia.
  - intros h ->. apply qc_accept_fresh in Ea as ->. simpl. lia.
Qed.

(** What tracking changes: the id gets the new QUIC stream. *)
Record tracked_new (sid : Z) h s s' : Prop := {
  tn_fresh : ss_fresh s' = ss_fresh s;
  tn_env : ss_env s' = ss_env s;
  tn_ngh3 : ss_ngh3 s' = ss_ngh3 s;
  tn_holds : forall sid' x, holds s' sid' x -> (sid' = sid /\ x = h) \/ holds s sid' x;
  tn_id : forall sid' p st, ss_streams s' !! sid' = Some p -> ss_heap s' !! p = Some st -> st_stream_id st = sid';
  tn_inj : forall sid1 sid2 p, ss_streams s' !! sid1 = Some p -> ss_streams s' !! sid2 = Some p -> sid1 = sid2;
  tn_next : forall sid' p, ss_streams s' !! sid' = Some p -> (p < ss_next s')%positive }.

Lemma track_spec s pool cond sid h o s' :
  tied s -> track_stream conf pool cond sid h s = Ret o s' -> tracked_new sid h s s'.
Proof.
  intros [T0 T3 T4 T1 T2] He. unfold track_stream in He. binv He found s2 H2. injection H2 as <- <-.
  destruct (ss_streams s !! sid) as [p|] eqn:Hp.
  - binv He st s2 H2. apply get_stream_inv in H2 as [Hst ->]. injection He as _ <-.
    rewrite (upd_stream_eq _ _ _ _ Hst). split; simpl; try done.
    + intros sid' x (q & st' & Hq & Hx & Hqs). simpl in *. apply lookup_insert_Some in Hx as [[<- <-]|[Hne Hx]].
      * injection Hqs as <-. left. split; [eauto|done].
      * right. by exists q, st'.
    + intros sid' q st' Hq [[<- <-]|[Hne Hx]]%lookup_insert_Some; simpl; eauto.
  - binv He u s2 H2. destruct pool; [|done]. injection H2 as _ <-. destruct cond; simpl in He.
    2:{ injection He as _ <-. split; try done. auto. }
    injection He as _ <-. split; simpl; try done.
    + intros sid' x (q & st' & Hq & Hx & Hqs). simpl in *. apply lookup_insert_Some in Hq as [[<- <-]|[Hne Hq]].
      * rewrite lookup_insert_eq in Hx. injection Hx as <-. injection Hqs as <-. by left.
      * specialize (T4 _ _ Hq). rewrite lookup_insert_ne in Hx by lia. right. by exists q, st'.
    + intros sid' q st' [[<- <-]|[Hne Hq]]%lookup_insert_Some.
      * rewrite lookup_insert_eq. by intros [= <-].
      * specialize (T4 _ _ Hq). rewrite lookup_insert_ne by lia. eauto.
    + intros sid1 sid2 p [[<- <-]|[Hn1 H1]]%lookup_insert_Some [[<- H2]|[Hn2 H2]]%lookup_insert_Some; [done|..|eauto].
      * specialize (T4 _ _ H2). lia.
      * specialize (T4 _ _ H1). lia.
    + intros sid' p [[<- <-]|[Hn1 H1]]%lookup_insert_Some; [lia|]. specialize (T4 _ _ H1). lia.
Qed.

Lemma flows_track s s1 pool cond sid h o s' :
  flows s s1 -> (ss_fresh s <= h)%positive -> (h < ss_fresh s1)%positive -> (forall sid, ~ holds s1 sid h) ->
  track_stream conf pool cond sid h s1 = Ret o s' -> flows s s'.
Proof.
  intros Hw Hlo Hhi Hno He Ht. destruct (Hw Ht) as [Ht1 [W1 W3 W4]].
  destruct (track_spec _ _ _ _ _ _ _ Ht1 He) as [F1 F2 F3 F4 F0 F5 F6]. destruct Ht1 as [_ _ _ T1 T2]. split.
  - split; [done|done|done| |].
    + intros sid1 sid2 x H1 H2.
      apply F4 in H1 as [[-> E1]|H1]; apply F4 in H2 as [[-> E2]|H2]; [done|subst x..|eauto].
      * by destruct (Hno _ H2).
      * by destruct (Hno _ H1).
    + intros sid1 x H1. rewrite F1. apply F4 in H1 as [[-> ->]|H1]; eauto.
  - assert (Hold : forall sid' x, holds s' sid' x -> (x < ss_fresh s)%positive -> holds s1 sid' x).
    { intros sid' x Hx Hlt. apply F4 in Hx as [[-> ->]|Hx]; [lia|done]. }
    split; [lia|eauto|]. rewrite F2, F3. intros n' Hn'. destruct (W4 n' Hn') as (n & Hn & Hb).
    exists n. split; [done|]. eauto.
Qed.

(** *** A pass over the streams

    [drain_reads] is the only part of it that reads.  The streams it is called with are in
    the table, which a pass does not change before it reclaims. *)

Definition same_table s s' : Prop := ss_streams s' = ss_streams s.

#[export] Instance same_table_preorder : PreOrder same_table.
Proof. split; unfold same_table; [done|]. intros s1 s2 s3. congruence. Qed.

#[export] Instance same_table_frame : DrainFrame same_table.
Proof. repeat (split; try apply _); done. Qed.

(** The stream is in the table. *)
Definition listed s p : Prop := exists sid, ss_streams s !! sid = Some p.

Lemma listed_same s s' p : same_table s s' -> listed s p -> listed s' p.
Proof. intros He [sid Hp]. exists sid. by rewrite He. Qed.

Lemma take_snapshot_listed total it walk acc s snap s' :
  take_snapshot total it walk acc s = Ret snap s' -> Forall (listed s) (snd <$> walk) ->
  Forall (listed s) acc -> Forall (listed s') snap.
Proof.
  revert it acc. induction walk as [|[sid p] walk IH]; intros it acc He Hw Ha; cbn [take_snapshot] in He.
  { by injection He as <- <-. }
  destruct (_ <? _); [by injection He as <- <-|]. apply Forall_cons in Hw as [Hp Hw].
  eapply IH; [exact He|done|]. apply Forall_app_2; [done|]. by apply Forall_singleton.
Qed.

Section Reads.
Context (Hreads : forall p buf reads left read s r s',
  listed s p -> drain_reads conf io p buf reads left read s = Ret r s' -> flows s s').

Lemma flows_drain_one p reads left read s r s' :
  listed s p -> drain_one_stream conf io p reads left read s = Ret r s' -> flows s s'.
Proof.
  intros Hl He. unfold drain_one_stream in He. binv He u s1 H1. injection H1 as _ <-.
  set (s1 := if _ || _ then _ else _) in He.
  assert (Hc : calm s s1) by (unfold s1; case_match; [calm_same|reflexivity]).
  assert (Hl1 : listed s1 p) by (unfold s1; by case_match). clearbody s1.
  etrans; [by apply calm_flows; [apply _|]|]. clear Hc. binv He st s2 H2. apply get_stream_inv in H2 as [_ ->].
  binv He fins s2 H2. assert (Hc : calm s1 s2).
  { destruct (st_qstream st); [by eapply calm_q_fins|by injection H2 as _ <-]. }
  assert (Hl2 : listed s2 p).
  { eapply listed_same; [|done]. destruct (st_qstream st); [|by injection H2 as _ <-].
    unfold q_is_read_finished in H2. binv H2 v s3 H3. apply use_inv in H3 as ->. by injection H2 as _ <-. }
  etrans; [by apply calm_flows; [apply _|]|]. destruct (fst fins).
  - eapply (preserves_flows F); [|exact He]. solve_calm.
  - binv He lft s3 H3. binv He st' s4 H4. apply get_stream_inv in H4 as [_ ->]. injection He as _ <-.
    by eapply Hreads.
Qed.

Lemma flows_drain_pass snap start off todo reads left read acc s r s' :
  Forall (listed s) snap -> drain_pass conf io snap start off todo reads left read acc s = Ret r s' -> flows s s'.
Proof.
  revert off reads left read acc s. induction todo as [|k IH]; intros off reads left read acc s Hl He;
    cbn [drain_pass] in He; [by injection He as _ <-|].
  binv He dead s1 H1. injection H1 as <- <-. destruct (ss_ngh3_dead s); [by injection He as _ <-|].
  binv He p s1 H1. destruct (snap !! _) as [q|] eqn:Hq; [|done]. injection H1 as <- <-.
  binv He st s1 H1. apply get_stream_inv in H1 as [_ ->]. destruct (_ || _ || _); [by eapply IH|].
  binv He o s1 H1. destruct o as [ready [[reads' left'] read']].
  pose proof (frame_drain_one conf io same_table _ _ _ _ _ _ _ H1) as Ht1.
  apply flows_drain_one in H1; [|by eapply Forall_lookup_1]. etrans; [exact H1|].
  binv He dead' s2 H2. injection H2 as <- <-. destruct (_ || _).
  - injection He as _ <-. apply calm_flows; [apply _|]. calm_same.
  - eapply IH; [|exact He]. eapply Forall_impl; [exact Hl|]. intros x. by apply listed_same.
Qed.

Lemma flows_drain : preserves flows (drain_ready_streams conf io : M session _).
Proof.
  intros s r s' He. unfold drain_ready_streams in He. binv He table s1 H1. injection H1 as <- <-.
  binv He snap s1 H1. binv He cursor s2 H2. injection H2 as <- <-. binv He res s3 H3. binv He u s4 H4.
  injection He as _ <-. assert (Hl : Forall (listed s1) snap).
  { eapply take_snapshot_listed; [exact H1| |by apply Forall_nil]. apply Forall_fmap, Forall_forall.
    intros x Hx%walk_lookup. by exists (fst x). }
  etrans; [apply calm_flows; [apply _|by eapply calm_snapshot]|].
  etrans; [by eapply flows_drain_pass|]. apply calm_flows; [apply _|].
  eapply preserves_for_each; [apply _|apply calm_reclaim|exact H4].
Qed.

End Reads.

(** *** Workers *)

Context {H : Httpd}.

Lemma calm_submit p nva : preserves calm (submit_locked p nva : M session _).
Proof.
  intros s rv s' He. unfold submit_locked in He. binv He st s1 H1. apply get_live_inv in H1 as ->.
  destruct (rq_submitted (st_resp st)); [by injection He as _ <-|]. binv He fl s2 H2. injection H2 as _ <-.
  destruct (_ || _); [by injection He as _ <-|]. binv He n s3 H3. apply get_ngh_inv in H3 as [H3 ->].
  pose proof (fl_submit (F := F) n (st_stream_id st) nva) as Ho.
  destruct (ngh_submit_response n (st_stream_id st) nva) as [n' z].
  etrans; [by apply (calm_put_ngh s n n')|]. revert He. unfold mbind, M_bind. simpl.
  destruct (z =? 0); intros [= _ <-]; calm_field.
Qed.

Lemma calm_get_flags : preserves calm (get_flags : M session sess_flags).
Proof. unfold get_flags. solve_calm. Qed.

#[local] Hint Resolve calm_submit calm_get_flags : calm.

Lemma calm_append p ok w data off : preserves calm (append_round p ok w data off : M session _).
Proof. unfold append_round. solve_calm. Qed.

Lemma calm_complete p : preserves calm (response_complete p : M session unit).
Proof. unfold response_complete. solve_calm. Qed.

Lemma calm_serve_body p mode z : preserves calm (serve_body p mode z : M session _).
Proof. unfold serve_body. solve_calm. Qed.

Lemma calm_dispatched p b : preserves calm (set_stream_dispatched p b : M session unit).
Proof. unfold set_stream_dispatched. solve_calm. Qed.

Lemma calm_wake : preserves calm (wake_event : M session unit).
Proof. unfold wake_event. solve_calm. Qed.

Lemma calm_dec_tasks : preserves calm (dec_tasks : M session unit).
Proof. unfold dec_tasks. solve_calm. Qed.

#[local] Hint Resolve calm_append calm_complete calm_serve_body calm_dispatched calm_wake calm_dec_tasks : calm.

Lemma calm_op {A} (m : M session A) : worker_op m -> preserves calm m.
Proof. destruct 1; try solve [eauto with calm]; solve_calm. Qed.

Lemma calm_worker wc p : all_steps (preserves calm) (stream_worker conf wc p (fun _ => Finished)).
Proof.
  apply worker_preserves; [apply _|apply @calm_op|..]; auto using calm_submit, calm_complete, calm_append.
Qed.

(** *** The event thread *)

Abbreviation system := (@system N E).

(** The flow between the sessions of two states of the system. *)
Definition sflows (y y' : system) : Prop := flows (sy_sess y) (sy_sess y').

#[export] Instance sflows_preorder : PreOrder sflows.
Proof. split; [intros y; unfold sflows; reflexivity|intros y1 y2 y3; unfold sflows; apply transitivity]. Qed.

Lemma sflows_on_sess {A} (m : M session A) : preserves flows m -> preserves sflows (on_sess m).
Proof.
  intros Hm y a y'. unfold on_sess, sflows. destruct (sy_alive y); [|done].
  destruct (m (sy_sess y)) as [b s'| |] eqn:Em; [|done|done]. intros [= _ <-]. by eapply Hm.
Qed.

Lemma sflows_calm {A} (m : M session A) : preserves calm m -> preserves sflows (on_sess m).
Proof. intros Hm. apply sflows_on_sess, preserves_flows; [apply _|done]. Qed.

Lemma sflows_same (f : system -> system) : (forall y, sy_sess (f y) = sy_sess y) -> preserves sflows (modify f).
Proof. intros Hf y a y' [= _ <-]. unfold sflows. by rewrite Hf. Qed.

Lemma sflows_accept_round cond : preserves sflows (accept_round conf cond).
Proof.
  intros y b y' He. unfold accept_round in He. binv He o y1 H1. apply on_sess_inv in H1 as (s1 & H1 & ->).
  apply flows_accept_stream in H1 as (Hw & Hh & Ho). unfold sflows.
  destruct o as [h|]; [|by injection He as _ <-]. destruct (Ho h eq_refl) as [Hlo Hhi].
  binv He u y2 H2. injection H2 as _ <-. binv He v y3 H3. injection He as _ <-.
  apply on_sess_inv in H3 as (s3 & H3 & ->). simpl in *. unfold accept_stream in H3.
  intros Ht. assert (Hno : forall sid, ~ holds s1 sid h).
  { intros sid Hx%Hh. pose proof (td_old _ Ht _ _ Hx). lia. }
  revert Ht. change (flows (sy_sess y) s3). binv H3 sid s4 H4.
  assert (s4 = s1) as ->.
  { unfold q_stream_id in H4. binv H4 w s5 H5. injection H4 as _ <-. by apply use_inv in H5. }
  pose proof (preserves_flows F _ (calm_q_stream_free h)) as Hfree.
  destruct (sid <? 0); [etrans; [exact Hw|by eapply Hfree]|].
  binv H3 t s5 H5. pose proof (flows_track _ _ _ _ _ _ _ _ Hw Hlo Hhi Hno H5) as Hw5.
  destruct t as [p|]; [by injection H3 as _ <-|]. etrans; [exact Hw5|by eapply Hfree].
Qed.

Lemma calm_conn : preserves calm (q_conn : M session handle).
Proof. unfold q_conn. solve_calm. Qed.

#[local] Hint Resolve calm_conn calm_destroy : calm.

Lemma calm_is_closed : preserves calm (q_conn_is_closed : M session bool).
Proof. unfold q_conn_is_closed. solve_calm. Qed.

Lemma calm_shutdown rapid : preserves calm (q_conn_shutdown rapid : M session bool).
Proof. unfold q_conn_shutdown. solve_calm. apply calm_env. intros e. apply fl_conn_shutdown. Qed.

Lemma calm_set_deadline now : preserves calm (set_deadline now : M session unit).
Proof. unfold set_deadline. apply preserves_modify. intros s. case_match; [calm_same|reflexivity]. Qed.

Lemma calm_reserve p : preserves calm (reserve_stream p : M session bool).
Proof. unfold reserve_stream. solve_calm. Qed.

Lemma calm_notice : preserves calm (on_ngh ngh_submit_shutdown_notice : M session unit).
Proof. apply calm_on_ngh. intros n. apply fl_notice. Qed.

Lemma calm_ngh_shutdown : preserves calm (on_ngh ngh_shutdown : M session unit).
Proof. apply calm_on_ngh. intros n. apply fl_shutdown. Qed.

Lemma calm_inc_tasks : preserves calm (inc_tasks : M session unit).
Proof. unfold inc_tasks. solve_calm. Qed.

#[local] Hint Resolve calm_is_closed calm_shutdown calm_set_deadline calm_reserve calm_notice calm_ngh_shutdown
  calm_inc_tasks : calm.

(** The two functions that move bytes. *)
Context (Hflush : forall fuel, preserves flows (flush_nghttp3 conf io fuel : M session unit)).
Context (Hdrain : preserves flows (drain_ready_streams conf io : M session _)).

Ltac solve_flows :=
  repeat lazymatch goal with
  | |- preserves flows (mbind _ _) => apply preserves_bind; [apply _| |intros ?]
  | |- preserves flows (flush_nghttp3 _ _ _) => apply Hflush
  | |- preserves flows (drain_ready_streams _ _) => apply Hdrain
  | |- preserves flows _ => apply preserves_flows; [apply _|solve_calm]
  end.

Lemma flows_notify fuel : preserves flows (notify_goaway conf io fuel : M session bool).
Proof. unfold notify_goaway. solve_flows. Qed.

Lemma sflows_push ok p t : preserves sflows (apr_thread_pool_push ok p t).
Proof. intros y b y'. unfold apr_thread_pool_push, sflows. destruct (_ && _); by intros [= _ <-]. Qed.

Lemma sflows_destroy : preserves sflows destroy_session.
Proof.
  unfold destroy_session. apply preserves_bind; [apply _|apply sflows_calm, calm_destroy|].
  intros _. by apply sflows_same.
Qed.

Lemma sflows_op {A} (m : M system A) : turn_op conf io m -> preserves sflows m.
Proof.
  destruct 1; try (apply sflows_on_sess; first [apply flows_notify|solve_flows]); try done.
  - apply sflows_accept_round.
  - apply sflows_push.
  - apply sflows_destroy.
  - by apply sflows_same.
Qed.

Lemma sflows_turn pc : all_steps (preserves sflows) (session_turn conf io pc turn_end).
Proof.
  apply turn_preserves; [apply _|apply @sflows_op|]. intros now. apply sflows_calm, calm_set_deadline.
Qed.

(** *** All interleavings *)

Definition flow_state (x : system * thread system) : Prop :=
  all_steps (preserves sflows) (snd x) /\ task_state (preserves calm) x.

Lemma flow_sys_step P x x' : sys_step conf io P x x' -> flow_state x -> flow_state x' /\ sflows (fst x) (fst x').
Proof.
  intros Hst [He Ht]. pose proof (task_state_step conf io _ calm_worker P x x' Hst Ht) as Ht'.
  destruct Hst as [l Hs].
  destruct Hs as [y pc Ha Hpc|y m o y' Hm|y ev w1 p m w2 o y' Hl Hm]; simpl in *.
  - split; [|reflexivity]. split; [apply sflows_turn|done].
  - inversion He as [|m' H1 H2]; subst. split; [|by eapply H1]. split; [|done].
    destruct o as [t|]; [by eapply H2|done].
  - split; [by split|]. destruct Ht as [_ Hw]. unfold tasks_all in Hw. simpl in Hw. rewrite Hl in Hw.
    apply Forall_app in Hw as [_ Hw]. apply Forall_cons in Hw as [Hp _]. inversion Hp as [|m' H1 H2]; subst.
    apply on_sess_inv in Hm as (s' & Hm & ->). apply calm_flows; [apply _|]. by eapply H1.
Qed.

Lemma flow_steps P x x' :
  rtc (sys_step conf io P) x x' -> flow_state x -> flow_state x' /\ sflows (fst x) (fst x').
Proof.
  induction 1 as [x|x1 x2 x3 Hs _ IH]; intros Hx; [by split|].
  destruct (flow_sys_step _ _ _ Hs Hx) as [H2 W2]. destruct (IH H2) as [H3 W3]. split; [done|by etrans].
Qed.

(** From the start of a session with its control streams on. *)
Lemma flow_run {NGS : Nghttp3Spec N NG} {QSS : QuicStreamsSpec E QS} s x x' :
  conf_ready conf -> serviced conf s ->
  rtc (sys_step conf io pc_ok) (sys_start s) x -> rtc (sys_step conf io pc_ok) x x' ->
  flow_le F (sy_sess (fst x)) (sy_sess (fst x')).
Proof.
  intros (H1 & H2 & H3)%ready_conf Hs Hx Hx'.
  destruct (serviced_inv conf H1 H2 s Hs) as [Hi _]. pose proof (core_tied conf s (si_core _ _ Hi)) as Ht.
  assert (H0 : flow_state (sys_start s)) by (split; [constructor|apply task_state_start]).
  destruct (flow_steps _ _ _ Hx H0) as [Hw1 W1]. destruct (W1 Ht) as [Ht1 _].
  destruct (flow_steps _ _ _ Hx' Hw1) as [_ W2]. by destruct (W2 Ht1).
Qed.

End Code.

#[export] Hint Resolve calm_use calm_get calm_get_ngh calm_set_env calm_q_reset calm_callback calm_count_written
  calm_count_read calm_mark_dead calm_q_blocked calm_block calm_unblock calm_resume calm_ack
  calm_upd_blocked calm_unblock_all calm_free_pending calm_feed_fin : calm.
#[export] Hint Extern 1 (FlowSpec _ _ _ _) => apply _ : calm.
