(* ===== verification/Wire.v ===== *)
(** * From nghttp3 to QUIC (h3_stream.c, quic/h3q_stream.c)

    [flush_nghttp3] takes what nghttp3 has to send, writes it to the QUIC streams and tells
    nghttp3 how much was taken; what was not taken nghttp3 offers again.  Here it is shown
    that between the two no byte is lost, repeated or reordered: for every stream, what QUIC
    has queued followed by what nghttp3 still holds only ever grows at its end, in every
    interleaving of the event thread with the workers.

    [Nghttp3Out] and [QuicWire] state what is observed of nghttp3 and of the transport;
    [QuicWire] is discharged for the wrapper from what OpenSSL documents.  They make a
    [flow] of [Flow], which leaves the code under [flush_nghttp3] to look at. *)

From S2P Require Import Prelude Effects LinkedQueue RespQueue Config Body Quic Stream.
From S2P Require Import Session SessionInv SessionSafe Request Toy Workers Service System Flow.

(** ** What nghttp3 holds *)

(** [ngh_out] are the bytes of a stream that nghttp3 has made and that have not been taken
    from it, [ngh_closed] whether it was told to close the stream. *)
Class Nghttp3Obs (N : Type) := {
  ngh_out : N -> Z -> bytes;
  ngh_closed : N -> Z -> Prop }.

Section Out.
Context {N : Type} {OB : Nghttp3Obs N}.

(** What a call adds goes to the end. *)
Definition out_le (n n' : N) : Prop :=
  forall sid, (ngh_closed n sid -> ngh_closed n' sid)
    /\ (~ ngh_closed n' sid -> ngh_out n sid `prefix_of` ngh_out n' sid).

#[export] Instance out_le_preorder : PreOrder out_le.
Proof.
  split; [by intros n sid|]. intros n1 n2 n3 H1 H2 sid. destruct (H1 sid) as [C1 O1], (H2 sid) as [C2 O2].
  split; [auto|]. intros Hc. etrans; [apply O1; auto|by apply O2].
Qed.

(** The vectors are the first bytes of what the stream has to send. *)
Definition offered (n : N) (r : wv_result) : Prop :=
  match r with
  | WvStream sid _ vecs => concat vecs `prefix_of` ngh_out n sid /\ vecs_len vecs <= SIZE_MAX
  | WvError _ => True
  end.

End Out.

Class Nghttp3Out (N : Type) `(NG : Nghttp3 N) (OB : Nghttp3Obs N) := {
  out_block n sid : out_le n (ngh_block_stream n sid);
  out_unblock n sid : out_le n (ngh_unblock_stream n sid);
  out_resume n sid : out_le n (ngh_resume_stream n sid);
  out_submit n sid nva : out_le n (fst (ngh_submit_response n sid nva));
  out_user_data n sid p : out_le n (ngh_set_stream_user_data n sid p);
  out_notice n : out_le n (ngh_submit_shutdown_notice n);
  out_shutdown n : out_le n (ngh_shutdown n);
  out_read n sid d fin : prog_within out_le (fun _ _ => True) n (ngh_read_stream n sid d fin);
  out_ack n sid z : prog_within out_le (fun _ _ => True) n (ngh_add_ack_offset n sid z);
  out_close n sid : prog_within out_le (fun _ _ => True) n (ngh_close_stream n sid);
  out_writev n : prog_within out_le offered n (ngh_writev_stream n);
  (** What was taken is gone from the front; other streams are left alone. *)
  out_taken n sid z :
    0 <= z <= blen (ngh_out n sid) ->
    let n' := ngh_add_write_offset n sid z in
    ngh_out n' sid = bdrop z (ngh_out n sid)
    /\ (forall sid', sid' <> sid -> ngh_out n' sid' = ngh_out n sid')
    /\ forall sid', ngh_closed n' sid' <-> ngh_closed n sid' }.

(** ** What the transport has queued *)

Class QuicObs (E : Type) := {
  qs_sent : E -> handle -> bytes;
  qs_failed : E -> handle -> Prop }.   (** a write to the stream has failed *)

(** Nothing was queued on a stream other than [f]. *)
Definition sent_same {E} {OB : QuicObs E} (f : option handle) (e e' : E) : Prop :=
  forall h, (qs_failed e h -> qs_failed e' h) /\ (Some h <> f -> qs_sent e' h = qs_sent e h).

Class QuicWire (E : Type) (QS : QuicStreams E) (QC : QuicConns E) (OB : QuicObs E) := {
  wire_write e h vs fin e' r :
    qs_write e h vs fin = (e', r) -> vecs_len vs <= SIZE_MAX ->
    qs_sent e' h = qs_sent e h ++ btake (wr_accepted r) (concat vs)
    /\ sent_same (Some h) e e' /\ (wr_broken r = true -> qs_failed e' h);
  wire_read e h n : sent_same None e (fst (qs_read e h n));
  wire_reset e h err : sent_same None e (qs_reset e h err);
  wire_free e h : sent_same None e (qs_free e h);
  wire_accept e c f : sent_same (Some f) e (fst (qc_accept_stream e c f));
  wire_shutdown e c rapid code reason : sent_same None e (fst (qc_shutdown e c rapid code reason));
  wire_conn_free e c : sent_same None e (qc_free e c) }.

(** *** The wrapper over OpenSSL *)

Class OpenSSLWire `(O : OpenSSL) (Qu : OpenSSLQueue O) := {
  SSL_failed : ossl -> handle -> Prop;
  SSL_obs : QuicObs ossl := {| qs_sent := SSL_sent; qs_failed := SSL_failed |};
  SSL_write_ex_same e h b : sent_same (Some h) e (fst (SSL_write_ex e h b));
  SSL_write_ex_failed e h b e' rv w :
    SSL_write_ex e h b = (e', (rv, w)) -> rv <= 0 -> SSL_get_error e' h rv <> SSL_ERROR_WANT_WRITE ->
    SSL_failed e' h;
  SSL_stream_conclude_same e h : sent_same (Some h) e (SSL_stream_conclude e h);
  SSL_read_ex_same e h n : sent_same None e (fst (SSL_read_ex e h n));
  SSL_stream_reset_same e h err : sent_same None e (SSL_stream_reset e h err);
  SSL_free_same e h : sent_same None e (SSL_free e h);
  SSL_accept_stream_same e c f : sent_same (Some f) e (fst (SSL_accept_stream e c f));
  SSL_shutdown_same e c : sent_same None e (fst (SSL_shutdown e c));
  SSL_shutdown_ex_same e c rapid code reason : sent_same None e (fst (SSL_shutdown_ex e c rapid code reason)) }.

#[export] Instance sent_same_preorder {E} {OB : QuicObs E} f : PreOrder (sent_same f).
Proof.
  split; [by intros e h|]. intros e1 e2 e3 H1 H2 h. destruct (H1 h) as [F1 S1], (H2 h) as [F2 S2].
  split; [auto|]. intros Hf. by rewrite S2, S1.
Qed.

Section OverOpenSSL.
Context {L : OpenSSL} {S : OpenSSLSpec L} {Qu : OpenSSLQueue L} {W : OpenSSLWire L Qu}.
Existing Instance SSL_obs.

Lemma write_loop_wire (e : ossl) h vs acc e' r :
  write_loop e h vs acc = (e', r) ->
  sent_same (Some h) e e' /\ (wr_broken r = true -> qs_failed e' h).
Proof.
  revert e acc. induction vs as [|v vs IH]; intros e acc Hw; cbn [write_loop] in Hw.
  { by injection Hw as <- <-. }
  pose proof (SSL_write_ex_same e h v) as Hs. pose proof (SSL_write_ex_failed e h v) as Hf.
  destruct (SSL_write_ex e h v) as [e1 [rv w]]. destruct (Z.leb_spec rv 0).
  { case_bool_decide as Hg; injection Hw as <- <-; (split; [done|]); [done|]. intros _. by apply (Hf e1 rv w). }
  destruct (w <? blen v); [by injection Hw as <- <-|]. apply IH in Hw as [H1 H2]. split; [by etrans|done].
Qed.

#[export] Instance h3q_wire : QuicWire ossl h3q_streams h3q_conns SSL_obs.
Proof.
  split; simpl; intros *.
  - intros Hw Hm. pose proof (h3q_stream_write_loop _ _ _ _ _ _ Hw) as [e1 Hl].
    assert (He : e' = e1 \/ e' = SSL_stream_conclude e1 h).
    { unfold h3q_stream_write in Hw. rewrite Hl in Hw. case_match; injection Hw as <-; auto. }
    pose proof (write_loop_wire _ _ _ _ _ _ Hl) as [Hs Hf].
    apply write_loop_sent in Hl as [Hq _]; [|lia|lia]. rewrite Z.sub_0_r in Hq.
    pose proof (SSL_stream_conclude_same e1 h) as Hc. pose proof (SSL_stream_conclude_sent e1 h) as [Hcs _].
    destruct He as [->| ->]; split_and!; try done.
    + by rewrite Hcs.
    + by etrans.
    + intros Hb. by apply Hc, Hf.
  - unfold h3q_stream_read. pose proof (SSL_read_ex_same e h n) as Hr.
    destruct (SSL_read_ex e h n) as [e1 [rv b]]. by repeat case_match.
  - apply SSL_stream_reset_same.
  - apply SSL_free_same.
  - unfold h3q_conn_accept_stream. pose proof (SSL_accept_stream_same e c f) as Ha.
    by destruct (SSL_accept_stream e c f) as [e1 []].
  - unfold h3q_conn_shutdown.
    pose proof (SSL_shutdown_same e c) as H1. pose proof (SSL_shutdown_ex_same e c) as H2.
    match goal with |- context [let '(a, b) := ?x in _] => assert (Hx : sent_same None e (fst x)) end.
    { destruct reason, rapid; apply H1 || apply H2. }
    repeat case_match; simplify_eq/=; done.
  - apply SSL_free_same.
Qed.

End OverOpenSSL.

(** ** The flow *)

Section Wire.
Context {N E : Type} {NG : Nghttp3 N} {NOB : Nghttp3Obs N} {NGO : Nghttp3Out N NG NOB}.
Context {QS : QuicStreams E} {QSS : QuicStreamsSpec E QS} {QC : QuicConns E} {QCS : QuicConnsSpec E QC}.
Context {EOB : QuicObs E} {QW : QuicWire E QS QC EOB} {AH : AprHash}.
Context (conf : h3_server_conf) (io : bool).
Abbreviation session := (@h3_session N E).
Implicit Types (s : session) (st : h3_stream) (p : sptr) (h : handle) (n : N).

(** What QUIC has followed by what nghttp3 has only grows at its end, as long as no write
    has failed and the stream was not closed. *)
Definition sent_link (e : E) n (e' : E) n' (sid : Z) h : Prop :=
  (ngh_closed n sid -> ngh_closed n' sid) /\ (qs_failed e h -> qs_failed e' h)
  /\ (~ qs_failed e' h -> ~ ngh_closed n' sid -> qs_sent e h ++ ngh_out n sid `prefix_of` qs_sent e' h ++ ngh_out n' sid).

Definition sent_flow : flow N E := Flow N E out_le sent_same sent_link.

#[export] Instance sent_flow_spec : FlowSpec NG QS QC sent_flow.
Proof.
  split; simpl; intros.
  - apply _.
  - apply _.
  - destruct H as (C1 & F1 & P1), H0 as (C2 & F2 & P2). split_and!; [auto..|].
    intros Hf Hc. etrans; [apply P1|apply P2]; auto.
  - destruct (H h) as [Hf Hs], (H0 sid) as [Hc Ho]. split_and!; [done..|]. intros _ Hn.
    rewrite Hs by done. apply prefix_app. auto.
  - apply out_block.
  - apply out_unblock.
  - apply out_resume.
  - apply out_submit.
  - apply out_user_data.
  - apply out_notice.
  - apply out_shutdown.
  - apply out_close.
  - apply out_ack.
  - apply out_read.
  - apply wire_reset.
  - apply wire_free.
  - apply wire_accept.
  - apply wire_shutdown.
  - apply wire_conn_free.
Qed.

Abbreviation calm := (calm sent_flow).
Abbreviation wire := (flows sent_flow).

(** *** Taking from nghttp3 *)

(** nghttp3 is told that [z] bytes of a stream were taken; [o] is its QUIC stream, which has
    got exactly these bytes or has failed. *)
Lemma wire_taken s s' n sid z (o : option handle) :
  settled s s' -> ss_ngh3 s = Some n -> ss_ngh3 s' = Some (ngh_add_write_offset n sid z) ->
  0 <= z <= blen (ngh_out n sid) -> sent_same o (ss_env s) (ss_env s') ->
  (forall x, o = Some x <-> holds s sid x) ->
  (forall x, o = Some x -> qs_failed (ss_env s') x
     \/ qs_sent (ss_env s') x = qs_sent (ss_env s) x ++ btake z (ngh_out n sid)) ->
  wire s s'.
Proof.
  intros Hs Hn Hn' Hz He Ho Hx. pose proof (out_taken n sid z Hz) as (O1 & O2 & O3).
  eapply settled_flows; [done..|]. intros Ht sid' x Hhold. split_and!; [by apply O3|apply He|].
  intros Hnf _. destruct (decide (sid' = sid)) as [->|Hne].
  - apply Ho in Hhold. destruct (Hx x Hhold) as [?| ->]; [done|]. by rewrite O1, <- app_assoc, btake_bdrop.
  - rewrite O2 by done. destruct (He x) as [_ ->]; [done|]. intros Hxo.
    apply Hne, (td_one _ Ht sid' sid x); [done|]. by apply Ho.
Qed.

(** The two offset calls after a write. *)
Lemma wire_add_offsets s s1 n sid z o r s' :
  settled s s1 -> ss_ngh3 s = Some n -> ss_ngh3 s1 = Some n ->
  0 <= z <= blen (ngh_out n sid) -> sent_same o (ss_env s) (ss_env s1) ->
  (forall x, o = Some x <-> holds s sid x) ->
  (forall x, o = Some x -> qs_failed (ss_env s1) x
     \/ qs_sent (ss_env s1) x = qs_sent (ss_env s) x ++ btake z (ngh_out n sid)) ->
  add_offsets conf sid z s1 = Ret r s' -> wire s s'.
Proof.
  intros Hs Hn Hn1 Hz He Ho Hx Hr. unfold add_offsets in Hr. binv Hr u s2 H2.
  unfold on_ngh in H2. binv H2 n1 s3 H3. apply get_ngh_inv in H3 as [H3 ->]. injection H2 as _ <-.
  assert (n1 = n) as -> by congruence.
  transitivity (set_ss_ngh3 (Some (ngh_add_write_offset n sid z)) s1).
  - apply (wire_taken s _ n sid z o); try done. etrans; [exact Hs|by apply settled_same].
  - eapply (preserves_flows sent_flow), Hr. apply (calm_ack sent_flow).
Qed.

Lemma q_write_inv s h vs fin r s' :
  q_write h vs fin s = Ret r s' -> exists e, qs_write (ss_env s) h vs fin = (e, r) /\ s' = set_ss_env e s.
Proof.
  unfold q_write. intros He. binv He u s1 H1. apply use_inv in H1 as ->. unfold on_env in He.
  destruct (qs_write (ss_env s) h vs fin) as [e a]. injection He as <- <-. by exists e.
Qed.

Lemma count_written_inv s z u s' :
  count_written io z s = Ret u s' -> settled s s' /\ ss_ngh3 s' = ss_ngh3 s /\ ss_env s' = ss_env s.
Proof.
  unfold count_written, when. destruct (_ && _); intros [= _ <-]; (split; [by apply settled_same|done]).
Qed.

Lemma prefix_btake (l k : bytes) : l `prefix_of` k -> btake (blen l) k = l.
Proof. intros [m ->]. unfold btake, blen. rewrite Nat2Z.id. by rewrite take_app_length. Qed.

Lemma wire_flush_stream s n sid fin vecs u s' :
  ss_ngh3 s = Some n -> offered n (WvStream sid fin vecs) ->
  flush_stream conf io sid fin vecs s = Ret u s' -> wire s s'.
Proof.
  intros Hn [Hpre Hmax] He. unfold flush_stream in He.
  assert (Hlen : 0 <= vecs_len vecs <= blen (ngh_out n sid)).
  { split; [apply vecs_len_nonneg|]. apply prefix_length in Hpre. unfold vecs_len, blen. lia. }
  rewrite wrap64_small in He by (unfold SIZE_MAX in *; lia).
  binv He found s0 H0. injection H0 as <- <-.
  assert (Hgone : (forall x, ~ holds s sid x) -> add_offsets conf sid (vecs_len vecs) s = Ret u s' -> wire s s').
  { intros Hno. apply (wire_add_offsets s s n sid _ None); try done. intros x. split; [done|]. by intros ?%Hno. }
  destruct (ss_streams s !! sid) as [p|] eqn:Hp.
  2:{ apply Hgone; [|done]. intros x (p & st & Hp' & _). congruence. }
  binv He st s1 H1. apply get_stream_inv in H1 as [Hst ->].
  destruct (st_qstream st) as [h|] eqn:Hq.
  2:{ apply Hgone; [|done]. intros x (p' & st' & Hp' & Hst' & Hx). congruence. }
  assert (Ho : forall x, Some h = Some x <-> holds s sid x).
  { intros x. split; [intros [= <-]; by exists p, st|]. intros (p' & st' & Hp' & Hst' & Hx). congruence. }
  binv He res s1 H1. apply q_write_inv in H1 as (e & Hw & ->). binv He v s2 H2.
  apply count_written_inv in H2 as (Hse & Hn2 & He2). simpl in *.
  destruct (wire_write _ _ _ _ _ _ Hw Hmax) as (Hsent & Hsame & Hbroken).
  pose proof (qs_write_accepted _ _ _ _ _ _ Hw Hmax) as Hacc.
  assert (Hoff : forall z r s3, (wr_broken res = true \/ z = wr_accepted res) -> 0 <= z <= blen (ngh_out n sid) ->
    add_offsets conf sid z s2 = Ret r s3 -> wire s s3).
  { intros z r s3 Hz Hzb. apply (wire_add_offsets s s2 n sid z (Some h)); try done; [|congruence|by rewrite He2|].
    { etrans; [|exact Hse]. by apply settled_same. }
    intros x [= <-]. rewrite He2. destruct Hz as [Hb| ->]; [left; auto|right]. rewrite Hsent. f_equal.
    destruct Hpre as [k ->]. unfold btake, vecs_len, blen in *. rewrite take_app_le by lia. done. }
  destruct (wr_broken res); [by eapply Hoff; [left|..]|].
  binv He w s3 H3. etrans; [by eapply Hoff; [right| |exact H3]; lia|].
  eapply (preserves_flows sent_flow); [|exact He]. solve_calm.
Qed.

Lemma wire_flush_loop fuel : preserves wire (flush_loop conf io fuel : M session unit).
Proof.
  induction fuel as [|k IH]; intros s u s' He; [done|]. cbn [flush_loop] in He. binv He r s1 H1.
  unfold call_ngh in H1. binv H1 n s0 H0. apply get_ngh_inv in H0 as [H0 ->].
  destruct (run_prog_calm sent_flow conf offered _ s n r s1 H0 (out_writev n) H1) as [Hc (n1 & Hn1 & Hoff)].
  etrans; [by apply (calm_flows sent_flow)|]. destruct r as [liberr|sid fin vecs].
  { eapply (preserves_flows sent_flow); [|exact He]. apply (calm_mark_dead sent_flow). }
  destruct (_ && _).
  { by injection He as _ <-. }
  binv He v s2 H2. etrans; [by eapply wire_flush_stream|by eapply IH].
Qed.

Lemma wire_flush fuel : preserves wire (flush_nghttp3 conf io fuel : M session unit).
Proof.
  unfold flush_nghttp3. intros s u s' He. binv He dead s0 H0. injection H0 as <- <-. destruct (ss_ngh3_dead s).
  { by injection He as _ <-. }
  binv He v1 s1 H1. binv He v2 s2 H2.
  transitivity s1; [by eapply (preserves_flows sent_flow); [apply (calm_unblock_all sent_flow)|]|].
  transitivity s2; [by eapply wire_flush_loop|by eapply (preserves_flows sent_flow); [apply (calm_free_pending sent_flow)|]].
Qed.

(** *** Draining *)

Lemma calm_q_read h z : preserves calm (q_read h z : M session h3q_read_result).
Proof.
  unfold q_read, use. solve_calm. apply (calm_env sent_flow). intros e. apply wire_read.
Qed.

Lemma calm_read_stream sid d fin : preserves calm (call_ngh conf (fun g => ngh_read_stream g sid d fin) : M session Z).
Proof. eapply (calm_call sent_flow). intros n. apply out_read. Qed.

#[local] Hint Resolve calm_q_read calm_read_stream : calm.

Lemma wire_drain : preserves wire (drain_ready_streams conf io : M session _).
Proof.
  eapply (flows_drain sent_flow). intros p buf reads left read s r s' _. apply (preserves_flows sent_flow).
  revert left read. induction reads; intros; cbn [drain_reads]; solve_calm.
Qed.

End Wire.

(** ** What reaches the transport *)

Section Claims.
Context {N E : Type} {NG : Nghttp3 N} {NGS : Nghttp3Spec N NG}.
Context {NOB : Nghttp3Obs N} {NGO : Nghttp3Out N NG NOB}.
Context {QS : QuicStreams E} {QSS : QuicStreamsSpec E QS} {QC : QuicConns E} {QCS : QuicConnsSpec E QC}.
Context {EOB : QuicObs E} {QW : QuicWire E QS QC EOB} {AH : AprHash} {H : Httpd}.

(** C4 (refinement): between nghttp3 and QUIC no byte is lost, repeated or reordered, in any
    interleaving of the event thread with the workers.  Take two states of an execution and
    a stream that still has the QUIC stream it had in the first, on which no write has
    failed and which nghttp3 was not told to close: what QUIC had queued followed by what
    nghttp3 held for it is a prefix of the same in the second state.  So once nghttp3 holds
    nothing, QUIC has got all that nghttp3 ever made for the stream, in order. *)
Theorem sent_bytes_conserved conf io (s : @h3_session N E) x x' sid h n' :
  conf_ready conf -> serviced conf s ->
  rtc (sys_step conf io pc_ok) (sys_start s) x -> rtc (sys_step conf io pc_ok) x x' ->
  let s1 := sy_sess (fst x) in
  let s2 := sy_sess (fst x') in
  holds s2 sid h -> (h < ss_fresh s1)%positive -> ss_ngh3 s2 = Some n' ->
  ~ qs_failed (ss_env s2) h -> ~ ngh_closed n' sid ->
  exists n, holds s1 sid h /\ ss_ngh3 s1 = Some n
    /\ qs_sent (ss_env s1) h ++ ngh_out n sid `prefix_of` qs_sent (ss_env s2) h ++ ngh_out n' sid.
Proof.
  intros Hc Hs Hx Hx' s1 s2 Hh Hlt Hn' Hf Hcl.
  destruct (flow_run sent_flow conf io (wire_flush conf io) (wire_drain conf io) s x x' Hc Hs Hx Hx') as [_ L3 L4].
  destruct (L4 n' Hn') as (n & Hn & Hb). exists n. split_and!; [by apply L3|done|]. by apply Hb.
Qed.

End Claims.

(** ** An instance and a run *)

#[export] Instance toy_obs : Nghttp3Obs toy_ngh := {|
  ngh_out := toy_unsent; ngh_closed n sid := sid ∈ tn_closed n |}.

Lemma toy_append_le n n' sid b :
  tn_out n' = <[sid := toy_unsent n sid ++ b]> (tn_out n) -> tn_closed n ⊆ tn_closed n' -> out_le n n'.
Proof.
  intros Ho Hc sid'. split; [set_solver|]. intros _. simpl. unfold toy_unsent. rewrite Ho.
  destruct (decide (sid' = sid)) as [->|Hne].
  - rewrite lookup_insert_eq. simpl. by apply prefix_app_r.
  - by rewrite lookup_insert_ne.
Qed.

Lemma toy_same_le n n' : tn_out n' = tn_out n -> tn_closed n ⊆ tn_closed n' -> out_le n n'.
Proof. intros Ho Hc sid. split; [set_solver|]. intros _. simpl. unfold toy_unsent. by rewrite Ho. Qed.

#[export] Instance toy_nghttp3_out : Nghttp3Out toy_ngh toy_nghttp3 toy_obs.
Proof.
  split; intros; simpl; try (by apply toy_same_le); try (split; [reflexivity|done]).
  - by eapply toy_append_le.
  - unfold toy_read. cbn [tn_user toy_feed]. assert (Hf : out_le n (toy_feed sid d n)) by (by apply toy_same_le).
    destruct (tn_user n !! sid); [by split|]. split; [done|]. intros n1 r1 L1.
    split; [reflexivity|]. intros n2 r2 L2. split; [reflexivity|]. intros n3 r3 L3. by split.
  - split; [reflexivity|]. intros n2 r L. split; [|done]. apply toy_same_le; [done|]. set_solver.
  - unfold toy_writev. destruct (tn_submitted n) as [|sid l].
    + split; [reflexivity|]. split; [|done]. simpl. apply prefix_nil.
    + split; [reflexivity|]. intros n1 r L. cbn [prog_within].
      set (b := match r with ReplyData d => reply_bytes d | Reply _ => [] end).
      split; [by eapply toy_append_le|]. case_bool_decide; simpl.
      * split; [apply prefix_nil|done].
      * rewrite app_nil_r. unfold toy_unsent at 2. simpl. rewrite lookup_insert_eq. simpl. split.
        { exists (drop 4096 (toy_unsent n1 sid ++ b)). by rewrite take_drop. }
        unfold vecs_len, blen. simpl. rewrite app_nil_r, length_take. unfold SIZE_MAX. lia.
  - unfold toy_unsent at 1 2. simpl. rewrite lookup_insert_eq. split_and!; [done| |done].
    intros sid' Hne. unfold toy_unsent. simpl. by rewrite lookup_insert_ne.
Qed.

#[export] Instance toy_openssl_wire : OpenSSLWire toy_openssl toy_openssl_queue.
Proof.
  refine {| SSL_failed := fun _ _ => False |}; simpl; try done.
  - intros e h b h'. split; [done|]. intros Hne. simpl. unfold toy_write. case_match; [done|]. simpl.
    unfold toy_sent. simpl. rewrite filter_app, filter_cons_False by (simpl; congruence).
    by rewrite filter_nil, app_nil_r.
  - intros e _ f h. destruct (toy_incoming e); by split.
Defined.

#[export] Instance toy_quic_obs : QuicObs toy_ssl := SSL_obs (O := toy_openssl).
#[export] Instance toy_quic_wire : QuicWire toy_ssl toy_streams toy_conns toy_quic_obs := h3q_wire.

Lemma toy_not_failed (e : toy_ssl) h : ~ qs_failed e h.
Proof. cbv. tauto. Qed.

(** The run of System.v goes on: once the worker has answered, a turn sends the response. *)
Definition sent_state (fuel : nat) (o : option (toy_state * toy_state * toy_state * toy_state))
    : option (toy_state * toy_state) :=
  match o with
  | Some (_, _, x2, _) => Some (x2, run_event fuel (start_turn true x2))
  | None => None
  end.

(** The request's stream is 32 and its QUIC stream 8; nghttp3 holds the head, then nothing. *)
Definition check_sent (o : option (toy_state * toy_state)) : bool :=
  match o with
  | Some (x2, x4) =>
      let s2 := sy_sess (fst x2) in
      let s4 := sy_sess (fst x4) in
      bool_decide (quic_of s4 32 = Some 8%positive) && bool_decide (8 < ss_fresh s2)%positive
      && bool_decide ((fun n => toy_unsent n 32) <$> ss_ngh3 s2 = Some (text "H"))
      && bool_decide (toy_sent (ss_env s2) 8 = [])
      && bool_decide ((fun n => toy_unsent n 32) <$> ss_ngh3 s4 = Some [])
      && bool_decide ((fun n => bool_decide (32 ∈ tn_closed n)) <$> ss_ngh3 s4 = Some false)
      && bool_decide (toy_sent (ss_env s4) 8 = text "Habc")
  | None => false
  end.

Lemma sent_state_checked : check_sent (sent_state 50 (run_states toy_session)) = true.
Proof. vm_cast_no_check (eq_refl true). Qed.

Lemma sent_state_reach fuel s x0 x1 x2 x3 x4 :
  rtc toy_step (sys_start s) x2 -> check_states (Some (x0, x1, x2, x3)) = true ->
  sent_state fuel (Some (x0, x1, x2, x3)) = Some (x2, x4) -> rtc toy_step x2 x4.
Proof.
  intros H2 Hc Hs. destruct (check_states_facts _ _ _ _ Hc) as (_ & (Ha & Hf) & _).
  cbn [sent_state] in Hs. injection Hs as <-. etrans; [by apply (start_turn_steps true)|apply run_event_steps].
Qed.

Lemma check_sent_some o : check_sent o = true -> exists x2 x4, o = Some (x2, x4).
Proof. destruct o as [[x2 x4]|]; [by eexists _, _|done]. Qed.

Lemma check_sent_facts x2 x4 :
  check_sent (Some (x2, x4)) = true -> exists n n',
    quic_of (sy_sess (fst x4)) 32 = Some 8%positive /\ (8 < ss_fresh (sy_sess (fst x2)))%positive
    /\ ss_ngh3 (sy_sess (fst x2)) = Some n /\ toy_unsent n 32 = text "H" /\ toy_sent (ss_env (sy_sess (fst x2))) 8 = []
    /\ ss_ngh3 (sy_sess (fst x4)) = Some n' /\ toy_unsent n' 32 = [] /\ ~ (32 ∈ tn_closed n')
    /\ toy_sent (ss_env (sy_sess (fst x4))) 8 = text "Habc".
Proof.
  cbn [check_sent]. rewrite !andb_true_iff, !bool_decide_eq_true. intros [[[[[[K1 K2] K3] K4] K5] K6] K7].
  destruct (ss_ngh3 (sy_sess (fst x2))) as [n|]; [|done]. destruct (ss_ngh3 (sy_sess (fst x4))) as [n'|]; [|done].
  injection K3 as K3. injection K5 as K5. injection K6 as K6. apply bool_decide_eq_false in K6.
  exists n, n'. by split_and!.
Qed.

Lemma sent_run_gen fuel o :
  check_sent (sent_state fuel o) = true -> forall s x0 x1 x2 x3, o = Some (x0, x1, x2, x3) ->
  rtc toy_step (sys_start s) x2 -> check_states o = true ->
  exists x4, sent_state fuel o = Some (x2, x4) /\ rtc toy_step x2 x4 /\ check_sent (Some (x2, x4)) = true.
Proof.
  intros Hk s x0 x1 x2 x3 -> H2 Hc. destruct (check_sent_some _ Hk) as (y2 & x4 & Hs).
  assert (y2 = x2) as -> by (cbn [sent_state] in Hs; congruence).
  exists x4. split_and!; [done|by eapply sent_state_reach|by rewrite <- Hs].
Qed.

Lemma sent_run :
  exists s x2 x4, sent_state 50 (run_states toy_session) = Some (x2, x4) /\ serviced toy_conf s
    /\ rtc toy_step (sys_start s) x2 /\ rtc toy_step x2 x4 /\ check_sent (Some (x2, x4)) = true.
Proof.
  destruct toy_run as (s & x0 & x1 & x2 & x3 & He & Hs & _ & H2 & _ & _).
  destruct (sent_run_gen _ _ sent_state_checked s x0 x1 x2 x3 He H2 toy_states_checked) as (x4 & H4 & H5 & H6).
  exists s, x2, x4. exact (conj H4 (conj Hs (conj H2 (conj H5 H6)))).
Qed.

Lemma sent_bytes_conserved_witness :
  exists x2 x4 n, sent_state 50 (run_states toy_session) = Some (x2, x4)
    /\ toy_sent (ss_env (sy_sess (fst x2))) 8 ++ toy_unsent n 32 = text "H"
    /\ text "H" `prefix_of` toy_sent (ss_env (sy_sess (fst x4))) 8
    /\ toy_sent (ss_env (sy_sess (fst x4))) 8 = text "Habc".
Proof.
  destruct sent_run as (s & x2 & x4 & He & Hs & H2 & H4 & Hk).
  destruct (check_sent_facts _ _ Hk) as (n & n' & K1 & K2 & Kn & K3 & K4 & Kn' & K5 & K6 & K7).
  destruct (sent_bytes_conserved (NOB := toy_obs) (EOB := toy_quic_obs) toy_conf true s x2 x4 32 8%positive n'
    toy_conf_ready Hs H2 H4
    (quic_holds _ _ _ K1) K2 Kn' (toy_not_failed _ _) K6) as (n1 & _ & Hn1 & Hp).
  rewrite Kn in Hn1. injection Hn1 as <-. exists x2, x4, n. simpl in Hp.
  rewrite K4, K3, K5, app_nil_r in Hp. rewrite K4, K3. by split_and!.
Defined.
