(* ===== verification/Feed.v ===== *)
(** * From QUIC to nghttp3 (h3_stream.c, quic/h3q_stream.c)

    [drain_ready_streams] reads the QUIC streams of the peer and hands what it reads to
    nghttp3.  Here it is shown that between the two no byte is lost, repeated, reordered or
    given to another stream: over any execution a stream's nghttp3 stream gets exactly what
    was read from its QUIC stream.  It is the other direction of [Wire].

    [Nghttp3In] and [QuicReads] state what is observed of nghttp3 and of the transport;
    [QuicReads] is discharged for the wrapper from what OpenSSL documents.  They make a
    [flow] of [Flow], which leaves [drain_reads] to look at. *)

From S2P Require Import Prelude Effects LinkedQueue RespQueue Config Body Quic Stream.
From S2P Require Import Session SessionInv SessionSafe Request Frame Toy Workers Service System Complete Flow.

(** ** What nghttp3 was given *)

(** The bytes of a stream that [nghttp3_conn_read_stream] was called with. *)
Class Nghttp3Given (N : Type) := ngh_given : N -> Z -> bytes.

Section Given.
Context {N : Type} {OB : Nghttp3Given N}.

Definition given_same (n n' : N) : Prop := forall sid, ngh_given n' sid = ngh_given n sid.

(** A stream was given [d]. *)
Definition given_more (sid : Z) (d : bytes) (n n' : N) : Prop :=
  ngh_given n' sid = ngh_given n sid ++ d /\ forall sid', sid' <> sid -> ngh_given n' sid' = ngh_given n sid'.

#[export] Instance given_same_preorder : PreOrder given_same.
Proof. split; [by intros n sid|]. intros n1 n2 n3 H1 H2 sid. by rewrite H2, H1. Qed.

Lemma given_more_nil sid n n' : given_more sid [] n n' <-> given_same n n'.
Proof.
  unfold given_more, given_same. rewrite app_nil_r. split.
  - intros [H1 H2] sid'. destruct (decide (sid' = sid)) as [->|]; auto.
  - auto.
Qed.

Lemma given_more_app sid d1 d2 n1 n2 n3 :
  given_more sid d1 n1 n2 -> given_more sid d2 n2 n3 -> given_more sid (d1 ++ d2) n1 n3.
Proof.
  intros [A1 A2] [B1 B2]. split; [by rewrite B1, A1, app_assoc|]. intros sid' Hne. by rewrite B2, A2.
Qed.

(** A call that gives a stream [d], in any portions between its callbacks. *)
Fixpoint prog_given {R} (sid : Z) (d : bytes) (n : N) (pr : prog N R) : Prop :=
  match pr with
  | Done n' _ => given_more sid d n n'
  | Call n' _ _ k => exists d1 d2, d = d1 ++ d2 /\ given_more sid d1 n n'
      /\ forall n2 r, given_same n' n2 -> prog_given sid d2 n2 (k n2 r)
  end.

Lemma prog_given_nil {R} sid n (pr : prog N R) :
  prog_given sid [] n pr -> prog_within given_same (fun _ _ => True) n pr.
Proof.
  revert n. induction pr as [n1 r|n1 cb ud k IH]; intros n; cbn [prog_given prog_within].
  - by intros ?%given_more_nil.
  - intros (d1 & d2 & [-> ->]%eq_sym%app_nil & H1%given_more_nil & Hk). split; [done|]. intros n2 r H2. by apply IH, Hk.
Qed.

End Given.

Class Nghttp3In (N : Type) `(NG : Nghttp3 N) (OB : Nghttp3Given N) := {
  in_read n sid d fin : prog_given sid d n (ngh_read_stream n sid d fin);
  in_block n sid : given_same n (ngh_block_stream n sid);
  in_unblock n sid : given_same n (ngh_unblock_stream n sid);
  in_resume n sid : given_same n (ngh_resume_stream n sid);
  in_submit n sid nva : given_same n (fst (ngh_submit_response n sid nva));
  in_user_data n sid p : given_same n (ngh_set_stream_user_data n sid p);
  in_notice n : given_same n (ngh_submit_shutdown_notice n);
  in_shutdown n : given_same n (ngh_shutdown n);
  in_taken n sid z : given_same n (ngh_add_write_offset n sid z);
  in_ack n sid z : prog_within given_same (fun _ _ => True) n (ngh_add_ack_offset n sid z);
  in_close n sid : prog_within given_same (fun _ _ => True) n (ngh_close_stream n sid);
  in_writev n : prog_within given_same (fun _ _ => True) n (ngh_writev_stream n) }.

(** ** What was read from the transport *)

Class QuicTaken (E : Type) := qs_taken : E -> handle -> bytes.

(** Nothing was read from a stream other than [f]. *)
Definition taken_same {E} {OB : QuicTaken E} (f : option handle) (e e' : E) : Prop :=
  forall h, Some h <> f -> qs_taken e' h = qs_taken e h.

#[export] Instance taken_same_preorder {E} {OB : QuicTaken E} f : PreOrder (taken_same f).
Proof. split; [by intros e h|]. intros e1 e2 e3 H1 H2 h Hh. by rewrite H2, H1. Qed.

Class QuicReads (E : Type) (QS : QuicStreams E) (QC : QuicConns E) (OB : QuicTaken E) := {
  take_read e h z e' r :
    qs_read e h z = (e', r) ->
    qs_taken e' h = qs_taken e h ++ (if rd_ok r then rd_bytes r else []) /\ taken_same (Some h) e e';
  take_write e h vs fin : taken_same None e (fst (qs_write e h vs fin));
  take_reset e h err : taken_same None e (qs_reset e h err);
  take_free e h : taken_same None e (qs_free e h);
  take_accept e c f : taken_same (Some f) e (fst (qc_accept_stream e c f));
  take_shutdown e c rapid code reason : taken_same None e (fst (qc_shutdown e c rapid code reason));
  take_conn_free e c : taken_same None e (qc_free e c) }.

(** *** The wrapper over OpenSSL: a read that returns 1 has taken the bytes it stored *)

Class OpenSSLReads `(O : OpenSSL) := {
  SSL_taken : QuicTaken ossl;
  SSL_read_ex_taken e h n e' rv b :
    SSL_read_ex e h n = (e', (rv, b)) -> SSL_taken e' h = SSL_taken e h ++ (if rv =? 1 then b else []);
  SSL_read_ex_others e h n : taken_same (Some h) e (fst (SSL_read_ex e h n));
  SSL_write_ex_reads e h b : taken_same None e (fst (SSL_write_ex e h b));
  SSL_stream_conclude_reads e h : taken_same None e (SSL_stream_conclude e h);
  SSL_stream_reset_reads e h err : taken_same None e (SSL_stream_reset e h err);
  SSL_free_reads e h : taken_same None e (SSL_free e h);
  SSL_accept_stream_reads e c f : taken_same (Some f) e (fst (SSL_accept_stream e c f));
  SSL_shutdown_reads e c : taken_same None e (fst (SSL_shutdown e c));
  SSL_shutdown_ex_reads e c rapid code reason : taken_same None e (fst (SSL_shutdown_ex e c rapid code reason)) }.

Section OverOpenSSL.
Context {L : OpenSSL} {W : OpenSSLReads L}.
Existing Instance SSL_taken.

Lemma write_loop_reads (e : ossl) h vs acc : taken_same None e (fst (write_loop e h vs acc)).
Proof.
  revert e acc. induction vs as [|v vs IH]; intros e acc; cbn [write_loop]; [reflexivity|].
  pose proof (SSL_write_ex_reads e h v) as Hs. destruct (SSL_write_ex e h v) as [e1 [rv w]].
  repeat case_match; try done. by etrans.
Qed.

#[export] Instance h3q_reads : QuicReads ossl h3q_streams h3q_conns SSL_taken.
Proof.
  split; simpl; intros *.
  - unfold h3q_stream_read. pose proof (SSL_read_ex_taken e h z) as Ht. pose proof (SSL_read_ex_others e h z) as Ho.
    destruct (SSL_read_ex e h z) as [e1 [rv b]]. specialize (Ht _ _ _ eq_refl). intros Hr.
    assert (e' = e1 /\ (if rd_ok r then rd_bytes r else []) = if rv =? 1 then b else []) as [-> ->]; [|by split].
    destruct (rv =? 1); simpl in Hr; [|by case_bool_decide; simplify_eq/=].
    destruct (Z.ltb_spec 0 (blen b)) as [|Hb]; simplify_eq/=; [done|]. split; [done|].
    destruct b; [done|]. unfold blen in Hb. simpl in Hb. lia.
  - unfold h3q_stream_write. pose proof (write_loop_reads e h vs 0) as Hl.
    destruct (write_loop e h vs 0) as [e1 r]. pose proof (SSL_stream_conclude_reads e1 h) as Hc.
    simpl in *. repeat case_match; simplify_eq/=; try done. by etrans.
  - apply SSL_stream_reset_reads.
  - apply SSL_free_reads.
  - unfold h3q_conn_accept_stream. pose proof (SSL_accept_stream_reads e c f) as Ha.
    by destruct (SSL_accept_stream e c f) as [e1 []].
  - unfold h3q_conn_shutdown.
    pose proof (SSL_shutdown_reads e c) as H1. pose proof (SSL_shutdown_ex_reads e c) as H2.
    match goal with |- context [let '(a, b) := ?x in _] => assert (Hx : taken_same None e (fst x)) end.
    { destruct reason, rapid; apply H1 || apply H2. }
    repeat case_match; simplify_eq/=; done.
  - apply SSL_free_reads.
Qed.

End OverOpenSSL.

(** ** The flow *)

Section Feed.
Context {N E : Type} {NG : Nghttp3 N} {NOB : Nghttp3Given N} {NGI : Nghttp3In N NG NOB}.
Context {QS : QuicStreams E} {QC : QuicConns E} {QCS : QuicConnsSpec E QC}.
Context {EOB : QuicTaken E} {QR : QuicReads E QS QC EOB} {AH : AprHash}.
Context (conf : h3_server_conf) (io : bool).
Abbreviation session := (@h3_session N E).
Implicit Types (s : session) (st : h3_stream) (p : sptr) (h : handle) (n : N).

(** nghttp3 was given what was read. *)
Definition fed_link (e : E) n (e' : E) n' (sid : Z) h : Prop :=
  exists d, qs_taken e' h = qs_taken e h ++ d /\ ngh_given n' sid = ngh_given n sid ++ d.

Definition fed_flow : flow N E := Flow N E given_same taken_same fed_link.

#[export] Instance fed_flow_spec : FlowSpec NG QS QC fed_flow.
Proof.
  split; simpl; intros.
  - apply _.
  - apply _.
  - destruct H as (d1 & T1 & G1), H0 as (d2 & T2 & G2). exists (d1 ++ d2). by rewrite T2, T1, G2, G1, !app_assoc.
  - exists []. rewrite !app_nil_r. auto.
  - apply in_block.
  - apply in_unblock.
  - apply in_resume.
  - apply in_submit.
  - apply in_user_data.
  - apply in_notice.
  - apply in_shutdown.
  - apply in_close.
  - apply in_ack.
  - eapply prog_given_nil, in_read.
  - apply take_reset.
  - apply take_free.
  - apply take_accept.
  - apply take_shutdown.
  - apply take_conn_free.
Qed.

Abbreviation calm := (calm fed_flow).
Abbreviation feeds := (flows fed_flow).

(** *** Flushing *)

Lemma calm_q_write h vs fin : preserves calm (q_write h vs fin : M session h3q_write_result).
Proof. unfold q_write. solve_calm. apply (calm_env fed_flow). intros e. apply take_write. Qed.

Lemma calm_offsets sid z : preserves calm (add_offsets conf sid z : M session unit).
Proof. unfold add_offsets. solve_calm. apply (calm_on_ngh fed_flow). intros n. apply in_taken. Qed.

Lemma calm_writev : preserves calm (call_ngh conf ngh_writev_stream : M session wv_result).
Proof. eapply (calm_call fed_flow). intros n. apply in_writev. Qed.

#[local] Hint Resolve calm_q_write calm_offsets calm_writev : calm.

Lemma feeds_flush fuel : preserves feeds (flush_nghttp3 conf io fuel : M session unit).
Proof.
  apply (preserves_flows fed_flow). assert (Hl : preserves calm (flush_loop conf io fuel : M session unit)).
  { induction fuel as [|k IH]; cbn [flush_loop]; unfold flush_stream, h3_stream_find; solve_calm. }
  unfold flush_nghttp3. solve_calm.
Qed.

(** *** Reading *)

(** A call that gives a stream [d] gives it [d] whatever its callbacks do. *)
Lemma run_prog_given {R} (pr : prog N R) s n sid d r s' :
  ss_ngh3 s = Some n -> prog_given sid d n pr -> run_prog conf pr s = Ret r s' ->
  settled s s' /\ taken_same None (ss_env s) (ss_env s')
  /\ exists n', ss_ngh3 s' = Some n' /\ given_more sid d n n'.
Proof.
  revert s n d. induction pr as [n1 r1|n1 cb ud k IH]; intros s n d Hn; cbn [prog_given run_prog].
  - intros Ho [= <- <-]. split_and!; [by apply settled_same|reflexivity|]. by exists n1.
  - intros (d1 & d2 & -> & Ho & Hk) He. binv He u s1 H1. injection H1 as _ <-. binv He a s2 H2. binv He n2 s3 H3.
    apply get_ngh_inv in H3 as [H3 ->]. destruct (calm_callback fed_flow conf _ _ _ _ _ H2) as [Hs Ht Hg].
    rewrite H3 in Hg. simpl in Ht, Hg. destruct (IH n2 a s2 n2 d2 H3) as (Hs2 & Ht2 & n' & Hn' & Hm); [by apply Hk|done|].
    split_and!; [|by etrans|].
    { transitivity (set_ss_ngh3 (Some n1) s); [by apply settled_same|by etrans]. }
    exists n'. split; [done|].
    apply given_more_app with n2; [|done]. destruct Ho as [O1 O2]. split; [by rewrite Hg|].
    intros sid' Hne. by rewrite Hg, O2.
Qed.

(** A read and the call that hands on what it returned. *)
Lemma feeds_round s p st h z r s1 s2 c s3 :
  listed s p -> ss_heap s !! p = Some st -> st_qstream st = Some h -> q_read h z s = Ret r s1 -> rd_ok r = true ->
  settled s1 s2 -> ss_env s2 = ss_env s1 -> ss_ngh3 s2 = ss_ngh3 s1 ->
  call_ngh conf (fun g => ngh_read_stream g (st_stream_id st) (rd_bytes r) false) s2 = Ret c s3 -> feeds s s3.
Proof.
  intros [sid Hp] Hst Hq Hr Hok Hs2 He2 Hn2 Hc. apply q_read_inv in Hr as (e & Hr & ->).
  apply take_read in Hr as [Ht Ho]. rewrite Hok in Ht. unfold call_ngh in Hc. binv Hc n s0 H0.
  apply get_ngh_inv in H0 as [H0 ->].
  destruct (run_prog_given _ _ _ _ _ _ _ H0 (in_read n (st_stream_id st) (rd_bytes r) false) Hc)
    as (Hs3 & Ht3 & n3 & Hn3 & Hm & Hu).
  rewrite He2 in Ht3. simpl in *. apply (settled_flows fed_flow _ _ n n3); [|congruence|done|].
  { etrans; [|by etrans; [exact Hs2|]]. by apply settled_same. }
  intros Htd sid' h' Hh. assert (Hsid : st_stream_id st = sid) by (by eapply td_id). rewrite Hsid in *.
  assert (Hold : holds s sid h) by (by exists p, st).
  destruct (decide (h' = h)) as [->|Hne].
  - assert (sid' = sid) as -> by (by eapply td_one). exists (rd_bytes r). split; [|done].
    by rewrite Ht3, Ht by done.
  - exists []. rewrite !app_nil_r. split; [rewrite Ht3, Ho by congruence; done|]. apply Hu. intros ->.
    by apply Hne, (holds_fun s sid).
Qed.
Lemma count_read_inv s z u s' :
  count_read io z s = Ret u s' -> settled s s' /\ ss_streams s' = ss_streams s /\ ss_ngh3 s' = ss_ngh3 s /\ ss_env s' = ss_env s.
Proof.
  unfold count_read, when. destruct io; intros [= _ <-]; (split; [by apply settled_same|done]).
Qed.

(** A read that returned nothing took nothing. *)
Lemma feeds_empty_read s h z r s' :
  q_read h z s = Ret r s' -> rd_ok r && (0 <? blen (rd_bytes r)) = false -> feeds s s'.
Proof.
  intros Hr Hb. apply q_read_inv in Hr as (e & Hr & ->). apply take_read in Hr as [Ht Ho].
  assert (Hd : (if rd_ok r then rd_bytes r else []) = []).
  { destruct (rd_ok r); [|done]. simpl in Hb. apply Z.ltb_ge in Hb. destruct (rd_bytes r) as [|b l]; [done|].
    unfold blen in Hb. simpl in Hb. lia. }
  rewrite Hd, app_nil_r in Ht. apply (calm_flows fed_flow), (calm_set_env fed_flow). simpl. intros x _.
  destruct (decide (x = h)) as [->|Hne]; [done|]. apply Ho. congruence.
Qed.

Lemma feeds_drain_reads p buf reads left read s r s' :
  listed s p -> drain_reads conf io p buf reads left read s = Ret r s' -> feeds s s'.
Proof.
  revert left read s. induction reads as [|k IH]; intros left read s Hl He; cbn [drain_reads] in He.
  { by injection He as _ <-. }
  destruct (_ <=? 0); [by injection He as _ <-|]. binv He st s1 H1. apply get_stream_inv in H1 as [Hst ->].
  destruct (st_qstream st) as [h|] eqn:Hq.
  2:{ eapply (preserves_flows fed_flow); [|exact He]. solve_calm. }
  binv He rr s1 H1. destruct (_ && _) eqn:Hok.
  2:{ etrans; [by eapply feeds_empty_read|]. eapply (preserves_flows fed_flow); [|exact He]. solve_calm. }
  apply andb_prop in Hok as [Hok _].
  assert (Hl1 : listed s1 p) by (apply q_read_inv in H1 as (e & _ & ->); exact Hl).
  binv He u s2 H2. apply count_read_inv in H2 as (Hs2 & Ht2 & Hn2 & He2). binv He v s3 H3. injection H3 as _ <-.
  binv He c s4 H4. assert (Hf : feeds s s4).
  { eapply feeds_round; [exact Hl|exact Hst|exact Hq|exact H1|exact Hok| | | |exact H4]; [|done..].
    etrans; [exact Hs2|by apply settled_same]. }
  assert (Hl4 : listed s4 p).
  { eapply listed_same; [by eapply (frame_call conf same_table)|]. eapply listed_same; [|exact Hl1]. exact Ht2. }
  etrans; [exact Hf|]. binv He w s5 H5. injection H5 as _ <-.
  assert (Hc5 : calm s4 (set_ss_pending (-1, None) s4)) by calm_same.
  etrans; [apply (calm_flows fed_flow), Hc5|]. destruct (c <? 0).
  { eapply (preserves_flows fed_flow); [|exact He]. solve_calm. }
  binv He st' s6 H6. apply get_stream_inv in H6 as [_ ->].
  destruct (st_done st'); [by injection He as _ <-|]. by eapply IH.
Qed.

Lemma feeds_drain : preserves feeds (drain_ready_streams conf io : M session _).
Proof. apply (flows_drain fed_flow). apply feeds_drain_reads. Qed.

End Feed.

(** ** What reaches nghttp3 *)

Section Claims.
Context {N E : Type} {NG : Nghttp3 N} {NGS : Nghttp3Spec N NG} {NOB : Nghttp3Given N} {NGI : Nghttp3In N NG NOB}.
Context {QS : QuicStreams E} {QSS : QuicStreamsSpec E QS} {QC : QuicConns E} {QCS : QuicConnsSpec E QC}.
Context {EOB : QuicTaken E} {QR : QuicReads E QS QC EOB} {AH : AprHash} {H : Httpd}.

(** C5 (refinement): between QUIC and nghttp3 no byte is lost, repeated, reordered or given
    to another stream, in any interleaving of the event thread with the workers.  Take two
    states of an execution and a stream that in the second still has the QUIC stream it had
    in the first: what was read from the QUIC stream in between is what nghttp3 was given
    for the stream in between, whatever the reads returned, whichever streams were served
    before the budgets were used up and whatever the callbacks did. *)
Theorem received_bytes_delivered conf io (s : @h3_session N E) x x' sid h n' :
  conf_ready conf -> serviced conf s ->
  rtc (sys_step conf io pc_ok) (sys_start s) x -> rtc (sys_step conf io pc_ok) x x' ->
  let s1 := sy_sess (fst x) in
  let s2 := sy_sess (fst x') in
  holds s2 sid h -> (h < ss_fresh s1)%positive -> ss_ngh3 s2 = Some n' ->
  exists n d, holds s1 sid h /\ ss_ngh3 s1 = Some n
    /\ qs_taken (ss_env s2) h = qs_taken (ss_env s1) h ++ d /\ ngh_given n' sid = ngh_given n sid ++ d.
Proof.
  intros Hc Hs Hx Hx' s1 s2 Hh Hlt Hn'.
  destruct (flow_run fed_flow conf io (feeds_flush conf io) (feeds_drain conf io) s x x' Hc Hs Hx Hx') as [_ L3 L4].
  destruct (L4 n' Hn') as (n & Hn & Hb). destruct (Hb sid h Hh Hlt) as (d & Ht & Hg).
  exists n, d. split_and!; [by apply L3|done..].
Qed.

End Claims.

(** ** An instance and a run *)

#[export] Instance toy_ngh_given : Nghttp3Given toy_ngh := toy_given.

Lemma toy_given_same n n' : tn_fed n' = tn_fed n -> given_same n n'.
Proof. intros Hf sid. unfold ngh_given, toy_ngh_given, toy_given. by rewrite Hf. Qed.

Lemma toy_feed_more sid d n : given_more sid d n (toy_feed sid d n).
Proof.
  unfold given_more, ngh_given, toy_ngh_given, toy_given at 1 3. simpl. rewrite lookup_insert_eq. split; [done|].
  intros sid' Hne. by rewrite lookup_insert_ne.
Qed.

#[export] Instance toy_nghttp3_in : Nghttp3In toy_ngh toy_nghttp3 toy_ngh_given.
Proof.
  split; intros; simpl; try (by apply toy_given_same).
  - unfold toy_read. pose proof (toy_feed_more sid d n) as Hf. destruct (tn_user _ !! sid); [done|].
    exists d, []. rewrite app_nil_r. split_and!; [done|done|]. intros n1 r1 _.
    exists [], []. split_and!; [done|by apply given_more_nil|]. intros n2 r2 _.
    exists [], []. split_and!; [done|by apply given_more_nil|]. intros n3 r3 _. by apply given_more_nil.
  - by split.
  - split; [done|]. intros n2 r _. by split; [apply toy_given_same|].
  - unfold toy_writev. destruct (tn_submitted n) as [|sid l]; [by split|]. split; [done|].
    intros n1 r _. by split; [apply toy_given_same|].
Qed.

#[export] Instance toy_openssl_reads : OpenSSLReads toy_openssl.
Proof.
  refine {| SSL_taken := toy_taken |}; simpl; try done.
  - intros e h n e' rv b [= <- <- <-]. unfold toy_taken. simpl.
    by rewrite filter_app, map_app, concat_app, filter_cons_True, filter_nil; simpl; rewrite ?app_nil_r.
  - intros e h n h' Hne. unfold qs_taken, toy_taken. simpl.
    rewrite filter_app, filter_cons_False by (simpl; congruence). by rewrite filter_nil, app_nil_r.
  - intros e h b h' _. unfold qs_taken, toy_taken, toy_write. by case_match.
  - intros e _ f h _. by destruct (toy_incoming e).
Defined.

#[export] Instance toy_quic_taken : QuicTaken toy_ssl := SSL_taken (O := toy_openssl).
#[export] Instance toy_quic_reads : QuicReads toy_ssl toy_streams toy_conns toy_quic_taken := h3q_reads.

(** The first turn of a session after [k] of its steps and at its end. *)
Definition fed_states (k fuel : nat) (o : option (@h3_session toy_ngh toy_ssl)) : option (toy_state * toy_state) :=
  x ← turn_state k o; Some (x, run_event fuel x).

(** After four steps the stream has been accepted and not yet read. *)
Definition check_fed (o : option (toy_state * toy_state)) : bool :=
  match o with
  | Some (x, x') =>
      let s := sy_sess (fst x) in
      let s' := sy_sess (fst x') in
      bool_decide (quic_of s' 32 = Some 8%positive) && bool_decide (8 < ss_fresh s)%positive
      && bool_decide (toy_taken (ss_env s) 8 = []) && bool_decide (toy_taken (ss_env s') 8 = text "AB")
      && bool_decide ((fun n => toy_given n 32) <$> ss_ngh3 s = Some []) && bool_decide (is_Some (ss_ngh3 s'))
  | None => false
  end.

Lemma fed_states_checked : check_fed (fed_states 4 50 toy_session) = true.
Proof. vm_cast_no_check (eq_refl true). Qed.

Lemma check_fed_facts x x' :
  check_fed (Some (x, x')) = true -> exists n n',
    quic_of (sy_sess (fst x')) 32 = Some 8%positive /\ (8 < ss_fresh (sy_sess (fst x)))%positive
    /\ toy_taken (ss_env (sy_sess (fst x))) 8 = [] /\ toy_taken (ss_env (sy_sess (fst x'))) 8 = text "AB"
    /\ ss_ngh3 (sy_sess (fst x)) = Some n /\ toy_given n 32 = [] /\ ss_ngh3 (sy_sess (fst x')) = Some n'.
Proof.
  cbn [check_fed]. rewrite !andb_true_iff, !bool_decide_eq_true. intros [[[[[K1 K2] K3] K4] K5] [n' K6]].
  destruct (ss_ngh3 (sy_sess (fst x))) as [n|]; [|done]. injection K5 as K5. exists n, n'. by split_and!.
Qed.

Lemma fed_run_gen k fuel o :
  check_fed (fed_states k fuel o) = true -> (forall s, o = Some s -> serviced toy_conf s) ->
  exists s x x', fed_states k fuel o = Some (x, x') /\ serviced toy_conf s
    /\ rtc toy_step (sys_start s) x /\ rtc toy_step x x' /\ check_fed (Some (x, x')) = true.
Proof.
  unfold fed_states, mbind, option_bind. destruct (turn_state k o) as [x|] eqn:Ht; [|done]. intros Hk Hs.
  destruct (turn_state_reach _ _ _ Ht Hs) as (s & Hsv & Hr). exists s, x, (run_event fuel x).
  exact (conj eq_refl (conj Hsv (conj Hr (conj (run_event_steps _ fuel x) Hk)))).
Qed.

Lemma received_bytes_delivered_witness :
  exists x x' n', fed_states 4 50 toy_session = Some (x, x') /\ ss_ngh3 (sy_sess (fst x')) = Some n'
    /\ toy_taken (ss_env (sy_sess (fst x))) 8 = [] /\ toy_given n' 32 = text "AB".
Proof.
  destruct (fed_run_gen 4 50 _ fed_states_checked toy_session_serviced) as (s & x & x' & He & Hs & H1 & H2 & Hk).
  destruct (check_fed_facts _ _ Hk) as (n & n' & K1 & K2 & K3 & K4 & Kn & K5 & Kn').
  destruct (received_bytes_delivered (NOB := toy_ngh_given) (EOB := toy_quic_taken) toy_conf true s x x' 32 8%positive n'
    toy_conf_ready Hs H1 H2 (quic_holds _ _ _ K1) K2 Kn') as (n1 & d & _ & Hn1 & Ht & Hg).
  rewrite Kn in Hn1. injection Hn1 as <-. exists x, x', n'. split_and!; [exact He|exact Kn'|exact K3|].
  transitivity (toy_given n 32 ++ d); [exact Hg|]. rewrite K5, <- K4. symmetry.
  transitivity (toy_taken (ss_env (sy_sess (fst x))) 8 ++ d); [exact Ht|]. by rewrite K3.
Defined.
