(* ===== verification/Responses.v ===== *)
(** * What a worker sends (h3_request.c, h3_filter.c, h3_session.c)

    The bytes a worker queues on its stream, whatever the event thread does in between:
    with streaming they are, bucket by bucket, the data that httpd passes to the output
    filter, and otherwise the captured body or the message that replaces an oversized one;
    no byte is queued before the head has been submitted, and the response is completed.

    [runs] is a worker's own sequence of steps, each with the session before and after it;
    between two steps the session changes arbitrarily, as long as the invariant holds and
    the stream stays the worker's.  What a step queues is read off the response queue: the
    bytes by which it extends the abstract queue's pending ones ([appended]). *)

From S2P Require Import Prelude Effects LinkedQueue RespQueue Config Body Quic Stream.
From S2P Require Import Session SessionInv SessionSafe Request Toy Workers Service System.

(** ** Pieces *)

(** [b] is made of a prefix of each of [xs], in order. *)
Definition piecewise (b : bytes) (xs : list bytes) : Prop :=
  exists bs, b = concat bs /\ Forall2 prefix bs xs.

Lemma piecewise_nil xs : piecewise [] xs.
Proof.
  exists (replicate (length xs) []). split; [by induction xs|].
  induction xs; constructor; [apply prefix_nil|done].
Qed.

Lemma piecewise_app b1 b2 xs1 xs2 :
  piecewise b1 xs1 -> piecewise b2 xs2 -> piecewise (b1 ++ b2) (xs1 ++ xs2).
Proof.
  intros (bs1 & -> & F1) (bs2 & -> & F2). exists (bs1 ++ bs2).
  split; [by rewrite concat_app|by apply Forall2_app].
Qed.

Lemma piecewise_more b xs1 xs2 : piecewise b xs1 -> piecewise b (xs1 ++ xs2).
Proof. intros Hb. rewrite <- (app_nil_r b). apply piecewise_app; [done|apply piecewise_nil]. Qed.

Lemma piecewise_one b x : b `prefix_of` x -> piecewise b [x].
Proof. intros Hb. exists [b]. split; [by rewrite concat_cons, app_nil_r|by repeat constructor]. Qed.

Lemma piecewise_empty b xs : piecewise b (xs ++ [[]]) -> piecewise b xs.
Proof.
  intros (bs & -> & Hb). apply Forall2_app_inv_r in Hb as (bs1 & bs2 & Hb1 & Hb2 & ->).
  apply Forall2_cons_inv_r in Hb2 as (b & bs' & Hb & Hnil & ->). apply Forall2_nil_inv_r in Hnil as ->.
  apply prefix_nil_inv in Hb as ->. exists bs1. by rewrite concat_app, !app_nil_r.
Qed.

Lemma piecewise_cons c b x y : piecewise b [y] -> x = c ++ y -> piecewise (c ++ b) [x].
Proof.
  intros (bs & -> & Hb) ->. apply Forall2_cons_inv_r in Hb as (b & bs' & Hb & Hnil & ->).
  apply Forall2_nil_inv_r in Hnil as ->. rewrite concat_cons, app_nil_r.
  by apply piecewise_one, prefix_app.
Qed.

(** ** What httpd passes to the filter *)

(** With streaming, the data of a brigade is taken up to a bucket that asks for an error
    response or cannot be read. *)
Fixpoint streamed_data {H : Httpd} (bb : list out_bucket) : list bytes :=
  match bb with
  | [] | OB_error :: _ => []
  | OB_data (APR_SUCCESS, Some d) :: bb' => d :: streamed_data bb'
  | OB_data (APR_SUCCESS, None) :: bb' => streamed_data bb'
  | OB_data _ :: _ => []
  | _ :: bb' => streamed_data bb'
  end.

(** A capture skips what it cannot read. *)
Fixpoint captured_data {H : Httpd} (bb : list out_bucket) : list bytes :=
  match bb with
  | [] | OB_error :: _ => []
  | OB_data (APR_SUCCESS, Some d) :: bb' => d :: captured_data bb'
  | _ :: bb' => captured_data bb'
  end.

Definition call_data {H : Httpd} (data : list out_bucket -> list bytes) (c : filter_call) : list bytes :=
  match c with FC_out true _ bb => data bb | _ => [] end.

Section Responses.
Context {N E : Type} {NG : Nghttp3 N} {NGS : Nghttp3Spec N NG}.
Context {QS : QuicStreams E} {QSS : QuicStreamsSpec E QS}.
Context {QC : QuicConns E} {QCS : QuicConnsSpec E QC} {AH : AprHash} {H : Httpd}.
Context (conf : h3_server_conf).
Context (Hbody : rb_max_ok (h3_max_request_body_size conf)).
Context (Hbuf : 0 < h3_stream_buffer_size conf <= SIZE_MAX).
Abbreviation session := (@h3_session N E).
Abbreviation thread := (thread session).
Abbreviation T := (T session).
Implicit Types (s : session) (st : h3_stream) (p : sptr).

(** ** Traces of a worker *)

Definition trace : Type := list (session * session).

(** Every step finds the stream the worker's; the one that gives it back is the last of
    the trace, whatever the task does then. *)
Inductive runs p : thread -> trace -> thread -> Prop :=
  | runs_nil t : runs p t [] t
  | runs_own m s o s' tr t :
      sess_inv conf s -> busy_at s p -> m s = Ret o s' -> busy_at s' p ->
      runs p (default (Atomic m) o) tr t -> runs p (Atomic m) ((s, s') :: tr) t
  | runs_back m s o s' t :
      sess_inv conf s -> busy_at s p -> m s = Ret o s' -> ~ busy_at s' p ->
      runs p (Atomic m) [(s, s')] t.

Definition resp_at s p : option resp_queue := st_resp <$> ss_heap s !! p.

(** The step from [s] to [s'] queues [b] on the stream. *)
Definition appended p s s' (b : bytes) : Prop :=
  exists q q' a a', resp_at s p = Some q /\ resp_at s' p = Some q'
    /\ rq_refines q a /\ rq_refines q' a'
    /\ aq_inflight a' = aq_inflight a /\ aq_pending a' = aq_pending a ++ b.

Definition submitted s p : bool := default false (rq_submitted <$> resp_at s p).

Definition completed s p : bool := default false (rq_complete <$> resp_at s p).

(** What a worker's steps have brought about so far. *)
Record seen := Seen { sn_head : bool; sn_complete : bool }.

Definition note (h : seen) s p : seen :=
  Seen (sn_head h || submitted s p) (sn_complete h || completed s p).

Definition seen_le (h h' : seen) : Prop :=
  (sn_head h = true -> sn_head h' = true) /\ (sn_complete h = true -> sn_complete h' = true).

#[local] Instance seen_le_preorder : PreOrder seen_le.
Proof. split; [done|]. unfold seen_le. intros x y z. naive_solver. Qed.

Lemma note_le h s p : seen_le h (note h s p).
Proof. split; simpl; by intros ->. Qed.

(** The steps queue [b], and a byte only after a step that left the head submitted; [h] and
    [h'] are what was seen before and after. *)
Inductive puts p : seen -> trace -> bytes -> seen -> Prop :=
  | puts_nil h : puts p h [] [] h
  | puts_cons h s s' tr b b' h' :
      appended p s s' b -> (b <> [] -> sn_head h = true) -> puts p (note h s' p) tr b' h' ->
      puts p h ((s, s') :: tr) (b ++ b') h'.

(** Nothing stands in the way of the response: it has not been cancelled and the session
    has not failed. *)
Definition unhindered s p : Prop :=
  rq_cancelled <$> resp_at s p = Some false /\ ss_aborted s = false /\ ss_ngh3_dead s = false.

Definition healthy p (tr : trace) : Prop :=
  Forall (fun x => unhindered (fst x) p /\ unhindered (snd x) p) tr.

Lemma puts_app p h tr1 tr2 b1 b2 h1 h2 :
  puts p h tr1 b1 h1 -> puts p h1 tr2 b2 h2 -> puts p h (tr1 ++ tr2) (b1 ++ b2) h2.
Proof.
  induction 1 as [|h s s' tr b b' h' Ha Hb Hp IH]; [done|]. intros H2.
  rewrite <- app_assoc. constructor; auto.
Qed.

Lemma puts_le p h tr b h' : puts p h tr b h' -> seen_le h h'.
Proof. induction 1; [done|]. etrans; [apply note_le|done]. Qed.

(** ** Specifications of a worker's code

    [c], started after [h], queues pieces of [xs]; when it has finished its result
    and what was seen satisfy [Q], and if [P] held and nothing stood in the way it has queued
    all of [xs] and its result satisfies [G]. *)
Definition does {A} (P : Prop) p h (c : T A) (xs : list bytes) (Q : A -> seen -> Prop)
    (G : A -> Prop) : Prop :=
  forall k tr t, runs p (c k) tr t ->
    (t <> Finished /\ exists b h', puts p h tr b h' /\ piecewise b xs)
    \/ exists a tr1 tr2 b h', tr = tr1 ++ tr2 /\ puts p h tr1 b h' /\ piecewise b xs /\ Q a h'
         /\ (P -> healthy p tr1 -> b = concat xs /\ G a) /\ runs p (k a) tr2 t.

Lemma does_ret {A} (P : Prop) p h (a : A) xs (Q : A -> seen -> Prop) (G : A -> Prop) :
  Q a h -> (P -> concat xs = [] /\ G a) -> does P p h (mret a) xs Q G.
Proof.
  intros HQ HG k tr t Hr. right. exists a, [], tr, [], h.
  split_and!; [done|constructor|apply piecewise_nil|done| |exact Hr].
  intros HP _. destruct (HG HP). by split.
Qed.

Lemma does_bind {A B} (P : Prop) p h (c : T A) (f : A -> T B) xs1 xs2 Q G Q' G' :
  does P p h c xs1 Q G -> (forall a h', Q a h' -> does (P /\ G a) p h' (f a) xs2 Q' G') ->
  does P p h (c ≫= f) (xs1 ++ xs2) Q' G'.
Proof.
  intros Hc Hf k tr t Hr. destruct (Hc _ _ _ Hr) as [(Ht & b & h' & Hp & Hb)|
    (a & tr1 & tr2 & b1 & h1 & -> & Hp1 & Hb1 & HQ & HG & Hr2)].
  { left. split; [done|]. exists b, h'. split; [done|by apply piecewise_more]. }
  destruct (Hf _ _ HQ _ _ _ Hr2) as [(Ht & b2 & h2 & Hp2 & Hb2)|
    (a2 & tr21 & tr22 & b2 & h2 & -> & Hp2 & Hb2 & HQ2 & HG2 & Hr3)].
  - left. split; [done|]. exists (b1 ++ b2), h2. split; [by eapply puts_app|by apply piecewise_app].
  - right. exists a2, (tr1 ++ tr21), tr22, (b1 ++ b2), h2. rewrite <- app_assoc.
    split_and!; [done|by eapply puts_app|by apply piecewise_app|done| |done].
    intros HP [He1 He2]%Forall_app. destruct (HG HP He1) as [-> HGa].
    destruct (HG2 (conj HP HGa) He2) as [-> HGb]. by rewrite concat_app.
Qed.

Lemma does_mono {A} (P P' : Prop) p h (c : T A) xs xs' (Q Q' : A -> seen -> Prop) (G G' : A -> Prop) :
  does P p h c xs Q G -> (forall b, piecewise b xs -> piecewise b xs') -> concat xs = concat xs' ->
  (P' -> P) -> (forall a h', Q a h' -> Q' a h') ->
  (forall a, P' -> G a -> G' a) -> does P' p h c xs' Q' G'.
Proof.
  intros Hc Hx1 Hx2 HP HQ HG k tr t Hr. destruct (Hc _ _ _ Hr) as [(Ht & b & h' & Hp & Hb)|
    (a & tr1 & tr2 & b & h' & -> & Hp & Hb & HQa & HGa & Hr2)]; [left; eauto 6|].
  right. exists a, tr1, tr2, b, h'. split_and!; auto. intros HP' Hh.
  destruct (HGa (HP HP') Hh) as [-> Hg]. auto.
Qed.

(** A step that queues nothing. *)
Lemma does_atomic {A} (P : Prop) p h (m : M session A) (Q : A -> seen -> Prop) (G : A -> Prop) :
  (forall s a s', sess_inv conf s -> busy_at s p -> m s = Ret a s' ->
     busy_at s' p /\ appended p s s' [] /\ Q a (note h s' p)
     /\ (P -> unhindered s p -> unhindered s' p -> G a)) ->
  does P p h (atomic m) [] Q G.
Proof.
  intros Hm k tr t Hr. unfold atomic in Hr. inversion Hr as [|m' s o s' tr' t' Hs Hb He Hb' Hr'|
    m' s o s' t' Hs Hb He Hb']; subst.
  - left. split; [done|]. exists [], h. split; [constructor|apply piecewise_nil].
  - unfold mbind, M_bind in He. destruct (m s) as [a s1| |] eqn:Em; try done. injection He as <- <-.
    destruct (Hm s a s1 Hs Hb Em) as (_ & Ha & HQ & HG). right.
    exists a, [(s, s1)], tr', [], (note h s1 p).
    split_and!; [done| |apply piecewise_nil|done| |done].
    + apply (puts_cons _ _ _ _ _ [] []); [done|done|constructor].
    + intros HP [[U1 U2] _]%Forall_cons. split; [done|auto].
  - unfold mbind, M_bind in He. destruct (m s) as [a s1| |] eqn:Em; try done. injection He as <- <-.
    by destruct (Hm s a s1 Hs Hb Em) as (Hn & _).
Qed.

(** A step repeated until it has a result, after the head has been submitted. *)
Lemma await_runs {A} (P : Prop) p h (m : M session (option A)) (put : A -> bytes) (Q G : A -> Prop) :
  (forall s o s', sess_inv conf s -> busy_at s p -> m s = Ret o s' ->
     busy_at s' p /\ match o with
                     | None => appended p s s' []
                     | Some a => appended p s s' (put a) /\ Q a
                                 /\ (P -> unhindered s p -> unhindered s' p -> G a)
                     end) ->
  sn_head h = true ->
  forall k tr t, runs p (await m k) tr t ->
    (t <> Finished /\ exists h', puts p h tr [] h')
    \/ exists a tr1 tr2 h', tr = tr1 ++ tr2 /\ puts p h tr1 (put a) h' /\ Q a
         /\ (P -> healthy p tr1 -> G a) /\ runs p (k a) tr2 t.
Proof.
  intros Hm Hh k tr t Hr. remember (await m k) as t0 eqn:Et.
  revert h Hh Et. induction Hr as [t|m' s o s' tr t Hs Hb He Hb' Hr IH|
    m' s o s' t Hs Hb He Hb']; intros h Hh Et.
  { subst. left. split; [done|]. exists h. constructor. }
  all: injection Et as ->; unfold mbind, M_bind in He.
  all: destruct (m s) as [oa s1| |] eqn:Em; try done; injection He as <- <-.
  all: destruct (Hm s oa s1 Hs Hb Em) as (Hk & Ha); try done. destruct oa as [a|]; simpl in *.
  - destruct Ha as (Ha & HQ & HG). right. exists a, [(s, s1)], tr, (note h s1 p). split_and!; [done| |done| |done].
    + rewrite <- (app_nil_r (put a)). constructor; [done|done|constructor].
    + intros HP [[U1 U2] _]%Forall_cons. auto.
  - destruct (IH (note h s1 p) (proj1 (note_le _ _ _) Hh) eq_refl)
      as [(Ht & h' & Hp)|(a & tr1 & tr2 & h' & -> & Hp & HQ & HG & Hr2)].
    + left. split; [done|]. exists h'. by apply (puts_cons _ _ _ _ _ [] []).
    + right. exists a, ((s, s1) :: tr1), tr2, h'. split_and!; [done| |done| |done].
      * by apply (puts_cons _ _ _ _ _ []).
      * intros HP [_ Hhe]%Forall_cons. auto.
Qed.

(** ** Steps on the response *)

Lemma get_live_ret s p st : ss_heap s !! p = Some st -> busy st -> get_live p s = Ret st s.
Proof.
  intros Hp (_ & _ & Hl). unfold get_live. rewrite (bind_ret _ _ _ _ _ (get_stream_ret _ _ _ Hp)).
  by rewrite Hl.
Qed.

Lemma resp_at_refines s p st :
  sess_inv conf s -> ss_heap s !! p = Some st -> exists a, rq_refines (st_resp st) a.
Proof. intros Hs Hp. destruct (si_acct _ _ Hs _ _ Hp) as (a & [Ha _] & _). by exists a. Qed.

(** A change of the flags only. *)
Lemma appended_flags s s' p st st' :
  sess_inv conf s -> ss_heap s !! p = Some st -> ss_heap s' !! p = Some st' ->
  st_resp st' = st_resp st \/ st_resp st' = rq_set_submitted (st_resp st)
  \/ st_resp st' = rq_set_complete (st_resp st)
  \/ st_resp st' = h3_stream_response_cancel_locked (st_resp st) ->
  appended p s s' [].
Proof.
  intros Hs Hp Hp' Hor. destruct (resp_at_refines s p st Hs Hp) as (a & Ha).
  assert (exists a', rq_refines (st_resp st') a' /\ aq_inflight a' = aq_inflight a
                     /\ aq_pending a' = aq_pending a) as (a' & Ha' & Hi & Hpe).
  { destruct Ha as (sub & pend & Hi & ->).
    destruct Hor as [-> | [-> | [-> | ->]]]; eexists; (split; [exists sub, pend; split;
      [|reflexivity]; auto using rq_inv_submitted, rq_inv_complete, rq_inv_cancel|done]). }
  exists (st_resp st), (st_resp st'), a, a'. unfold resp_at. rewrite Hp, Hp', app_nil_r. by split_and!.
Qed.

(** A step that keeps the invariant's order keeps the stream the worker's. *)
Lemma wp_busy {A} s (m : M session A) (Q : A -> session -> Prop) a s' p :
  wp (sess_inv conf) sess_le s m Q -> m s = Ret a s' -> busy_at s p -> busy_at s' p /\ Q a s'.
Proof.
  intros W He Hb. unfold wp in W. rewrite He in W. destruct W as (_ & Hle & HQ).
  split; [by eapply busy_at_le|done].
Qed.

Lemma resp_at_eq s p st : ss_heap s !! p = Some st -> resp_at s p = Some (st_resp st).
Proof. intros Hp. unfold resp_at. by rewrite Hp. Qed.

Lemma unhindered_eq s p st :
  unhindered s p -> ss_heap s !! p = Some st ->
  rq_cancelled (st_resp st) = false /\ ss_aborted s = false /\ ss_ngh3_dead s = false.
Proof. intros (Hc & Ha & Hd) Hp. rewrite (resp_at_eq _ _ _ Hp) in Hc. by injection Hc as Hc. Qed.

Lemma upd_lookup s p st g : ss_heap s !! p = Some st -> ss_heap (upd_stream p g s) !! p = Some (g st).
Proof. intros Hp. unfold upd_stream. simpl. by rewrite lookup_alter_eq, Hp. Qed.

(** A wakeup changes nothing of the response. *)
Lemma does_wake (P : Prop) p h :
  does P p h (atomic wake_event) [] (fun _ h' => seen_le h h') (fun _ => True).
Proof.
  apply does_atomic. intros s [] s' Hs Hb He.
  destruct (wp_busy s _ _ _ _ p (wp_wake conf s Hs) He Hb) as [Hb' _].
  destruct Hb as (st & Hp & _). injection He as <-.
  split_and!; [done|eapply (appended_flags s _ p st st); eauto|apply note_le|done].
Qed.

Lemma does_submit_locked (P : Prop) p h nva :
  does P p h (atomic (submit_locked p nva)) []
    (fun x h' => fst x = APR_SUCCESS -> sn_head h' = true) (fun x => fst x = APR_SUCCESS).
Proof.
  apply does_atomic. intros s rv s' Hs Hb He.
  destruct (wp_busy s _ _ _ _ p (wp_submit conf s p nva Hs Hb) He Hb) as [Hb' _]. split; [done|].
  destruct Hb as (st & Hp & Hb). unfold submit_locked in He.
  rewrite (bind_ret _ _ _ _ _ (get_live_ret _ _ _ Hp Hb)) in He.
  destruct (rq_submitted (st_resp st)) eqn:Esub.
  { injection He as <- <-. split_and!; [by eapply appended_flags; eauto| |done]. intros _. simpl.
    unfold submitted. rewrite (resp_at_eq _ _ _ Hp). simpl. by rewrite Esub, orb_true_r. }
  unfold get_flags at 1, gets at 1, mbind at 1, M_bind at 1 in He. cbn [sf_aborted sf_ngh3_dead sf_ngh3] in He.
  destruct (si_ngh _ _ Hs) as (n & Hn & _). rewrite Hn in He. cbn [negb] in He. rewrite orb_false_r in He.
  destruct (_ || _ || _) eqn:Ehin.
  { injection He as <- <-. split_and!; [by eapply appended_flags; eauto|done|].
    intros _ U _. destruct (unhindered_eq _ _ _ U Hp) as (U1 & U2 & U3). by rewrite U1, U2, U3 in Ehin. }
  rewrite (bind_ret _ _ _ _ _ (get_ngh_ret _ _ Hn)) in He.
  destruct (ngh_submit_response n (st_stream_id st) nva) as [n' rv0].
  unfold put_ngh, modify, mbind, M_bind in He. cbn beta iota in He.
  destruct (rv0 =? 0); injection He as <- <-.
  - set (s1 := upd_stream p _ _).
    assert (Hp1 : ss_heap s1 !! p = Some (set_st_resp (rq_set_submitted (st_resp st)) st))
      by exact (upd_lookup (set_ss_ngh3 (Some n') s) p st (fun st => set_st_resp (rq_set_submitted (st_resp st)) st) Hp).
    assert (Hsub : submitted s1 p = true) by (unfold submitted; by rewrite (resp_at_eq _ _ _ Hp1)).
    split_and!; [by eapply appended_flags; eauto| |done]. intros _. simpl. by rewrite Hsub, orb_true_r.
  - set (s1 := upd_stream p _ _).
    assert (Hp1 : ss_heap s1 !! p = Some (stream_cancel st))
      by exact (upd_lookup (set_ss_ngh3 (Some n') s) p st stream_cancel Hp).
    split_and!; [eapply appended_flags; eauto; by do 3 right|done|].
    intros _ _ U. by destruct (unhindered_eq _ _ _ U Hp1).
Qed.

Lemma does_submit (P : Prop) p h nva :
  does P p h (submit_response_nva p nva) []
    (fun rv h' => rv = APR_SUCCESS -> sn_head h' = true) (fun rv => rv = APR_SUCCESS).
Proof.
  apply (does_bind _ _ _ _ _ [] [] _ _ _ _ (does_submit_locked _ _ _ _)). intros [rv sent] h1 H1. simpl in *.
  apply (does_bind _ _ _ _ _ [] [] (fun _ h' => seen_le h1 h') (fun _ => True)).
  - destruct sent; [apply does_wake|by apply does_ret].
  - intros _ h2 [H2 _]. apply does_ret; [auto|]. by intros [[_ ?] _].
Qed.

Lemma does_complete_locked (P : Prop) p h :
  does P p h (atomic (response_complete p)) [] (fun _ h' => sn_complete h' = true) (fun _ => True).
Proof.
  apply does_atomic. intros s [] s' Hs Hb He.
  destruct (wp_busy s _ _ _ _ p (wp_response_complete conf s p Hs Hb) He Hb) as [Hb' _].
  split; [done|]. destruct Hb as (st & Hp & Hb).
  unfold response_complete in He. rewrite (bind_ret _ _ _ _ _ (get_live_ret _ _ _ Hp Hb)) in He.
  unfold get_flags, gets, mbind, M_bind, modify in He. cbn [h3_stream_response_complete] in He.
  assert (exists st', ss_heap s' !! p = Some st' /\ st_resp st' = rq_set_complete (st_resp st))
    as (st' & Hp' & Hr).
  { exists (set_st_resp (rq_set_complete (st_resp st)) st). split; [|done].
    rewrite <- (upd_lookup s p st _ Hp). destruct (si_ngh _ _ Hs) as (n & Hn & _).
    destruct (_ && _ && _); [|by injection He as <-]. simpl in He.
    unfold on_ngh, get_ngh, gets, put_ngh, modify, mbind, M_bind in He. simpl in He. rewrite Hn in He.
    by injection He as <-. }
  split_and!; [eapply appended_flags; eauto| |done]. simpl. unfold completed.
  by rewrite (resp_at_eq _ _ _ Hp'), Hr, orb_true_r.
Qed.

Lemma does_complete (P : Prop) p h :
  does P p h (complete_response p) [] (fun _ h' => sn_complete h' = true) (fun _ => True).
Proof.
  apply (does_bind _ _ _ _ _ [] [] _ _ _ _ (does_complete_locked _ _ _)). intros [] h1 H1.
  eapply does_mono; [apply does_wake|done|done|intros HP; exact HP| |done]. intros _ h2 [_ H2]. auto.
Qed.

Lemma does_live (P : Prop) p h :
  does P p h (atomic (get_live p)) [] (fun _ _ => True) (fun _ => True).
Proof.
  apply does_atomic. intros s st0 s' Hs (st & Hp & Hb) He. rewrite (get_live_ret _ _ _ Hp Hb) in He.
  injection He as <- <-. split_and!; [by exists st| |done|done]. eapply appended_flags; eauto.
Qed.

Lemma does_serve (P : Prop) p h mode n :
  off_ok n ->
  does P p h (atomic (serve_body p mode n)) [] (fun _ _ => True) (fun _ => True).
Proof.
  intros Hn. apply does_atomic. intros s bb s' Hs Hb He.
  destruct (wp_busy s _ _ _ _ p (wp_serve_body conf Hbody s p mode n Hs Hb Hn) He Hb) as [Hb' _].
  split_and!; [done| |done|done]. destruct Hb as (st & Hp & Hb). unfold serve_body in He.
  rewrite (bind_ret _ _ _ _ _ (get_live_ret _ _ _ Hp Hb)) in He.
  destruct (serve_request_body (st_body st) [] mode n) as [[b bb'] rv]. injection He as <- <-.
  eapply appended_flags; [done|exact Hp|by apply upd_lookup|by left].
Qed.

(** ** Appending *)

(** What a round queues. *)
Definition round_bytes (data : bytes) (offset : Z) (r : append_result) : bytes :=
  match r with AppendQueued n _ => btake n (bdrop offset data) | _ => [] end.

Definition round_ok (data : bytes) (offset : Z) (r : append_result) : Prop :=
  match r with
  | AppendBlocked => False
  | AppendFailed rv => rv <> APR_SUCCESS
  | AppendQueued n _ => 0 < n <= blen data - offset
  end.

(** A round fails in an open session only by cancelling the response. *)
Lemma append_failed_cancels fl m q data offset q' rv :
  response_append_locked fl m q data offset = Some (q', AppendFailed rv) ->
  rq_cancelled q = false -> sf_aborted fl = false -> sf_ngh3_dead fl = false -> sf_ngh3 fl = true ->
  rq_cancelled q' = true.
Proof.
  unfold response_append_locked, append_must_wait. intros He Hc Ha Hd Hn.
  rewrite Hc, Ha, Hd, Hn in He. repeat case_match; simplify_eq/=; done.
Qed.

Lemma append_round_step s p m w data offset o s' :
  sess_inv conf s -> busy_at s p -> 0 <= offset < blen data -> blen data <= SIZE_MAX ->
  append_round p m w data offset s = Ret o s' ->
  busy_at s' p /\ match o with
                  | None => appended p s s' []
                  | Some r =>
                      appended p s s' (round_bytes data offset r) /\ round_ok data offset r
                      /\ ((forall x, wait_ok (w x) = true) -> unhindered s p -> unhindered s' p ->
                          exists n b, r = AppendQueued n b)
                  end.
Proof.
  intros Hs Hb Hoff Hmax He.
  destruct (wp_busy s _ _ _ _ p (wp_append_round conf Hbuf s p m w data offset Hs Hb Hoff Hmax) He Hb) as [Hb' _].
  split; [done|]. destruct Hb as (st & Hp & Hb). unfold append_round in He.
  rewrite (bind_ret _ _ _ _ _ (get_live_ret _ _ _ Hp Hb)) in He.
  rewrite (bind_ret get_flags _ s s _ eq_refl) in He.
  destruct (si_ngh _ _ Hs) as (n & Hn & _). rewrite Hn in He.
  set (fl := SessFlags _ _ _) in He.
  destruct (resp_at_refines s p st Hs Hp) as (a & Ha).
  destruct (append_refines fl m _ a data offset Ha Hoff Hmax) as (q & r & Er & Hr).
  rewrite Er in He. rewrite (bind_ret (nonnull (Some (q, r))) _ s s _ eq_refl) in He. cbn beta iota in He.
  rewrite (bind_ret (modify _) _ s _ _ eq_refl) in He.
  set (s1 := upd_stream p (set_st_resp q) s) in He.
  assert (Hp1 : ss_heap s1 !! p = Some (set_st_resp q st)) by (by apply upd_lookup).
  assert (Hap : forall b a', rq_refines q a' -> aq_inflight a' = aq_inflight a ->
    aq_pending a' = aq_pending a ++ b -> forall s2, ss_heap s2 = ss_heap s1 -> appended p s s2 b).
  { intros b a' Ha' Hi Hpe s2 Hh. exists (st_resp st), q, a, a'. unfold resp_at.
    rewrite Hh, Hp, Hp1. by split_and!. }
  destruct r as [|rv|k resume].
  - destruct Hr as [-> _]. assert (Hsame : forall s2, ss_heap s2 = ss_heap s1 -> appended p s s2 [])
      by (intros; eapply Hap; eauto; by rewrite app_nil_r).
    unfold gets, mbind, M_bind in He. destruct (wait_ok (w s1)) eqn:Ew; injection He as <- <-; [by apply Hsame|].
    split_and!; [by apply Hsame|by destruct (w s1)|]. intros Hw. by rewrite Hw in Ew.
  - injection He as <- <-. destruct Hr as (Hrv & Hr). split_and!; [|done|].
    + destruct Hr as [->|(a' & Hst & Ha')]; [eapply Hap; eauto; by rewrite app_nil_r|].
      inversion Hst; subst. eapply Hap; eauto. simpl. by rewrite app_nil_r.
    + intros _ U U1. destruct (unhindered_eq _ _ _ U Hp) as (U2 & U3 & U4).
      destruct (unhindered_eq _ _ _ U1 Hp1) as (U5 & _). simpl in U5.
      by rewrite (append_failed_cancels _ _ _ _ _ _ _ Er) in U5.
  - destruct Hr as (Hk1 & Hk2 & a' & Hst & Ha'). inversion Hst; subst.
    assert (Hq : forall s2, ss_heap s2 = ss_heap s1 ->
      appended p s s2 (btake k (bdrop offset data))) by (intros; eapply Hap; eauto).
    destruct resume; [|injection He as <- <-; split_and!; [by apply Hq|simpl; lia|eauto]].
    unfold on_ngh, get_ngh, gets, put_ngh, modify, mbind, M_bind in He. simpl in He. rewrite Hn in He.
    injection He as <- <-. split_and!; [by apply Hq|simpl; lia|eauto].
Qed.

Lemma does_append_loop (P : Prop) fuel p h ac data offset :
  sn_head h = true ->
  (P -> forall x, wait_ok (ac_wait ac x) = true) ->
  blen data <= SIZE_MAX -> 0 <= offset <= blen data -> blen data - offset < Z.of_nat fuel ->
  does P p h (append_loop fuel p ac data offset) [bdrop offset data]
    (fun _ _ => True) (fun rv => rv = APR_SUCCESS).
Proof.
  intros Hh Hw Hmax. revert h offset Hh. induction fuel as [|fuel IH]; intros h offset Hh Hoff Hf; [lia|].
  cbn [append_loop]. destruct (Z.ltb_spec offset (blen data)) as [Hlt|Hge].
  2: { apply does_ret; [done|]. intros _. split; [|done]. rewrite concat_cons, app_nil_r.
       by apply bdrop_all. }
  intros k tr t Hr. apply (await_runs P p h _ (round_bytes data offset) (round_ok data offset)
    (fun r => exists n b, r = AppendQueued n b)) in Hr; [| |exact Hh].
  2: { intros s o s' Hs Hb He. destruct (append_round_step _ _ _ _ _ _ _ _ Hs Hb (conj (proj1 Hoff) Hlt) Hmax He)
         as [H1 H2]. split; [done|]. destruct o; [|done]. destruct H2 as (H2 & H3 & H4). split_and!; auto. }
  destruct Hr as [(Ht & h' & Hp)|(r & tr1 & tr2 & h1 & -> & Hp & HQ & HG & Hr)].
  { left. split; [done|]. exists [], h'. split; [done|apply piecewise_nil]. }
  destruct r as [|rv|n b]; [done| |].
  - right. exists rv, tr1, tr2, [], h1. split_and!; [done|exact Hp|apply piecewise_nil|done| |exact Hr].
    intros HP Hhe. by destruct (HG HP Hhe) as (? & ? & ?).
  - simpl in HQ. rewrite wrap64_small in Hr by (unfold SIZE_MAX in *; lia).
    assert (Hcat : bdrop offset data = btake n (bdrop offset data) ++ bdrop (offset + n) data).
    { rewrite <- (btake_bdrop n (bdrop offset data)) at 1. by rewrite bdrop_bdrop by lia. }
    assert (Hloop : does P p h1 (atomic wake_event ;; append_loop fuel p ac data (offset + n))
      [bdrop (offset + n) data] (fun _ _ => True) (fun rv => rv = APR_SUCCESS)).
    { apply (does_bind _ _ _ _ _ [] _ _ _ _ _ (does_wake _ _ _)). intros _ h2 [H2 _].
      eapply does_mono; [apply (IH h2 (offset + n)); [|lia|lia]|done|done|by intros []|done|done].
      by apply H2, (puts_le _ _ _ _ _ Hp). }
    destruct (Hloop _ _ _ Hr) as [(Ht & b2 & h2 & Hp2 & Hb2)|
      (a & tr21 & tr22 & b2 & h2 & -> & Hp2 & Hb2 & HQ2 & HG2 & Hr3)].
    + left. split; [done|]. exists (btake n (bdrop offset data) ++ b2), h2.
      split; [by eapply puts_app|]. by eapply piecewise_cons.
    + right. exists a, (tr1 ++ tr21), tr22, (btake n (bdrop offset data) ++ b2), h2.
      rewrite <- app_assoc. split_and!; [done|by eapply puts_app|by eapply piecewise_cons|done| |done].
      intros HP [He1 He2]%Forall_app. destruct (HG2 HP He2) as [-> ->]. split; [|done].
      rewrite !concat_cons, !app_nil_r. by symmetry.
Qed.

Lemma does_append (P : Prop) p h ac data :
  sn_head h = true ->
  (P -> forall x, wait_ok (ac_wait ac x) = true) -> blen data <= SIZE_MAX ->
  does P p h (response_append p ac data) [data] (fun _ _ => True) (fun rv => rv = APR_SUCCESS).
Proof.
  intros Hh Hw Hmax. pose proof (blen_nonneg data). unfold response_append.
  replace [data] with [bdrop 0 data] by (by rewrite bdrop_0). apply does_append_loop; [done|done|done|lia|]. unfold blen. lia.
Qed.

(** ** The output filter *)

(** Calls whose waits are only interrupted by the timeout. *)
Definition waits_ok (ac : @append_calls N E) : Prop := forall x, wait_ok (ac_wait ac x) = true.

Lemma does_start (P : Prop) p h r ctx :
  does P p h (h3_response_start p r ctx) []
    (fun rv h' => rv = APR_SUCCESS -> sn_head h' = true) (fun rv => rv = APR_SUCCESS).
Proof. apply does_submit. Qed.

Definition read_data (read : apr_status * option bytes) : list bytes :=
  match read with (APR_SUCCESS, Some d) => [d] | _ => [] end.

Lemma does_filter_data p h ac r ctx read :
  cx_streaming ctx = true -> bucket_ok (OB_data read) ->
  does (waits_ok ac) p h (filter_data conf p ac r ctx read) (read_data read)
    (fun x _ => fst x = ctx /\ (snd x = APR_SUCCESS -> fst read = APR_SUCCESS))
    (fun x => snd x = fst read).
Proof.
  intros Hs Hb. unfold filter_data. rewrite Hs. apply (does_bind _ _ _ _ _ [] _ _ _ _ _ (does_start _ _ _ _ _)).
  intros rv h' Hh. destruct rv; try (apply does_ret; [done|by intros [_ ?]]). specialize (Hh eq_refl).
  destruct read as [rv [d|]]; [|destruct rv; by apply does_ret].
  destruct rv; try by apply does_ret. cbn [read_data]. destruct (Z.ltb_spec 0 (blen d)) as [Hd|Hd].
  - rewrite <- (app_nil_r [d]). eapply does_bind; [apply does_append; [done| |exact Hb]; by intros [? _]|].
    intros rv h'' _. apply does_ret; [done|]. by intros [_ ->].
  - apply does_ret; [done|]. intros _. split; [|done]. pose proof (blen_nonneg d).
    destruct d; [done|]. unfold blen in *. simpl in *. lia.
Qed.

Lemma does_streamed p h ac r ctx bb :
  cx_streaming ctx = true -> Forall bucket_ok bb ->
  does (waits_ok ac) p h (filter_buckets conf p ac r ctx bb) (streamed_data bb)
    (fun x _ => cx_streaming (fst x) = true /\ cx_capture (fst x) = cx_capture ctx) (fun _ => True).
Proof.
  intros Hs Hb. revert ctx h Hs. induction Hb as [|b bb Hb Hbb IH]; intros ctx h Hs;
    cbn [filter_buckets streamed_data]; [by apply does_ret|].
  assert (Hstart : forall ctx1 (f : apr_status -> T (h3_conn_ctx * filter_rv)),
    cx_streaming ctx1 = true -> cx_capture ctx1 = cx_capture ctx ->
    (forall rv h', does (waits_ok ac /\ rv = APR_SUCCESS) p h' (f rv) (streamed_data bb)
      (fun x _ => cx_streaming (fst x) = true /\ cx_capture (fst x) = cx_capture ctx) (fun _ => True)) ->
    does (waits_ok ac) p h (rv ← h3_response_start p r ctx1; f rv) (streamed_data bb)
      (fun x _ => cx_streaming (fst x) = true /\ cx_capture (fst x) = cx_capture ctx) (fun _ => True)).
  { intros ctx1 f _ _ Hf. apply (does_bind _ _ _ _ _ [] _ _ _ _ _ (does_start _ _ _ _ _)). auto. }
  assert (Hgo : forall ctx1 rv h', cx_streaming ctx1 = true -> cx_capture ctx1 = cx_capture ctx ->
    does (waits_ok ac /\ rv = APR_SUCCESS) p h'
      match rv with
      | APR_SUCCESS => filter_buckets conf p ac r ctx1 bb
      | _ => mret (ctx1, FR_status rv)
      end (streamed_data bb)
      (fun x _ => cx_streaming (fst x) = true /\ cx_capture (fst x) = cx_capture ctx) (fun _ => True)).
  { intros ctx1 rv h' H1 H2. destruct rv; try (apply does_ret; [done|by intros [_ ?]]).
    eapply does_mono; [by apply IH|done|done|by intros [? _]|simpl; intros; naive_solver congruence|done]. }
  destruct b as [|x|read| | |].
  - by apply does_ret.
  - cbn [cx_streaming]. rewrite Hs. by apply Hstart; [..|intros; apply Hgo].
  - assert (Hd : streamed_data (OB_data read :: bb)
      = read_data read ++ (if decide (fst read = APR_SUCCESS) then streamed_data bb else [])).
    { destruct read as [rv [d|]], rv; try done. }
    cbn [streamed_data] in Hd. rewrite Hd.
    eapply does_bind; [by apply does_filter_data|]. intros [ctx1 rv] h' [Hc Hrv]. simpl in Hc, Hrv. subst ctx1. simpl.
    destruct (decide (fst read = APR_SUCCESS)) as [Hr|Hr].
    + eapply does_mono; [by apply (Hgo ctx rv h')|done|done|intros [? ->]; by split|done|done].
    + destruct rv; try by apply does_ret. by destruct Hr; apply Hrv.
  - rewrite Hs. apply Hstart; [done|done|]. intros rv h'.
    destruct rv; try (apply does_ret; [done|by intros [_ ?]]).
    apply (does_bind _ _ _ _ _ [] _ _ _ _ _ (does_complete _ _ _)). intros [] h'' _.
    eapply does_mono; [by apply (IH ctx h'')|done|done|by intros [[? _] _]|naive_solver|done].
  - rewrite Hs. by apply Hstart; [..|intros; apply Hgo].
  - by apply IH.
Qed.

(** Without streaming nothing is queued, and the capture takes the data. *)
Lemma capture_all_app limit c ds1 ds2 :
  capture_all limit c (ds1 ++ ds2) = (c' ← capture_all limit c ds1; capture_all limit c' ds2).
Proof.
  revert c. induction ds1 as [|d ds1 IH]; intros c; cbn [app capture_all]; [done|].
  destruct (capture_body_bucket _ _ _); simpl; [apply IH|done].
Qed.

Abbreviation limit := (h3_max_response_body_size conf).

Lemma capture_unread c read :
  read_data read = [] -> capture_body_bucket limit c read = Some c.
Proof.
  intros Hr. unfold capture_body_bucket. destruct (rc_too_large c); [done|].
  destruct read as [rv [d|]], rv; done.
Qed.

Lemma does_captured (P : Prop) p h ac r ctx bb c :
  cx_streaming ctx = false -> capture_all limit (cx_capture ctx) (captured_data bb) = Some c ->
  does P p h (filter_buckets conf p ac r ctx bb) []
    (fun x _ => cx_streaming (fst x) = false /\ cx_capture (fst x) = c) (fun _ => True).
Proof.
  revert ctx h. induction bb as [|b bb IH]; intros ctx h Hs Hc; cbn [filter_buckets captured_data] in *.
  { injection Hc as <-. by apply does_ret. }
  destruct b as [|x|read| | |].
  - injection Hc as <-. by apply does_ret.
  - cbn [cx_streaming]. rewrite Hs. by apply IH.
  - unfold filter_data. rewrite Hs. destruct (decide (read_data read = [])) as [Hr|Hr].
    + rewrite (capture_unread _ _ Hr). cbn [fst snd].
      apply (IH (ConnCtx (cx_resp ctx) false (cx_capture ctx)) h); [done|].
      by destruct read as [rv [d|]], rv.
    + destruct read as [rv [d|]], rv; try done. cbn [capture_all] in Hc.
      destruct (capture_body_bucket limit (cx_capture ctx) (APR_SUCCESS, Some d)) as [c1|] eqn:E1; [|done].
      by apply (IH (ConnCtx (cx_resp ctx) false c1) h).
  - rewrite Hs. by apply IH.
  - rewrite Hs. by apply IH.
  - by apply IH.
Qed.

Lemma does_run_streamed p h ac ctx calls :
  cx_streaming ctx = true -> Forall call_ok calls ->
  does (waits_ok ac) p h (run_filters conf ac p ctx calls) (calls ≫= call_data streamed_data)
    (fun x _ => cx_streaming x = true /\ cx_capture x = cx_capture ctx) (fun _ => True).
Proof.
  intros Hs Hcs. revert ctx h Hs. induction Hcs as [|c cs Hc Hcs IH]; intros ctx h Hs;
    cbn [run_filters]; [by apply does_ret|].
  change ((c :: cs) ≫= call_data streamed_data)
    with (call_data streamed_data c ++ (cs ≫= call_data streamed_data)).
  destruct c as [main r bb|mode n].
  - eapply (does_bind _ _ _ _ _ _ _ (fun x _ => cx_streaming (fst x) = true
      /\ cx_capture (fst x) = cx_capture ctx) (fun _ => True)).
    + unfold h3_filter_out_proto. destruct main; simpl; [by apply does_streamed|by apply does_ret].
    + intros [ctx1 rv] h' [H1 H2]. eapply does_mono; [by apply (IH ctx1 h')|done|done|by intros [? _]| |done].
      simpl in *. intros; naive_solver congruence.
  - eapply does_bind; [by apply does_serve|]. intros bb h' _.
    eapply does_mono; [by apply (IH ctx h')|done|done|by intros [? _]|done|done].
Qed.

Lemma does_run_captured (P : Prop) p h ac ctx calls c :
  cx_streaming ctx = false -> Forall call_ok calls ->
  capture_all limit (cx_capture ctx) (calls ≫= call_data captured_data) = Some c ->
  does P p h (run_filters conf ac p ctx calls) []
    (fun x _ => cx_streaming x = false /\ cx_capture x = c) (fun _ => True).
Proof.
  intros Hs Hcs. revert ctx h P Hs. induction Hcs as [|x cs Hc Hcs IH]; intros ctx h P Hs He;
    cbn [run_filters]. { injection He as <-. by apply does_ret. }
  change ((x :: cs) ≫= call_data captured_data)
    with (call_data captured_data x ++ (cs ≫= call_data captured_data)) in He.
  rewrite capture_all_app in He. apply bind_Some in He as (c1 & H1 & H2).
  change (@nil bytes) with (@nil bytes ++ @nil bytes). destruct x as [main r bb|mode n].
  - eapply (does_bind _ _ _ _ _ _ _ (fun x _ => cx_streaming (fst x) = false
      /\ cx_capture (fst x) = c1) (fun _ => True)).
    + unfold h3_filter_out_proto. destruct main; simpl in *; [by apply does_captured|].
      injection H1 as <-. by apply does_ret.
    + intros [ctx1 rv] h' [H3 H4]. simpl in *. subst c1. by apply IH.
  - eapply does_bind; [by apply does_serve|]. intros bb h' _. simpl in H1. injection H1 as <-. by apply IH.
Qed.

(** ** The worker *)

(** What is left to send when httpd has processed the request. *)
Definition final_body (ctx : @h3_conn_ctx H) : bytes :=
  if rc_too_large (cx_capture ctx) then oversized_msg
  else if negb (cx_streaming ctx) && (0 <? rc_len (cx_capture ctx)) then rc_heap (cx_capture ctx) else [].

Lemma does_finish wc p h ctx :
  blen (final_body ctx) <= SIZE_MAX ->
  does (waits_ok (wc_append wc)) p h (finish_response wc p ctx) [final_body ctx]
    (fun _ h' => sn_complete h' = true) (fun _ => True).
Proof.
  intros Hb. unfold finish_response. change [final_body ctx] with ([] ++ [final_body ctx]).
  eapply (does_bind _ _ _ _ _ _ _ (fun x h' => snd x = final_body ctx
    /\ (fst x = APR_SUCCESS -> sn_head h' = true)) (fun x => fst x = APR_SUCCESS)).
  { unfold final_body. change (@nil bytes) with (@nil bytes ++ @nil bytes).
    destruct (rc_too_large (cx_capture ctx)).
    - eapply does_bind; [apply does_submit|]. intros rv h' Hh. apply does_ret; [done|]. by intros [_ ->].
    - eapply does_bind; [apply does_start|]. intros rv h' Hh. apply does_ret; [done|]. by intros [_ ->]. }
  intros [rv body] h' [Hbody' Hh]. simpl in *. subst body.
  change [final_body ctx] with ([final_body ctx] ++ [] ++ []).
  eapply (does_bind _ _ _ _ _ _ _ (fun _ _ => True) (fun _ => True)).
  - destruct rv; try (apply does_ret; [done|by intros [_ ?]]).
    destruct (Z.ltb_spec 0 (blen (final_body ctx))) as [Hl|Hl].
    + eapply does_mono; [apply does_append; [by apply Hh| |done]|done|done|by intros ?|done|done].
      by intros [? _].
    + apply does_ret; [done|]. intros _. split; [|done]. pose proof (blen_nonneg (final_body ctx)).
      destruct (final_body ctx); [done|]. unfold blen in *. simpl in *. lia.
  - intros rv' h'' _. eapply does_bind; [apply does_complete|]. intros [] h3 Hc. by apply does_ret.
Qed.

(** Giving the stream back queues nothing. *)
Lemma exit_puts p h tr t g (f : unit -> thread) :
  (forall st, st_resp (g st) = st_resp st) -> (forall st, gives_back st (g st)) ->
  runs p ((atomic (get_stream p ;; modify (upd_stream p g)) ;; exit_thread dec_tasks) f) tr t ->
  exists h', puts p h tr [] h'.
Proof.
  intros Hg Hgb Hr.
  assert (Hstep : forall s o s', sess_inv conf s -> busy_at s p ->
    (a ← (get_stream p ;; modify (upd_stream p g)); mret (Some (exit_thread dec_tasks f))) s = Ret o s' ->
    ~ busy_at s' p /\ appended p s s' []).
  { intros s o s' Hs (st & Hp & Hb) He. unfold mbind at 1, M_bind at 1 in He.
    rewrite (bind_ret _ _ _ _ _ (get_stream_ret _ _ _ Hp)) in He. injection He as <- <-.
    pose proof (upd_lookup s p st g Hp) as Hp'. split.
    - intros (st' & Hst' & B1 & B2 & _). rewrite Hp' in Hst'. injection Hst' as <-.
      destruct (Hgb st) as [E1|E1]; rewrite E1 in *; done.
    - eapply appended_flags; [done|exact Hp|exact Hp'|left; apply Hg]. }
  inversion Hr as [|m s o s' tr' t' Hs Hb He Hb' Hr'|m s o s' t' Hs Hb He Hb']; subst;
    [exists h; constructor|by destruct (Hstep _ _ _ Hs Hb He)|].
  exists (note h s' p). apply (puts_cons _ _ _ _ _ [] []); [by eapply Hstep|done|constructor].
Qed.

Context (Hresp : h3_max_response_body_size conf = H3_MAX_RESPONSE_BODY_SIZE_DEFAULT
                 \/ rc_limit_ok (h3_max_response_body_size conf)).

(** The calls httpd makes for the stream. *)
Definition stream_calls (wc : @worker_calls N E H) st : list filter_call :=
  let r := build_request (wc_is_get wc) st in
  wc_filters wc r (choose_action (wc_status wc r) (rb_overflow (st_body st))).

(** What the worker has to send on the stream, in pieces. *)
Definition response_pieces (wc : @worker_calls N E H) st : list bytes :=
  let calls := stream_calls wc st in
  if limit =? H3_MAX_RESPONSE_BODY_SIZE_DEFAULT then calls ≫= call_data streamed_data
  else
    let body := concat (calls ≫= call_data captured_data) in
    [if limit <? blen body then oversized_msg else body].

Lemma captured_fit calls :
  Forall call_ok calls -> Forall (fun d => blen d <= SIZE_MAX) (calls ≫= call_data captured_data).
Proof.
  assert (Hbb : forall bb, Forall bucket_ok bb -> Forall (fun d => blen d <= SIZE_MAX) (captured_data bb)).
  { induction 1 as [|b bb Hb _ IH]; simpl; [done|]. destruct b as [| |[rv [d|]]| | |]; try done;
    destruct rv; try done. by constructor. }
  induction 1 as [|c cs Hc _ IH]; [done|]. simpl. apply Forall_app. split; [|done].
  destruct c as [[] r bb|]; simpl; auto.
Qed.

(** From the start of the filter calls to the completion of the response. *)
Lemma does_respond wc p h st :
  worker_ok wc ->
  does (waits_ok (wc_append wc)) p h
    (ctx ← run_filters conf (wc_append wc) p (new_ctx conf) (stream_calls wc st); finish_response wc p ctx)
    (response_pieces wc st) (fun _ h' => sn_complete h' = true) (fun _ => True).
Proof.
  intros Hwc. assert (Hcalls : Forall call_ok (stream_calls wc st)) by apply Hwc.
  unfold response_pieces. destruct (limit =? H3_MAX_RESPONSE_BODY_SIZE_DEFAULT) eqn:El.
  - eapply (does_mono _ _ _ _ _ ((stream_calls wc st ≫= call_data streamed_data) ++ [[]])).
    + eapply does_bind; [by apply does_run_streamed|]. intros ctx h' [Hs Hc].
      assert (Hf : final_body ctx = []) by (unfold final_body; by rewrite Hc, Hs).
      rewrite <- Hf. eapply does_mono; [apply does_finish; by rewrite Hf|done|done|by intros [? _]|done|done].
    + intros b. apply piecewise_empty.
    + by rewrite concat_app, app_nil_r.
    + done.
    + done.
    + done.
  - assert (Hl : rc_limit_ok limit).
    { destruct Hresp as [Hd|]; [|done]. by rewrite Hd, Z.eqb_refl in El. }
    assert (Hinv : rc_inv limit rc_new).
    { unfold rc_limit_ok in Hl. split; simpl; [done|lia|]. unfold H3_BODY_BUF_INIT_CAP. lia. }
    destruct (capture_all_spec limit _ rc_new Hl Hinv (captured_fit _ Hcalls)) as (c & Hc & [Ci1 Ci2 _] & Ht & Hh).
    cbn [rc_new rc_too_large rc_len rc_heap orb app] in Ht, Hh. rewrite Z.add_0_l in Ht. set (body := concat _) in *.
    change [if limit <? blen body then oversized_msg else body]
      with ([] ++ [if limit <? blen body then oversized_msg else body]).
    eapply does_bind; [by apply (does_run_captured _ _ _ _ _ _ c)|]. intros ctx h' [Hs Hcx].
    assert (Hf : final_body ctx = if limit <? blen body then oversized_msg else body).
    { unfold final_body. rewrite Hcx, Hs, Ht. destruct (limit <? blen body) eqn:Elt; [done|]. cbn [negb andb].
      rewrite Ci1, Hh by done. destruct (Z.ltb_spec 0 (blen body)) as [|Hz]; [done|].
      pose proof (blen_nonneg body). destruct body; [done|]. unfold blen in *. simpl in *. lia. }
    rewrite <- Hf. eapply does_mono; [apply does_finish|done|done|by intros [? _]|done|done].
    rewrite Hf. destruct (Z.ltb_spec limit (blen body)); [done|].
    unfold rc_limit_ok, H3_MAX_RESPONSE_BODY_SIZE_MAX, SIZE_MAX in *. lia.
Qed.

Lemma respond_runs wc p h tr t :
  worker_ok wc -> runs p (stream_worker conf wc p (fun _ => Finished)) tr t ->
  exists b h', puts p h tr b h'
    /\ (wc_create_request wc && wc_pool wc = false -> b = [])
    /\ forall s s' tr' st, tr = (s, s') :: tr' -> ss_heap s !! p = Some st ->
       piecewise b (response_pieces wc st)
       /\ (t = Finished -> wc_create_request wc && wc_pool wc = true ->
           sn_complete h' = true
           /\ (waits_ok (wc_append wc) -> healthy p tr -> b = concat (response_pieces wc st))).
Proof.
  intros Hwc Hr. unfold stream_worker in Hr.
  assert (Hfail : forall h tr t, runs p (worker_fail p (fun _ => Finished)) tr t ->
    exists h', puts p h tr [] h').
  { intros h0 tr0 t0 Hr0. by apply (exit_puts p h0 tr0 t0 (set_st_dispatched false) (fun _ => Finished)); [|right|]. }
  destruct (wc_create_request wc); cbn [negb andb] in *.
  2: { destruct (Hfail h tr t Hr) as (h' & Hp). exists [], h'. split_and!; [done|done|].
       intros. split; [apply piecewise_nil|done]. }
  inversion Hr as [|m s o s' tr' t' Hs Hb He Hb' Hr'|m s o s' t' Hs Hb He Hb']; subst.
  { exists [], h. split_and!; [constructor|done|done]. }
  all: destruct Hb as (st & Hp & Hb); unfold mbind at 1, M_bind at 1 in He;
    rewrite (get_live_ret _ _ _ Hp Hb) in He; injection He as <- <-.
  2: by destruct Hb'; exists st.
  set (h1 := note h s p). simpl in Hr'.
  assert (Hhd : forall tr b h', puts p h1 tr b h' -> puts p h ((s, s) :: tr) b h').
  { intros. apply (puts_cons _ _ _ _ _ []); [by eapply appended_flags; eauto|done|done]. }
  destruct (wc_pool wc); cbn [negb] in *.
  2: { destruct (Hfail h1 tr' t Hr') as (h' & Hp'). exists [], h'. split_and!; [by apply Hhd|done|].
       intros. split; [apply piecewise_nil|done]. }
  change (runs p ((ctx ← run_filters conf (wc_append wc) p (new_ctx conf) (stream_calls wc st);
    finish_response wc p ctx) (fun _ => (atomic (get_stream p ;;
      modify (upd_stream p (set_st_worker_done true))) ;; exit_thread dec_tasks) (fun _ : unit => Finished))) tr' t) in Hr'.
  destruct (does_respond wc p h1 st Hwc _ _ _ Hr') as [(Ht & b & h' & Hp' & Hpw)|
    (rv & tr1 & tr2 & b & h' & -> & Hp' & Hpw & Hc & Hex & Hr2)].
  - exists b, h'. split_and!; [by apply Hhd|done|]. intros s0 s0' tr0 st0 [= <- <- <-] Hp0. simplify_eq. done.
  - destruct (exit_puts p h' tr2 t (set_st_worker_done true) (fun _ => Finished)) as (h2 & Hp2);
      [done|by left|exact Hr2|].
    exists (b ++ []), h2. split_and!; [apply Hhd; by eapply puts_app|done|].
    intros s0 s0' tr0 st0 [= <- <- <-] Hp0. simplify_eq. rewrite app_nil_r. split; [done|].
    intros -> _. split; [by apply (puts_le _ _ _ _ _ Hp2)|]. intros Hw [_ [Hh _]%Forall_app]%Forall_cons.
    by destruct (Hex Hw Hh).
Qed.

End Responses.

(** ** Whole executions

    A task's trace in an execution of the session, and that it is one of [runs]. *)

Section Executions.
Context {N E : Type} {NG : Nghttp3 N} {NGS : Nghttp3Spec N NG}.
Context {QS : QuicStreams E} {QSS : QuicStreamsSpec E QS}.
Context {QC : QuicConns E} {QCS : QuicConnsSpec E QC} {AH : AprHash} {H : Httpd}.
Context (conf : h3_server_conf) (io : bool).
Abbreviation session := (@h3_session N E).
Abbreviation system := (@system N E).
Abbreviation state := (system * thread system)%type.
Abbreviation lstep := (sys_lstep conf io pc_ok).

(** From [x] the session goes to [x'], and [tr] is what the task [j] does to it before it
    only has its end to count. *)
Inductive task_run (j : nat) : state -> trace -> state -> Prop :=
  | task_done x : task_run j x [] x
  | task_other l x x1 tr x' :
      lstep l x x1 -> l <> Some j -> task_run j x1 tr x' -> task_run j x tr x'
  | task_own x x1 tr x' :
      lstep (Some j) x x1 -> snd <$> sy_workers (fst x) !! j <> Some (leaving : thread session) ->
      task_run j x1 tr x' -> task_run j x ((sy_sess (fst x), sy_sess (fst x1)) :: tr) x'
  | task_left x x1 tr x' :
      lstep (Some j) x x1 -> snd <$> sy_workers (fst x) !! j = Some (leaving : thread session) ->
      task_run j x1 tr x' -> task_run j x tr x'.

Lemma task_run_steps j x tr x' : task_run j x tr x' -> rtc (sys_step conf io pc_ok) x x'.
Proof. induction 1; [done|..]; (eapply rtc_l; [by eexists|done]). Qed.

Lemma not_ok_leaving p (s : session) : sess_inv conf s -> busy_at s p -> ~ ok_thread conf p (leaving : thread session).
Proof.
  intros Hs Hb Hok. inversion Hok as [m Hwp _|m Hlast]; subst.
  - specialize (Hwp _ Hs Hb). unfold wp in Hwp. simpl in Hwp.
    destruct Hwp as (_ & Hle & _). pose proof (sl_tasks _ _ Hle) as Ht. simpl in Ht. unfold wrap32 in Ht.
    pose proof (Z.div_mod (ss_active_tasks s - 1) (2 ^ 32)). lia.
  - destruct Hb as (st & Hp & _). by destruct (Hlast _ _ Hs Hp) as (st' & _ & He).
Qed.

(** A task that has neither ended nor only its end to count holds its stream. *)
Lemma task_holds conn (x : state) j p t :
  sys_ok conf conn x -> sy_workers (fst x) !! j = Some (p, t) -> t <> Finished -> t <> leaving ->
  sy_alive (fst x) = true /\ sess_inv conf (sy_sess (fst x)) /\ ok_thread conf p t
  /\ busy_at (sy_sess (fst x)) p.
Proof.
  intros (g & s0 & Hg & _ & _) Hj Hf Hl. destruct g as [r i quiet|].
  - destruct Hg as [L1 L2 _ (ts & T1 & T2 & _) _ _ _ _]. rewrite T1 in Hj.
    apply list_lookup_fmap_Some in Hj as ([[p' t'] ph] & Hx & Hj). simpl in Hx. injection Hx as <- <-.
    rewrite Forall_lookup in T2. specialize (T2 _ _ Hj). destruct ph; [|done|done].
    destruct T2 as [Hok Hb]. by split_and!.
  - destruct Hg as (_ & Hun & _). destruct Hf. eapply unfinished_none; [done|].
    by eapply list_elem_of_lookup_2.
Qed.

(** The steps of the others leave the task where it is. *)
Lemma other_keeps conn l (x x1 : state) j a :
  sys_ok conf conn x -> lstep l x x1 -> l <> Some j ->
  sy_workers (fst x) !! j = Some a -> sy_workers (fst x1) !! j = Some a.
Proof.
  intros (g & s0 & Hg & Hm & Hev) Hst Hl Hj.
  destruct Hst as [y pc Ha Hpc|y m o y' He|y ev w1 p m w2 o y' Hw He]; simpl in *.
  - done.
  - inversion Hev as [| |g' s0' m' H1 H2]; subst. specialize (H1 y Hg Hm). rewrite He in H1.
    destruct H1 as [t ->]. destruct (H2 y t y' Hg Hm He) as [Hpre _]. by eapply prefix_lookup_Some.
  - rewrite Hw in Hj. assert (j <> length w1) by (intros ->; done).
    destruct (decide (j < length w1)%nat) as [Hlt|Hge].
    + rewrite lookup_app_l in Hj |- * by done. done.
    + rewrite lookup_app_r in Hj |- * by lia. by destruct (j - length w1)%nat eqn:Ej; [lia|].
Qed.

Lemma own_step j (x x1 : state) p t :
  lstep (Some j) x x1 -> sy_workers (fst x) !! j = Some (p, t) ->
  exists m o s', t = Atomic m /\ m (sy_sess (fst x)) = Ret o s' /\ sy_sess (fst x1) = s'
    /\ sy_workers (fst x1) !! j = Some (p, default (Atomic m) o).
Proof.
  intros Hst Hj. inversion Hst as [| |y ev w1 p' m w2 o y' Hw He]; subst. simpl in *.
  rewrite Hw, lookup_app_r, Nat.sub_diag in Hj by done. injection Hj as -> <-.
  unfold on_sess in He. destruct (sy_alive y); [|done]. destruct (m (sy_sess y)) as [o' s'| |] eqn:Em; try done.
  injection He as <- <-. exists m, o', s'. split_and!; try done. simpl.
  by rewrite lookup_app_r, Nat.sub_diag by done.
Qed.

Lemma worker_not_leaving (s : session) wc p k : stream_worker conf wc p k <> (leaving : thread session).
Proof.
  intros Heq. apply (f_equal (fun t : thread session => match t with
    | Atomic m => m (set_ss_heap ∅ s) | Finished => Abort end)) in Heq.
  unfold stream_worker, worker_fail in Heq. destruct (wc_create_request wc); cbn in Heq; discriminate Heq.
Qed.

Context (Hready : conf_ready conf).

Lemma lstep_ok conn l x x1 : lstep l x x1 -> sys_ok conf conn x -> sys_ok conf conn x1.
Proof.
  destruct (ready_conf _ Hready) as (H1 & H2 & H3). intros Hst. apply (sys_step_ok conf io H1 H2 H3 conn x).
  by exists l.
Qed.

(** After the stream was given back nothing is recorded. *)
Lemma left_run conn j (x : state) tr x' p t :
  task_run j x tr x' -> sys_ok conf conn x -> sy_workers (fst x) !! j = Some (p, t) ->
  t = leaving \/ t = Finished -> tr = [] /\ exists t', sy_workers (fst x') !! j = Some (p, t').
Proof.
  intros Hr. revert t. induction Hr as [x|l x x1 tr x' Hst Hl Hr IH|x x1 tr x' Hst Hl Hr IH|
    x x1 tr x' Hst Hl Hr IH]; intros t Hx Hj Ht.
  - eauto.
  - eapply IH; [by eapply lstep_ok|by eapply other_keeps|done].
  - destruct (own_step _ _ _ _ _ Hst Hj) as (m & o & s' & -> & _). rewrite Hj in Hl. simpl in Hl.
    destruct Ht as [Ht|Ht]; [by rewrite Ht in Hl|done].
  - destruct (own_step _ _ _ _ _ Hst Hj) as (m & o & s' & -> & Hm & _ & Hj1). rewrite Hj in Hl.
    injection Hl as ->. injection Hm as <- _. eapply IH; [by eapply lstep_ok|done|by right].
Qed.

Lemma task_runs conn j (x : state) tr x' p t :
  task_run j x tr x' -> sys_ok conf conn x -> sy_workers (fst x) !! j = Some (p, t) ->
  t <> Finished -> t <> leaving ->
  exists t', sy_workers (fst x') !! j = Some (p, t') /\ runs conf p t tr t'.
Proof.
  intros Hr. revert t. induction Hr as [x|l x x1 tr x' Hst Hl Hr IH|x x1 tr x' Hst Hl Hr IH|
    x x1 tr x' Hst Hl Hr IH]; intros t Hx Hj Ht1 Ht2.
  - exists t. split; [done|constructor].
  - eapply IH; [by eapply lstep_ok|by eapply other_keeps|done|done].
  - destruct (task_holds _ _ _ _ _ Hx Hj Ht1 Ht2) as (Ha & Hs & Hok & Hb).
    destruct (own_step _ _ _ _ _ Hst Hj) as (m & o & s' & -> & Hm & <- & Hj1).
    pose proof (lstep_ok _ _ _ _ Hst Hx) as Hx1.
    inversion Hok as [m' Hwp Hnext|m' Hlast]; subst m'.
    + specialize (Hwp _ Hs Hb). unfold wp in Hwp. rewrite Hm in Hwp. destruct Hwp as (Hs1 & Hle & _).
      assert (Hb1 : busy_at (sy_sess (fst x1)) p) by (by eapply busy_at_le).
      assert (Ho : ok_thread conf p (default (Atomic m) o)) 
        by (destruct o; [exact (Hnext _ _ _ Hs Hb Hm)|done]).
      destruct (IH _ Hx1 Hj1) as (t' & Hj' & Hr').
      * intros Hf. apply ok_running in Ho. by rewrite Hf in Ho.
      * intros Hf. rewrite Hf in Ho. by apply (not_ok_leaving p (sy_sess (fst x1))).
      * exists t'. split; [done|]. by eapply runs_own.
    + destruct Hb as (st & Hp & Hb). destruct (Hlast _ _ Hs Hp) as (st' & Hg & He).
      rewrite Hm in He. injection He as -> He.
      destruct (left_run _ _ _ _ _ _ _ Hr Hx1 Hj1) as [-> (t' & Hj')]; [by left|].
      exists t'. split; [done|]. eapply runs_back; [done|by exists st|done|]. rewrite He.
      intros (st1 & Hst1 & B1 & B2 & _). simpl in Hst1. rewrite lookup_insert_eq in Hst1.
      injection Hst1 as <-. by destruct Hg as [-> | ->].
  - rewrite Hj in Hl. by injection Hl.
Qed.

End Executions.

(** ** The claim *)

Section Claims.
Context {N E : Type} {NG : Nghttp3 N} {NGS : Nghttp3Spec N NG}.
Context {QS : QuicStreams E} {QSS : QuicStreamsSpec E QS}.
Context {QC : QuicConns E} {QCS : QuicConnsSpec E QC} {AH : AprHash} {H : Httpd}.

(** C2 (refinement): in every execution of a session, whatever its event thread and the
    other tasks do in between, a task that [h3_process_request] has queued queues on its
    stream a prefix of each piece of the response, in order, and no byte before the head has
    been submitted; the pieces are the data buckets that httpd passes to the output filter,
    or with a limit the captured body, or the message that replaces one over the limit.
    Once the task has finished the response is complete, and if no wait failed, the response
    was not cancelled and the session did not fail, exactly the response was queued.  A
    task that cannot create its request queues nothing. *)
Theorem worker_response_exact conf io (s : @h3_session N E) x j p wc tr x' :
  conf_ready conf -> worker_ok wc -> serviced conf s ->
  rtc (sys_step conf io pc_ok) (sys_start s) x ->
  sy_workers (fst x) !! j = Some (p, stream_worker conf wc p (fun _ => Finished)) ->
  task_run conf io j x tr x' ->
  exists t b h, sy_workers (fst x') !! j = Some (p, t) /\ puts p (Seen false false) tr b h
    /\ (wc_create_request wc && wc_pool wc = false -> b = [])
    /\ forall s1 s2 tr' st, tr = (s1, s2) :: tr' -> ss_heap s1 !! p = Some st ->
       piecewise b (response_pieces conf wc st)
       /\ (t = Finished -> wc_create_request wc && wc_pool wc = true ->
           sn_complete h = true
           /\ (waits_ok (wc_append wc) -> healthy p tr -> b = concat (response_pieces conf wc st))).
Proof.
  intros Hc Hwc Hs Hr Hj Ht. pose proof (ready_conf _ Hc) as (H1 & H2 & H3).
  destruct (serviced_conn conf s H1 H2 Hs) as [c Hcn].
  pose proof (reach_ok conf io H1 H2 H3 c s x Hs Hcn Hr) as Hx.
  destruct (task_runs conf io Hc c j x tr x' _ _ Ht Hx Hj) as (t & Hj' & Hrun).
  - intros Hf. pose proof (ok_running conf p _ (ok_worker conf H1 H2 H3 wc p (fun _ => Finished) Hwc)) as Hrn.
    by rewrite Hf in Hrn.
  - by apply worker_not_leaving.
  - destruct (respond_runs conf H1 H2 H3 wc p (Seen false false) tr t Hwc Hrun) as (b & h & Hp & Hb & Hall).
    exists t, b, h. split_and!; done.
Qed.

End Claims.

(** ** A run

    The request of the small session is answered with three bytes. *)

Abbreviation toy_trace := (@trace toy_ngh toy_ssl).

(** The only task has just its end to count. *)
Definition ending (x : toy_state) : bool :=
  match sy_workers (fst x) with
  | [(_, Atomic m)] => match m (sy_sess (fst x)) with Ret (Some Finished) _ => true | _ => false end
  | _ => false
  end.

(** Runs it up to there. *)
Fixpoint worker_trace (fuel : nat) (x : toy_state) : toy_trace * toy_state :=
  match fuel, sy_workers (fst x) with
  | S k, [(p, Atomic m)] =>
      if ending x then ([], x)
      else match on_sess m (fst x) with
           | Ret o y' =>
               let r := worker_trace k (set_sy_workers [(p, default (Atomic m) o)] y', snd x) in
               ((sy_sess (fst x), sy_sess y') :: fst r, snd r)
           | _ => ([], x)
           end
  | _, _ => ([], x)
  end.

Lemma not_ending x : ending x = false ->
  snd <$> sy_workers (fst x) !! 0%nat <> Some (leaving : thread (@h3_session toy_ngh toy_ssl))
  \/ length (sy_workers (fst x)) <> 1%nat.
Proof.
  unfold ending. destruct (sy_workers (fst x)) as [|[p t] [|]]; simpl; [by right| |by right].
  intros He. left. intros [= ->]. done.
Qed.

Lemma worker_trace_run fuel x x' :
  task_run toy_conf true 0 (snd (worker_trace fuel x)) [] x' ->
  task_run toy_conf true 0 x (fst (worker_trace fuel x)) x'.
Proof.
  revert x. induction fuel as [|k IH]; intros [y ev]; [by intros|]. cbn [worker_trace fst snd].
  destruct (sy_workers y) as [|[p [|m]] [|]] eqn:Ew; try by intros.
  destruct (ending (y, ev)) eqn:Ee; [by intros|].
  destruct (on_sess m y) as [o y'| |] eqn:Em; [|by intros..]. cbn zeta. intros Hr.
  apply (task_own toy_conf true 0 (y, ev) (set_sy_workers [(p, default (Atomic m) o)] y', ev)).
  - by apply (step_worker _ _ _ y ev [] p m [] o y').
  - destruct (not_ending _ Ee) as [?|Hl]; [done|]. simpl in Hl. by rewrite Ew in Hl.
  - by apply IH.
Qed.

Definition trace_states (n : nat) (o : option (toy_state * toy_state * toy_state * toy_state))
    : option (toy_state * toy_trace * toy_state) :=
  x ← o;
  let x1 := snd (fst (fst x)) in Some (x1, fst (worker_trace n x1), snd (worker_trace n x1)).

Abbreviation toy_traced := (trace_states 50 (run_states toy_session)).

Definition unhindered_b (s : @h3_session toy_ngh toy_ssl) (p : sptr) : bool :=
  bool_decide (rq_cancelled <$> resp_at s p = Some false) && negb (ss_aborted s) && negb (ss_ngh3_dead s).

Lemma unhindered_b_ok s p : unhindered_b s p = true -> unhindered s p.
Proof. unfold unhindered_b. rewrite !andb_true_iff, !negb_true_iff, bool_decide_eq_true. by intros [[]]. Qed.

(** The trace is not empty and nothing stands in the way. *)
Definition check_trace (o : option (toy_state * toy_trace * toy_state)) : bool :=
  match o with
  | Some (_, (_ :: _) as tr, x2) =>
      forallb (fun y => unhindered_b (fst y) 4 && unhindered_b (snd y) 4) tr && sy_alive (fst x2)
  | _ => false
  end.

Lemma toy_trace_checked : check_trace toy_traced = true.
Proof. vm_cast_no_check (eq_refl true). Qed.

(** The task as it is queued, and before its last step. *)
Definition tasks_at (f : toy_state * toy_trace * toy_state -> toy_state) o :=
  x ← o; Some (sy_workers (fst (f x))).

Lemma toy_trace_start :
  tasks_at (fun x => fst (fst x)) toy_traced
  = Some [(4%positive, stream_worker toy_conf toy_worker 4%positive (fun _ => Finished))].
Proof. reflexivity. Qed.

Lemma toy_trace_end : tasks_at snd toy_traced = Some [(4%positive, leaving)].
Proof. reflexivity. Qed.

Lemma last_step x p :
  sy_workers (fst x) = [(p, leaving)] -> sy_alive (fst x) = true ->
  exists x', task_run toy_conf true 0 x [] x' /\ sy_workers (fst x') !! 0%nat = Some (p, Finished).
Proof.
  destruct x as [y ev]. simpl. intros Hw Ha. eexists. split.
  - eapply task_left; [|by simpl; rewrite Hw|apply task_done].
    eapply (step_worker _ _ _ y ev [] p _ [] _ _ Hw). unfold on_sess. by rewrite Ha.
  - done.
Qed.

Lemma trace_facts n x0 x1 x2 x3 p t :
  check_trace (trace_states n (Some (x0, x1, x2, x3))) = true ->
  tasks_at (fun x => fst (fst x)) (trace_states n (Some (x0, x1, x2, x3))) = Some [(p, t)] ->
  tasks_at snd (trace_states n (Some (x0, x1, x2, x3))) = Some [(p, leaving)] ->
  exists tr x', sy_workers (fst x1) !! 0%nat = Some (p, t) /\ task_run toy_conf true 0 x1 tr x'
    /\ sy_workers (fst x') !! 0%nat = Some (p, Finished)
    /\ healthy 4 tr /\ exists s1 s2 tr', tr = (s1, s2) :: tr'.
Proof.
  unfold trace_states, tasks_at, mbind, option_bind. cbn [fst snd].
  pose proof (worker_trace_run n x1) as Hrun. revert Hrun. generalize (worker_trace n x1).
  intros [tr xe] Hrun Hc [= Hst] [= Hen]. simpl in *. destruct tr as [|[s1 s2] tr]; [done|].
  apply andb_true_iff in Hc as [Hc Ha]. destruct (last_step xe p Hen Ha) as (x' & Hl & Hf).
  exists ((s1, s2) :: tr), x'. split_and!; [by rewrite Hst|by apply Hrun|done| |by eauto].
  apply Forall_forall. intros y Hy. apply forallb_forall with (x := y) in Hc; [|by apply list_elem_of_In].
  apply andb_true_iff in Hc as [Hc1 Hc2]. split; by apply unhindered_b_ok.
Qed.

Lemma toy_task_run :
  exists s x1 tr x', serviced toy_conf s /\ rtc toy_step (sys_start s) x1
    /\ sy_workers (fst x1) !! 0%nat = Some (4%positive, stream_worker toy_conf toy_worker 4%positive (fun _ => Finished))
    /\ task_run toy_conf true 0 x1 tr x' /\ sy_workers (fst x') !! 0%nat = Some (4%positive, Finished)
    /\ healthy 4 tr /\ exists s1 s2 tr', tr = (s1, s2) :: tr'.
Proof.
  destruct toy_run as (s & x0 & x1 & x2 & x3 & He & Hs & H1 & _).
  pose proof toy_trace_checked as Hc. pose proof toy_trace_start as Hst. pose proof toy_trace_end as Hen.
  revert Hc Hst Hen. rewrite He. intros Hc Hst Hen.
  destruct (trace_facts _ _ _ _ _ _ _ Hc Hst Hen) as (tr & x' & H2 & H3 & H4 & H5 & H6).
  exists s, x1, tr, x'. split_and!; assumption.
Qed.

Lemma worker_response_exact_witness :
  exists tr h, puts 4 (Seen false false) (tr : toy_trace) [Byte.x61; Byte.x62; Byte.x63] h
    /\ sn_complete h = true.
Proof.
  destruct toy_task_run as (s & x1 & tr & x2 & Hs & Hr & Hj & Ht & Hf & Hh & s1 & s2 & tr' & Htr).
  destruct (worker_response_exact toy_conf true s x1 0 4 toy_worker tr x2 toy_conf_ready
    (proj1 (toy_pass_ok true) 4%positive) Hs Hr Hj Ht) as (t & b & h & Ht' & Hp & _ & Hall).
  rewrite Hf in Ht'. injection Ht' as <-.
  assert (exists st, ss_heap s1 !! 4%positive = Some st) as [st Hst].
  { rewrite Htr in Hh. apply Forall_cons in Hh as [[[Hu _] _] _]. unfold resp_at in Hu. simpl in Hu.
    destruct (ss_heap s1 !! 4%positive) as [st|]; [by exists st|done]. }
  destruct (Hall s1 s2 tr' st Htr Hst) as [_ Hdone]. destruct (Hdone eq_refl eq_refl) as [Hco Hex].
  rewrite (Hex ltac:(done) Hh) in Hp. exists tr, h. split; [exact Hp|exact Hco].
Defined.
