(* ===== verification/Io.v ===== *)
(** * The listener and the event thread (h3_io.c, h3_threads.c)

    [h3_io] is the state of a listener: the handshakes in progress and the sessions it
    services.  A session is a [system] between two turns of the event thread.  The objects
    of one connection are its own, so each connection carries its part of the transport.
    [io_step] is one thing the event thread does: accept, progress the handshakes, give a
    session a turn with its workers running, retire a session that was destroyed, or, once
    no session is left, free what is still in its handshake.  The order in which its loop
    does them is EventLoop.v.

    Connections are handles; freeing one twice aborts. *)

From S2P Require Import Prelude Effects LinkedQueue RespQueue Config Body Quic Stream.
From S2P Require Import Session SessionInv SessionSafe Request Workers Service System.

Section Io.
Context {N E : Type} {NG : Nghttp3 N} {QS : QuicStreams E} {QC : QuicConns E} {AH : AprHash}.
Context {H : Httpd}.
Context (conf : h3_server_conf).

(** ** State *)

Record h3_pending_handshake := Pending {
  ph_conn : handle;
  ph_accepted_at : Z;
  ph_env : E }.

Record h3_io := Io {
  io_running : bool;                              (** [thread_running] *)
  io_pending : list h3_pending_handshake;         (** [pending_handshakes] *)
  io_active : list (@system N E);                 (** [active_sessions] *)
  io_active_count : Z;                            (** [active_session_count] *)
  io_total_connections : Z;
  io_notes : Z;                                   (** [note_conn_added] less [note_conn_removed] *)
  io_freed : list handle;                         (** the connections freed so far *)
  io_next : handle }.                             (** the next connection *)

Definition set_io_running (v : bool) (x : h3_io) : h3_io :=
  Io v (io_pending x) (io_active x) (io_active_count x) (io_total_connections x) (io_notes x)
    (io_freed x) (io_next x).
Definition set_io_pending (v : list h3_pending_handshake) (x : h3_io) : h3_io :=
  Io (io_running x) v (io_active x) (io_active_count x) (io_total_connections x) (io_notes x)
    (io_freed x) (io_next x).
Definition set_io_active (v : list (@system N E)) (x : h3_io) : h3_io :=
  Io (io_running x) (io_pending x) v (io_active_count x) (io_total_connections x) (io_notes x)
    (io_freed x) (io_next x).
Definition set_io_active_count (v : Z) (x : h3_io) : h3_io :=
  Io (io_running x) (io_pending x) (io_active x) v (io_total_connections x) (io_notes x)
    (io_freed x) (io_next x).
Definition set_io_total_connections (v : Z) (x : h3_io) : h3_io :=
  Io (io_running x) (io_pending x) (io_active x) (io_active_count x) v (io_notes x)
    (io_freed x) (io_next x).
Definition set_io_notes (v : Z) (x : h3_io) : h3_io :=
  Io (io_running x) (io_pending x) (io_active x) (io_active_count x) (io_total_connections x) v
    (io_freed x) (io_next x).
Definition set_io_freed (v : list handle) (x : h3_io) : h3_io :=
  Io (io_running x) (io_pending x) (io_active x) (io_active_count x) (io_total_connections x)
    (io_notes x) v (io_next x).
Definition set_io_next (v : handle) (x : h3_io) : h3_io :=
  Io (io_running x) (io_pending x) (io_active x) (io_active_count x) (io_total_connections x)
    (io_notes x) (io_freed x) v.

Abbreviation io := (M h3_io).

(** A listener as [h3_io_listen_start] starts it. *)
Definition io_start : h3_io := Io true [] [] 0 0 0 [] 1%positive.

(** ** Accepting *)

Definition h3_io_at_connection_limit (x : h3_io) : bool :=
  h3_max_connections conf
  <=? wrap32 (wrap32 (Z.of_nat (length (io_active x))) + wrap32 (Z.of_nat (length (io_pending x)))).

(** [h3q_conn_free]. *)
Definition conn_free (c : handle) : io unit :=
  freed ← gets io_freed;
  CHECK (bool_decide (c ∉ freed)) ;;
  modify (fun x => set_io_freed (c :: io_freed x) x).

(** [env] is the new connection's part of the transport. *)
Definition prepare_accepted_connection (now : Z) (env : E) (conn : handle) : io bool :=
  let '(env', ok) := qc_prepare env conn (h3_idle_timeout conf) in
  if negb ok then mret false
  else
    modify (fun x => set_io_total_connections (wrap32 (io_total_connections x + 1))
                       (set_io_pending (io_pending x ++ [Pending conn now env']) x)) ;;
    mret true.

(** One round of the accept loop, for a connection the engine returned. *)
Definition accept_conn (now : Z) (env : E) : io unit :=
  conn ← gets io_next;
  modify (set_io_next (Pos.succ conn)) ;;
  limit ← gets h3_io_at_connection_limit;
  if (limit : bool) then conn_free conn
  else
    ok ← prepare_accepted_connection now env conn;
    if (ok : bool) then mret tt else conn_free conn.

(** ** Handshakes *)

(** The last element takes the place of the one that is removed. *)
Definition swap_remove {A} (i : nat) (l : list A) : list A :=
  match last l with
  | Some x => take (length l - 1) (<[i := x]> l)
  | None => l
  end.

Definition remove_pending_handshake (index : nat) (free_conn : bool) : io unit :=
  p ← gets (fun x => io_pending x !! index);
  p ← nonnull p;
  (if free_conn then conn_free (ph_conn p) else mret tt) ;;
  modify (fun x => set_io_pending (swap_remove index (io_pending x)) x).

(** What the calls made while a session is spawned return. *)
Record spawn_calls := SpawnCalls {
  sc_pools : bool;                      (** the session's allocator and pool *)
  sc_mutex : apr_status;
  sc_track : (bool * bool) * (bool * bool) * (bool * bool);
    (** for each control stream: its pool is created, and its condition variable *)
  sc_synth : bool }.                    (** [h3_synth_conn] gives a connection *)

(** [h3_session_destroy], with the connections it frees. *)
Definition destroy_in_io (conn : handle) (s : @h3_session N E) : io unit :=
  match h3_session_destroy s with
  | Ret _ s' => if bool_decide (conn ∈ ss_freed s') then conn_free conn else mret tt
  | _ => abort
  end.

Definition spawn_serviced_session (sc : spawn_calls) (env : E) (conn : handle) : io apr_status :=
  if negb (sc_pools sc) then conn_free conn ;; mret APR_EGENERAL
  else
    match h3_session_create conf (sc_mutex sc) (Pos.succ conn) env conn with
    | (None, _) => conn_free conn ;; mret APR_EGENERAL
    | (Some s, _) =>
        let '(k0, k1, k2) := sc_track sc in
        match h3_session_create_control_streams conf k0 k1 k2 s with
        | Ret APR_SUCCESS s1 =>
            if qc_is_closed (ss_env s1) conn || negb (sc_synth sc)
            then destroy_in_io conn s1 ;; mret APR_EGENERAL
            else
              modify (fun x => set_io_notes (io_notes x + 1)
                (set_io_active_count (wrap32 (io_active_count x + 1))
                  (set_io_active (io_active x ++ [System s1 [] true 0 false]) x))) ;;
              mret APR_SUCCESS
        | Ret _ s1 => destroy_in_io conn s1 ;; mret APR_EGENERAL
        | _ => abort
        end
    end.

(** What a round of the loop over the handshakes meets: how the connection's part of the
    transport has changed, and the calls of a spawn. *)
Record handshake_calls := HandshakeCalls {
  hc_now : Z;
  hc_net : handle -> E -> E;
  hc_spawn : handle -> spawn_calls }.

(** The pools of the control streams can be created. *)
Definition hc_ok (hc : handshake_calls) : Prop :=
  forall c, let '(k0, k1, k2) := sc_track (hc_spawn hc c) in fst k0 = true /\ fst k1 = true /\ fst k2 = true.

(** Every round removes a handshake or goes on to the next, so as many rounds as there are
    handshakes are enough. *)
Fixpoint progress_loop (fuel : nat) (hc : handshake_calls) (i : nat) : io unit :=
  match fuel with
  | O => mret tt
  | S k =>
      o ← gets (fun x => io_pending x !! i);
      match o with
      | None => mret tt
      | Some p =>
          let conn := ph_conn p in
          let env := hc_net hc conn (ph_env p) in
          if apr_time_from_sec (h3_handshake_timeout conf) <=? hc_now hc - ph_accepted_at p
          then remove_pending_handshake i true ;; progress_loop k hc i
          else if qc_is_closed env conn
          then remove_pending_handshake i true ;; progress_loop k hc i
          else if qc_is_handshake_done env conn
          then
            spawn_serviced_session (hc_spawn hc conn) env conn ;;
            remove_pending_handshake i false ;;
            progress_loop k hc i
          else progress_loop k hc (S i)
      end
  end.

Definition progress_pending_handshakes (hc : handshake_calls) : io unit :=
  n ← gets (fun x => length (io_pending x));
  progress_loop n hc 0.

(** ** The event thread *)

Definition sess_conn (y : @system N E) : option handle := ss_qconn (sy_sess y).

(** A session that a turn has destroyed leaves the array; [c] is its connection. *)
Definition retire_session (i : nat) (c : handle) (y : @system N E) : io unit :=
  (if bool_decide (c ∈ ss_freed (sy_sess y)) then conn_free c else mret tt) ;;
  modify (fun x => set_io_notes (io_notes x - 1)
    (set_io_active_count (wrap32 (io_active_count x - 1))
      (set_io_active (swap_remove i (io_active x)) x))).

(** [while (nelts > 0) remove_pending_handshake(io, 0, 1)]. *)
Fixpoint free_handshakes (fuel : nat) : io unit :=
  match fuel with
  | O => mret tt
  | S k => remove_pending_handshake 0 true ;; free_handshakes k
  end.

Definition exit_event_thread : io unit :=
  n ← gets (fun x => length (io_pending x)); free_handshakes n.

(** [counts] is [child_h3_io], which the byte counters need. *)
Inductive io_step (counts : bool) : h3_io -> h3_io -> Prop :=
  | io_accept x now env x' :
      accept_conn now env x = Ret tt x' -> io_step counts x x'
  | io_handshakes x hc x' :
      hc_ok hc -> progress_pending_handshakes hc x = Ret tt x' -> io_step counts x x'
  | io_turn x i y y' :
      io_active x !! i = Some y ->
      rtc (sys_step conf counts pc_ok) (y, Finished) (y', Finished) -> sy_alive y' = true ->
      io_step counts x (set_io_active (<[i := y']> (io_active x)) x)
  | io_retire x i y y' c x' :
      io_active x !! i = Some y -> sess_conn y = Some c ->
      rtc (sys_step conf counts pc_ok) (y, Finished) (y', Finished) -> sy_alive y' = false ->
      retire_session i c y' x = Ret tt x' -> io_step counts x x'
  | io_stop x : io_step counts x (set_io_running false x)
  | io_exit x x' :
      io_running x = false -> io_active x = [] -> exit_event_thread x = Ret tt x' ->
      io_step counts x x'.

End Io.

(** ** Connections have one owner *)

Lemma swap_remove_perm {A} (l : list A) i x : l !! i = Some x -> l ≡ₚ x :: swap_remove i l.
Proof.
  intros Hi. unfold swap_remove. destruct l as [|z l _] using rev_ind; [done|].
  rewrite last_snoc, length_app. simpl. replace (length l + 1 - 1)%nat with (length l) by lia.
  destruct (decide (i < length l)%nat) as [Hlt|Hge].
  - rewrite lookup_app_l in Hi by done. rewrite insert_app_l by done.
    rewrite take_app_length' by (by rewrite length_insert).
    apply list_elem_of_split_length in Hi as (l1 & l2 & -> & ->).
    rewrite insert_app_r_alt, Nat.sub_diag by lia. simpl. solve_Permutation.
  - assert (i = length l) as ->.
    { apply lookup_lt_Some in Hi. rewrite length_app in Hi. simpl in Hi. lia. }
    rewrite lookup_app_r, Nat.sub_diag in Hi by lia. simpl in Hi. injection Hi as <-.
    rewrite insert_app_r_alt by lia. rewrite take_app_length. by rewrite (Permutation_app_comm l).
Qed.

Lemma swap_remove_length {A} (l : list A) i x :
  l !! i = Some x -> length l = S (length (swap_remove i l)).
Proof. intros Hi. by rewrite (swap_remove_perm l i x Hi) at 1. Qed.

Lemma swap_remove_lookup {A} (l : list A) i j :
  (i < length l)%nat -> (j < i)%nat -> swap_remove i l !! j = l !! j.
Proof.
  intros Hi Hj. unfold swap_remove. destruct (last l) as [z|]; [|done].
  rewrite lookup_take_lt by lia. apply list_lookup_insert_ne. lia.
Qed.

(** What is left to visit when the element at hand is removed. *)
Lemma swap_remove_drop {A} (l : list A) i : (i < length l)%nat -> drop i (swap_remove i l) ≡ₚ drop (S i) l.
Proof.
  intros Hi. unfold swap_remove. destruct l as [|z l _] using rev_ind; [simpl in Hi; lia|].
  rewrite last_snoc, length_app. simpl. replace (length l + 1 - 1)%nat with (length l) by lia.
  rewrite length_app in Hi. simpl in Hi. destruct (decide (i < length l)%nat) as [Hlt|Hge].
  - rewrite insert_app_l, take_app_length' by (done || by rewrite length_insert).
    apply lookup_lt_is_Some in Hlt as [y Hy]. apply list_elem_of_split_length in Hy as (l1 & l2 & -> & ->).
    rewrite insert_app_r_alt, Nat.sub_diag by lia. simpl. rewrite drop_app_length.
    replace ((l1 ++ y :: l2) ++ [z]) with ((l1 ++ [y]) ++ (l2 ++ [z])) by (by rewrite <- !app_assoc).
    replace (S (length l1)) with (length (l1 ++ [y])) by (rewrite length_app; simpl; lia).
    rewrite drop_app_length. by rewrite Permutation_app_comm.
  - rewrite insert_app_r_alt by lia. rewrite take_app_length. rewrite !drop_ge; [done|..];
      rewrite ?length_app; simpl; lia.
Qed.

(** A computation that returns, with a result that satisfies [Q]. *)
Definition returns {S A} (m : M S A) (x : S) (Q : A -> S -> Prop) : Prop :=
  match m x with Ret a x' => Q a x' | _ => False end.

Lemma returns_bind {S A B} (m : M S A) (f : A -> M S B) x Q :
  returns m x (fun a x' => returns (f a) x' Q) -> returns (m ≫= f) x Q.
Proof. unfold returns, mbind, M_bind. by destruct (m x). Qed.

Ltac mrun := unfold returns, mbind, M_bind, gets, modify, nonnull, CHECK, mret, M_ret; simpl.

Lemma returns_mono {S A} (m : M S A) x (Q Q' : A -> S -> Prop) :
  returns m x Q -> (forall a x', Q a x' -> Q' a x') -> returns m x Q'.
Proof. unfold returns. destruct (m x); naive_solver. Qed.

Section IoInv.
Context {N E : Type} {NG : Nghttp3 N} {NGS : Nghttp3Spec N NG}.
Context {QS : QuicStreams E} {QSS : QuicStreamsSpec E QS}.
Context {QC : QuicConns E} {QCS : QuicConnsSpec E QC} {AH : AprHash} {H : Httpd}.
Context (conf : h3_server_conf) (counts : bool) (Hready : conf_ready conf).
Abbreviation h3_io := (@h3_io N E).
Implicit Types (x : h3_io) (pend : list (@h3_pending_handshake E)).

(** The owners of connections: a handshake, a session, the list of freed ones, and [hand],
    what the code at hand has to put somewhere. *)
Definition owners (pend : list (@h3_pending_handshake E)) (hand : list handle) x : list handle :=
  (ph_conn <$> pend) ++ omap sess_conn (io_active x) ++ io_freed x ++ hand.

Record io_inv (pend : list (@h3_pending_handshake E)) (hand : list handle) x : Prop := {
  ii_nodup : NoDup (owners pend hand x);
  ii_all : forall c, c ∈ owners pend hand x <-> (c < io_next x)%positive;
  ii_count : io_active_count x = wrap32 (Z.of_nat (length (io_active x)));
  ii_notes : io_notes x = Z.of_nat (length (io_active x));
  ii_sess : Forall (fun y => exists c, sess_conn y = Some c /\ sys_ok conf c (y, Finished)) (io_active x) }.

(** The limit, counting what is at hand. *)
Definition within (pend : list (@h3_pending_handshake E)) (hand : list handle) x : Prop :=
  Z.of_nat (length pend + length (io_active x) + length hand) <= h3_max_connections conf.

Lemma io_inv_perm pend pend' hand hand' x :
  (ph_conn <$> pend) ++ hand ≡ₚ (ph_conn <$> pend') ++ hand' -> io_inv pend hand x -> io_inv pend' hand' x.
Proof.
  intros Hp [I1 I2 I3 I4 I5].
  assert (Ho : owners pend hand x ≡ₚ owners pend' hand' x).
  { unfold owners. rewrite !(Permutation_app_comm (ph_conn <$> _)), <- !app_assoc.
    rewrite (Permutation_app_comm hand), (Permutation_app_comm hand'). by rewrite Hp. }
  split; try done; [by rewrite <- Ho|]. intros c. rewrite <- Ho. apply I2.
Qed.

Lemma conn_free_ok pend c hand x :
  io_inv pend (c :: hand) x ->
  returns (conn_free c) x (fun _ x' => io_inv pend hand x' /\ io_pending x' = io_pending x
    /\ io_active x' = io_active x).
Proof.
  intros [I1 I2 I3 I4 I5]. unfold conn_free, returns, mbind, M_bind, gets.
  assert (Hno : c ∉ io_freed x).
  { unfold owners in I1. apply NoDup_app in I1 as (_ & _ & I1). apply NoDup_app in I1 as (_ & _ & I1).
    apply NoDup_app in I1 as (_ & I1 & _). intros Hin. apply (I1 c Hin). by left. }
  rewrite bool_decide_true by done. simpl. split_and!; [|done|done].
  assert (Ho : owners pend hand (set_io_freed (c :: io_freed x) x) ≡ₚ owners pend (c :: hand) x)
    by (unfold owners; simpl; solve_Permutation).
  split; simpl; try done; [by rewrite Ho|]. intros c'. rewrite Ho. apply I2.
Qed.

(** ** Spawning a session *)

Lemma destroy_in_io_ok pend c hand x (s : @h3_session N E) :
  closed_inv conf s -> ss_qconn s = Some c -> io_inv pend (c :: hand) x ->
  returns (destroy_in_io c s) x (fun _ x' => io_inv pend hand x' /\ io_pending x' = io_pending x
    /\ io_active x' = io_active x).
Proof.
  intros Hs Hc Hx. destruct (ready_conf _ Hready) as (R1 & R2 & _). unfold destroy_in_io.
  pose proof (wp_session_destroy conf R1 R2 s c Hs Hc) as W. unfold wp in W.
  destruct (h3_session_destroy s) as [[] s'| |s'] eqn:Ed; [|done|by destruct (destroy_fuel_free s s')].
  destruct W as (_ & _ & _ & _ & _ & Hf & _). rewrite bool_decide_true by (rewrite Hf; by left).
  by apply conn_free_ok.
Qed.

Definition spawned pend x (_ : apr_status) x' : Prop :=
  io_inv pend [] x' /\ io_pending x' = io_pending x /\ (length (io_active x') <= S (length (io_active x)))%nat.

Lemma free_spawned pend c x (rv : apr_status) :
  io_inv pend [c] x -> returns (conn_free c ;; mret rv) x (spawned pend x).
Proof.
  intros Hx. apply returns_bind. eapply returns_mono; [by apply conn_free_ok|].
  intros [] x' (H1 & H2 & H3). split_and!; [done|done|rewrite H3; lia].
Qed.

Lemma destroy_spawned pend c x s (rv : apr_status) :
  closed_inv conf s -> ss_qconn s = Some c -> io_inv pend [c] x ->
  returns (destroy_in_io c s ;; mret rv) x (spawned pend x).
Proof.
  intros Hs Hc Hx. apply returns_bind. eapply returns_mono; [by apply destroy_in_io_ok|].
  intros [] x' (H1 & H2 & H3). split_and!; [done|done|rewrite H3; lia].
Qed.

Lemma push_session_ok pend c x s :
  io_inv pend [c] x -> ss_qconn s = Some c -> serviced conf s ->
  io_inv pend [] (set_io_notes (io_notes x + 1) (set_io_active_count (wrap32 (io_active_count x + 1))
    (set_io_active (io_active x ++ [System s [] true 0 false]) x))).
Proof.
  intros [I1 I2 I3 I4 I5] Hc Hs. destruct (ready_conf _ Hready) as (R1 & R2 & _).
  set (x' := set_io_notes _ _).
  assert (Ho : owners pend [] x' ≡ₚ owners pend [c] x).
  { unfold owners, x'. simpl. rewrite omap_app. simpl. unfold sess_conn at 2. simpl. rewrite Hc.
    rewrite app_nil_r. solve_Permutation. }
  split; simpl.
  - by rewrite Ho.
  - intros c'. rewrite Ho. apply I2.
  - rewrite I3, length_app. unfold wrap32. rewrite Zplus_mod_idemp_l. f_equal. simpl. lia.
  - rewrite I4, length_app. simpl. lia.
  - apply Forall_app. split; [done|]. apply Forall_singleton. exists c. split; [done|].
    by apply (start_ok conf R1 R2).
Qed.

Lemma spawn_ok pend sc env c x :
  (let '(k0, k1, k2) := sc_track sc in fst k0 = true /\ fst k1 = true /\ fst k2 = true) ->
  io_inv pend [c] x -> returns (spawn_serviced_session conf sc env c) x (spawned pend x).
Proof.
  intros Hpools Hx. destruct (ready_conf _ Hready) as (R1 & R2 & _). unfold spawn_serviced_session.
  destruct (sc_pools sc); simpl; [|by apply free_spawned].
  destruct (h3_session_create conf (sc_mutex sc) (Pos.succ c) env c) as [[s|] rv] eqn:Ec;
    [|by apply free_spawned].
  destruct (sc_track sc) as [[k0 k1] k2]. destruct Hpools as (K0 & K1 & K2).
  assert (Hm : sc_mutex sc = APR_SUCCESS /\ rv = APR_SUCCESS).
  { unfold h3_session_create in Ec. destruct (sc_mutex sc); try done.
    destruct ngh_server_new; [|done]. by injection Ec as _ <-. }
  destruct Hm as [Hm ->]. rewrite Hm in Ec.
  destruct (session_create_inv conf (Pos.succ c) env c s _ ltac:(lia) Ec) as (Hs & Hq & _).
  pose proof (wp_create_control conf R1 R2 s c k0 k1 k2 Hs Hq K0 K1 K2) as W. unfold wp in W.
  destruct (h3_session_create_control_streams conf k0 k1 k2 s) as [r s1| |s1] eqn:Ect;
    [|done|by destruct (control_fuel_free conf k0 k1 k2 s s1)].
  destruct W as (Hcl & Hle & Hpost).
  assert (Hq1 : ss_qconn s1 = Some c).
  { assert (is_Some (ss_qconn s1)) as [c' Hc'].
    { destruct r; [|by destruct Hpost..]. destruct Hpost as [Hs1 _]. by eapply si_qconn. }
    pose proof (sl_qconn _ _ Hle _ Hc'). congruence. }
  destruct r; try by apply destroy_spawned.
  destruct (qc_is_closed (ss_env s1) c || _); [by apply destroy_spawned|].
  destruct Hpost as [Hs1 _]. unfold returns. simpl. split_and!; [|done|simpl; rewrite length_app; simpl; lia].
  apply (push_session_ok pend c x s1); [done|done|].
  by exists (Pos.succ c), env, c, s, k0, k1, k2; split_and!; [lia|..].
Qed.

(** ** Handshakes *)

Definition io_ok x : Prop := io_inv (io_pending x) [] x /\ within (io_pending x) [] x.

Lemma set_pending_inv pend pend' hand x : io_inv pend hand x -> io_inv pend hand (set_io_pending pend' x).
Proof. by intros [I1 I2 I3 I4 I5]. Qed.

(** Dropping an entry whose connection has found another owner. *)
Lemma drop_pending_ok i p x :
  io_pending x !! i = Some p -> io_inv (swap_remove i (io_pending x)) [] x ->
  returns (remove_pending_handshake i false) x (fun _ x' =>
    io_inv (io_pending x') [] x' /\ io_pending x' = swap_remove i (io_pending x)
    /\ io_active x' = io_active x).
Proof.
  intros Hi Hx. unfold remove_pending_handshake. mrun. rewrite Hi. simpl.
  split_and!; [by apply set_pending_inv|done|done].
Qed.

Lemma perm_hand i p (l : list (@h3_pending_handshake E)) :
  l !! i = Some p -> (ph_conn <$> l) ++ [] ≡ₚ (ph_conn <$> swap_remove i l) ++ [ph_conn p].
Proof.
  intros Hi. rewrite (swap_remove_perm _ _ _ Hi) at 1. rewrite fmap_cons, app_nil_r.
  by rewrite (Permutation_app_comm _ [ph_conn p]).
Qed.

Lemma free_pending_ok i p x :
  io_pending x !! i = Some p -> io_inv (io_pending x) [] x ->
  returns (remove_pending_handshake i true) x (fun _ x' =>
    io_inv (io_pending x') [] x' /\ io_pending x' = swap_remove i (io_pending x)
    /\ io_active x' = io_active x).
Proof.
  intros Hi Hx. pose proof (io_inv_perm _ _ _ _ x (perm_hand i p _ Hi) Hx) as Hx1.
  unfold remove_pending_handshake. apply returns_bind. unfold returns at 1. simpl. rewrite Hi.
  apply returns_bind. unfold returns at 1. simpl. apply returns_bind.
  eapply returns_mono; [by apply conn_free_ok|]. intros [] x1 (H1 & H2 & H3).
  unfold returns. simpl. rewrite H2. split_and!; [by apply set_pending_inv|done|done].
Qed.

Lemma within_removed i p x x' :
  within (io_pending x) [] x -> io_pending x !! i = Some p ->
  io_pending x' = swap_remove i (io_pending x) ->
  (length (io_active x') <= S (length (io_active x)))%nat -> within (io_pending x') [] x'.
Proof.
  unfold within. intros Hw Hi Hp Ha. rewrite (swap_remove_length _ _ _ Hi) in Hw. rewrite Hp. simpl in *. lia.
Qed.

(** A handshake that is neither timed out nor closed nor complete. *)
Definition waiting (hc : handshake_calls) (p : @h3_pending_handshake E) : Prop :=
  hc_now hc - ph_accepted_at p < apr_time_from_sec (h3_handshake_timeout conf)
  /\ qc_is_closed (hc_net hc (ph_conn p) (ph_env p)) (ph_conn p) = false
  /\ qc_is_handshake_done (hc_net hc (ph_conn p) (ph_env p)) (ph_conn p) = false.

Definition examined (hc : handshake_calls) (i : nat) (l : list (@h3_pending_handshake E)) : Prop :=
  forall j p, (j < i)%nat -> l !! j = Some p -> waiting hc p.

Lemma examined_removed hc i p l : l !! i = Some p -> examined hc i l -> examined hc i (swap_remove i l).
Proof.
  intros Hi He j q Hj. rewrite swap_remove_lookup; [by apply He|by eapply lookup_lt_Some|done].
Qed.

Lemma progress_ok fuel hc i x :
  hc_ok hc -> io_ok x -> (length (io_pending x) <= i + fuel)%nat -> examined hc i (io_pending x) ->
  returns (progress_loop conf fuel hc i) x (fun _ x' => io_ok x' /\ Forall (waiting hc) (io_pending x')
    /\ io_pending x' ⊆ io_pending x).
Proof.
  intros Hhc. revert i x. induction fuel as [|k IH]; intros i x Hx Hlen He; cbn [progress_loop].
  { unfold returns. simpl. split_and!; [done| |done]. apply Forall_lookup. intros j p Hj.
    apply (He j); [|done]. apply lookup_lt_Some in Hj. lia. }
  apply returns_bind. unfold returns at 1. simpl. destruct (io_pending x !! i) as [p|] eqn:Hi.
  2:{ unfold returns. simpl. split_and!; [done| |done]. apply Forall_lookup. intros j p Hj.
      apply (He j); [|done]. apply lookup_lt_Some in Hj. apply lookup_ge_None in Hi. lia. }
  destruct Hx as [Hinv Hw].
  assert (Hgo : forall x', io_inv (io_pending x') [] x' -> io_pending x' = swap_remove i (io_pending x) ->
    (length (io_active x') <= S (length (io_active x)))%nat ->
    returns (progress_loop conf k hc i) x' (fun _ x' => io_ok x' /\ Forall (waiting hc) (io_pending x')
      /\ io_pending x' ⊆ io_pending x)).
  { intros x' Hx' Hp' Ha'. eapply returns_mono; [apply IH|].
    - split; [done|]. by eapply within_removed.
    - rewrite Hp'. rewrite (swap_remove_length _ _ _ Hi) in Hlen. lia.
    - rewrite Hp'. by eapply examined_removed.
    - intros [] x'' (K1 & K2 & K3). split_and!; [done|done|]. rewrite K3, Hp'.
      intros q Hq. rewrite (swap_remove_perm _ _ _ Hi). by right. }
  assert (Hfree : returns (remove_pending_handshake i true ;; progress_loop conf k hc i) x
    (fun _ x' => io_ok x' /\ Forall (waiting hc) (io_pending x') /\ io_pending x' ⊆ io_pending x)).
  { apply returns_bind. eapply returns_mono; [by eapply free_pending_ok|]. intros [] x1 (H1 & H2 & H3).
    apply Hgo; [done|done|rewrite H3; lia]. }
  destruct (Z.leb_spec (apr_time_from_sec (h3_handshake_timeout conf)) (hc_now hc - ph_accepted_at p));
    [done|].
  destruct (qc_is_closed _ _) eqn:Ecl; [done|]. destruct (qc_is_handshake_done _ _) eqn:Ehd.
  - apply returns_bind. eapply returns_mono; [apply spawn_ok; [apply Hhc|]|].
    { eapply io_inv_perm; [by apply perm_hand|done]. }
    intros rv x1 (H1 & H2 & H3). apply returns_bind. rewrite <- H2 in Hi.
    eapply returns_mono; [eapply drop_pending_ok; [done|by rewrite H2]|].
    intros [] x2 (K1 & K2 & K3). rewrite H2 in K2. apply Hgo; [done|done|by rewrite K3].
  - apply IH; [done|lia|]. intros j q Hj Hq. destruct (decide (j = i)) as [->|].
    + rewrite Hi in Hq. by simplify_eq.
    + apply (He j); [lia|done].
Qed.

(** ** The steps of the event thread *)

Lemma accept_ok now env x : io_ok x -> returns (accept_conn conf now env) x (fun _ x' => io_ok x').
Proof.
  intros [Hinv Hw]. unfold accept_conn. apply returns_bind. unfold returns at 1. simpl.
  apply returns_bind. unfold returns at 1. simpl. set (c := io_next x).
  set (x1 := set_io_next (Pos.succ c) x).
  assert (Hx1 : io_inv (io_pending x) [c] x1).
  { destruct Hinv as [I1 I2 I3 I4 I5].
    assert (Ho : owners (io_pending x) [c] x1 ≡ₚ c :: owners (io_pending x) [] x)
      by (unfold owners; simpl; rewrite app_nil_r; solve_Permutation).
    split; try done.
    - rewrite Ho. constructor; [|done]. rewrite I2. unfold c. lia.
    - intros c'. rewrite Ho, elem_of_cons, I2. unfold x1, c. simpl. lia. }
  assert (Hfree : returns (conn_free c) x1 (fun _ x' => io_ok x')).
  { eapply returns_mono; [by apply conn_free_ok|]. intros [] x2 (H1 & H2 & H3). split.
    - by rewrite H2.
    - unfold within in *. by rewrite H2, H3. }
  apply returns_bind. unfold returns at 1. simpl.
  destruct (h3_io_at_connection_limit conf x1) eqn:El; [done|].
  unfold h3_io_at_connection_limit in El. apply Z.leb_gt in El. pose proof (rd_conns _ Hready) as Hmax.
  unfold within in Hw. simpl in El, Hw. unfold H3_MAX_CONNECTIONS_MAX in Hmax.
  rewrite !wrap32_small in El by (unfold UINT32_MAX; rewrite ?wrap32_small; unfold UINT32_MAX; lia).
  apply returns_bind. unfold prepare_accepted_connection.
  destruct (qc_prepare env c (h3_idle_timeout conf)) as [env' [|]]; simpl; [|done].
  unfold returns. simpl. split.
  - simpl. set (x2 := set_io_total_connections _ _). destruct Hx1 as [I1 I2 I3 I4 I5].
    assert (Ho : owners (io_pending x ++ [Pending c now env']) [] x2 ≡ₚ owners (io_pending x) [c] x1).
    { unfold owners. simpl. rewrite fmap_app. simpl. rewrite app_nil_r. solve_Permutation. }
    split; try done; [by rewrite Ho|]. intros c'. rewrite Ho. apply I2.
  - unfold within. simpl. rewrite length_app. simpl. lia.
Qed.

Lemma turn_conn x i y y' c :
  io_active x !! i = Some y -> sess_conn y = Some c -> sess_conn y' = Some c ->
  omap sess_conn (<[i := y']> (io_active x)) = omap sess_conn (io_active x).
Proof.
  intros Hi Hy Hy'. apply list_elem_of_split_length in Hi as (l1 & l2 & Hl & ->). rewrite Hl.
  rewrite insert_app_r_alt, Nat.sub_diag by lia. simpl. rewrite !omap_app. simpl. by rewrite Hy, Hy'.
Qed.

Lemma session_turn_ok c y y' :
  sys_ok conf c (y, Finished) -> sess_conn y = Some c ->
  rtc (sys_step conf counts pc_ok) (y, Finished) (y', Finished) ->
  sys_ok conf c (y', Finished)
  /\ (sy_alive y' = true -> sess_conn y' = Some c) /\ (sy_alive y' = false -> c ∈ ss_freed (sy_sess y')).
Proof.
  intros Hy Hc Hr. destruct (ready_conf _ Hready) as (R1 & R2 & R3).
  pose proof (steps_ok conf counts R1 R2 R3 c _ _ Hr Hy) as Hy'. split; [done|].
  destruct Hy' as (g & s0 & Hg & _ & Hev). simpl in *. inversion Hev; subst; simpl in Hg; split; intros Ha.
  - by destruct Hg.
  - destruct Hg. congruence.
  - destruct Hg. congruence.
  - by destruct Hg as (_ & _ & _ & _ & _ & ?).
Qed.

Lemma active_sess x i y :
  io_ok x -> io_active x !! i = Some y -> exists c, sess_conn y = Some c /\ sys_ok conf c (y, Finished).
Proof. intros [[_ _ _ _ I5] _] Hi. rewrite Forall_lookup in I5. by apply (I5 i). Qed.

Lemma retire_ok i y c y' x :
  io_ok x -> io_active x !! i = Some y -> sess_conn y = Some c ->
  rtc (sys_step conf counts pc_ok) (y, Finished) (y', Finished) -> sy_alive y' = false ->
  returns (retire_session i c y') x (fun _ x' => io_ok x').
Proof.
  intros Hx Hi Hc Hr Ha. destruct (active_sess x i y Hx Hi) as (c' & Hc' & Hy).
  assert (c' = c) as -> by congruence. destruct (session_turn_ok c y y' Hy Hc Hr) as (_ & _ & Hf).
  destruct Hx as [[I1 I2 I3 I4 I5] Hw]. unfold retire_session. rewrite bool_decide_true by auto.
  assert (Hom : omap sess_conn (io_active x) ≡ₚ c :: omap sess_conn (swap_remove i (io_active x))).
  { rewrite (swap_remove_perm _ _ _ Hi) at 1. simpl. by rewrite Hc. }
  assert (Hno : c ∉ io_freed x).
  { unfold owners in I1. apply NoDup_app in I1 as (_ & _ & I1). rewrite Hom in I1. simpl in I1.
    apply NoDup_cons in I1 as [I1 _]. set_solver. }
  unfold conn_free. mrun. rewrite bool_decide_true by done. simpl.
  pose proof (swap_remove_length _ _ _ Hi) as Hl. set (x' := set_io_notes _ _).
  assert (Ho : owners (io_pending x) [] x' ≡ₚ owners (io_pending x) [] x).
  { unfold owners, x'. simpl. rewrite Hom. solve_Permutation. }
  split; [split|]; simpl.
  - by rewrite Ho.
  - intros c0. rewrite Ho. apply I2.
  - rewrite I3, Hl. unfold wrap32. rewrite Zminus_mod_idemp_l. f_equal. lia.
  - rewrite I4, Hl. lia.
  - rewrite (swap_remove_perm _ _ _ Hi) in I5. by apply Forall_cons in I5 as [_ I5].
  - unfold within in *. simpl. lia.
Qed.

Lemma exit_ok x :
  io_ok x -> returns exit_event_thread x (fun _ x' => io_ok x' /\ io_pending x' = []
    /\ io_active x' = io_active x /\ io_next x' = io_next x /\ io_running x' = io_running x).
Proof.
  intros Hx. unfold exit_event_thread. apply returns_bind. unfold returns at 1. simpl.
  remember (length (io_pending x)) as n eqn:En. revert x Hx En.
  induction n as [|n IH]; intros x Hx En; cbn [free_handshakes].
  { unfold returns. simpl. split_and!; [done|by apply nil_length_inv|done..]. }
  destruct (io_pending x) as [|p l] eqn:Hp; [done|]. destruct Hx as [Hinv Hw].
  assert (Hi : io_pending x !! O = Some p) by (by rewrite Hp).
  assert (Hnx : returns (remove_pending_handshake 0 true) x (fun _ x1 =>
    io_next x1 = io_next x /\ io_running x1 = io_running x)).
  { pose proof (free_pending_ok 0 p x Hi Hinv) as W. unfold remove_pending_handshake, conn_free in *.
    revert W. mrun. rewrite Hi. simpl. by destruct (bool_decide _). }
  pose proof (free_pending_ok 0 p x Hi Hinv) as W. apply returns_bind. unfold returns at 1.
  unfold returns in W, Hnx. destruct (remove_pending_handshake 0 true x) as [[] x1| |]; [|done|done].
  destruct W as (H1 & H2 & H3), Hnx as [Hn1 Hn2]. eapply returns_mono; [apply IH|].
  - split; [done|]. eapply (within_removed 0 p x); [done|done|done|rewrite H3; lia].
  - rewrite H2. pose proof (swap_remove_length _ _ _ Hi) as Hl. rewrite Hp in Hl at 1. simpl in *. lia.
  - intros [] x2 (K1 & K2 & K3 & K4 & K5). split_and!; [done|done|congruence..].
Qed.

Lemma io_step_ok x x' : io_step conf counts x x' -> io_ok x -> io_ok x'.
Proof.
  intros Hstep Hx. destruct Hstep as
    [x now env x' He|x hc x' Hhc He|x i y y' Hi Hr Ha|x i y y' c x' Hi Hc Hr Ha He|x|x x' _ _ He].
  - pose proof (accept_ok now env x Hx) as W. unfold returns in W. by rewrite He in W.
  - pose proof (progress_ok (length (io_pending x)) hc 0 x Hhc Hx) as W. unfold returns in W.
    unfold progress_pending_handshakes in He. simpl in He. unfold mbind, M_bind, gets in He.
    rewrite He in W. apply W; [lia|]. intros j p Hj. lia.
  - destruct (active_sess x i y Hx Hi) as (c & Hc & Hy).
    destruct (session_turn_ok c y y' Hy Hc Hr) as (Hy' & Hc' & _). specialize (Hc' Ha).
    destruct Hx as [[I1 I2 I3 I4 I5] Hw]. pose proof (turn_conn x i y y' c Hi Hc Hc') as Ho.
    split; [split|]; simpl; rewrite ?length_insert; try done.
    + unfold owners in *. simpl. by rewrite Ho.
    + intros c0. unfold owners in *. simpl. by rewrite Ho.
    + apply Forall_insert; [done|]. by exists c.
    + unfold within in *. simpl. by rewrite length_insert.
  - pose proof (retire_ok i y c y' x Hx Hi Hc Hr Ha) as W. unfold returns in W. by rewrite He in W.
  - destruct Hx as [[I1 I2 I3 I4 I5] Hw]. by split; [split|].
  - pose proof (exit_ok x Hx) as W. unfold returns in W. rewrite He in W. by destruct W.
Qed.

Lemma io_start_ok : io_ok io_start.
Proof.
  split; [split|]; simpl; try done.
  - constructor.
  - intros c. unfold owners. simpl. split; [by intros ?%elem_of_nil|lia].
  - unfold within. simpl. pose proof (rd_conns _ Hready). lia.
Qed.

Lemma io_reach_ok x : rtc (io_step conf counts) io_start x -> io_ok x.
Proof.
  intros Hr. assert (Hgen : forall a b, rtc (io_step conf counts) a b -> io_ok a -> io_ok b)
    by (induction 1; eauto using io_step_ok). eapply Hgen; [done|apply io_start_ok].
Qed.

End IoInv.

(** ** What the calls keep *)

(** Only accepting makes connections; handshakes add sessions and remove none. *)
Section Keeps.
Context {N E : Type} {NG : Nghttp3 N} {QS : QuicStreams E} {QC : QuicConns E} {AH : AprHash}.

Definition grows (x x' : @h3_io N E) : Prop :=
  io_next x' = io_next x /\ io_running x' = io_running x /\ io_active x `prefix_of` io_active x'.

#[export] Instance grows_preorder : PreOrder grows.
Proof.
  split; [done|]. intros x y z (H1 & H2 & H3) (K1 & K2 & K3). split_and!; [congruence..|by etrans].
Qed.

Ltac grow := preserves ltac:(split_and!; simpl; solve [done | by apply prefix_app_r]).

Lemma remove_grows i b : preserves grows (remove_pending_handshake i b).
Proof. unfold remove_pending_handshake, conn_free. grow. Qed.

Lemma spawn_grows conf sc env c : preserves grows (spawn_serviced_session conf sc env c).
Proof. unfold spawn_serviced_session, destroy_in_io, conn_free. grow. Qed.

Lemma progress_grows conf fuel hc i : preserves grows (progress_loop conf fuel hc i).
Proof.
  revert i. induction fuel as [|k IH]; intros i; cbn [progress_loop]; [apply preserves_ret; apply _|].
  repeat first [apply IH | apply remove_grows | apply spawn_grows | progress grow].
Qed.

Lemma handshakes_keep conf hc x x' : progress_pending_handshakes conf hc x = Ret tt x' -> grows x x'.
Proof. intros He. eapply (progress_grows conf (length (io_pending x)) hc 0). exact He. Qed.

Lemma accept_keeps conf now env (x x' : @h3_io N E) :
  accept_conn conf now env x = Ret tt x' -> io_running x' = io_running x /\ io_active x' = io_active x.
Proof.
  unfold accept_conn, prepare_accepted_connection, conn_free. mrun. repeat case_match; naive_solver.
Qed.

End Keeps.

Section Returns.
Context {N E : Type} {NG : Nghttp3 N} {NGS : Nghttp3Spec N NG}.
Context {QS : QuicStreams E} {QSS : QuicStreamsSpec E QS}.
Context {QC : QuicConns E} {QCS : QuicConnsSpec E QC} {AH : AprHash} {H : Httpd}.
Abbreviation h3_io := (@h3_io N E).

(** Neither accepting a connection nor retiring a session that a turn has destroyed frees a
    connection twice. *)
Lemma accept_returns conf (x : h3_io) now env :
  conf_ready conf -> io_ok conf x -> exists x', accept_conn conf now env x = Ret tt x'.
Proof.
  intros Hc Hx. pose proof (accept_ok conf Hc now env x Hx) as W. unfold returns in W.
  destruct (accept_conn conf now env x) as [[] x'| |] eqn:Ea; [|done|done]. by exists x'.
Qed.

Lemma retire_returns conf counts (x : h3_io) i y c y' :
  conf_ready conf -> io_ok conf x -> io_active x !! i = Some y -> sess_conn y = Some c ->
  rtc (sys_step conf counts pc_ok) (y, Finished) (y', Finished) -> sy_alive y' = false ->
  exists x', retire_session i c y' x = Ret tt x' /\ c ∈ io_freed x'.
Proof.
  intros Hc Hx Hi Hcn Hs Ha. pose proof (retire_ok conf counts Hc i y c y' x Hx Hi Hcn Hs Ha) as W.
  unfold returns in W. destruct (retire_session i c y' x) as [[] x'| |] eqn:Ea; [|done|done].
  exists x'. split; [done|]. destruct (active_sess conf x i y Hx Hi) as (c' & Hc' & Hy).
  assert (c' = c) as -> by congruence.
  destruct (session_turn_ok conf counts Hc c y y' Hy Hcn Hs) as (_ & _ & Hf).
  unfold retire_session, conn_free in Ea. revert Ea. rewrite bool_decide_true by auto. mrun.
  destruct (bool_decide _); [|done]. intros [= <-]. simpl. by left.
Qed.

Lemma handshakes_return conf (x : h3_io) hc :
  conf_ready conf -> hc_ok hc -> io_ok conf x -> exists x', progress_pending_handshakes conf hc x = Ret tt x'
    /\ Forall (waiting conf hc) (io_pending x') /\ io_pending x' ⊆ io_pending x.
Proof.
  intros Hc Hhc Hx. pose proof (progress_ok conf Hc (length (io_pending x)) hc 0 x Hhc Hx ltac:(lia)
    ltac:(intros j p Hj; lia)) as W.
  unfold returns in W. destruct (progress_loop conf (length (io_pending x)) hc 0 x) as [[] x'| |] eqn:Ep;
    [|done|done].
  destruct W as (W1 & W2 & W3). exists x'. split_and!; [exact Ep|done|done].
Qed.

Lemma exit_returns conf (x : h3_io) :
  conf_ready conf -> io_ok conf x -> exists x', exit_event_thread x = Ret tt x' /\ io_pending x' = []
    /\ io_active x' = io_active x /\ io_next x' = io_next x /\ io_running x' = io_running x
    /\ io_ok conf x'.
Proof.
  intros Hc Hx. pose proof (exit_ok conf x Hx) as W. unfold returns in W.
  destruct (exit_event_thread x) as [[] x'| |] eqn:Ee; [|done|done]. exists x'. naive_solver.
Qed.

End Returns.
