(* ===== verification/EventLoop.v ===== *)
(** * The event thread's loop (h3_threads.c)

    [loop_step] is [h3_event_thread] with its program counter, [work_pending] and
    [listener_failed]: it waits for events unless work is pending, pumps the QUIC engine,
    backs off when that fails, accepts connections and progresses handshakes while the
    listener runs, gives every active session a turn, and frees the handshakes that are left
    when it ends.  The workers of the sessions run at any time, and so may
    [h3_io_listen_stop] clear [thread_running].

    Every execution of the loop is one of [io_step], so what Io.v shows of the listener holds
    at each of its points; a round waits, backs off and serves the sessions as it should. *)

From S2P Require Import Prelude Effects LinkedQueue RespQueue Config Body Quic Stream.
From S2P Require Import Session SessionInv SessionSafe Request Toy Workers Service System Io.

(** ** The loop *)

Definition H3_LISTENER_FAILED_BACKOFF_MS : Z := 100.

Section EventLoop.
Context {N E : Type} {NG : Nghttp3 N} {QS : QuicStreams E} {QC : QuicConns E} {AH : AprHash}.
Context {H : Httpd}.
Context (conf : h3_server_conf).
Abbreviation system := (@system N E).

(** Where the thread is. *)
Inductive loop_pc :=
  | L_check            (** at the condition of the loop *)
  | L_wait             (** in [wait_for_event] *)
  | L_pump             (** at [h3q_engine_pump] *)
  | L_backoff          (** in [apr_sleep] *)
  | L_test             (** at [if (io->thread_running)] *)
  | L_accept           (** at the accept loop *)
  | L_handshakes       (** at [progress_pending_handshakes] *)
  | L_pass (i : nat)   (** at the loop over the sessions *)
  | L_exit             (** after the loop *)
  | L_done.

Record loop := Loop {
  lp_io : @h3_io N E;
  lp_pc : loop_pc;
  lp_work : bool;        (** [work_pending] *)
  lp_failed : bool }.    (** [listener_failed] *)

(** What a step does that can be seen. *)
Inductive loop_event :=
  | Ev_wait
  | Ev_pump (pumped : Z)
  | Ev_log
  | Ev_sleep (msec : Z)
  | Ev_turn (conn : handle) (progress : bool).

(** One turn of the event thread on a session, its workers running. *)
Definition one_turn (counts : bool) (pc : @pass_calls N E H) (y y' : system) : Prop :=
  rtc (sys_step conf counts (fun _ => False)) (y, session_turn conf counts pc turn_end) (y', Finished).

(** The workers of a session run. *)
Definition workers_run (counts : bool) (y y' : system) : Prop :=
  rtc (sys_step conf counts (fun _ : @pass_calls N E H => False)) (y, Finished) (y', Finished).

Inductive loop_step (counts : bool) : loop -> list loop_event -> loop -> Prop :=
  | lp_enter x w f :
      io_running x = true \/ io_active x <> [] ->
      loop_step counts (Loop x L_check w f) [] (Loop x (if w then L_pump else L_wait) w f)
  | lp_leave x w f :
      io_running x = false -> io_active x = [] ->
      loop_step counts (Loop x L_check w f) [] (Loop x L_exit w f)
  | lp_waited x w f :
      loop_step counts (Loop x L_wait w f) [Ev_wait] (Loop x L_pump w f)
  | lp_pump_failed x w f pumped :
      pumped < 0 ->
      loop_step counts (Loop x L_pump w f) (Ev_pump pumped :: if f then [] else [Ev_log])
        (Loop x L_backoff false true)
  | lp_slept x w f :
      loop_step counts (Loop x L_backoff w f) [Ev_sleep H3_LISTENER_FAILED_BACKOFF_MS] (Loop x L_test w f)
  | lp_pumped x w f pumped :
      0 <= pumped ->
      loop_step counts (Loop x L_pump w f) [Ev_pump pumped] (Loop x L_test (negb (pumped =? 0)) false)
  | lp_test x w f :
      loop_step counts (Loop x L_test w f) [] (Loop x (if io_running x then L_accept else L_pass 0) w f)
  | lp_accept x w f now env x' :
      accept_conn conf now env x = Ret tt x' ->
      loop_step counts (Loop x L_accept w f) [] (Loop x' L_accept w f)
  | lp_no_conn x w f :
      loop_step counts (Loop x L_accept w f) [] (Loop x L_handshakes w f)
  | lp_handshakes x w f hc x' :
      hc_ok hc -> progress_pending_handshakes conf hc x = Ret tt x' ->
      loop_step counts (Loop x L_handshakes w f) [] (Loop x' (L_pass 0) w f)
  | lp_turn x w f i y c pc y' :
      io_active x !! i = Some y -> sess_conn y = Some c -> pc_ok pc ->
      (pc_running pc = true -> io_running x = true) -> one_turn counts pc y y' -> sy_alive y' = true ->
      loop_step counts (Loop x (L_pass i) w f) [Ev_turn c (sy_work y')]
        (Loop (set_io_active (<[i := y']> (io_active x)) x) (L_pass (S i)) (w || sy_work y') f)
  | lp_retire x w f i y c pc y' x' :
      io_active x !! i = Some y -> sess_conn y = Some c -> pc_ok pc ->
      (pc_running pc = true -> io_running x = true) -> one_turn counts pc y y' -> sy_alive y' = false ->
      retire_session i c y' x = Ret tt x' ->
      loop_step counts (Loop x (L_pass i) w f) [Ev_turn c (sy_work y')]
        (Loop x' (L_pass i) (w || sy_work y') f)
  | lp_pass_end x w f i :
      io_active x !! i = None ->
      loop_step counts (Loop x (L_pass i) w f) [] (Loop x L_check w f)
  | lp_exit x w f x' :
      exit_event_thread x = Ret tt x' ->
      loop_step counts (Loop x L_exit w f) [] (Loop x' L_done w f)
  | lp_workers x q w f i y y' :
      io_active x !! i = Some y -> workers_run counts y y' ->
      loop_step counts (Loop x q w f) [] (Loop (set_io_active (<[i := y']> (io_active x)) x) q w f)
  | lp_stop x q w f :
      loop_step counts (Loop x q w f) [] (Loop (set_io_running false x) q w f).

(** A sequence of steps, and what it shows. *)
Inductive loop_run (counts : bool) : loop -> list loop_event -> loop -> Prop :=
  | run_nil l : loop_run counts l [] l
  | run_snoc l tr l' ev l'' :
      loop_run counts l tr l' -> loop_step counts l' ev l'' -> loop_run counts l (tr ++ ev) l''.

(** The thread as it starts. *)
Definition loop_start : loop := Loop io_start L_check false false.

End EventLoop.

(** ** The loop and [io_step] *)

Section Refines.
Context {N E : Type} {NG : Nghttp3 N} {NGS : Nghttp3Spec N NG}.
Context {QS : QuicStreams E} {QSS : QuicStreamsSpec E QS}.
Context {QC : QuicConns E} {QCS : QuicConnsSpec E QC} {AH : AprHash} {H : Httpd}.
Context (conf : h3_server_conf) (counts : bool) (Hready : conf_ready conf).
Abbreviation system := (@system N E).
Abbreviation loop := (@loop N E).
Abbreviation step := (loop_step conf counts).
Implicit Types (x : @h3_io N E) (l : loop) (y : system).

Lemma sys_step_weaken (P Q : @pass_calls N E H -> Prop) z z' :
  (forall pc, P pc -> Q pc) -> sys_step conf counts P z z' -> sys_step conf counts Q z z'.
Proof.
  intros HPQ [lb Hs]. exists lb. destruct Hs as [y pc Ha Hpc|y m o y1 He|y ev w1 p m w2 o y1 Hw He];
    [by apply step_turn; [|apply HPQ]|by apply step_event|by apply step_worker].
Qed.

Lemma rtc_weaken (P Q : @pass_calls N E H -> Prop) z z' :
  (forall pc, P pc -> Q pc) -> rtc (sys_step conf counts P) z z' -> rtc (sys_step conf counts Q) z z'.
Proof. intros HPQ. apply rtc_subrel. intros a b. by apply sys_step_weaken. Qed.

(** The workers leave the session alive and what its last turn returned. *)
Lemma workers_keep_sys y y' :
  workers_run conf counts y y' -> sy_alive y' = sy_alive y /\ sy_work y' = sy_work y.
Proof.
  unfold workers_run. intros Hr.
  assert (Hgen : forall z z', rtc (sys_step conf counts (fun _ : @pass_calls N E H => False)) z z' ->
    snd z = Finished -> sy_alive (fst z') = sy_alive (fst z) /\ sy_work (fst z') = sy_work (fst z)).
  { induction 1 as [|z1 z2 z3 [lb Hs] _ IH]; [done|]. intros Hf.
    destruct Hs as [y0 pc Ha []|y0 m o y1 He|y0 ev w1 p m w2 o y1 Hw He]; [done|].
    specialize (IH Hf). simpl in *. unfold on_sess in He.
    destruct (sy_alive y0) eqn:Ea; [|done]. destruct (m (sy_sess y0)); try done.
    injection He as <- <-. by simpl in IH; rewrite Ea in IH. }
  by apply (Hgen _ _ Hr).
Qed.

Lemma workers_steps y y' :
  workers_run conf counts y y' -> rtc (sys_step conf counts pc_ok) (y, Finished) (y', Finished).
Proof. by apply rtc_weaken. Qed.

Lemma turn_steps pc y y' :
  one_turn conf counts pc y y' -> pc_ok pc -> sy_alive y = true ->
  rtc (sys_step conf counts pc_ok) (y, Finished) (y', Finished).
Proof.
  intros Ht Hpc Ha. eapply rtc_l; [eexists; by apply (step_turn _ _ _ y pc)|].
  by eapply (rtc_weaken (fun _ => False)); [|exact Ht].
Qed.

Lemma active_alive x i y :
  io_ok conf x -> io_active x !! i = Some y -> sy_alive y = true.
Proof.
  intros Hx Hi. destruct (active_sess conf x i y Hx Hi) as (c & Hc & g & s0 & Hg & _ & _).
  destruct g as [r j quiet|]; [by eapply lv_alive|]. destruct Hg as (_ & _ & _ & Hq & _).
  unfold sess_conn in Hc. simpl in Hq. congruence.
Qed.

(** After the loop the listener is stopped and no session is left. *)
Definition loop_ok l : Prop :=
  io_ok conf (lp_io l)
  /\ (lp_pc l = L_exit \/ lp_pc l = L_done -> io_running (lp_io l) = false /\ io_active (lp_io l) = [])
  /\ (lp_pc l = L_done -> io_pending (lp_io l) = []).

Lemma loop_step_io l ev l' :
  loop_ok l -> step l ev l' -> rtc (io_step conf counts) (lp_io l) (lp_io l').
Proof.
  intros (Hx & Hex & _) Hst. destruct Hst; simpl in *; try done.
  - by eapply rtc_once, io_accept.
  - by eapply rtc_once, io_handshakes.
  - eapply rtc_once, io_turn; [done|eapply turn_steps; eauto using active_alive|done].
  - eapply rtc_once, io_retire; [done|done|eapply turn_steps; eauto using active_alive|done|done].
  - destruct Hex as [Hr Ha]; [by left|]. by eapply rtc_once, io_exit.
  - eapply rtc_once, io_turn; [done|by apply workers_steps|].
    match goal with Hw : workers_run _ _ _ _ |- _ => destruct (workers_keep_sys _ _ Hw) as [-> _] end.
    by eapply active_alive.
  - apply rtc_once, io_stop.
Qed.

Lemma io_steps_ok x x' : rtc (io_step conf counts) x x' -> io_ok conf x -> io_ok conf x'.
Proof. induction 1; eauto using io_step_ok. Qed.

Lemma loop_step_ok l ev l' : step l ev l' -> loop_ok l -> loop_ok l'.
Proof.
  intros Hst Hl. pose proof (io_steps_ok _ _ (loop_step_io l ev l' Hl Hst) (proj1 Hl)) as Hx'.
  split; [done|]. destruct Hl as (Hx & Hex & Hdone).
  destruct Hst as [|x w f Hr Ha| | | | | | | | | | | |x w f x' He|x q w f i y y' Hi Hw|x q w f]; simpl in *;
    try (split; [intros [Hq|Hq]|intros Hq]; by repeat case_match).
  - destruct (exit_returns conf x Hready Hx) as (x1 & He1 & Hp & Ha & _ & Hr & _).
    rewrite He in He1. injection He1 as <-. rewrite Hr, Ha. split; [auto|done].
  - split; [|done]. intros Hq. destruct (Hex Hq) as [_ Ha]. by rewrite Ha in Hi.
  - split; [|done]. intros Hq. by destruct (Hex Hq).
Qed.

Lemma loop_run_ok l tr l' :
  loop_run conf counts l tr l' -> loop_ok l ->
  loop_ok l' /\ rtc (io_step conf counts) (lp_io l) (lp_io l').
Proof.
  induction 1 as [|l tr l1 ev l2 _ IH Hst]; [done|]. intros Hl. destruct (IH Hl) as [Hl1 Hr1].
  split; [by eapply loop_step_ok|]. etrans; [done|by eapply loop_step_io].
Qed.

Lemma loop_start_ok : loop_ok loop_start.
Proof. split; [by apply io_start_ok|]. split; simpl; naive_solver. Qed.

(** What the thread does next cannot fail: the calls of h3_threads.c return, no step of a
    session's turn faults, and the thread gets to the end of the turn on its own. *)
Definition loop_no_fault l : Prop :=
  let x := lp_io l in
  match lp_pc l with
  | L_accept => forall now env, exists x', accept_conn conf now env x = Ret tt x'
  | L_handshakes => forall hc, hc_ok hc -> exists x', progress_pending_handshakes conf hc x = Ret tt x'
  | L_pass i => forall y pc, io_active x !! i = Some y -> pc_ok pc ->
      (forall z, rtc (sys_step conf counts (fun _ => False)) (y, session_turn conf counts pc turn_end) z ->
         no_fault z
         /\ (forall p, p ∈ ss_stale (sy_sess (fst z)) ->
               exists st, ss_heap (sy_sess (fst z)) !! p = Some st /\ st_body_truncated st = true)
         /\ exists z', rtc (event_step conf counts) z z' /\ (snd z' = Finished \/ looping z'))
      /\ exists c, sess_conn y = Some c /\ forall y', one_turn conf counts pc y y' -> sy_alive y' = false ->
           exists x', retire_session i c y' x = Ret tt x' /\ c ∈ io_freed x'
  | L_exit => exists x', exit_event_thread x = Ret tt x'
  | _ => True
  end.

Lemma loop_ok_no_fault l : loop_ok l -> loop_no_fault l.
Proof.
  intros (Hx & _). unfold loop_no_fault. destruct (lp_pc l) as [| | | | | | |i| |]; try done.
  - intros. by apply accept_returns.
  - intros hc Hhc. destruct (handshakes_return conf _ hc Hready Hhc Hx) as (x' & He & _). by exists x'.
  - intros y pc Hi Hpc. pose proof (active_alive _ _ _ Hx Hi) as Ha.
    destruct (active_sess conf _ _ _ Hx Hi) as (c & Hc & Hy).
    pose proof (ready_conf _ Hready) as (R1 & R2 & R3). split.
    + assert (Hok : forall z, rtc (sys_step conf counts (fun _ => False))
        (y, session_turn conf counts pc turn_end) z -> sys_ok conf c z).
      { intros z Hz. apply (steps_ok conf counts R1 R2 R3 c (y, Finished)); [|done].
        eapply rtc_l; [eexists; by apply (step_turn _ _ _ y pc)|].
        by eapply (rtc_weaken (fun _ => False)); [|exact Hz]. }
      assert (Hnf : forall z, rtc (sys_step conf counts (fun _ => False))
        (y, session_turn conf counts pc turn_end) z -> no_fault z)
        by (intros z Hz; by apply (sys_ok_no_fault conf R1 R2 R3 c), Hok).
      intros z Hz. split; [by apply Hnf|]. split; [by eapply ci_stale, (sys_ok_core conf c), Hok|].
      apply no_wait_ends.
      * eapply no_wait_steps; [|exact Hz|apply session_turn_no_wait]. by intros pc'.
      * intros z' Hz'. apply Hnf. etrans; [exact Hz|]. eapply rtc_subrel; [|exact Hz'].
        intros a b Hab. by exists None.
    + exists c. split; [done|]. intros y' Ht Hd. eapply retire_returns; [done|done|done|done| |done].
      by eapply turn_steps.
  - destruct (exit_returns conf _ Hready Hx) as (x' & He & _). by exists x'.
Qed.

End Refines.

(** ** Rounds *)

Section Rounds.
Context {N E : Type} {NG : Nghttp3 N} {NGS : Nghttp3Spec N NG}.
Context {QS : QuicStreams E} {QSS : QuicStreamsSpec E QS}.
Context {QC : QuicConns E} {QCS : QuicConnsSpec E QC} {AH : AprHash} {H : Httpd}.
Context (conf : h3_server_conf) (counts : bool) (Hready : conf_ready conf).
Abbreviation system := (@system N E).
Abbreviation loop := (@loop N E).
Abbreviation step := (loop_step conf counts).
Implicit Types (x : @h3_io N E) (l : loop) (y : system).

(** From the condition of the loop into its body, and on until the condition is reached
    again. *)
Inductive round_run : loop -> list loop_event -> loop -> Prop :=
  | round_enter l l' :
      lp_pc l = L_check -> step l [] l' -> lp_pc l' = L_wait \/ lp_pc l' = L_pump -> round_run l [] l'
  | round_more l tr l1 ev l2 :
      round_run l tr l1 -> lp_pc l1 <> L_check -> step l1 ev l2 -> round_run l (tr ++ ev) l2.

(** What a round shows up to the sessions' turns, when the pump returned [r]. *)
Definition round_head (work failed : bool) (r : Z) : list loop_event :=
  (if work then [] else [Ev_wait]) ++ Ev_pump r ::
  (if r <? 0 then (if failed then [] else [Ev_log]) ++ [Ev_sleep H3_LISTENER_FAILED_BACKOFF_MS] else []).

Definition turn_event (t : handle * bool) : loop_event := Ev_turn (fst t) (snd t).

(** The connections of the sessions, in the order of the array. *)
Definition conns (ys : list system) : list handle := omap sess_conn ys.

(** *** The array of sessions *)

Lemma conns_fmap (ys : list system) : conns ys = omap id (sess_conn <$> ys).
Proof.
  unfold conns. induction ys as [|y ys IH]; [done|]. cbn in *. destruct (sess_conn y); cbn; by rewrite IH.
Qed.

Lemma conns_insert (ys : list system) k i y y' :
  ys !! k = Some y -> sess_conn y' = sess_conn y -> conns (drop i (<[k := y']> ys)) = conns (drop i ys).
Proof.
  intros Hk Hc. rewrite !conns_fmap, !fmap_drop, list_fmap_insert, Hc. f_equal. f_equal.
  apply list_insert_id. by rewrite list_lookup_fmap, Hk.
Qed.

Lemma conns_drop (ys : list system) i y c :
  ys !! i = Some y -> sess_conn y = Some c -> conns (drop i ys) = c :: conns (drop (S i) ys).
Proof. intros Hi Hc. rewrite (drop_S _ _ _ Hi). cbn. by rewrite Hc. Qed.

Lemma conns_perm (ys ys' : list system) : ys ≡ₚ ys' -> conns ys ≡ₚ conns ys'.
Proof. unfold conns. by intros ->. Qed.

Lemma ok_conns x : io_ok conf x -> NoDup (conns (io_active x)).
Proof.
  intros [[I1 _ _ _ _] _]. unfold owners in I1. apply NoDup_app in I1 as (_ & _ & I1).
  by apply NoDup_app in I1 as (I1 & _).
Qed.

(** Running the workers of a session or giving it a turn keeps its connection. *)
Lemma workers_conn x i y y' :
  io_ok conf x -> io_active x !! i = Some y -> workers_run conf counts y y' -> sess_conn y' = sess_conn y.
Proof.
  intros Hx Hi Hw. destruct (active_sess conf x i y Hx Hi) as (c & Hc & Hy). rewrite Hc.
  destruct (session_turn_ok conf counts Hready c y y' Hy Hc (workers_steps conf counts y y' Hw)) as (_ & Hk & _).
  apply Hk. destruct (workers_keep_sys conf counts y y' Hw) as [-> _]. by eapply active_alive.
Qed.

Lemma turn_conn' x i y c pc y' :
  io_ok conf x -> io_active x !! i = Some y -> sess_conn y = Some c -> pc_ok pc ->
  one_turn conf counts pc y y' -> sy_alive y' = true -> sess_conn y' = sess_conn y.
Proof.
  intros Hx Hi Hc Hpc Ht Ha. destruct (active_sess conf x i y Hx Hi) as (c' & Hc' & Hy).
  assert (c' = c) as -> by congruence. rewrite Hc.
  apply (session_turn_ok conf counts Hready c y y'); [done|done| |done].
  eapply turn_steps; [done|done|by eapply active_alive].
Qed.

(** *** The invariant of a round

    The round began at [l0]. *)

Definition round_inv l0 (tr : list loop_event) l : Prop :=
  let here := conns (io_active (lp_io l)) in
  let before := conns (io_active (lp_io l0)) in
  match lp_pc l with
  | L_wait => tr = [] /\ lp_work l0 = false /\ lp_failed l = lp_failed l0 /\ here = before
  | L_pump => tr = (if lp_work l0 then [] else [Ev_wait]) /\ lp_failed l = lp_failed l0 /\ here = before
  | L_backoff => exists r, r < 0
      /\ tr = (if lp_work l0 then [] else [Ev_wait]) ++ Ev_pump r :: (if lp_failed l0 then [] else [Ev_log])
      /\ lp_work l = false /\ lp_failed l = true /\ here = before
  | L_test | L_accept | L_handshakes => exists r, tr = round_head (lp_work l0) (lp_failed l0) r
      /\ lp_work l = (0 <? r) /\ lp_failed l = (r <? 0) /\ here = before
  | L_pass i => exists r turns new, tr = round_head (lp_work l0) (lp_failed l0) r ++ (turn_event <$> turns)
      /\ lp_work l = ((0 <? r) || existsb snd turns) /\ lp_failed l = (r <? 0)
      /\ (fst <$> turns) ++ conns (drop i (io_active (lp_io l))) ≡ₚ before ++ new /\ NoDup (before ++ new)
  | L_check => exists r turns new, tr = round_head (lp_work l0) (lp_failed l0) r ++ (turn_event <$> turns)
      /\ lp_work l = ((0 <? r) || existsb snd turns) /\ lp_failed l = (r <? 0)
      /\ (fst <$> turns) ≡ₚ before ++ new /\ NoDup (before ++ new)
  | L_exit | L_done => False
  end.

Lemma round_enter_inv l l' :
  lp_pc l = L_check -> step l [] l' -> lp_pc l' = L_wait \/ lp_pc l' = L_pump -> round_inv l [] l'.
Proof.
  intros Hpc Hst Hor. destruct Hst as [x w f _| | | | | | | | | | | | | | |]; simpl in *;
    try done; try (subst; naive_solver). destruct w; by repeat split.
Qed.

(** The round's state depends on the sessions only through their connections. *)
Lemma round_inv_io l0 tr x x' q w f :
  (forall i, conns (drop i (io_active x')) = conns (drop i (io_active x))) ->
  round_inv l0 tr (Loop x q w f) -> round_inv l0 (tr ++ []) (Loop x' q w f).
Proof.
  intros Hd. pose proof (Hd O) as H0. rewrite !drop_0 in H0. rewrite app_nil_r.
  unfold round_inv. simpl. rewrite H0. destruct q as [| | | | | | |i| |]; try done. by rewrite Hd.
Qed.

Lemma round_pass_inv l0 tr x w f i c b l' :
  round_inv l0 tr (Loop x (L_pass i) w f) -> lp_failed l' = f -> lp_work l' = w || b ->
  (exists k, lp_pc l' = L_pass k /\
    conns (drop i (io_active x)) ≡ₚ c :: conns (drop k (io_active (lp_io l')))) ->
  round_inv l0 (tr ++ [Ev_turn c b]) l'.
Proof.
  intros (r & turns & new & -> & Hw & Hf & Hp & Hn) Hf' Hw' (k & Hk & Hc). simpl in *.
  unfold round_inv. rewrite Hk. exists r, (turns ++ [(c, b)]), new. split_and!.
  - by rewrite fmap_app, app_assoc.
  - rewrite Hw', Hw, existsb_app. simpl. by rewrite orb_false_r, orb_assoc.
  - by rewrite Hf'.
  - rewrite fmap_app, <- app_assoc. simpl. by rewrite <- Hc.
  - done.
Qed.

Lemma round_step_inv l0 tr l ev l' :
  io_ok conf (lp_io l) -> io_ok conf (lp_io l') -> round_inv l0 tr l -> lp_pc l <> L_check ->
  step l ev l' -> round_inv l0 (tr ++ ev) l'.
Proof.
  intros Hx Hx' Hi Hpc Hst. destruct Hst as
    [x w f _|x w f _ _|x w f|x w f r Hr|x w f|x w f r Hr|x w f|x w f now env x' He|x w f|x w f hc x' Hhc He
    |x w f i y c pc y' Hl Hc Hok Hrun Ht Ha|x w f i y c pc y' x' Hl Hc Hok Hrun Ht Ha He|x w f i Hl
    |x w f x' He|x q w f i y y' Hl Hw|x q w f]; simpl in Hx, Hx', Hpc; try done.
  - destruct Hi as (-> & Hw & Hf & Hh). unfold round_inv. simpl. by rewrite Hw.
  - destruct Hi as (-> & Hf & Hh). simpl in Hf. subst f. by exists r.
  - destruct Hi as (r & Hr & -> & Hw & Hf & Hh). simpl in Hw, Hf. subst w f. exists r. unfold round_head.
    assert ((r <? 0) = true) as -> by lia. assert ((0 <? r) = false) as -> by lia.
    split_and!; [|done..]. rewrite <- app_assoc. simpl. by destruct (lp_failed l0).
  - destruct Hi as (-> & Hf & Hh). exists r. unfold round_head.
    assert ((r <? 0) = false) as -> by lia. split_and!; [done|simpl; lia|done|done].
  - rewrite app_nil_r. destruct Hi as (r & -> & Hw & Hf & Hh). simpl in Hw, Hf. subst w f.
    destruct (io_running x); [by exists r|]. exists r, [], []. simpl in *.
    rewrite drop_0, Hh, !app_nil_r, orb_false_r. split_and!; [done..|]. rewrite <- Hh. by apply ok_conns.
  - rewrite app_nil_r. destruct (accept_keeps _ _ _ _ _ He) as [_ Hk]. destruct Hi as (r & ? & ? & ? & Hh).
    exists r. simpl in *. by rewrite Hk.
  - rewrite app_nil_r. destruct Hi as (r & ? & ? & ? & Hh). by exists r.
  - rewrite app_nil_r. destruct (handshakes_keep _ _ _ _ He) as (_ & _ & more & Hk).
    destruct Hi as (r & -> & Hw & Hf & Hh). exists r, [], (conns more). simpl in *.
    pose proof (ok_conns _ Hx') as Hnd. rewrite drop_0. unfold conns in Hnd, Hh |- *.
    rewrite Hk, omap_app, Hh in Hnd |- *. rewrite app_nil_r, orb_false_r. by split_and!.
  - apply (round_pass_inv l0 tr x w f i c (sy_work y')); [done..|]. exists (S i). split; [done|]. simpl.
    rewrite (conns_insert _ _ _ _ _ Hl (turn_conn' _ _ _ _ _ _ Hx Hl Hc Hok Ht Ha)).
    by rewrite (conns_drop _ _ _ _ Hl Hc).
  - apply (round_pass_inv l0 tr x w f i c (sy_work y')); [done..|]. exists i. split; [done|]. simpl.
    rewrite (conns_drop _ _ _ _ Hl Hc). constructor. apply conns_perm. symmetry.
    assert (io_active x' = swap_remove i (io_active x)) as ->.
    { revert He. unfold retire_session, conn_free. mrun. repeat case_match; naive_solver. }
    apply swap_remove_drop. by eapply lookup_lt_Some.
  - rewrite app_nil_r. destruct Hi as (r & turns & new & Htr & Hw & Hf & Hp & Hn).
    exists r, turns, new. simpl in *. rewrite drop_ge in Hp by (by apply lookup_ge_None). simpl in Hp.
    rewrite app_nil_r in Hp. by split_and!.
  - apply (round_inv_io _ _ x); [|done]. intros k. simpl.
    apply (conns_insert _ _ _ y); [done|exact (workers_conn _ _ _ _ Hx Hl Hw)].
  - by apply (round_inv_io _ _ x).
Qed.

Lemma round_run_inv l0 tr l :
  round_run l0 tr l -> loop_ok conf l0 -> loop_ok conf l /\ round_inv l0 tr l.
Proof.
  induction 1 as [l l' Hpc Hst Hor|l tr l1 ev l2 _ IH Hpc Hst]; intros Hl.
  - split; [by eapply loop_step_ok|by apply round_enter_inv].
  - destruct (IH Hl) as [Hl1 Hi]. pose proof (loop_step_ok conf counts Hready _ _ _ Hst Hl1) as Hl2.
    split; [done|]. by eapply (round_step_inv l tr l1 ev l2); [apply Hl1|apply Hl2|..].
Qed.

End Rounds.

(** ** What the event thread promises *)

Section Claims.
Context {N E : Type} {NG : Nghttp3 N} {NGS : Nghttp3Spec N NG}.
Context {QS : QuicStreams E} {QSS : QuicStreamsSpec E QS}.
Context {QC : QuicConns E} {QCS : QuicConnsSpec E QC} {AH : AprHash} {H : Httpd}.
Abbreviation loop := (@loop N E).

Lemma run_ok conf counts tr (l : loop) :
  conf_ready conf -> loop_run conf counts loop_start tr l -> loop_ok conf l.
Proof. intros Hc Hr. eapply loop_run_ok; [done|done|by apply loop_start_ok]. Qed.

(** C3 (invariant): at every point of the event thread's loop, every connection accepted
    so far is in exactly one place: in its handshake, owned by one session, or freed once;
    handshakes and sessions together never exceed [H3MaxConnections]; and
    [active_session_count] and the connections reported to the MPM are the number of
    sessions. *)
Theorem connections_accounted conf counts tr (l : loop) :
  conf_ready conf -> loop_run conf counts loop_start tr l ->
  let x := lp_io l in
  NoDup ((ph_conn <$> io_pending x) ++ omap sess_conn (io_active x) ++ io_freed x)
  /\ (forall c, c ∈ (ph_conn <$> io_pending x) ++ omap sess_conn (io_active x) ++ io_freed x
               <-> (c < io_next x)%positive)
  /\ Z.of_nat (length (io_pending x) + length (io_active x)) <= h3_max_connections conf
  /\ io_active_count x = Z.of_nat (length (io_active x))
  /\ io_notes x = Z.of_nat (length (io_active x)).
Proof.
  intros Hc Hr x. destruct (run_ok conf counts tr l Hc Hr) as ([[I1 I2 I3 I4 I5] Hw] & _).
  unfold owners, within in *. rewrite app_nil_r in I1, I2. split_and!; try done.
  - simpl in Hw. unfold x. lia.
  - unfold x. rewrite I3. apply wrap32_small. simpl in Hw. pose proof (rd_conns _ Hc) as Hm.
    unfold H3_MAX_CONNECTIONS_MAX, UINT32_MAX in *. lia.
Qed.

(** C14 (safety): wherever the event thread is in its loop, and as long as the pools of new
    streams can be created, what it does next does not fault: accepting, progressing the
    handshakes and the final clean-up return, no step of a session's turn faults in any
    interleaving with its workers (a callback uses a destroyed stream pool only for a stream
    that nghttp3 had asked to stop), and from each point of
    the turn the thread gets to its end on its own, without waiting for a worker, unless
    nghttp3 or the peer keeps one of the turn's loops going; and retiring a session that
    the turn destroyed frees its connection and no connection twice. *)
Theorem event_loop_safe conf counts tr (l : loop) :
  conf_ready conf -> loop_run conf counts loop_start tr l -> loop_no_fault conf counts l.
Proof. intros Hc Hr. apply loop_ok_no_fault; [done|by eapply run_ok]. Qed.

(** C24 (functional): when the event thread progresses the handshakes, it looks at each of
    them: those that are left were there before and are neither timed out nor closed nor
    complete; the others have become sessions or their connections have been freed. *)
Theorem handshakes_examined conf counts tr (l : loop) hc :
  conf_ready conf -> hc_ok hc -> loop_run conf counts loop_start tr l -> lp_pc l = L_handshakes ->
  exists x', progress_pending_handshakes conf hc (lp_io l) = Ret tt x'
    /\ loop_step conf counts l [] (Loop x' (L_pass 0) (lp_work l) (lp_failed l))
    /\ Forall (waiting conf hc) (io_pending x') /\ io_pending x' ⊆ io_pending (lp_io l)
    /\ forall p, p ∈ io_pending (lp_io l) -> ph_conn p ∈ (ph_conn <$> io_pending x') ++
         omap sess_conn (io_active x') ++ io_freed x'.
Proof.
  intros Hc Hhc Hr Hpc. pose proof (run_ok conf counts tr l Hc Hr) as Hl. pose proof (proj1 Hl) as Hx.
  destruct (handshakes_return conf (lp_io l) hc Hc Hhc Hx) as (x' & He & W2 & W3). exists x'.
  assert (Hst : loop_step conf counts l [] (Loop x' (L_pass 0) (lp_work l) (lp_failed l))).
  { destruct l as [x q w f]. simpl in Hpc. subst q. by eapply lp_handshakes. }
  split_and!; [done|done|done|done|]. intros p Hp.
  assert (Hlt : (ph_conn p < io_next (lp_io l))%positive).
  { destruct Hx as [[_ I2 _ _ _] _]. apply I2. unfold owners. apply elem_of_app. left.
    apply list_elem_of_fmap. by exists p. }
  destruct (loop_step_ok conf counts Hc _ _ _ Hst Hl) as ([[_ I2 _ _ _] _] & _). simpl in I2.
  unfold owners in I2. rewrite app_nil_r in I2. apply I2. by rewrite (proj1 (handshakes_keep _ _ _ _ He)).
Qed.

(** C15 (functional): a round of the loop waits for events exactly when the round before has
    left no work pending; it pumps the engine once, and if that fails it logs the first
    failure of a row and backs off; then every session that was active when the round began,
    and those that the round has spawned, get exactly one turn; and work is left
    pending exactly if the pump did some or one of the turns asks for another. *)
Theorem round_serves_all conf counts tr0 (l0 : loop) tr l :
  conf_ready conf -> loop_run conf counts loop_start tr0 l0 ->
  round_run conf counts l0 tr l -> lp_pc l = L_check ->
  exists r turns new,
    tr = round_head (lp_work l0) (lp_failed l0) r ++ (turn_event <$> turns)
    /\ fst <$> turns ≡ₚ omap sess_conn (io_active (lp_io l0)) ++ new /\ NoDup (fst <$> turns)
    /\ lp_work l = ((0 <? r) || existsb snd turns) /\ lp_failed l = (r <? 0).
Proof.
  intros Hc Hr Hround Hpc. pose proof (run_ok conf counts tr0 l0 Hc Hr) as Hl0.
  destruct (round_run_inv conf counts Hc l0 tr l Hround Hl0) as [_ Hi]. unfold round_inv in Hi.
  rewrite Hpc in Hi. destruct Hi as (r & turns & new & H1 & H2 & H3 & H4 & H5).
  exists r, turns, new. split_and!; try done. by rewrite H4.
Qed.

(** C23 (functional): when the event thread has ended, the listener was stopped, no session
    or handshake is left, and every connection it ever accepted has been freed, each once. *)
Theorem event_loop_frees_all conf counts tr (l : loop) :
  conf_ready conf -> loop_run conf counts loop_start tr l -> lp_pc l = L_done ->
  let x := lp_io l in
  io_running x = false /\ io_active x = [] /\ io_pending x = [] /\ NoDup (io_freed x)
  /\ forall c, c ∈ io_freed x <-> (c < io_next x)%positive.
Proof.
  intros Hc Hr Hpc x. destruct (run_ok conf counts tr l Hc Hr) as ([[I1 I2 _ _ _] _] & Hex & Hp).
  destruct (Hex (or_intror Hpc)) as [H1 H2]. specialize (Hp Hpc). unfold owners in *.
  rewrite Hp, H2 in I1, I2. simpl in I1, I2. rewrite app_nil_r in I1, I2. by split_and!.
Qed.

End Claims.

(** ** A run

    Two connections are accepted and their handshakes are complete; one becomes a session,
    which gets a turn, the other is freed.  The session's worker answers, the listener is
    stopped, the next turn destroys the session, and the thread ends. *)

Abbreviation toy_io := (@h3_io toy_ngh toy_ssl).
Abbreviation toy_loop := (@loop toy_ngh toy_ssl).
Abbreviation toy_system := (@system toy_ngh toy_ssl).
Abbreviation toy_loop_step := (loop_step toy_conf true).
Abbreviation toy_loop_run := (loop_run (N := toy_ngh) (E := toy_ssl) toy_conf true).

Definition toy_handshakes : @handshake_calls toy_ssl :=
  HandshakeCalls 5 (fun _ e => e)
    (fun c => SpawnCalls (c =? 1)%positive APR_SUCCESS ((true, true), (true, true), (true, true)) true).

Lemma toy_handshakes_ok : hc_ok toy_handshakes.
Proof. by intros c. Qed.

Definition ret_state {S A} (o : outcome S A) : option S := match o with Ret _ s => Some s | _ => None end.

Lemma ret_state_unit {S} (o : outcome S unit) s : ret_state o = Some s -> o = Ret tt s.
Proof. destruct o as [[] s'| |]; simpl; intros; by simplify_eq. Qed.

(** After the two accepts, and after the handshakes. *)
Definition run_io (x : toy_io) : option (toy_io * toy_io) :=
  a ← ret_state (accept_conn toy_conf 0 toy_env x);
  b ← ret_state (accept_conn toy_conf 1 toy_env a);
  c ← ret_state (progress_pending_handshakes toy_conf toy_handshakes b);
  Some (b, c).

(** The session as it is spawned, after its first turn, after its worker and after the turn
    that ends it. *)
Record turns := Turns { tn_spawned : toy_system; tn_first : toy_state; tn_worked : toy_state; tn_last : toy_state }.

Definition run_turns (n : nat) (c : toy_io) : option turns :=
  y ← io_active c !! 0%nat;
  let z1 := run_event n (start_turn true (y, Finished)) in
  let z2 := run_worker n z1 in
  Some (Turns y z1 z2 (run_event n (start_turn false z2))).

Definition after_turn (c : toy_io) (t : turns) : toy_io := set_io_active (<[0%nat := fst (tn_first t)]> (io_active c)) c.

Definition stopped (c : toy_io) (t : turns) : toy_io :=
  set_io_running false (set_io_active (<[0%nat := fst (tn_worked t)]> (io_active (after_turn c t))) (after_turn c t)).

(** The listener after the last turn and at the end. *)
Definition run_end (c : toy_io) (t : turns) : option (toy_io * toy_io) :=
  x ← ret_state (retire_session 0 1%positive (fst (tn_last t)) (stopped c t));
  x' ← ret_state (exit_event_thread x);
  Some (x, x').

Definition run_loop (n : nat) : option (toy_io * toy_io * turns * toy_io * toy_io) :=
  bc ← run_io io_start; t ← run_turns n (snd bc); xx ← run_end (snd bc) t;
  Some (fst bc, snd bc, t, fst xx, snd xx).

Definition check_loop (o : option (toy_io * toy_io * turns * toy_io * toy_io)) : bool :=
  match o with
  | Some (b, c, t, x, x') =>
      io_running b && io_running c && (length (io_active c) =? 1)%nat && (length (io_pending b) =? 2)%nat
      && bool_decide (sess_conn (tn_spawned t) = Some 1%positive)
      && bool_decide (sess_conn (fst (tn_worked t)) = Some 1%positive)
      && negb (running (snd (tn_first t))) && sy_alive (fst (tn_first t))
      && negb (running (snd (tn_last t))) && negb (sy_alive (fst (tn_last t)))
      && bool_decide (length (io_active x) = 0%nat) && negb (io_running x)
      && bool_decide (io_freed x' = [1%positive; 2%positive])
  | None => false
  end.

Lemma toy_loop_checked : check_loop (run_loop 50) = true.
Proof. vm_cast_no_check (eq_refl true). Qed.

(** *** The steps of the run *)

Lemma run_one conf counts (l : toy_loop) ev l' : loop_step conf counts l ev l' -> loop_run conf counts l ev l'.
Proof. intros Hs. apply (run_snoc conf counts l [] l ev l'); [constructor|done]. Qed.

Lemma run_app conf counts (l : toy_loop) tr l1 tr' l2 :
  loop_run conf counts l tr l1 -> loop_run conf counts l1 tr' l2 -> loop_run conf counts l (tr ++ tr') l2.
Proof.
  intros H1. induction 1 as [|l1 tr' l' ev l'' _ IH Hs]; [by rewrite app_nil_r|].
  rewrite app_assoc. by eapply run_snoc; [apply IH|].
Qed.

Lemma run_worker_event n x : snd (run_worker n x) = snd x.
Proof.
  revert x. induction n as [|k IH]; intros [y ev]; [done|]. cbn [run_worker fst snd].
  destruct (sy_workers y) as [|[p [|m]] [|]]; try done.
  destruct (on_sess m y) as [o y'| |]; [|done|done]. by rewrite IH.
Qed.

Lemma run_turns_facts n c t :
  run_turns n c = Some t -> running (snd (tn_first t)) = false -> running (snd (tn_last t)) = false ->
  io_active c !! 0%nat = Some (tn_spawned t)
  /\ one_turn toy_conf true (toy_pass true) (tn_spawned t) (fst (tn_first t))
  /\ workers_run (H := toy_httpd) toy_conf true (fst (tn_first t)) (fst (tn_worked t))
  /\ one_turn toy_conf true (toy_pass false) (fst (tn_worked t)) (fst (tn_last t)).
Proof.
  unfold run_turns. destruct (io_active c !! 0%nat) as [y|]; [|done]. intros [= <-]. simpl.
  intros Hf1%running_false Hf3%running_false. set (z1 := run_event n (start_turn true (y, Finished))) in *.
  pose proof (run_worker_event n z1) as Hf2. rewrite Hf1 in Hf2.
  assert (Hpair : forall z : toy_state, snd z = Finished -> (fst z, Finished) = z) by (intros [] ; simpl; by intros ->).
  split_and!; [done|..]; unfold one_turn, workers_run.
  - rewrite (Hpair z1 Hf1). apply run_event_steps.
  - rewrite (Hpair z1 Hf1), (Hpair _ Hf2). apply run_worker_steps.
  - rewrite (Hpair _ Hf3). apply run_event_steps.
Qed.

(** The first round, up to the handshakes and to the pass, and to its end. *)
Lemma first_round x b c t :
  run_io x = Some (b, c) -> io_running x = true -> length (io_active c) = 1%nat -> io_active c !! 0%nat = Some (tn_spawned t) ->
  sess_conn (tn_spawned t) = Some 1%positive ->
  one_turn toy_conf true (toy_pass true) (tn_spawned t) (fst (tn_first t)) -> sy_alive (fst (tn_first t)) = true ->
  io_running c = true ->
  round_run toy_conf true (Loop x L_check false false) [Ev_wait; Ev_pump 1] (Loop b L_handshakes true false)
  /\ toy_loop_step (Loop b L_handshakes true false) [] (Loop c (L_pass 0) true false)
  /\ round_run toy_conf true (Loop x L_check false false) [Ev_wait; Ev_pump 1; Ev_turn 1 (sy_work (fst (tn_first t)))]
       (Loop (after_turn c t) L_check true false).
Proof.
  intros Ho Hx Hlen Hy Hc Ht Ha Hrun. unfold run_io in Ho.
  apply bind_Some in Ho as (a & E1 & Ho). apply bind_Some in Ho as (b' & E2 & Ho).
  apply bind_Some in Ho as (c' & E3 & Ho). apply ret_state_unit in E1, E2, E3. injection Ho as -> ->.
  pose proof (lp_test toy_conf true x true false) as Ht0. rewrite Hx in Ht0.
  assert (H1 : round_run toy_conf true (Loop x L_check false false) [Ev_wait; Ev_pump 1] (Loop b L_handshakes true false)).
  { change [Ev_wait; Ev_pump 1] with (((((([] ++ [Ev_wait]) ++ [Ev_pump 1]) ++ []) ++ []) ++ []) ++ [] : list loop_event).
    eapply round_more; [| |by apply lp_no_conn]; [|done]. eapply round_more; [| |by eapply lp_accept]; [|done].
    eapply round_more; [| |by eapply lp_accept]; [|done].
    eapply round_more; [| |exact Ht0]; [|done].
    eapply round_more; [| |by apply (lp_pumped toy_conf true x false false 1)]; [|done].
    eapply round_more; [| |apply lp_waited]; [|done].
    apply round_enter; [done|apply (lp_enter toy_conf true x false false); by left|by left]. }
  assert (H2 : toy_loop_step (Loop b L_handshakes true false) [] (Loop c (L_pass 0) true false))
    by (by apply (lp_handshakes _ _ b true false toy_handshakes c toy_handshakes_ok)).
  split_and!; [done|done|].
  change [Ev_wait; Ev_pump 1; Ev_turn 1 (sy_work (fst (tn_first t)))]
    with ((([Ev_wait; Ev_pump 1] ++ []) ++ [Ev_turn 1%positive (sy_work (fst (tn_first t)))]) ++ []).
  eapply round_more; [| |apply (lp_pass_end toy_conf true (after_turn c t) true false 1)]; [|done|].
  - eapply round_more; [by eapply round_more|done|].
    by apply (lp_turn toy_conf true c true false 0 (tn_spawned t) 1%positive (toy_pass true)); try apply toy_pass_ok.
  - apply lookup_ge_None. simpl. rewrite length_insert. lia.
Qed.

(** The worker, the stop and the last round. *)
Lemma last_round c t x x' :
  length (io_active c) = 1%nat -> run_end c t = Some (x, x') ->
  workers_run (H := toy_httpd) toy_conf true (fst (tn_first t)) (fst (tn_worked t)) ->
  sess_conn (fst (tn_worked t)) = Some 1%positive ->
  one_turn toy_conf true (toy_pass false) (fst (tn_worked t)) (fst (tn_last t)) ->
  sy_alive (fst (tn_last t)) = false -> io_active x = [] -> io_running x = false ->
  exists tr w, toy_loop_run (Loop (after_turn c t) L_check true false) tr (Loop x' L_done w false).
Proof.
  intros Hlen Ho Hw Hc Ht Hd Hx Hr. unfold run_end in Ho. apply bind_Some in Ho as (x1 & E1 & Ho).
  apply bind_Some in Ho as (x2 & E2 & Ho). apply ret_state_unit in E1, E2. injection Ho as -> ->.
  destruct (io_active c) as [|y0 [|]] eqn:Ea; [done| |done].
  assert (Hst : io_active (stopped c t) = [fst (tn_worked t)]) by (simpl; by rewrite Ea).
  eexists _, _. eapply run_snoc; [|by apply lp_exit]. eapply run_snoc; [|by apply lp_leave].
  eapply run_snoc; [|eapply (lp_pass_end _ _ _ _ _ 0); by rewrite Hx].
  eapply run_snoc; [|eapply (lp_retire _ _ _ _ _ 0 _ 1%positive (toy_pass false)); try done; [by rewrite Hst|
    apply toy_pass_ok]].
  eapply run_snoc; [|eapply (lp_test toy_conf true (stopped c t))].
  eapply run_snoc; [|by eapply (lp_pumped toy_conf true _ _ _ 0)].
  eapply run_snoc; [|eapply (lp_enter toy_conf true _ true); right; by rewrite Hst].
  eapply run_snoc; [|apply lp_stop]. eapply run_snoc; [constructor|].
  eapply (lp_workers _ _ (after_turn c t) _ _ _ 0 (fst (tn_first t))); [|done]. simpl. by rewrite Ea.
Qed.

Lemma run_loop_inv n b c t x x' :
  run_loop n = Some (b, c, t, x, x') ->
  run_io io_start = Some (b, c) /\ run_turns n c = Some t /\ run_end c t = Some (x, x').
Proof.
  unfold run_loop. generalize (run_io io_start). intros o Ho.
  apply bind_Some in Ho as ([b' c'] & E1 & Ho). apply bind_Some in Ho as (t' & E2 & Ho).
  apply bind_Some in Ho as ([x1 x2] & E3 & Ho). simpl in *. by simplify_eq.
Qed.

(** The points of the run. *)
Definition loop_points b c t x : Prop :=
  length (io_active c) = 1%nat
  /\ round_run toy_conf true loop_start [Ev_wait; Ev_pump 1] (Loop b L_handshakes true false)
  /\ toy_loop_step (Loop b L_handshakes true false) [] (Loop c (L_pass 0) true false)
  /\ round_run toy_conf true loop_start [Ev_wait; Ev_pump 1; Ev_turn 1 (sy_work (fst (tn_first t)))]
       (Loop (after_turn c t) L_check true false)
  /\ (exists tr w, toy_loop_run (Loop (after_turn c t) L_check true false) tr (Loop x L_done w false))
  /\ io_freed x = [1%positive; 2%positive].

Lemma loop_points_of n b c t x x' :
  run_loop n = Some (b, c, t, x, x') -> check_loop (Some (b, c, t, x, x')) = true -> loop_points b c t x'.
Proof.
  intros (E1 & E2 & E3)%run_loop_inv Hk. cbn [check_loop] in Hk.
  rewrite !andb_true_iff, !negb_true_iff, !Nat.eqb_eq, !bool_decide_eq_true in Hk.
  destruct Hk as [[[[[[[[[[[[_ K2] K3] _] K5] K6] K7] K8] K9] K10] K11] K12] K13].
  destruct (run_turns_facts n c t E2 K7 K9) as (F1 & F2 & F3 & F4).
  destruct (first_round io_start b c t E1 eq_refl K3 F1 K5 F2 K8 K2) as (R1 & R2 & R3).
  split_and!; try assumption. apply (last_round c t x x'); try assumption. by apply nil_length_inv.
Qed.

Lemma toy_loop_points : exists b c t x, loop_points b c t x.
Proof.
  pose proof toy_loop_checked as Hk. pose proof (loop_points_of 50) as Hp. revert Hk Hp.
  generalize (run_loop 50). intros [[[[[b c] t] x] x']|] Hk Hp; [|done]. exists b, c, t, x'. by apply (Hp b c t x x').
Qed.

Lemma round_is_run conf counts (l : toy_loop) tr l' :
  round_run conf counts l tr l' -> loop_run conf counts l tr l'.
Proof. induction 1; [by apply run_one|by eapply run_snoc]. Qed.

Lemma connections_accounted_witness :
  exists b c t x, loop_points b c t x /\ io_active_count c = 1
    /\ NoDup ((ph_conn <$> io_pending b) ++ omap sess_conn (io_active b) ++ io_freed b).
Proof.
  destruct toy_loop_points as (b & c & t & x & Hp). exists b, c, t, x. split; [exact Hp|].
  destruct Hp as (Hl & H1%round_is_run & H2 & _). split.
  - destruct (connections_accounted toy_conf true _ _ toy_conf_ready (run_snoc _ _ _ _ _ _ _ H1 H2))
      as (_ & _ & _ & Hn & _). simpl in Hn. by rewrite Hn, Hl.
  - by destruct (connections_accounted toy_conf true _ _ toy_conf_ready H1) as (Hn & _).
Defined.

Lemma event_loop_safe_witness :
  exists b c t x, loop_points b c t x
    /\ loop_no_fault (H := toy_httpd) toy_conf true (Loop b L_handshakes true false)
    /\ loop_no_fault (H := toy_httpd) toy_conf true (Loop c (L_pass 0) true false).
Proof.
  destruct toy_loop_points as (b & c & t & x & Hp). exists b, c, t, x. split; [exact Hp|].
  destruct Hp as (_ & H1%round_is_run & H2 & _). split.
  - exact (event_loop_safe toy_conf true _ _ toy_conf_ready H1).
  - exact (event_loop_safe toy_conf true _ _ toy_conf_ready (run_snoc _ _ _ _ _ _ _ H1 H2)).
Defined.

Lemma handshakes_examined_witness :
  exists b c t x, loop_points b c t x /\ exists x',
    progress_pending_handshakes toy_conf toy_handshakes b = Ret tt x'
    /\ Forall (waiting toy_conf toy_handshakes) (io_pending x').
Proof.
  destruct toy_loop_points as (b & c & t & x & Hp). exists b, c, t, x. split; [exact Hp|].
  destruct Hp as (_ & H1%round_is_run & _).
  destruct (handshakes_examined toy_conf true _ _ toy_handshakes toy_conf_ready toy_handshakes_ok H1 eq_refl)
    as (x' & Hx & _ & Hw & _). by exists x'.
Defined.

Lemma round_serves_all_witness :
  exists b c t x, loop_points b c t x /\ exists r turns new,
    [Ev_wait; Ev_pump 1; Ev_turn 1 (sy_work (fst (tn_first t)))]
    = round_head false false r ++ (turn_event <$> turns) /\ fst <$> turns ≡ₚ new.
Proof.
  destruct toy_loop_points as (b & c & t & x & Hp). exists b, c, t, x. split; [exact Hp|].
  destruct Hp as (_ & _ & _ & H1 & _).
  destruct (round_serves_all toy_conf true [] loop_start _ _ toy_conf_ready (run_nil _ _ _) H1 eq_refl)
    as (r & turns & new & Htr & Hc & _). by exists r, turns, new.
Defined.

Lemma event_loop_frees_all_witness :
  exists b c t x, loop_points b c t x /\ io_pending x = [] /\ NoDup (io_freed x).
Proof.
  destruct toy_loop_points as (b & c & t & x & Hp). exists b, c, t, x. split; [exact Hp|].
  destruct Hp as (_ & _ & _ & H1%round_is_run & (tr & w & H2) & _).
  destruct (event_loop_frees_all toy_conf true _ _ toy_conf_ready (run_app _ _ _ _ _ _ _ H1 H2) eq_refl)
    as (_ & _ & Hpe & Hn & _). by split.
Defined.
