(* ===== verification/Shutdown.v ===== *)
(** * Ending a session (h3_io.c, h3_threads.c, h3_session.c)

    When the listener stops, a session is given [H3_GOAWAY_GRACE_SECS] to finish what is in
    flight; the first turn after that aborts it.  Once a session is aborted no worker waits
    for room in its response queue any more, so the workers come to their end whatever the
    order in which they run, and the next turn in which the connection has been shut down
    destroys the session. *)

From S2P Require Import Prelude Effects LinkedQueue RespQueue Config Body Quic Stream.
From S2P Require Import Session SessionInv SessionSafe Request Frame Toy Workers Service System Io EventLoop.

(** ** What only the goaway pass changes *)

Section Steady.
Context {N E : Type} {NG : Nghttp3 N} {QS : QuicStreams E} {QC : QuicConns E} {AH : AprHash} {H : Httpd}.
Context (conf : h3_server_conf) (io : bool).
Abbreviation session := (@h3_session N E).
Implicit Types (s : session).

(** The deadline stays, and an aborted session stays aborted. *)
Definition steady s s' : Prop :=
  ss_goaway_deadline s' = ss_goaway_deadline s /\ (ss_aborted s = true -> ss_aborted s' = true).

#[export] Instance steady_preorder : PreOrder steady.
Proof. split; [by split|]. intros s1 s2 s3 [A1 A2] [B1 B2]. split; [congruence|auto]. Qed.

Create HintDb steady.

Ltac solve_steady :=
  solve_preserves ltac:(solve [by split | by repeat case_match; split | eauto with steady])
    ltac:(solve [eauto with steady | match goal with IH : forall _, _ |- _ => apply IH end]).

Lemma steady_get p : preserves steady (get_stream p : M session h3_stream).
Proof. unfold get_stream. solve_steady. Qed.

Lemma steady_get_ngh : preserves steady (get_ngh : M session N).
Proof. unfold get_ngh. solve_steady. Qed.

Lemma steady_put_ngh n : preserves steady (put_ngh n : M session unit).
Proof. unfold put_ngh. solve_steady. Qed.

Lemma steady_use h : preserves steady (use h : M session unit).
Proof. unfold use. solve_steady. Qed.

Lemma steady_env {A} (g : E -> E * A) : preserves steady (on_env g : M session A).
Proof. intros s a s'. unfold on_env. destruct (g (ss_env s)). by intros [= _ <-]. Qed.

Lemma steady_create {A} (g : E -> handle -> E * option A) : preserves steady (q_create g : M session (option A)).
Proof. intros s a s'. unfold q_create. destruct (g (ss_env s) (ss_fresh s)). by intros [= _ <-]. Qed.

Lemma steady_queue_free s o p st : steady s (upd_stream p (fun _ => st) (h3_session_queue_free o s)).
Proof. by destruct o. Qed.

#[local] Hint Resolve steady_get steady_get_ngh steady_put_ngh steady_use steady_env steady_create
  steady_queue_free : steady.

Lemma steady_on_ngh (g : N -> N) : preserves steady (on_ngh g : M session unit).
Proof. unfold on_ngh. solve_steady. Qed.

#[local] Hint Resolve steady_on_ngh : steady.

#[local] Instance steady_frame : DrainFrame steady.
Proof. repeat (split; try apply _); done. Qed.

Lemma steady_call {R} (g : N -> prog N R) : preserves steady (call_ngh conf g : M session R).
Proof. apply frame_call, _. Qed.

#[local] Hint Resolve steady_call : steady.

Lemma steady_mark_dead z : preserves steady (mark_ngh3_dead z : M session unit).
Proof. unfold mark_ngh3_dead. solve_steady. Qed.

Lemma steady_free h : preserves steady (q_stream_free h : M session unit).
Proof. unfold q_stream_free. solve_steady. Qed.

Lemma steady_conn_free h : preserves steady (q_conn_free h : M session unit).
Proof. unfold q_conn_free. solve_steady. Qed.

#[local] Hint Resolve steady_mark_dead steady_free steady_conn_free : steady.

Lemma steady_free_pending : preserves steady (free_pending : M session unit).
Proof. unfold free_pending. solve_steady. Qed.

Lemma steady_unblock : preserves steady (unblock_writable_streams : M session unit).
Proof. unfold unblock_writable_streams, unblock_stream, q_is_write_blocked. solve_steady. Qed.

Lemma steady_flush_stream sid fin vecs : preserves steady (flush_stream conf io sid fin vecs : M session unit).
Proof. unfold flush_stream, h3_stream_find, add_offsets, q_write, count_written. solve_steady. Qed.

#[local] Hint Resolve steady_free_pending steady_unblock steady_flush_stream : steady.

Lemma steady_flush_loop fuel : preserves steady (flush_loop conf io fuel : M session unit).
Proof. induction fuel; cbn [flush_loop]; solve_steady. Qed.

#[local] Hint Resolve steady_flush_loop : steady.

Lemma steady_flush fuel : preserves steady (flush_nghttp3 conf io fuel : M session unit).
Proof. unfold flush_nghttp3. solve_steady. Qed.

Lemma steady_snapshot total it walk acc : preserves steady (take_snapshot total it walk acc : M session _).
Proof. apply frame_snapshot, _. Qed.

Lemma steady_drain_pass snap start off todo reads left read acc :
  preserves steady (drain_pass conf io snap start off todo reads left read acc : M session _).
Proof. apply frame_drain_pass, _. Qed.

Lemma steady_reclaim p : preserves steady (reclaim p : M session unit).
Proof. unfold reclaim. solve_steady. Qed.

#[local] Hint Resolve steady_flush steady_snapshot steady_drain_pass steady_reclaim : steady.

Lemma steady_drain : preserves steady (drain_ready_streams conf io : M session _).
Proof. unfold drain_ready_streams. solve_steady. Qed.

Lemma steady_destroy : preserves steady (h3_session_destroy : M session unit).
Proof. unfold h3_session_destroy, destroy_stream, get_live. solve_steady. Qed.

Lemma steady_track pool cond sid h : preserves steady (track_stream conf pool cond sid h : M session _).
Proof. unfold track_stream, h3_stream_find. solve_steady. Qed.

Lemma steady_conn : preserves steady (q_conn : M session handle).
Proof. unfold q_conn. solve_steady. Qed.

#[local] Hint Resolve steady_drain steady_destroy steady_track steady_conn : steady.

(** *** Workers

    A worker changes neither, waits only while the session is not aborted, and never loops
    for longer than its data. *)

Definition same_end s s' : Prop :=
  ss_goaway_deadline s' = ss_goaway_deadline s /\ ss_aborted s' = ss_aborted s.

#[export] Instance same_end_preorder : PreOrder same_end.
Proof. split; [by split|]. intros s1 s2 s3 [A1 A2] [B1 B2]. split; congruence. Qed.

Definition prompt (m : M session (option (thread session))) : Prop :=
  preserves same_end m /\ fuel_free m /\ forall s s', m s = Ret None s' -> ss_aborted s = false.

Lemma append_same p ok w data off :
  preserves same_end (append_round p ok w data off : M session _)
  /\ fuel_free (append_round p ok w data off : M session _).
Proof.
  unfold append_round, get_live, get_flags, on_ngh, get_ngh, put_ngh, get_stream.
  split; [preserves ltac:(by split)|fuel_free].
Qed.

Lemma op_same {A} (m : M session A) : worker_op m -> preserves same_end m /\ fuel_free m.
Proof.
  destruct 1; unfold serve_body, wake_event, set_stream_dispatched, dec_tasks, get_live, get_stream;
    (split; [preserves ltac:(by split)|by fuel_free]).
Qed.

Lemma submit_same p nva :
  preserves same_end (submit_locked p nva : M session _) /\ fuel_free (submit_locked p nva : M session _).
Proof.
  unfold submit_locked, get_live, get_flags, get_ngh, put_ngh, get_stream.
  split; [preserves ltac:(by split)|by fuel_free].
Qed.

Lemma complete_same p :
  preserves same_end (response_complete p : M session _) /\ fuel_free (response_complete p : M session _).
Proof.
  unfold response_complete, get_flags, on_ngh, get_ngh, put_ngh, get_stream, when.
  split; [preserves ltac:(by split)|by fuel_free].
Qed.

Lemma blocked_not_aborted fl ok q data off q' :
  response_append_locked fl ok q data off = Some (q', AppendBlocked) -> sf_aborted fl = false.
Proof.
  unfold response_append_locked. destruct (append_must_wait fl q) eqn:Ew; [|by repeat case_match].
  intros _. unfold append_must_wait in Ew. rewrite !andb_true_iff, !negb_true_iff in Ew. naive_solver.
Qed.

Lemma append_aborted s p ok w data off s' :
  append_round p ok w data off s = Ret None s' -> ss_aborted s = false.
Proof.
  unfold append_round. intros He. binv He st s1 H1.
  apply get_live_inv in H1 as ->.
  binv He fl s5 H5. injection H5 as <- <-. binv He r s6 H6.
  destruct (response_append_locked _ _ _ _ _) as [[q res]|] eqn:Er; [|done]. injection H6 as <- <-.
  binv He u s7 H7. destruct res as [|rv|n b].
  - by apply blocked_not_aborted in Er.
  - done.
  - destruct b; [|done]. by binv He v s8 H8.
Qed.

(** A step that does not wait is prompt. *)
Lemma prompt_step {A} (m : M session A) (k : A -> thread session) :
  preserves same_end m /\ fuel_free m -> prompt (a ← m; mret (Some (k a))).
Proof.
  intros [Hm Hf]. split_and!.
  - apply preserves_bind; [apply _|done|]. intros a. apply preserves_ret, _.
  - apply fuel_free_bind; [done|]. intros a. apply fuel_free_ret.
  - intros s s' He. by destruct (moves_some m k s s').
Qed.

Lemma prompt_worker wc p : all_steps prompt (stream_worker conf wc p (fun _ => Finished)).
Proof.
  apply worker_steps_all.
  - intros A m k Hm. by apply prompt_step, op_same.
  - intros p' nva k _. apply prompt_step, submit_same.
  - intros p' k _. apply prompt_step, complete_same.
  - intros p' ok w data off k _. destruct (append_same p' ok w data off) as [Hm Hf]. split_and!.
    + apply preserves_bind; [apply _|done|]. intros a. apply preserves_ret, _.
    + apply fuel_free_bind; [done|]. intros a. apply fuel_free_ret.
    + intros s s' He. binv He o s1 H1. destruct o; [done|]. by eapply append_aborted.
Qed.

(** *** The event thread after the goaway pass *)

Abbreviation system := (@system N E).

Definition steady_sys (y y' : system) : Prop := steady (sy_sess y) (sy_sess y').

#[export] Instance steady_sys_preorder : PreOrder steady_sys.
Proof. split; [by intros y|]. intros y1 y2 y3. unfold steady_sys. apply transitivity. Qed.

Lemma steady_on_sess {A} (m : M session A) : preserves steady m -> preserves steady_sys (on_sess m).
Proof. intros Hm y a y' (s & Hs & ->)%on_sess_inv. by eapply Hm. Qed.

Lemma steady_drain_flush fuel :
  preserves steady (r ← drain_ready_streams conf io; flush_nghttp3 conf io fuel ;; mret r : M session _).
Proof. solve_steady. Qed.

Lemma steady_reserve p : preserves steady (reserve_stream p : M session bool).
Proof. unfold reserve_stream. solve_steady. Qed.

Lemma steady_shutdown rapid : preserves steady (q_conn_shutdown rapid : M session bool).
Proof. unfold q_conn_shutdown. solve_steady. Qed.

Lemma steady_accept_round cond : preserves steady_sys (accept_round conf cond).
Proof.
  assert (Ha : preserves steady (q_accept_stream : M session (option handle))).
  { unfold q_accept_stream. solve_steady. }
  assert (Hs : forall h, preserves steady (accept_stream conf cond h : M session unit)).
  { intros h. unfold accept_stream, q_stream_id. solve_steady. }
  unfold accept_round. apply preserves_bind; [apply _|by apply steady_on_sess|]. intros [h|]; [|apply preserves_ret, _].
  repeat (apply preserves_bind; [apply _| |intros ?]); [by intros y a y' [= _ <-]|by apply steady_on_sess|].
  apply preserves_ret, _.
Qed.

Lemma steady_push ok p t : preserves steady_sys (apr_thread_pool_push ok p t : M system bool).
Proof. intros y b y'. unfold apr_thread_pool_push. destruct (_ && _); by intros [= _ <-]. Qed.

Lemma steady_destroy_session : preserves steady_sys (destroy_session : M system unit).
Proof.
  unfold destroy_session. apply preserves_bind; [apply _|apply steady_on_sess, steady_destroy|].
  intros _. by intros y a y' [= _ <-].
Qed.

#[local] Hint Resolve steady_drain_flush steady_reserve steady_shutdown : steady.

Lemma steady_notify fuel : preserves steady (notify_goaway conf io fuel : M session bool).
Proof. unfold notify_goaway. solve_steady. Qed.

Lemma steady_ngh_shutdown fuel : preserves steady (on_ngh ngh_shutdown ;; flush_nghttp3 conf io fuel : M session unit).
Proof. solve_steady. Qed.

Lemma steady_turn_op {A} (m : M system A) : turn_op conf io m -> preserves steady_sys m.
Proof.
  destruct 1; try (apply steady_on_sess; first [apply steady_notify|apply steady_ngh_shutdown|
    unfold set_stream_dispatched, inc_tasks, dec_tasks, q_conn_is_closed; solve_steady]);
    try (by intros y a y' [= _ <-]).
  - apply steady_accept_round.
  - apply steady_push.
  - apply steady_destroy_session.
Qed.

Lemma steady_rest pc ended : all_steps (preserves steady_sys) (turn_rest conf io pc ended turn_end).
Proof.
  apply turn_rest_steps. intros A m k Hm. apply preserves_bind; [apply _|by apply steady_turn_op|].
  intros a. apply preserves_ret, _.
Qed.

(** *** A deadline that is set stays *)

Definition kept (y y' : system) : Prop :=
  (ss_goaway_deadline (sy_sess y) <> 0 -> ss_goaway_deadline (sy_sess y') = ss_goaway_deadline (sy_sess y))
  /\ (ss_aborted (sy_sess y) = true -> ss_aborted (sy_sess y') = true).

#[export] Instance kept_preorder : PreOrder kept.
Proof.
  split; [by intros y|]. intros y1 y2 y3 [D1 A1] [D2 A2]. split; [|auto].
  intros Hd. rewrite D2; [by apply D1|by rewrite D1].
Qed.

Lemma steady_kept {A} (m : M system A) : preserves steady_sys m -> preserves kept m.
Proof. intros Hm y a y' Hy. destruct (Hm _ _ _ Hy) as [Hd Ha]. by split. Qed.

Lemma kept_deadline now : preserves kept (on_sess (set_deadline now)).
Proof.
  intros y a y' (s & Hs & ->)%on_sess_inv. injection Hs as _ <-. unfold kept. simpl.
  destruct (Z.eqb_spec (ss_goaway_deadline (sy_sess y)) 0) as [->|]; by split.
Qed.

Lemma kept_turn pc : all_steps (preserves kept) (session_turn conf io pc turn_end).
Proof.
  apply turn_preserves; [apply _| |apply kept_deadline]. intros A m Hm. by apply steady_kept, steady_turn_op.
Qed.

End Steady.

(** ** The workers of an aborted session *)

Section Ending.
Context {N E : Type} {NG : Nghttp3 N} {NGS : Nghttp3Spec N NG}.
Context {QS : QuicStreams E} {QSS : QuicStreamsSpec E QS}.
Context {QC : QuicConns E} {QCS : QuicConnsSpec E QC} {AH : AprHash} {H : Httpd}.
Context (conf : h3_server_conf) (io : bool).
Abbreviation session := (@h3_session N E).
Abbreviation system := (@system N E).
Implicit Types (y : system).

(** A worker takes a step. *)
Definition worker_step y y' : Prop := exists l, sys_lstep conf io (fun _ => False) (Some l) (y, Finished) (y', Finished).

(** The tasks are prompt ones and the session is aborted. *)
Definition ending y : Prop := tasks_all prompt y /\ ss_aborted (sy_sess y) = true.

Definition threads_of y : list (thread session) := snd <$> sy_workers y.

(** In an aborted session each step of a worker brings it nearer its end. *)
Lemma ending_step y y' :
  worker_step y y' -> ending y -> ending y' /\ next_of (threads_of y') (threads_of y)
    /\ steady (sy_sess y) (sy_sess y').
Proof.
  intros [l Hs] [Ht Ha]. inversion Hs as [| |y0 ev w1 p m w2 o y1 Hl Hm]; subst.
  unfold tasks_all in Ht. rewrite Hl in Ht. apply Forall_app in Ht as [Ht1 Ht2].
  apply Forall_cons in Ht2 as [Hp Ht2]. simpl in Hp. inversion Hp as [|m' (P1 & P2 & P3) Hnext]; subst.
  unfold on_sess in Hm. destruct (sy_alive y); [|done].
  destruct (m (sy_sess y)) as [o' s'| |] eqn:Em; try done. injection Hm as -> <-.
  destruct (P1 _ _ _ Em) as [Hd Hab]. destruct o as [t|]; [|by rewrite (P3 _ _ Em) in Ha].
  split_and!.
  - split; [|simpl; congruence]. apply Forall_app. split; [done|]. apply Forall_cons. split; [|done]. by eapply Hnext.
  - unfold threads_of. simpl. rewrite Hl, !fmap_app. simpl.
    exists (snd <$> w1), (Atomic m), t, (snd <$> w2). split_and!; [done|done|]. by exists m, (sy_sess y), s'.
  - split; [done|]. simpl. congruence.
Qed.

(** *** The event thread beside them

    A turn on an aborted session starts no task. *)

Definition same_tasks y y' : Prop :=
  sy_workers y' = sy_workers y /\ (ss_aborted (sy_sess y) = true -> ss_aborted (sy_sess y') = true).

#[local] Instance same_tasks_preorder : PreOrder same_tasks.
Proof. split; [by intros y|]. intros y1 y2 y3 [A1 A2] [B1 B2]. split; [congruence|auto]. Qed.

Lemma same_tasks_sess {A} (m : M session A) : preserves steady m -> preserves same_tasks (on_sess m).
Proof. intros Hm y a y' (s & Hs & ->)%on_sess_inv. split; [done|]. by apply (Hm _ _ _ Hs). Qed.

Lemma same_tasks_step {A} (m : M system A) (k : A -> thread system) :
  preserves same_tasks m -> preserves same_tasks (a ← m; mret (Some (k a))).
Proof. intros Hm. apply preserves_bind; [apply _|done|]. intros a. apply preserves_ret, _. Qed.

Lemma same_tasks_destroy : preserves same_tasks (destroy_session : M system unit).
Proof.
  unfold destroy_session. apply preserves_bind; [apply _|apply same_tasks_sess, steady_destroy|].
  intros _. by intros y a y' [= _ <-].
Qed.

Lemma rest_same_tasks pc : all_steps (preserves same_tasks) (turn_rest conf io pc true turn_end).
Proof.
  assert (He : forall r, all_steps (preserves same_tasks) (turn_end r : thread system)).
  { intros r. apply all_step; [apply same_tasks_step; by intros y a y' [= _ <-]|]. intros y t y' [= <- _]. constructor. }
  assert (Hr : each (preserves same_tasks) (turn_rest conf io pc true)); [|apply Hr, He].
  unfold turn_rest, locked. cbn match.
  solve_each ltac:(apply same_tasks_step; first [apply same_tasks_destroy | apply same_tasks_sess, steady_shutdown
                  | apply same_tasks_sess; by intros ? ? ? [= _ <-]]).
Qed.

(** The event thread is at the start of a turn, in the rest of one, or between two. *)
Definition closing (x : system * thread system) : Prop :=
  ending (fst x)
  /\ ((exists pc, snd x = session_turn conf io pc turn_end) \/ all_steps (preserves same_tasks) (snd x)).

Lemma closing_event x x' :
  sys_lstep conf io pc_ok None x x' -> closing x -> closing x' /\ sy_workers (fst x') = sy_workers (fst x).
Proof.
  intros Hs [[Ht Ha] He]. inversion Hs as [y pc Hal Hpc|y m o y' Hm|]; subst; simpl in *.
  - split; [|done]. split; [done|]. left. by exists pc.
  - destruct He as [[pc Epc]|He].
    + unfold session_turn, service_session_pass in Epc. injection Epc as ->.
      binv Hm a y1 Hm1. injection Hm as <- <-. apply on_sess_inv in Hm1 as (s & [= <- <-] & ->).
      destruct y as [ys yw yal yp yk]. simpl in *. rewrite Ha. split; [|done]. split; [done|]. right. apply (rest_same_tasks pc).
    + inversion He as [|m' H1 H2]; subst. destruct (H1 _ _ _ Hm) as [Hw Hab]. split; [|done].
      split; [|right; destruct o; [by eapply H2|done]]. split; [|by apply Hab]. unfold tasks_all. simpl. by rewrite Hw.
Qed.

Lemma closing_events x x' :
  rtc (sys_lstep conf io pc_ok None) x x' -> closing x -> closing x' /\ sy_workers (fst x') = sy_workers (fst x).
Proof.
  induction 1 as [|x1 x2 x3 Hs _ IH]; intros Hx; [done|]. destruct (closing_event _ _ Hs Hx) as [H2 E2].
  destruct (IH H2) as [H3 E3]. split; [done|congruence].
Qed.

(** A step of a worker, after any number of steps of the event thread. *)
Definition worked (x x' : system * thread system) : Prop :=
  exists x1 l, rtc (sys_lstep conf io pc_ok None) x x1 /\ sys_lstep conf io pc_ok (Some l) x1 x'.

Lemma closing_worked x x' :
  worked x x' -> closing x -> closing x' /\ next_of (threads_of (fst x')) (threads_of (fst x)).
Proof.
  intros (x1 & l & Hr & Hs) Hx. destruct (closing_events _ _ Hr Hx) as [[H1 He] E1].
  inversion Hs as [| |y ev w1 p m w2 o y' Hl Hm]; subst. simpl in *.
  destruct (ending_step y (set_sy_workers (w1 ++ (p, default (Atomic m) o) :: w2) y')) as (H2 & Hn & _); [|done|].
  { eexists. by apply (step_worker _ _ _ y Finished w1 p m w2 o y'). }
  split; [by split|]. unfold threads_of in *. by rewrite E1 in Hn.
Qed.

(** So the workers take finitely many steps. *)
Lemma closing_acc x : closing x -> Acc (flip worked) x.
Proof.
  intros Hx. assert (Hl : Acc next_of (threads_of (fst x))).
  { apply next_of_acc, Forall_fmap. eapply Forall_impl; [apply Hx|]. intros w Hw. exact (all_steps_acc prompt (snd w) Hw). }
  remember (threads_of (fst x)) as l eqn:El. revert x El Hx. induction Hl as [l _ IH]. intros x -> Hx.
  constructor. intros x' Hs. destruct (closing_worked x x' Hs Hx) as [Hx' Hn]. by eapply IH.
Qed.

(** A worker that has not finished can take a step. *)
Lemma ending_progress y ev p m :
  no_fault (y, ev) -> ending y -> (p, Atomic m) ∈ sy_workers y -> exists y', worker_step y y'.
Proof.
  intros [Hf _] [Ht _] Hin. specialize (Hf p m Hin). simpl in Hf.
  pose proof (proj1 (Forall_forall _ _) Ht _ Hin) as Hp. simpl in Hp. inversion Hp as [|m' (P1 & P2 & _) _]; subst.
  apply list_elem_of_split in Hin as (w1 & w2 & Hw).
  destruct (on_sess m y) as [o y'| |y'] eqn:Em; [|done|].
  - eexists _, (length w1). by apply (step_worker _ _ _ y Finished w1 p m w2 o y').
  - unfold on_sess in Em. destruct (sy_alive y); [|done].
    destruct (m (sy_sess y)) eqn:E1; try done. by destruct (P2 (sy_sess y) s).
Qed.

(** *** Turns, step by step *)

(** A step of the event thread, or of a worker beside it. *)
Lemma turn_step_inv y t y2 t2 :
  sys_step conf io (fun _ => False) (y, t) (y2, t2) ->
  (exists m o, t = Atomic m /\ m y = Ret o y2 /\ t2 = default t o) \/ (t2 = t /\ worker_step y y2).
Proof.
  intros [l Hs]. inversion Hs as [? ? _ []|y0 m o y1 Hm|y0 ev w1 p m w2 o y1 Hl Hm]; subst.
  - left. by exists m, o.
  - right. split; [done|]. eexists. by apply (step_worker _ _ _ y Finished w1 p m w2 o y1).
Qed.

(** A turn's next step, after the workers have run for a while. *)
Lemma atomic_inv {A} (m : M system A) k y y' :
  rtc (sys_step conf io (fun _ => False)) (y, atomic m k) (y', Finished) ->
  exists y1 a y2, rtc worker_step y y1 /\ m y1 = Ret a y2
    /\ rtc (sys_step conf io (fun _ => False)) (y2, k a) (y', Finished).
Proof.
  intros Hr. remember (y, atomic m k) as x eqn:Ex. remember (y', Finished) as x' eqn:Ex'. revert y Ex.
  induction Hr as [x|x1 [y2 t2] x3 Hs Hr IH]; intros y ->; [done|].
  apply turn_step_inv in Hs as [(m0 & o & [= <-] & Hm & ->)|[-> Hw]].
  - binv Hm a y1 Hm1. injection Hm as <- <-. subst x3. by exists y, a, y1.
  - destruct (IH Ex' _ eq_refl) as (y1 & a & y3 & Hw1 & Ha & Hk). exists y1, a, y3.
    split_and!; [by eapply rtc_l|done|done].
Qed.

Lemma atomic_run {A} (m : M system A) k y a y1 z :
  m y = Ret a y1 -> rtc (event_step conf io) (y1, k a) z -> rtc (event_step conf io) (y, atomic m k) z.
Proof.
  intros Hm Hr. eapply rtc_l; [|exact Hr]. apply (step_event _ _ _ y _ (Some (k a)) y1).
  unfold mbind, M_bind. by rewrite Hm.
Qed.

(** Nothing runs beside the event thread. *)
Definition idle_tasks y : Prop := forall p t, (p, t) ∈ sy_workers y -> t = Finished.

Lemma idle_no_step y y' : idle_tasks y -> ~ worker_step y y'.
Proof.
  intros Hi [l Hs]. inversion Hs as [| |y0 ev w1 p m w2 o y1 Hl Hm]; subst.
  specialize (Hi p (Atomic m)). rewrite Hl in Hi. by discriminate Hi; set_solver.
Qed.

Lemma idle_steps y y' : idle_tasks y -> rtc worker_step y y' -> y' = y.
Proof. intros Hi Hr. inversion Hr as [|? y1 ? Hs]; [done|]. by destruct (idle_no_step y y1 Hi). Qed.

(** The connection has been shut down when the code asks for it. *)
Definition shutdown_done (rapid : bool) (s : session) : Prop := exists s', q_conn_shutdown rapid s = Ret true s'.

Lemma on_sess_ret {A} (m : M session A) y a s :
  sy_alive y = true -> m (sy_sess y) = Ret a s -> on_sess m y = Ret a (set_sy_sess s y).
Proof. intros Ha Hm. unfold on_sess. by rewrite Ha, Hm. Qed.

Lemma conn_shutdown_same rapid (s : session) b s' :
  q_conn_shutdown rapid s = Ret b s' -> exists e, s' = set_ss_env e s.
Proof.
  unfold q_conn_shutdown. intros He. binv He c s1 H1. apply q_conn_inv in H1 as ->.
  binv He d s2 H2. injection H2 as <- <-. binv He c1 s3 H3. injection H3 as <- <-.
  binv He r s4 H4. injection H4 as <- <-. unfold on_env in He. destruct (qc_shutdown _ _ _ _ _) as [e x].
  injection He as _ <-. by exists e.
Qed.

(** *** The last turn *)

Section Last.
Context (Hready : conf_ready conf) (conn : handle).

(** Between turns of a session that is alive. *)
Definition resting y : Prop := exists quiet, live_inv conf conn None 0 quiet y.

Lemma resting_idle y : resting y -> idle_tasks y -> ss_active_tasks (sy_sess y) = 0.
Proof.
  intros [quiet [_ _ _ _ _ Ht _ _]] Hi. rewrite Ht.
  assert (unfinished (sy_workers y) = O) as ->; [|done]. unfold unfinished. apply length_zero_iff_nil.
  assert (Hall : Forall (fun w => running (snd w) <> true) (sy_workers y)).
  { apply Forall_forall. intros [p t] Hin. by rewrite (Hi p t Hin). }
  clear Ht. induction Hall as [|w l Hw _ IH]; [done|]. rewrite filter_cons_False; [exact IH|exact Hw].
Qed.

(** The session after the connection was shut down can be destroyed. *)
Lemma destroy_returns y e :
  resting y -> exists s', h3_session_destroy (set_ss_env e (sy_sess y)) = Ret tt s'.
Proof.
  intros [quiet [_ Hs Hc _ _ _ _ _]]. destruct (ready_conf _ Hready) as (H1 & H2 & _).
  assert (Hcl : closed_inv conf (set_ss_env e (sy_sess y))).
  { destruct (sess_closed conf _ Hs) as [Hco Ha]. split; [by eapply core_ext|done]. }
  pose proof (wp_session_destroy conf H1 H2 (set_ss_env e (sy_sess y)) conn Hcl Hc) as W. unfold wp in W.
  destruct (h3_session_destroy (set_ss_env e (sy_sess y))) as [[] s'| |s'] eqn:Ed; [by exists s'|done|].
  by destruct (destroy_fuel_free (set_ss_env e (sy_sess y)) s').
Qed.

Lemma system_eta y s : s = sy_sess y -> set_sy_sess s y = y.
Proof. intros ->. by destruct y. Qed.

(** The turn that ends an aborted session whose workers have finished. *)
Lemma last_turn_runs y pc :
  resting y -> idle_tasks y -> ss_aborted (sy_sess y) = true ->
  shutdown_done (negb (pc_running1 pc)) (sy_sess y) ->
  exists y', rtc (event_step conf io) (y, session_turn conf io pc turn_end) (y', Finished).
Proof.
  intros Hy Hi Ha [s1 Hd]. pose proof Hy as [quiet [Hal _ _ _ _ _ _ _]].
  destruct (conn_shutdown_same _ _ _ _ Hd) as [e ->]. destruct (destroy_returns y e Hy) as [s2 Hds].
  set (y1 := set_sy_sess (set_ss_env e (sy_sess y)) y).
  assert (Hab : on_sess (gets ss_aborted) y = Ret true y).
  { rewrite (on_sess_ret _ y true (sy_sess y) Hal); [by rewrite system_eta|]. unfold gets. by rewrite Ha. }
  eexists. unfold session_turn, service_session_pass, locked.
  eapply atomic_run; [exact Hab|]. cbn [negb]. eapply atomic_run; [exact Hab|]. cbn [negb].
  eapply atomic_run; [apply on_sess_ret; [done|exact Hd]|].
  eapply (atomic_run _ _ y1 0 y1).
  { rewrite (on_sess_ret _ y1 0 (sy_sess y1)); [by rewrite system_eta|done|].
    unfold gets. simpl. by rewrite (resting_idle y Hy Hi). }
  cbn [andb Z.eqb]. eapply (atomic_run destroy_session _ y1 tt).
  { unfold destroy_session, mbind, M_bind. by rewrite (on_sess_ret _ y1 tt s2 Hal Hds). }
  eapply rtc_once. by apply (step_event _ _ _ _ _ (Some Finished)).
Qed.

(** However it runs, the session is gone after it. *)
Lemma last_turn_destroys y pc y' :
  resting y -> idle_tasks y -> ss_aborted (sy_sess y) = true ->
  shutdown_done (negb (pc_running1 pc)) (sy_sess y) -> one_turn conf io pc y y' -> sy_alive y' = false.
Proof.
  intros Hy Hi Ha [s1 Hd] Hr. unfold one_turn, session_turn, service_session_pass, locked in Hr.
  assert (Hstep : forall A (m : M session A) k,
    rtc (sys_step conf io (fun _ => False)) (y, atomic (on_sess m) k) (y', Finished) ->
    exists a s, m (sy_sess y) = Ret a s /\ rtc (sys_step conf io (fun _ => False)) (set_sy_sess s y, k a) (y', Finished)).
  { intros A m k (y1 & a & y2 & Hw & Hm & Hk)%atomic_inv. apply (idle_steps y y1 Hi) in Hw as ->.
    apply on_sess_inv in Hm as (s & Hm & ->). by exists a, s. }
  apply Hstep in Hr as (a & s & [= <- <-] & Hr). rewrite system_eta, Ha in Hr by done. cbn [negb] in Hr.
  apply Hstep in Hr as (a & s & [= <- <-] & Hr). rewrite system_eta, Ha in Hr by done. cbn [negb] in Hr.
  apply Hstep in Hr as (a & s & Hm & Hr). rewrite Hd in Hm. injection Hm as <- <-.
  destruct (conn_shutdown_same _ _ _ _ Hd) as [e ->].
  set (y1 := set_sy_sess (set_ss_env e (sy_sess y)) y) in Hr. assert (Hi1 : idle_tasks y1) by done.
  apply atomic_inv in Hr as (y2 & n & y3 & Hw & Hm & Hr). apply (idle_steps _ _ Hi1) in Hw as ->.
  apply on_sess_inv in Hm as (s2 & [= <- <-] & ->). rewrite system_eta in Hr by done.
  simpl in Hr. rewrite (resting_idle y Hy Hi) in Hr. cbn [andb Z.eqb] in Hr.
  apply atomic_inv in Hr as (y2 & n & y3 & Hw & Hm & Hr). apply (idle_steps _ _ Hi1) in Hw as ->.
  unfold destroy_session in Hm. binv Hm u y4 Hm1. injection Hm as _ <-.
  apply on_sess_inv in Hm1 as (s3 & _ & ->).
  apply (atomic_inv (modify (set_sy_work false)) (fun _ => Finished)) in Hr as (y5 & v & y6 & Hw & [= _ <-] & Hr).
  apply idle_steps in Hw as ->; [|done]. inversion Hr as [|? z ? [l Hs] _]; [done|].
  inversion Hs as [y0 pc0 _ []| |? ? w1 p m w2 o yy Hl _]; subst. specialize (Hi p (Atomic m)). simpl in Hl.
  rewrite Hl in Hi. by discriminate Hi; set_solver.
Qed.

End Last.

(** *** The grace period *)

Lemma worker_same y y' : worker_step y y' -> tasks_all prompt y -> tasks_all prompt y' /\ same_end (sy_sess y) (sy_sess y').
Proof.
  intros [l Hs] Ht.
  assert (Hk : task_state prompt (y', @Finished system)).
  { eapply (task_state_step conf io _ (prompt_worker conf)); [by exists (Some l)|]. split; [constructor|done]. }
  split; [apply Hk|]. inversion Hs as [| |y0 ev w1 p m w2 o y1 Hl Hm]; subst.
  unfold tasks_all in Ht. rewrite Hl in Ht. apply Forall_app in Ht as [_ Ht].
  apply Forall_cons in Ht as [Hp _]. simpl in Hp. inversion Hp as [|m' (P1 & _) _]; subst.
  apply on_sess_inv in Hm as (s & Hm & ->). by eapply P1.
Qed.

Lemma workers_same y y' :
  rtc worker_step y y' -> tasks_all prompt y -> tasks_all prompt y' /\ same_end (sy_sess y) (sy_sess y').
Proof.
  induction 1 as [|y1 y2 y3 Hs _ IH]; intros Ht; [done|]. destruct (worker_same _ _ Hs Ht) as [H2 S2].
  destruct (IH H2) as [H3 S3]. split; [done|by etrans].
Qed.

(** A step of the turn under the lock, after some of the workers. *)
Lemma locked_inv {A} (m : M session A) k y y' :
  rtc (sys_step conf io (fun _ => False)) (y, locked m k) (y', Finished) -> task_state prompt (y, locked m k) ->
  exists s1 a y2, same_end (sy_sess y) s1 /\ m s1 = Ret a (sy_sess y2) /\ task_state prompt (y2, k a)
    /\ rtc (sys_step conf io (fun _ => False)) (y2, k a) (y', Finished).
Proof.
  intros Hr [He Ht]. apply atomic_inv in Hr as (y1 & a & y2 & Hw & Hm & Hr).
  destruct (workers_same _ _ Hw Ht) as [Ht1 Hs].
  assert (Hk : task_state prompt (y2, k a)).
  { eapply (task_state_step conf io _ (prompt_worker conf) (fun _ => False) (y1, locked m k)); [|by split].
    exists None. apply (step_event _ _ _ y1 _ (Some (k a)) y2). unfold mbind, M_bind. by rewrite Hm. }
  apply on_sess_inv in Hm as (s & Hm & ->). by exists (sy_sess y1), a, (set_sy_sess s y1).
Qed.

(** The rest of a turn keeps the deadline and an abort. *)
Lemma rest_steady t y y' :
  rtc (sys_step conf io (fun _ => False)) (y, t) (y', Finished) -> task_state prompt (y, t) ->
  all_steps (preserves steady_sys) t -> steady_sys y y'.
Proof.
  intros Hr. remember (y, t) as x eqn:Ex. remember (y', Finished) as x' eqn:Ex'. revert y t Ex.
  induction Hr as [x|x1 [y2 t2] x3 Hst Hr IH]; intros y t -> Hk Ha; [by injection Ex' as <- _|].
  pose proof (task_state_step conf io _ (prompt_worker conf) _ _ _ Hst Hk) as Hk2.
  apply turn_step_inv in Hst as [(m & o & -> & Hm & ->)|[-> Hw]].
  - inversion Ha as [|m' H1 H2]; subst. transitivity y2; [by eapply H1|]. eapply IH; [done|done|done|].
    destruct o as [t|]; [by eapply H2|done].
  - transitivity y2; [|by eapply IH]. destruct (worker_same y y2 Hw) as [_ [S1 S2]]; [apply Hk|].
    split; [done|congruence].
Qed.

(** A turn while the listener stops. *)
Lemma goaway_turn y pc y' :
  task_state prompt (y, @Finished system) -> pc_running pc = false -> ss_aborted (sy_sess y) = false ->
  one_turn conf io pc y y' ->
  let d := ss_goaway_deadline (sy_sess y) in
  let d' := if d =? 0 then pc_now0 pc + apr_time_from_sec H3_GOAWAY_GRACE_SECS else d in
  ss_goaway_deadline (sy_sess y') = d' /\ (d' <= pc_now1 pc -> ss_aborted (sy_sess y') = true).
Proof.
  intros [_ Ht] Hrun Hab Hr d d'. unfold one_turn in Hr.
  assert (Hk : task_state prompt (y, session_turn conf io pc turn_end)).
  { split; [apply (turn_keeps_tasks conf io _ (prompt_worker conf))|done]. }
  unfold session_turn, service_session_pass in Hr, Hk.
  apply locked_inv in Hr as (s1 & a & y1 & [D1 A1] & Hm & Hk1 & Hr); [|exact Hk].
  injection Hm as <- Hy1. rewrite A1, Hab, Hrun in Hr, Hk1. cbn [negb] in Hr, Hk1. unfold goaway_pass in Hr, Hk1.
  apply locked_inv in Hr as (s2 & drained & y2 & [D2 _] & Hm & Hk2 & Hr); [|exact Hk1].
  apply steady_notify in Hm as [Dn _].
  apply locked_inv in Hr as (s3 & u & y3 & [D3 _] & Hset & Hk3 & Hr); [|exact Hk2].
  apply locked_inv in Hr as (s4 & d4 & y4 & [D4 _] & Hget & Hk4 & Hr); [|exact Hk3].
  injection Hget as <- Hy4.
  assert (Hd : ss_goaway_deadline s4 = d').
  { rewrite D4. injection Hset as _ <-. unfold d'. assert (ss_goaway_deadline s3 = d) as E3 by (unfold d; congruence).
    rewrite E3. destruct (d =? 0); [done|by rewrite E3]. }
  assert (Hrest : forall b yb, task_state prompt (yb, turn_rest conf io pc b turn_end) ->
    rtc (sys_step conf io (fun _ => False)) (yb, turn_rest conf io pc b turn_end) (y', Finished) -> steady_sys yb y').
  { intros b yb Hkb Hrb. eapply rest_steady; [exact Hrb|exact Hkb|apply steady_rest]. }
  rewrite Hd in Hr, Hk4. destruct (drained || (d' <=? pc_now1 pc)) eqn:Eb.
  - apply locked_inv in Hr as (s5 & v & y5 & [D5 _] & Hm & Hk5 & Hr); [|exact Hk4].
    apply steady_ngh_shutdown in Hm as [D6 _].
    apply locked_inv in Hr as (s6 & w & y6 & [D7 _] & Hm & Hk6 & Hr); [|exact Hk5].
    injection Hm as _ Hy6. destruct (Hrest true y6 Hk6 Hr) as [D8 A8]. rewrite <- Hy6 in D8, A8. simpl in D8, A8.
    split; [|auto]. congruence.
  - destruct (Hrest false y4 Hk4 Hr) as [D8 A8]. split; [congruence|]. intros Hle.
    apply orb_false_iff in Eb as [_ Eb]. lia.
Qed.

Lemma kept_step P x x' :
  sys_step conf io P x x' -> task_state prompt x -> all_steps (preserves kept) (snd x) ->
  all_steps (preserves kept) (snd x') /\ kept (fst x) (fst x').
Proof.
  intros [l Hs] [_ Ht] Ha. destruct Hs as [y pc _ _|y m o y' Hm|y ev w1 p m w2 o y' Hl Hm]; simpl in *.
  - split; [apply kept_turn|reflexivity].
  - inversion Ha as [|m' H1 H2]; subst. split; [destruct o as [t|]; [by eapply H2|done]|by eapply H1].
  - split; [done|]. destruct (worker_same y (set_sy_workers (w1 ++ (p, default (Atomic m) o) :: w2) y'))
      as [_ [D A]]; [|done|split; [done|congruence]].
    eexists. by apply (step_worker _ _ _ y Finished w1 p m w2 o y').
Qed.

Lemma kept_steps P x x' :
  rtc (sys_step conf io P) x x' -> task_state prompt x -> all_steps (preserves kept) (snd x) -> kept (fst x) (fst x').
Proof.
  induction 1 as [|x1 x2 x3 Hs _ IH]; intros Ht Ha; [reflexivity|].
  pose proof (task_state_step conf io _ (prompt_worker conf) P _ _ Hs Ht) as Ht2.
  destruct (kept_step P _ _ Hs Ht Ha) as [Ha2 K]. etrans; [exact K|by apply IH].
Qed.

Lemma reach_tasks P (s : session) x : rtc (sys_step conf io P) (sys_start s) x -> task_state prompt x.
Proof.
  intros Hr. apply (task_state_steps conf io _ (prompt_worker conf) P _ _ Hr), task_state_start.
Qed.

(** C12 (bounds): the first turn after the listener has stopped sets the session's deadline
    [H3_GOAWAY_GRACE_SECS] ahead, nothing that happens later moves it, and from the
    deadline on the first turn that still finds the listener stopped leaves the session
    aborted, whatever the workers, the peer and the turns between have done. *)
Theorem grace_period_bounds P (s : session) y1 pc1 y1' y2 pc2 y2' :
  rtc (sys_step conf io P) (sys_start s) (y1, Finished) ->
  ss_aborted (sy_sess y1) = false -> ss_goaway_deadline (sy_sess y1) = 0 ->
  pc_running pc1 = false -> 0 < pc_now0 pc1 -> one_turn conf io pc1 y1 y1' ->
  rtc (sys_step conf io P) (y1', Finished) (y2, Finished) ->
  pc_running pc2 = false -> one_turn conf io pc2 y2 y2' ->
  let deadline := pc_now0 pc1 + apr_time_from_sec H3_GOAWAY_GRACE_SECS in
  ss_goaway_deadline (sy_sess y2') = deadline
  /\ (deadline <= pc_now1 pc2 -> ss_aborted (sy_sess y2') = true).
Proof.
  intros Hr Ha Hd Hr1 Hpos Ht1 Hr2 Hrun2 Ht2 deadline. apply reach_tasks in Hr as K1.
  destruct (goaway_turn y1 pc1 y1' K1 Hr1 Ha Ht1) as [D1 _]. rewrite Hd in D1. cbn [Z.eqb] in D1. fold deadline in D1.
  assert (Hne : deadline <> 0) by (unfold deadline, apr_time_from_sec, H3_GOAWAY_GRACE_SECS; lia).
  assert (K1' : task_state prompt (y1', @Finished system)).
  { eapply (task_state_steps conf io _ (prompt_worker conf)); [exact Ht1|].
    split; [apply (turn_keeps_tasks conf io _ (prompt_worker conf))|apply K1]. }
  assert (K2 : task_state prompt (y2, @Finished system)).
  { eapply (task_state_steps conf io _ (prompt_worker conf)); [exact Hr2|exact K1']. }
  assert (K2' : task_state prompt (y2, session_turn conf io pc2 turn_end)).
  { split; [apply (turn_keeps_tasks conf io _ (prompt_worker conf))|apply K2]. }
  destruct (kept_steps P _ _ Hr2 K1') as [D2 _]; [constructor|]. simpl in D2. rewrite D1 in D2. specialize (D2 Hne).
  destruct (kept_steps _ _ _ Ht2 K2' (kept_turn conf io pc2)) as [D3 A3]. simpl in D3, A3. rewrite D2 in D3.
  specialize (D3 Hne). split; [done|]. intros Hle. destruct (ss_aborted (sy_sess y2)) eqn:Ea; [by apply A3|].
  destruct (goaway_turn y2 pc2 y2' K2 Hrun2 Ea Ht2) as [_ Hab]. apply Hab. rewrite D2.
  by rewrite (proj2 (Z.eqb_neq _ _) Hne).
Qed.

Lemma reach_resting conn (s : session) y :
  conf_ready conf -> serviced conf s -> ss_qconn s = Some conn ->
  rtc (sys_step conf io pc_ok) (sys_start s) (y, Finished) -> sy_alive y = true -> resting conn y.
Proof.
  intros (H1 & H2 & H3)%ready_conf Hs Hc Hr Hal.
  destruct (reach_ok conf io H1 H2 H3 conn s _ Hs Hc Hr) as (g & s0 & Hg & Hm & Hev). simpl in *.
  inversion Hev; subst; [by exists false|]. destruct Hg. congruence.
Qed.

(** A reachable state in which no worker can go on. *)
Lemma stuck_idle (s : session) y :
  conf_ready conf -> serviced conf s -> rtc (sys_step conf io pc_ok) (sys_start s) (y, Finished) ->
  ss_aborted (sy_sess y) = true -> (forall y', ~ worker_step y y') -> idle_tasks y.
Proof.
  intros Hready Hs Hr Ha Hst p [|m] Hin; [done|].
  destruct (ready_conf _ Hready) as (H1 & H2 & H3). destruct (serviced_conn conf s H1 H2 Hs) as [c Hc].
  pose proof (sys_ok_no_fault conf H1 H2 H3 c _ (reach_ok conf io H1 H2 H3 c s _ Hs Hc Hr)) as Hf.
  destruct (reach_tasks _ _ _ Hr) as [_ Ht].
  destruct (ending_progress y Finished p m Hf (conj Ht Ha) Hin) as [y' Hy]. by destruct (Hst y').
Qed.

(** C11 (termination): once a session is aborted its workers take only finitely many steps,
    however they and the turns of the event thread interleave; in any state between turns
    where no worker can take another, all of them have finished; and there a turn that
    finds the connection shut down returns, and destroys the session on every path. *)
Theorem aborted_session_ends (s : session) y :
  conf_ready conf -> serviced conf s ->
  rtc (sys_step conf io pc_ok) (sys_start s) (y, Finished) -> ss_aborted (sy_sess y) = true ->
  Acc (flip worked) (y, Finished)
  /\ forall y1, rtc (sys_step conf io pc_ok) (y, Finished) (y1, Finished) ->
     (forall y2, ~ worker_step y1 y2) ->
     idle_tasks y1
     /\ forall pc, sy_alive y1 = true -> shutdown_done (negb (pc_running1 pc)) (sy_sess y1) ->
        (exists y2, rtc (event_step conf io) (y1, session_turn conf io pc turn_end) (y2, Finished))
        /\ forall y2, one_turn conf io pc y1 y2 -> sy_alive y2 = false.
Proof.
  intros Hready Hs Hr Ha. pose proof (reach_tasks _ _ _ Hr) as Ht. split.
  { apply closing_acc. split; [split; [apply Ht|done]|]. right. constructor. }
  intros y1 Hr1 Hst. assert (Hr' : rtc (sys_step conf io pc_ok) (sys_start s) (y1, Finished)) by (by etrans).
  assert (Ha1 : ss_aborted (sy_sess y1) = true).
  { destruct (kept_steps _ _ _ Hr1 Ht) as [_ Hk]; [constructor|]. by apply Hk. }
  pose proof (stuck_idle s y1 Hready Hs Hr' Ha1 Hst) as Hi. split; [done|]. intros pc Hal Hd.
  destruct (ready_conf _ Hready) as (H1 & H2 & _). destruct (serviced_conn conf s H1 H2 Hs) as [c Hc].
  pose proof (reach_resting c s y1 Hready Hs Hc Hr' Hal) as Hy.
  split; [by eapply last_turn_runs|]. intros y2. by eapply last_turn_destroys.
Qed.

End Ending.

(** ** A run

    The run of System.v stops while its worker is at work: the first turn sets the deadline,
    the second comes after it and aborts the session, the worker finishes, and the last turn
    destroys the session. *)

Definition toy_stop (now : Z) : @pass_calls toy_ngh toy_ssl toy_httpd :=
  PassCalls false false 1 now true 5 (fun _ => (true, true)) 5 (fun _ => (DispatchCalls true true, toy_worker)).

Definition stop_turn (fuel : nat) (now : Z) (x : toy_state) : toy_state :=
  run_event fuel (fst x, session_turn toy_conf true (toy_stop now) turn_end).

(** Before the stop, after each of the two turns, and after the worker. *)
Record stop_run := StopRun { sr_before : toy_state; sr_first : toy_state; sr_second : toy_state; sr_worked : toy_state }.

Definition run_stop (fuel : nat) (o : option (toy_state * toy_state * toy_state * toy_state)) : option stop_run :=
  match o with
  | Some (_, x1, _, _) =>
      let z1 := stop_turn fuel 2 x1 in
      let z2 := stop_turn fuel 4000000 z1 in
      Some (StopRun x1 z1 z2 (run_worker fuel z2))
  | None => None
  end.

Definition check_stop (o : option stop_run) : bool :=
  match o with
  | Some (StopRun x1 z1 z2 z3) =>
      negb (ss_aborted (sy_sess (fst x1))) && (ss_goaway_deadline (sy_sess (fst x1)) =? 0)
      && negb (running (snd z1)) && sy_alive (fst z1) && negb (ss_aborted (sy_sess (fst z1)))
      && negb (running (snd z2)) && ss_aborted (sy_sess (fst z2)) && (unfinished (sy_workers (fst z2)) =? 1)%nat
      && sy_alive (fst z2) && (unfinished (sy_workers (fst z3)) =? 0)%nat && sy_alive (fst z3)
      && match q_conn_shutdown true (sy_sess (fst z3)) with Ret b _ => b | _ => false end
  | None => false
  end.

Lemma toy_stop_checked : check_stop (run_stop 50 (run_states toy_session)) = true.
Proof. vm_cast_no_check (eq_refl true). Qed.

Lemma pair_finished (x : toy_state) : snd x = Finished -> (fst x, Finished) = x.
Proof. destruct x as [y ev]. simpl. by intros ->. Qed.

Lemma stop_turn_run fuel now x :
  running (snd (stop_turn fuel now x)) = false -> one_turn toy_conf true (toy_stop now) (fst x) (fst (stop_turn fuel now x)).
Proof.
  intros Hf%running_false. unfold one_turn. rewrite (pair_finished _ Hf). apply run_event_steps.
Qed.

Lemma toy_stop_ok now : pc_ok (toy_stop now).
Proof. exact (toy_pass_ok false). Qed.

Lemma stop_turn_steps fuel now x :
  snd x = Finished -> sy_alive (fst x) = true -> rtc toy_step x (stop_turn fuel now x).
Proof.
  destruct x as [y ev]. cbn [fst snd]. intros -> Ha.
  eapply rtc_l; [eexists; apply (step_turn _ _ _ y (toy_stop now)); [done|apply toy_stop_ok]|]. apply run_event_steps.
Qed.

Lemma idle_unfinished (y : @system toy_ngh toy_ssl) : unfinished (sy_workers y) = O -> idle_tasks y.
Proof. intros Hu p t. by apply unfinished_none. Qed.

Record stop_facts (s : @h3_session toy_ngh toy_ssl) (r : stop_run) : Prop := {
  sf_reach : rtc toy_step (sys_start s) (fst (sr_before r), Finished);
  sf_before : ss_aborted (sy_sess (fst (sr_before r))) = false /\ ss_goaway_deadline (sy_sess (fst (sr_before r))) = 0;
  sf_first : one_turn toy_conf true (toy_stop 2) (fst (sr_before r)) (fst (sr_first r));
  sf_going : ss_aborted (sy_sess (fst (sr_first r))) = false;
  sf_second : one_turn toy_conf true (toy_stop 4000000) (fst (sr_first r)) (fst (sr_second r));
  sf_aborted : ss_aborted (sy_sess (fst (sr_second r))) = true /\ unfinished (sy_workers (fst (sr_second r))) = 1%nat;
  sf_reach2 : rtc toy_step (sys_start s) (fst (sr_second r), Finished);
  sf_worked : rtc toy_step (fst (sr_second r), Finished) (fst (sr_worked r), Finished);
  sf_idle : unfinished (sy_workers (fst (sr_worked r))) = O /\ sy_alive (fst (sr_worked r)) = true;
  sf_done : shutdown_done true (sy_sess (fst (sr_worked r))) }.

Lemma stop_facts_gen fuel o :
  check_stop (run_stop fuel o) = true -> forall s x0 x1 x2 x3, o = Some (x0, x1, x2, x3) ->
  rtc toy_step (sys_start s) x1 -> check_states o = true ->
  exists r, run_stop fuel o = Some r /\ stop_facts s r.
Proof.
  intros Hk s x0 x1 x2 x3 -> H1 Hc. destruct (check_states_facts _ _ _ _ Hc) as ((Ha & _ & Hf) & _).
  cbn [run_stop] in *. eexists. split; [reflexivity|]. set (z1 := stop_turn fuel 2 x1) in *.
  set (z2 := stop_turn fuel 4000000 z1) in *. cbn [check_stop] in Hk.
  rewrite !andb_true_iff, !negb_true_iff, !Nat.eqb_eq, Z.eqb_eq in Hk.
  destruct Hk as [[[[[[[[[[[K1 K2] K3] K4] K5] K6] K7] K8] K9] K10] K11] K12].
  pose proof (stop_turn_run fuel 2 x1 K3) as T1. pose proof (stop_turn_run fuel 4000000 z1 K6) as T2.
  apply running_false in K3, K6.
  assert (R2 : rtc toy_step (sys_start s) z2).
  { etrans; [exact H1|]. etrans; [by apply (stop_turn_steps fuel 2)|by apply (stop_turn_steps fuel 4000000)]. }
  pose proof (run_worker_event fuel z2) as Hw. rewrite K6 in Hw.
  split; cbn [sr_before sr_first sr_second sr_worked];
    rewrite ?(pair_finished x1 Hf), ?(pair_finished z2 K6), ?(pair_finished _ Hw);
    [exact H1|exact (conj K1 K2)|exact T1|exact K5|exact T2|exact (conj K7 K8)|exact R2
    |apply run_worker_steps|exact (conj K10 K11)|].
  destruct (q_conn_shutdown true (sy_sess (fst (run_worker fuel z2)))) as [[] s1| |] eqn:Eq; try done. by exists s1.
Qed.

Lemma toy_stop_run :
  exists s r, run_stop 50 (run_states toy_session) = Some r /\ serviced toy_conf s /\ stop_facts s r.
Proof.
  destruct toy_run as (s & x0 & x1 & x2 & x3 & He & Hs & H1 & _ & _ & _).
  destruct (stop_facts_gen _ _ toy_stop_checked s x0 x1 x2 x3 He H1 toy_states_checked) as (r & Hr & Hf).
  exists s, r. exact (conj Hr (conj Hs Hf)).
Qed.

Lemma grace_period_bounds_witness :
  exists r, run_stop 50 (run_states toy_session) = Some r
    /\ ss_aborted (sy_sess (fst (sr_first r))) = false
    /\ ss_goaway_deadline (sy_sess (fst (sr_second r))) = 3000001
    /\ ss_aborted (sy_sess (fst (sr_second r))) = true.
Proof.
  destruct toy_stop_run as (s & r & He & _ & [F1 [F2 F3] F4 F5 F6 _ _ _ _ _]).
  destruct (grace_period_bounds toy_conf true pc_ok s _ (toy_stop 2) _ _ (toy_stop 4000000) _
    F1 F2 F3 eq_refl eq_refl F4 (rtc_refl _ _) eq_refl F6) as [Hd Hab].
  exists r. exact (conj He (conj F5 (conj Hd (Hab ltac:(done))))).
Defined.

Lemma aborted_session_ends_witness :
  exists r y2, run_stop 50 (run_states toy_session) = Some r
    /\ unfinished (sy_workers (fst (sr_second r))) = 1%nat
    /\ Acc (flip (worked toy_conf true)) (fst (sr_second r), Finished)
    /\ one_turn toy_conf true (toy_stop 4000000) (fst (sr_worked r)) y2 /\ sy_alive y2 = false.
Proof.
  destruct toy_stop_run as (s & r & He & Hs & [_ _ _ _ _ [F1 F2] F3 F4 [F5 F6] F7]).
  destruct (aborted_session_ends toy_conf true s _ toy_conf_ready Hs F3 F1) as [Hacc Hend].
  destruct (Hend _ F4 (fun y => idle_no_step toy_conf true _ y (idle_unfinished _ F5))) as [_ Hlast].
  destruct (Hlast (toy_stop 4000000) F6 F7) as [[y2 Hy2] Hdead].
  assert (Ht : one_turn toy_conf true (toy_stop 4000000) (fst (sr_worked r)) y2).
  { eapply rtc_subrel; [|exact Hy2]. intros a b Hab. by exists None. }
  exists r, y2. exact (conj He (conj F2 (conj Hacc (conj Ht (Hdead y2 Ht))))).
Defined.
