(* ===== verification/Wakeup.v ===== *)
(** * Waking the event thread (h3_session.c, h3_request.c, h3_io.c, h3_threads.c)

    A worker that has queued response data, completed a response or submitted its head sends
    a datagram to the wakeup socket, after it has let go of the session's lock; the event
    thread polls that socket while it waits and empties it when it is readable, and then
    gives the session a turn.  Between the two there is no lock.  Here it is shown that no
    wakeup is lost: the event thread is never left waiting, with nothing on the socket to
    wake it, while a response has something new that its last turn may not have seen. *)

From S2P Require Import Prelude Effects LinkedQueue RespQueue Config Body Quic Stream AddrQueue Engine Socket.
From S2P Require Import Session SessionInv SessionSafe Request Toy Workers Service System.

#[export] Instance chunk_eq_dec : EqDecision h3_response_chunk.
Proof. solve_decision. Defined.

#[export] Instance chunk_node_eq_dec : EqDecision (node h3_response_chunk).
Proof. solve_decision. Defined.

#[export] Instance chunk_queue_eq_dec : EqDecision (lqueue h3_response_chunk).
Proof. solve_decision. Defined.

#[export] Instance resp_queue_eq_dec : EqDecision resp_queue.
Proof. solve_decision. Defined.

(** ** What a worker announces *)

Section Announce.
Context {N E : Type} {NG : Nghttp3 N} {QS : QuicStreams E} {QC : QuicConns E} {AH : AprHash} {H : Httpd}.
Context (conf : h3_server_conf).
Abbreviation session := (@h3_session N E).
Implicit Types (s : session) (p : sptr).

Definition resp_of s p : option resp_queue := st_resp <$> ss_heap s !! p.

(** A response that was not cancelled has something new: bytes, its end, or its head. *)
Definition published s s' : bool :=
  existsb (fun x => negb (rq_cancelled (st_resp (snd x))) && negb (bool_decide (resp_of s (fst x) = Some (st_resp (snd x)))))
    (map_to_list (ss_heap s')).

Lemma published_spec s s' :
  published s s' = true <-> exists p q, resp_of s' p = Some q /\ rq_cancelled q = false /\ resp_of s p <> Some q.
Proof.
  unfold published. rewrite existsb_exists. split.
  - intros ([p st] & Hin & Hb). apply list_elem_of_In, elem_of_map_to_list in Hin.
    rewrite andb_true_iff, !negb_true_iff, bool_decide_eq_false in Hb. destruct Hb as [Hc Hr].
    exists p, (st_resp st). unfold resp_of at 1. by rewrite Hin.
  - intros (p & q & Hq & Hc & Hr). unfold resp_of in Hq. destruct (ss_heap s' !! p) as [st|] eqn:Hp; [|done].
    injection Hq as <-. exists (p, st). split; [by apply list_elem_of_In, elem_of_map_to_list|].
    by rewrite andb_true_iff, !negb_true_iff, bool_decide_eq_false.
Qed.

(** A step that has published wakes the event thread next. *)
Definition announces (m : M session (option (thread session))) : Prop :=
  forall s o s', m s = Ret o s' -> published s s' = true -> exists t, o = Some t /\ wakes_next t.

(** Every response is the same, or is cancelled. *)
Definition silent s s' : Prop :=
  forall p q, resp_of s' p = Some q -> rq_cancelled q = false -> resp_of s p = Some q.

#[export] Instance silent_preorder : PreOrder silent.
Proof. split; [by intros s p q|]. intros s1 s2 s3 H1 H2 p q Hq Hc. auto. Qed.

Lemma silent_published s s' : silent s s' -> published s s' = false.
Proof.
  intros Hs. apply not_true_iff_false. rewrite published_spec. intros (p & q & Hq & Hc & Hr). auto.
Qed.

Lemma silent_same s s' : ss_heap s' = ss_heap s -> silent s s'.
Proof. intros He p q. unfold resp_of. by rewrite He. Qed.

Lemma silent_upd s p g :
  (forall st, st_resp (g st) = st_resp st \/ rq_cancelled (st_resp (g st)) = true) -> silent s (upd_stream p g s).
Proof.
  intros Hg p' q. unfold resp_of, upd_stream. simpl. destruct (decide (p' = p)) as [->|].
  - rewrite lookup_alter_eq. destruct (ss_heap s !! p) as [st|]; [|done]. simpl. intros [= <-] Hc.
    destruct (Hg st) as [->|]; [done|congruence].
  - by rewrite lookup_alter_ne.
Qed.

Lemma announces_silent {A} (m : M session A) k : preserves silent m -> announces (a ← m; mret (Some (k a))).
Proof.
  intros Hm s o s' He Hp. binv He a s1 H1. injection He as _ <-. by rewrite (silent_published s s1 (Hm _ _ _ H1)) in Hp.
Qed.

Ltac solve_silent :=
  preserves ltac:(first [by apply silent_same | by apply silent_upd; intros; (left + right)]).

Lemma silent_op {A} (m : M session A) : worker_op m -> preserves silent m.
Proof.
  destruct 1; unfold serve_body, wake_event, set_stream_dispatched, dec_tasks, get_live, get_stream; solve_silent.
Qed.

(** A round of an append that queued nothing. *)
Lemma append_silent fl ok q data off q' r :
  response_append_locked fl ok q data off = Some (q', r) ->
  (exists n b, r = AppendQueued n b) \/ q' = q \/ rq_cancelled q' = true.
Proof.
  unfold response_append_locked. intros He. repeat case_match; simplify_eq; eauto.
Qed.

Lemma announce_append p ok w data off k :
  (forall n b, wakes_next (k (AppendQueued n b))) -> announces (o ← append_round p ok w data off; mret (k <$> o)).
Proof.
  intros Hk s o s' He Hp. binv He r s1 H1. injection He as <- <-. unfold append_round in H1.
  binv H1 st s2 H2. apply get_live_inv in H2 as E2. subst s2. unfold get_live in H2. binv H2 st0 s3 H3.
  apply get_stream_inv in H3 as [Hst ->]. binv H2 u s4 H4. injection H2 as -> ->. clear H4.
  binv H1 fl s5 H5. injection H5 as _ <-. binv H1 x s6 H6.
  destruct (response_append_locked _ _ _ _ _) as [[q' res]|] eqn:Er; [|done]. injection H6 as <- <-.
  binv H1 v s7 H7. injection H7 as _ <-. destruct (append_silent _ _ _ _ _ _ _ Er) as [(n & b & ->)|Hq].
  { assert (r = Some (AppendQueued n b)) as ->; [|by exists (k (AppendQueued n b))].
    destruct b; [by binv H1 z s8 H8; injection H1|by injection H1]. }
  assert (Hs : silent s (upd_stream p (set_st_resp q') s)).
  { intros p' q. unfold resp_of, upd_stream. simpl. destruct (decide (p' = p)) as [->|]; [|by rewrite lookup_alter_ne].
    rewrite lookup_alter_eq, Hst. simpl. intros [= <-] Hc. destruct Hq as [->|]; [done|congruence]. }
  assert (Hh : ss_heap s1 = ss_heap (upd_stream p (set_st_resp q') s)).
  { destruct res as [|rv|n b]; [by injection H1 as _ <-|by injection H1 as _ <-|].
    destruct b; [|by injection H1 as _ <-]. binv H1 z s8 H8. injection H1 as _ <-.
    unfold on_ngh in H8. binv H8 n0 s9 H9. apply get_ngh_inv in H9 as [_ ->]. by injection H8 as _ <-. }
  rewrite (silent_published s s1) in Hp; [done|]. etrans; [exact Hs|by apply silent_same].
Qed.

Lemma announce_submit p nva k :
  (forall rv, wakes_next (k (rv, true))) -> announces (a ← submit_locked p nva; mret (Some (k a))).
Proof.
  intros Hk s o s' He Hp. binv He x s1 H1. injection He as <- <-. destruct x as [rv []]; [by eexists|].
  rewrite (silent_published s s1) in Hp; [done|]. unfold submit_locked in H1.
  binv H1 st s2 H2. apply get_live_inv in H2 as ->. destruct (rq_submitted (st_resp st)); [by injection H1 as _ <-|].
  binv H1 fl s3 H3. injection H3 as _ <-. destruct (_ || _); [by injection H1 as _ <-|].
  binv H1 n s4 H4. apply get_ngh_inv in H4 as [_ ->]. destruct (ngh_submit_response _ _ _) as [n' z].
  binv H1 u s5 H5. injection H5 as _ <-. destruct (z =? 0); binv H1 v s6 H6; [by injection H1|].
  injection H6 as _ <-. injection H1 as _ <-. transitivity (set_ss_ngh3 (Some n') s); [by apply silent_same|].
  apply silent_upd. intros st'. by right.
Qed.

(** Every worker announces what it publishes. *)
Lemma worker_announces wc p : all_steps announces (stream_worker conf wc p (fun _ => Finished)).
Proof.
  apply worker_steps_all.
  - intros A m k Hm. by apply announces_silent, silent_op.
  - intros. by apply announce_submit.
  - intros p' k [k' Hk] s o s' He _. binv He a s1 H1. injection He as <- <-. destruct a. exists (k tt). split; [done|].
    by exists k'.
  - intros. by apply announce_append.
Qed.

End Announce.

(** ** The event thread and a session's workers *)

Section Waiting.
Context {N E : Type} {NG : Nghttp3 N} {QS : QuicStreams E} {QC : QuicConns E} {AH : AprHash} {H : Httpd}.
Context (conf : h3_server_conf) (io : bool) (wk : h3_wakeup).
Abbreviation session := (@h3_session N E).
Abbreviation system := (@system N E).
Implicit Types (y : system) (q : list Z).

(** Where the event thread is in its loop, for one session. *)
Inductive place :=
  | W_wait     (** in [wait_for_event] *)
  | W_before   (** after it, or with work pending; the session's turn is to come *)
  | W_turn     (** in the session's turn *)
  | W_after.   (** serving the other sessions *)

Record wstate := WState {
  ws_sys : system;
  ws_ev : thread system;    (** the rest of the turn *)
  ws_q : list Z;            (** the datagrams at the wakeup's reader *)
  ws_at : place;
  ws_new : bool }.          (** something was published after the last turn began *)

(** The datagrams after a step of a worker, which may have called [wake_event_thread]. *)
Definition signalled (sent : bool) (s s' : session) q : list Z :=
  if ss_wakes s' =? ss_wakes s then q else wake_event_thread (Some wk) sent q.

(** A send to the other end of the pair fails only when there is no room for another
    datagram. *)
Definition send_ok (sent : bool) q : Prop := sent = false -> q <> [].

(** The loop of [h3_event_thread] as one session sees it; pumping, accepting and the other
    sessions' turns touch neither this session nor what waits at the reader. *)
Inductive wake_step : wstate -> wstate -> Prop :=
  | ws_worker l y y' ev q a new sent :
      sys_lstep conf io (fun _ => False) (Some l) (y, ev) (y', ev) -> send_ok sent q ->
      wake_step (WState y ev q a new)
        (WState y' ev (signalled sent (sy_sess y) (sy_sess y') q) a (new || published (sy_sess y) (sy_sess y')))
  | ws_other y ev q a new sent :      (** the workers of other sessions, and [h3_io_listen_stop] *)
      send_ok sent q ->
      wake_step (WState y ev q a new) (WState y ev (h3_wakeup_signal (Some wk) sent q) a new)
  | ws_waited y q new en nw udp_fd poll :
      wake_step (WState y Finished q W_wait new)
        (WState y Finished (wait_for_event (Some en) nw udp_fd wk poll q) W_before new)
  | ws_begin y q new pc :
      sy_alive y = true -> pc_ok pc ->
      wake_step (WState y Finished q W_before new) (WState y (session_turn conf io pc turn_end) q W_turn false)
  | ws_event m y o y' q new :
      m y = Ret o y' ->
      wake_step (WState y (Atomic m) q W_turn new) (WState y' (default (Atomic m) o) q W_turn new)
  | ws_end y q new : wake_step (WState y Finished q W_turn new) (WState y Finished q W_after new)
  | ws_again y q new work :
      wake_step (WState y Finished q W_after new)
        (WState y Finished q (if (work : bool) then W_before else W_wait) new).

(** A session that has been spawned waits for its first turn. *)
Definition wake_start (s : session) q : wstate := WState (fst (sys_start s)) Finished q W_before false.

(** A worker is about to wake the event thread. *)
Definition owes y : Prop := exists p t, (p, t) ∈ sy_workers y /\ wakes_next t.

(** *** Turns keep the tasks there are *)

Definition more_tasks y y' : Prop := sy_workers y `prefix_of` sy_workers y'.

#[local] Instance more_tasks_preorder : PreOrder more_tasks.
Proof. unfold more_tasks. split; [intros y; reflexivity|]. intros y1 y2 y3. apply transitivity. Qed.

Lemma more_sess {A} (m : M session A) : preserves more_tasks (on_sess m).
Proof. intros y a y' (s & _ & ->)%on_sess_inv. by exists []; rewrite app_nil_r. Qed.

Lemma more_same y y' : sy_workers y' = sy_workers y -> more_tasks y y'.
Proof. unfold more_tasks. by intros ->. Qed.

Lemma more_op {A} (m : M system A) : turn_op conf io m -> preserves more_tasks m.
Proof.
  destruct 1; try apply more_sess; try (by intros y a y' [= _ <-]; apply more_same).
  - unfold accept_round. apply preserves_bind; [apply _|apply more_sess|]. intros [h|]; [|apply preserves_ret, _].
    repeat (apply preserves_bind; [apply _| |intros ?]);
      [by intros y a y' [= _ <-]; apply more_same|apply more_sess|apply preserves_ret, _].
  - intros y b y'. unfold apr_thread_pool_push. destruct (_ && _); intros [= _ <-]; [by eexists|by apply more_same].
  - unfold destroy_session. apply preserves_bind; [apply _|apply more_sess|]. intros _.
    by intros y a y' [= _ <-]; apply more_same.
Qed.

Lemma more_turn pc : all_steps (preserves more_tasks) (session_turn conf io pc turn_end).
Proof. apply turn_preserves; [apply _|apply @more_op|intros; apply more_sess]. Qed.

(** *** The invariant *)

Record awake (w : wstate) : Prop := {
  aw_tasks : task_state announces (ws_sys w, ws_ev w);
  aw_turn : all_steps (preserves more_tasks) (ws_ev w);
  aw_bytes : Forall (fun len => 0 < len) (ws_q w);
  aw_new : ws_at w <> W_before -> ws_new w = true -> owes (ws_sys w) \/ ws_q w <> [] }.

Context (Hwriter : wk_writer wk = true).

Lemma signal_wakes sent q :
  send_ok sent q -> Forall (fun len => 0 < len) q ->
  let q' := h3_wakeup_signal (Some wk) sent q in q' <> [] /\ Forall (fun len => 0 < len) q'.
Proof.
  intros Hs Hq. simpl. rewrite Hwriter. destruct sent; simpl; [|by split; [apply Hs|]].
  split; [by destruct q|]. apply Forall_app. split; [done|]. by apply Forall_singleton.
Qed.

Lemma signalled_keeps sent s s' q :
  send_ok sent q -> Forall (fun len => 0 < len) q ->
  (q <> [] -> signalled sent s s' q <> []) /\ Forall (fun len => 0 < len) (signalled sent s s' q)
  /\ (ss_wakes s' <> ss_wakes s -> signalled sent s s' q <> []).
Proof.
  intros Hs Hq. destruct (signal_wakes sent q Hs Hq) as [H1 H2]. unfold signalled, wake_event_thread.
  destruct (Z.eqb_spec (ss_wakes s') (ss_wakes s)) as [->|]; by split_and!.
Qed.

(** A step of the worker that owes a wakeup is that wakeup. *)
Lemma wakes_step t m y o y' :
  wakes_next t -> t = Atomic m -> on_sess m y = Ret o y' -> ss_wakes (sy_sess y') <> ss_wakes (sy_sess y).
Proof.
  intros [k ->] [= <-] (s & Hm & ->)%on_sess_inv. binv Hm a s1 H1. injection H1 as _ <-. injection Hm as _ <-.
  simpl. lia.
Qed.

Lemma worker_awake l y y' ev q a new sent :
  sys_lstep conf io (fun _ => False) (Some l) (y, ev) (y', ev) -> send_ok sent q -> awake (WState y ev q a new) ->
  awake (WState y' ev (signalled sent (sy_sess y) (sy_sess y') q) a (new || published (sy_sess y) (sy_sess y'))).
Proof.
  intros Hst Hs [At Au Ab An]. simpl in *. destruct (signalled_keeps sent (sy_sess y) (sy_sess y') q Hs Ab) as (K1 & K2 & K3).
  split; simpl; [eapply (task_state_step conf io _ (worker_announces conf)); [by eexists|exact At]|done|done|].
  intros Ha Hnew. destruct At as [_ Ht]. unfold tasks_all in Ht. simpl in Ht.
  inversion Hst as [| |y0 ev0 w1 p m w2 o y1 Hl Hm]; subst. set (s' := sy_sess _) in *.
  destruct (published (sy_sess y) s') eqn:Ep.
  - left. rewrite Hl in Ht. apply Forall_app in Ht as [_ Ht]. apply Forall_cons in Ht as [Hp _].
    simpl in Hp. inversion Hp as [|m' Han _]; subst. apply on_sess_inv in Hm as (s1 & Hm & ->).
    destruct (Han _ _ _ Hm Ep) as (t & -> & Ht). exists p, t. split; [|done]. simpl. set_solver.
  - rewrite orb_false_r in Hnew. destruct (An Ha Hnew) as [(p1 & t & Hin & Ht1)|Hq]; [|by right; apply K1].
    rewrite Hl in Hin. apply elem_of_app in Hin as [Hin|[Heq|Hin]%elem_of_cons].
    + left. exists p1, t. split; [|done]. simpl. set_solver.
    + injection Heq as -> ->. right. apply K3. exact (wakes_step _ m y o y1 Ht1 eq_refl Hm).
    + left. exists p1, t. split; [|done]. simpl. set_solver.
Qed.

Lemma drop_bytes q n : Forall (fun len => 0 < len) q -> Forall (fun len => 0 < len) (drop n q).
Proof. intros Hq. by apply Forall_drop. Qed.

Lemma wait_bytes en nw udp_fd poll q :
  Forall (fun len => 0 < len) q -> Forall (fun len => 0 < len) (wait_for_event en nw udp_fd wk poll q).
Proof.
  intros Hq. unfold wait_for_event, h3_wakeup_drain. repeat case_match; try done.
  rewrite drain_loop_spec by done. by apply drop_bytes.
Qed.

Lemma owes_more y y' : more_tasks y y' -> owes y -> owes y'.
Proof. intros [l Hl] (p & t & Hin & Ht). exists p, t. split; [|done]. rewrite Hl. set_solver. Qed.

Lemma wake_step_awake w w' : wake_step w w' -> awake w -> awake w'.
Proof.
  intros Hst Hw. destruct Hst as [l y y' ev q a new sent Hs Hse|y ev q a new sent Hse|y q new en nw udp poll|
    y q new pc Hal Hpc|m y o y' q new Hm|y q new|y q new work];
    [by eapply worker_awake|destruct Hw as [At Au Ab An]; simpl in *..].
  - destruct (signal_wakes sent q Hse Ab) as [H1 H2]. split; [done|done|done|]. intros _ _. by right.
  - split; [done|done|by apply wait_bytes|done].
  - split; [|apply more_turn|done|done]. simpl.
    by eapply (task_state_step conf io _ (worker_announces conf) (fun _ => True)); [exists None; by apply step_turn|].
  - inversion Au as [|m' H1 H2]; subst. split; simpl; [|destruct o; [by eapply H2|done]|done|].
    + by eapply (task_state_step conf io _ (worker_announces conf) (fun _ => True)); [exists None; by apply step_event|].
    + intros Ha Hnew. destruct (An Ha Hnew) as [Ho|]; [left|by right]. eapply owes_more; [by eapply H1|done].
  - split; try done. simpl. intros _ Hnew. by apply An.
  - split; try done. simpl. intros _ Hnew. by apply An.
Qed.

Lemma wake_steps_awake w w' : rtc wake_step w w' -> awake w -> awake w'.
Proof. induction 1; eauto using wake_step_awake. Qed.

Lemma wake_start_awake s q : Forall (fun len => 0 < len) q -> awake (wake_start s q).
Proof. intros Hq. split; simpl; [apply task_state_start|constructor|done|done]. Qed.

End Waiting.

Section Claim.
Context {N E : Type} {NG : Nghttp3 N} {QS : QuicStreams E} {QC : QuicConns E} {AH : AprHash} {H : Httpd}.

(** C13 (liveness): no wakeup is lost.  Whenever the event thread waits and a worker of a
    session has queued response data, completed a response or submitted a head since the
    session's last turn began, in whatever order the steps of the thread and of the workers
    have come, then a worker is about to wake the thread, or a datagram is at the wakeup's
    reader and the reader is among the descriptors polled, so that the wait is over; the
    session's turn comes before the next one. *)
Theorem no_wakeup_lost conf io wu os0 os1 wk (s : @h3_session N E) q w :
  h3_wakeup_create wu os0 = (os1, wk, APR_SUCCESS) -> wu_fd wu <> -1 -> Forall (fun len => 0 < len) q ->
  rtc (wake_step conf io wk) (wake_start s q) w -> ws_at w = W_wait -> ws_new w = true ->
  owes (ws_sys w)
  \/ ws_q w <> [] /\ forall en nw udp_fd, PollFd (wu_fd wu) POLLIN ∈ fst (poll_set (Some en) nw udp_fd wk).
Proof.
  intros Hwk Hfd Hq Hr Ha Hnew.
  assert (Hwr : wk_writer wk = true).
  { apply wakeup_created in Hwk as ->. done. }
  pose proof (wake_steps_awake conf io wk Hwr _ _ Hr (wake_start_awake s q Hq)) as [_ _ _ An].
  destruct An as [Ho|Hne]; [by rewrite Ha|done|by left|]. right. split; [done|]. intros en nw udp_fd.
  pose proof (wait_polls_wakeup wu os0 os1 wk en nw udp_fd (fun _ _ => None) [] 0 Hwk Hfd ltac:(by apply Forall_nil)) as W.
  destruct (poll_set _ _ _ _) as [pfds t]. destruct W as [(ev & -> & _) _]. set_solver.
Qed.

End Claim.

(** ** A run

    The run of System.v: after the turn that starts its worker the event thread waits, and
    the worker answers. *)

Definition toy_wakeup : h3_wakeup := Wakeup true true 9.

Abbreviation toy_wstate := (@wstate toy_ngh toy_ssl).
Abbreviation toy_wake_step := (wake_step (H := toy_httpd) toy_conf true toy_wakeup).

(** Runs the last task, with every signal sent. *)
Fixpoint wake_run (fuel : nat) (w : toy_wstate) : toy_wstate :=
  match fuel, sy_workers (ws_sys w) with
  | S k, [(p, Atomic m)] =>
      match on_sess m (ws_sys w) with
      | Ret o y' =>
          wake_run k (WState (set_sy_workers [(p, default (Atomic m) o)] y') (ws_ev w)
            (signalled toy_wakeup true (sy_sess (ws_sys w)) (sy_sess y') (ws_q w)) (ws_at w)
            (ws_new w || published (sy_sess (ws_sys w)) (sy_sess y')))
      | _ => w
      end
  | _, _ => w
  end.

Lemma wake_run_steps fuel w : rtc toy_wake_step w (wake_run fuel w).
Proof.
  revert w. induction fuel as [|k IH]; intros [y ev q a n]; [done|]. cbn [wake_run ws_sys ws_ev ws_q ws_at ws_new].
  destruct (sy_workers y) as [|[p [|m]] [|]] eqn:Ew; try done.
  destruct (on_sess m y) as [o y'| |] eqn:Em; [|done|done].
  eapply rtc_l; [|apply IH].
  apply (ws_worker _ _ _ 0 y (set_sy_workers [(p, default (Atomic m) o)] y') ev q a n true); [|done].
  by apply (step_worker _ _ _ y ev [] p m [] o y').
Qed.

Lemma event_run_steps fuel y ev q n :
  rtc toy_wake_step (WState y ev q W_turn n)
    (WState (fst (run_event fuel (y, ev))) (snd (run_event fuel (y, ev))) q W_turn n).
Proof.
  revert y ev. induction fuel as [|k IH]; intros y ev; [done|]. cbn [run_event fst snd].
  destruct ev as [|m]; [done|]. destruct (m y) as [o y'| |] eqn:Em; [|done|done].
  eapply rtc_l; [by apply (ws_event _ _ _ m y o y')|apply IH].
Qed.

(** The session of the run as the worker finds it, and afterwards. *)
Definition run_wake (fuel : nat) (o : option (toy_state * toy_state * toy_state * toy_state)) : option toy_wstate :=
  match o with
  | Some (_, x1, _, _) => Some (wake_run fuel (WState (fst x1) Finished [] W_wait false))
  | None => None
  end.

Definition check_wake (o : option toy_wstate) : bool :=
  match o with Some w => ws_new w && (unfinished (sy_workers (ws_sys w)) =? 0)%nat | None => false end.

Lemma toy_wake_checked : check_wake (run_wake 50 (run_states toy_session)) = true.
Proof. vm_cast_no_check (eq_refl true). Qed.

Lemma wake_run_at fuel w : ws_at (wake_run fuel w) = ws_at w.
Proof.
  revert w. induction fuel as [|k IH]; intros w; [done|]. cbn [wake_run].
  destruct (sy_workers (ws_sys w)) as [|[p [|m]] [|]]; try done.
  destruct (on_sess m (ws_sys w)) as [o y'| |]; [|done|done]. by rewrite IH.
Qed.

(** From the spawned session to the wait. *)
Lemma first_turn_steps s fuel x1 :
  x1 = run_event fuel (start_turn true (sys_start s)) -> snd x1 = Finished ->
  rtc toy_wake_step (wake_start s []) (WState (fst x1) Finished [] W_wait false).
Proof.
  intros Hx Hf. unfold wake_start.
  eapply rtc_l; [apply (ws_begin _ _ _ _ _ _ (toy_pass true)); [done|apply toy_pass_ok]|].
  etrans; [apply (event_run_steps fuel)|].
  assert (Hr : run_event fuel (fst (sys_start s), session_turn toy_conf true (toy_pass true) turn_end) = x1) by done.
  rewrite Hr, Hf. eapply rtc_l; [apply ws_end|]. eapply rtc_l; [apply (ws_again _ _ _ _ _ _ false)|done].
Qed.

Lemma run_wake_gen fuel o :
  check_wake (run_wake fuel o) = true -> forall s x0 x1 x2 x3, o = Some (x0, x1, x2, x3) ->
  run_states (Some s) = Some (x0, x1, x2, x3) -> check_states (Some (x0, x1, x2, x3)) = true ->
  exists w, run_wake fuel o = Some w /\ rtc toy_wake_step (wake_start s []) w /\ ws_at w = W_wait
    /\ ws_new w = true /\ unfinished (sy_workers (ws_sys w)) = O.
Proof.
  intros Hk s x0 x1 x2 x3 -> He Hc. destruct (check_states_facts _ _ _ _ Hc) as ((_ & _ & Hf) & _).
  cbn [run_wake] in *. eexists. split; [reflexivity|]. set (w0 := WState (fst x1) Finished [] W_wait false) in *.
  unfold check_wake in Hk. rewrite andb_true_iff, Nat.eqb_eq in Hk. destruct Hk as [K1 K2].
  unfold run_states, mbind, option_bind in He. cbv zeta in He. apply some_inj4 in He as (_ & E1 & _ & _).
  split_and!; [|exact (wake_run_at fuel w0)|exact K1|exact K2].
  etrans; [exact (first_turn_steps s 50 x1 (eq_sym E1) Hf)|apply wake_run_steps].
Qed.

Lemma toy_wake_run :
  exists s w, run_wake 50 (run_states toy_session) = Some w /\ rtc toy_wake_step (wake_start s []) w
    /\ ws_at w = W_wait /\ ws_new w = true /\ unfinished (sy_workers (ws_sys w)) = O.
Proof.
  pose proof toy_states_checked as Hc. pose proof toy_wake_checked as Hk. revert Hc Hk. generalize toy_session.
  intros o Hc Hk. destruct (check_states_some _ Hc) as [[[[x0 x1] x2] x3] He]. rewrite He in Hc.
  destruct o as [s|]; [|done]. exists s. by eapply run_wake_gen.
Qed.

(** The worker has answered and finished, so a datagram waits for the event thread. *)
Lemma no_wakeup_lost_witness :
  exists w, run_wake 50 (run_states toy_session) = Some w /\ ws_at w = W_wait /\ ws_q w <> [].
Proof.
  destruct toy_wake_run as (s & w & He & Hr & Ha & Hn & Hu). exists w. split; [exact He|]. split; [exact Ha|].
  destruct (no_wakeup_lost toy_conf true toy_wakeup_calls (Os [] [] 0) (Os [10; 9] [10; 9] 0) toy_wakeup s [] w eq_refl ltac:(done)
    ltac:(by apply Forall_nil) Hr Ha Hn) as [(p & t & Hin & k & Ht)|[Hq _]]; [|exact Hq].
  rewrite (unfinished_none _ p t Hu Hin) in Ht. discriminate Ht.
Defined.
